(** * The desktop duplication sample: tsf, its typesafe printf
    replacement, and the capture class

    A shallow embedding of [tsf.cpp] / [tsf.h]: the fast integer formatter,
    the growable [StackBuffer], the directive retyping of
    [fmt_output_with_snprintf], the scanner [fmt_core] and the template
    [fmt]; and of [WinDesktopDup.cpp]: [Initialize], [Close] and
    [CaptureNext] over the calls they make into Windows.  The properties
    of the specification that were checked against them follow, and then
    further properties of the code. *)

From Stdlib Require Import ZArith Lia List Bool Ascii String.
From Stdlib Require Import Decimal Hexadecimal DecimalString HexadecimalString.
From Stdlib Require Import DecimalFacts DecimalPos DecimalN DecimalZ.
From Stdlib Require Import HexadecimalFacts HexadecimalPos HexadecimalN.
From stdpp Require Import base option list gmap.

Local Open Scope char_scope.
Local Open Scope Z_scope.

(* ===================================================================== *)
(** * Part I. Definitions *)
(* ===================================================================== *)

(** ** Machine integers

    Every C integer is a [Z] together with the wrap-around of its type. *)

Record TInt := { width : Z; is_signed : bool }.

Definition int32_t  := {| width := 32; is_signed := true  |}.
Definition uint32_t := {| width := 32; is_signed := false |}.
Definition int64_t  := {| width := 64; is_signed := true  |}.
Definition uint64_t := {| width := 64; is_signed := false |}.

Definition wrap_unsigned (w z : Z) : Z := z mod 2 ^ w.
Definition wrap_signed (w z : Z) : Z := (z + 2 ^ (w - 1)) mod 2 ^ w - 2 ^ (w - 1).

(** Conversion of a mathematical value to the type [t] (a C cast). *)
Definition cast (t : TInt) (z : Z) : Z :=
  if is_signed t then wrap_signed (width t) z else wrap_unsigned (width t) z.

Definition in_range (t : TInt) (z : Z) : Prop :=
  if is_signed t then - 2 ^ (width t - 1) <= z < 2 ^ (width t - 1)
  else 0 <= z < 2 ^ width t.

(** [size_t] and [ssize_t] of the 64-bit build. *)
Definition size_t  := uint64_t.
Definition ssize_t := int64_t.
Definition int     := int32_t.

(** ** C strings

    A C string is the list of its characters; reading at or past the end
    gives the terminator. *)

Definition NUL : ascii := "000".

Definition char_at (s : list ascii) (i : Z) : ascii :=
  if i <? 0 then NUL else nth (Z.to_nat i) s NUL.

Fixpoint strlen_nat (s : list ascii) : nat :=
  match s with
  | [] => O
  | c :: s' => if Ascii.eqb c NUL then O else S (strlen_nat s')
  end.

Definition strlen (s : list ascii) : Z := Z.of_nat (strlen_nat s).

(** ** The fast integer formatter ([format_integer])  *)

Definition lut (upcase : bool) : string :=
  if upcase
  then "ZYXWVUTSRQPONMLKJIHGFEDCBA9876543210123456789ABCDEFGHIJKLMNOPQRSTUVWXYZ"%string
  else "zyxwvutsrqponmlkjihgfedcba9876543210123456789abcdefghijklmnopqrstuvwxyz"%string.

Definition lut_at (upcase : bool) (k : Z) : ascii :=
  char_at (list_ascii_of_string (lut upcase)) k.

(** The [do ... while (value)] loop.  [buf] is the scratch array filled so
    far (least significant digit first); the result carries the last
    [tmp_value], which decides the sign.  The recursion is structural on a
    bound for the number of passes: [digit_loop_fuel] below shows that the
    sixty-four passes given by [format_integer] are never used up. *)
Fixpoint digit_loop (t : TInt) (base : Z) (upcase : bool) (passes : nat)
    (value : Z) (buf : list ascii) : list ascii * Z :=
  let tmp_value := value in
  let value := cast t (Z.quot value base) in
  let buf := buf ++ [lut_at upcase (35 + cast t (tmp_value - cast t (value * base)))] in
  match passes with
  | O => (buf, tmp_value)
  | S passes' =>
      if value =? 0 then (buf, tmp_value)
      else digit_loop t base upcase passes' value buf
  end.

(** [format_integer<TInt, tbase, upcase>(destination, value)]: the bytes
    stored at [destination] and the returned count. *)
Definition format_integer (t : TInt) (tbase : Z) (upcase : bool) (value : Z)
  : list ascii * Z :=
  let base := cast t tbase in
  let '(buf, tmp_value) := digit_loop t base upcase 64 value [] in
  let buf := if tmp_value <? 0 then buf ++ ["-"] else buf in
  (rev buf, cast int (Z.of_nat (length buf))).

(** ** Arguments ([fmtarg]) and the C runtime *)

(** The tagged union of [tsf.h]; the payload of an integer tag is read
    through the tag's type. *)
Inductive fmtarg :=
| TNull
| TPtr (Ptr : Z)
| TCStr (CStr : list ascii)
| TWStr (WStr : list Z)
| TI32 (I32 : Z)
| TU32 (UI32 : Z)
| TI64 (I64 : Z)
| TU64 (UI64 : Z)
| TDbl (Dbl : Z).

(** A value as it travels through the ellipsis of [fmt_snprintf]. *)
Inductive va_value :=
| va_int (v : Z)
| va_int64 (v : Z)
| va_ptr (p : Z)
| va_str (s : list ascii)
| va_wstr (s : list Z)
| va_double (bits : Z).

(** What the program takes from its environment: the build target (the
    [#ifdef _WIN32] of tsf.cpp), the C library's [vsnprintf] (given the
    size of the destination and the format, the bytes it stores at the
    destination and its return value), and the largest array that
    [operator new[]] hands out before it throws [std::bad_alloc]. *)
Class Runtime := {
  WIN32 : bool;
  vsnprintf : Z -> list ascii -> va_value -> list ascii * Z;
  max_alloc : Z
}.

(** The callbacks of [context]: given the size of the destination and the
    argument, the bytes stored and the [size_t] returned. *)
Definition WriteSpecialFunc : Type := Z -> fmtarg -> list ascii * Z.

Record context := {
  Escape_Q : option WriteSpecialFunc;
  Escape_q : option WriteSpecialFunc
}.

Definition default_context : context := {| Escape_Q := None; Escape_q := None |}.

Definition argbuf_arraysize : Z := 16.

(** The characters of a C string held in an array: everything before the
    first terminator. *)
Definition c_str (s : list ascii) : list ascii := take (strlen_nat s) s.

Definition is_char (c d : ascii) : bool := Ascii.eqb c d.

Definition is_Some_bool {A} (o : option A) : bool :=
  match o with Some _ => true | None => false end.

Definition one_of (c : ascii) (l : list ascii) : bool := existsb (is_char c) l.

(** Stores [data] into the cells of an array from offset [off] on.  A store
    that runs past the last cell lands behind the array: the list grows,
    and the array's declared size tells how far out of bounds it went. *)
Definition uninit : ascii := "205".

Definition poke (cells : list ascii) (off : Z) (data : list ascii) : list ascii :=
  let o := Z.to_nat off in
  take o cells ++ replicate (o - length cells)%nat uninit
    ++ data ++ drop (o + length data)%nat cells.

Section Engine.
Context `{RT : Runtime}.

Definition i64Prefix : list ascii := if WIN32 then ["I"; "6"; "4"] else ["l"; "l"].
Definition wcharPrefix : list ascii := if WIN32 then [] else ["l"].
Definition wcharType : ascii := if WIN32 then "S" else "s".

Definition fmt_translate_snprintf_return_value (r count : Z) : Z :=
  if (r <? 0) || (count <=? cast size_t r) then -1 else r.

Definition fmt_snprintf (count : Z) (format_str : list ascii) (v : va_value)
  : list ascii * Z :=
  let '(stored, r) := vsnprintf count (c_str format_str) v in
  (stored, fmt_translate_snprintf_return_value r count).

(** The copy loop of [format_string]; it passes at most [count] times. *)
Fixpoint format_string_loop (passes : nat) (i : Z) (s dest : list ascii)
  : list ascii * Z :=
  match passes with
  | O => (dest, -1)
  | S passes' =>
      if is_char (char_at s i) NUL then (dest, cast int i)
      else format_string_loop passes' (i + 1) s (dest ++ [char_at s i])
  end.

Definition format_string (count : Z) (format_str s : list ascii) : list ascii * Z :=
  if is_char (char_at format_str 0) "%" && is_char (char_at format_str 1) "s"
  then format_string_loop (Z.to_nat count) 0 s []
  else fmt_snprintf count format_str (va_str s).

Definition format_int32 (count : Z) (format_str : list ascii) (v : Z) : list ascii * Z :=
  let c := char_at format_str 1 in
  if one_of c ["d"; "i"] && (11 <=? count) then
    format_integer int32_t 10 false v
  else if is_char c "u" && (11 <=? count) then
    format_integer uint32_t 10 false (cast uint32_t v)
  else if is_char c "x" && (8 <=? count) then
    format_integer uint32_t 16 false (cast uint32_t v)
  else if is_char c "X" && (8 <=? count) then
    format_integer uint32_t 16 true (cast uint32_t v)
  else fmt_snprintf count format_str (va_int v).

Definition format_int64 (count : Z) (format_str : list ascii) (v : Z) : list ascii * Z :=
  let isPlain :=
    if WIN32 then
      is_char (char_at format_str 1) (char_at i64Prefix 0)
      && is_char (char_at format_str 2) (char_at i64Prefix 1)
      && is_char (char_at format_str 3) (char_at i64Prefix 2)
    else
      is_char (char_at format_str 1) (char_at i64Prefix 0)
      && is_char (char_at format_str 2) (char_at i64Prefix 1) in
  let c := char_at format_str 4 in
  if isPlain && one_of c ["d"; "i"] && (20 <=? count) then
    format_integer int64_t 10 false v
  else if isPlain && is_char c "u" && (20 <=? count) then
    format_integer uint64_t 10 false (cast uint64_t v)
  else if isPlain && is_char c "x" && (16 <=? count) then
    format_integer uint64_t 16 false (cast uint64_t v)
  else if isPlain && is_char c "X" && (16 <=? count) then
    format_integer uint64_t 16 true (cast uint64_t v)
  else fmt_snprintf count format_str (va_int64 v).

(** [fmt_settype]: [width = None] is the null pointer of [SETTYPE1].  The
    array is the list of its cells up to the last one stored to, so a store
    behind [argbuf[15]] shows as a list of more than sixteen cells; the
    conversion loop, which owns the array, ends the run there. *)
Definition fmt_settype (argbuf : list ascii) (pos : Z) (width : option (list ascii))
    (type : ascii) : list ascii :=
  match width with
  | Some w =>
      let pos := if one_of (char_at argbuf (pos - 1)) ["l"; "h"; "w"] then pos - 1 else pos in
      poke argbuf pos (c_str w ++ [type; NUL])
  | None => poke argbuf pos [type; NUL]
  end.

Definition tokenint_of (fmt_type : ascii) : bool :=
  one_of fmt_type ["d"; "i"; "o"; "u"; "x"; "X"].

Definition tokenreal_of (fmt_type : ascii) : bool :=
  one_of fmt_type ["e"; "E"; "f"; "g"; "G"; "a"; "A"].

(** The conversion letter that [fmt_output_with_snprintf] hands to
    [fmt_settype] for an argument; [None] for [TNull], which formats
    nothing. *)
Definition settype_letter (fmt_type : ascii) (arg : fmtarg) : option ascii :=
  let tokenint := tokenint_of fmt_type in
  let tokenreal := tokenreal_of fmt_type in
  match arg with
  | TNull => None
  | TPtr _ => Some "p"
  | TCStr _ => Some "s"
  | TWStr _ => Some wcharType
  | TI32 _ => Some (if is_char fmt_type "c" then "c" else if tokenint then fmt_type else "d")
  | TU32 _ => Some (if tokenint then fmt_type else "u")
  | TI64 _ => Some (if tokenint then fmt_type else "d")
  | TU64 _ => Some (if tokenint then fmt_type else "u")
  | TDbl _ => Some (if tokenreal then fmt_type else "g")
  end.

Definition fmt_output_with_snprintf (fmt_type : ascii) (argbuf : list ascii)
    (argbufsize outputSize : Z) (arg : fmtarg) : list ascii * Z :=
  let SETTYPE1 type := fmt_settype argbuf argbufsize None type in
  let SETTYPE2 width type := fmt_settype argbuf argbufsize (Some width) type in
  let tokenint := tokenint_of fmt_type in
  let tokenreal := tokenreal_of fmt_type in
  match arg with
  | TNull => ([], 0)
  | TPtr Ptr =>
      fmt_snprintf outputSize (SETTYPE1 "p") (va_ptr Ptr)
  | TCStr CStr =>
      format_string outputSize (SETTYPE2 [] "s") CStr
  | TWStr WStr =>
      fmt_snprintf outputSize (SETTYPE2 wcharPrefix wcharType) (va_wstr WStr)
  | TI32 I32 =>
      let argbuf :=
        if is_char fmt_type "c" then SETTYPE2 [] "c"
        else if tokenint then SETTYPE2 [] fmt_type
        else SETTYPE2 [] "d" in
      format_int32 outputSize argbuf (cast int32_t I32)
  | TU32 UI32 =>
      let argbuf := if tokenint then SETTYPE2 [] fmt_type else SETTYPE2 [] "u" in
      format_int32 outputSize argbuf (cast int32_t UI32)
  | TI64 I64 =>
      let argbuf :=
        if tokenint then SETTYPE2 i64Prefix fmt_type else SETTYPE2 i64Prefix "d" in
      format_int64 outputSize argbuf (cast int64_t I64)
  | TU64 UI64 =>
      let argbuf :=
        if tokenint then SETTYPE2 i64Prefix fmt_type else SETTYPE2 i64Prefix "u" in
      format_int64 outputSize argbuf (cast int64_t UI64)
  | TDbl Dbl =>
      let argbuf := if tokenreal then SETTYPE1 fmt_type else SETTYPE1 "g" in
      fmt_snprintf outputSize argbuf (va_double Dbl)
  end.

(** [argbuf] as [fmt_output_with_snprintf] leaves it: the cells after the
    [SETTYPE] of the argument's case.  The array is the caller's, so these
    are the cells that the next call for the same directive starts from. *)
Definition fmt_output_argbuf (fmt_type : ascii) (argbuf : list ascii)
    (argbufsize : Z) (arg : fmtarg) : list ascii :=
  let SETTYPE1 type := fmt_settype argbuf argbufsize None type in
  let SETTYPE2 width type := fmt_settype argbuf argbufsize (Some width) type in
  let tokenint := tokenint_of fmt_type in
  let tokenreal := tokenreal_of fmt_type in
  match arg with
  | TNull => argbuf
  | TPtr _ => SETTYPE1 "p"
  | TCStr _ => SETTYPE2 [] "s"
  | TWStr _ => SETTYPE2 wcharPrefix wcharType
  | TI32 _ =>
      if is_char fmt_type "c" then SETTYPE2 [] "c"
      else if tokenint then SETTYPE2 [] fmt_type
      else SETTYPE2 [] "d"
  | TU32 _ => if tokenint then SETTYPE2 [] fmt_type else SETTYPE2 [] "u"
  | TI64 _ => if tokenint then SETTYPE2 i64Prefix fmt_type else SETTYPE2 i64Prefix "d"
  | TU64 _ => if tokenint then SETTYPE2 i64Prefix fmt_type else SETTYPE2 i64Prefix "u"
  | TDbl _ => if tokenreal then SETTYPE1 fmt_type else SETTYPE1 "g"
  end.

End Engine.

(** ** Memory

    The caller's buffer and the arrays obtained from [new char[]].  The
    caller's buffer and the format string are separate objects; the format
    string is only read and is not part of the store. *)

Inductive pointer := Static | Heap (b : nat).

Definition pointer_eqb (p q : pointer) : bool :=
  match p, q with
  | Static, Static => true
  | Heap a, Heap b => Nat.eqb a b
  | _, _ => false
  end.

Record memory := {
  static_mem : list ascii;           (* the cells at the caller's buffer *)
  heap_mem : gmap nat (list ascii);  (* the live arrays *)
  next_block : nat;                  (* arrays handed out so far *)
  released : list pointer            (* what delete[] was called on *)
}.

(** How a run ends when it does not return: [operator new], the vector or
    the string throws [std::bad_alloc]; the assertion of [MoveCurrentPos]
    fails; a null callback or interface pointer is called through; the
    model runs out of fuel; a store lands behind the sixteen cells of
    [argbuf] in the frame of [fmt_core], after which nothing is known of
    the run. *)
Inductive fault := BadAlloc | AssertFailed | NullCall | OutOfFuel | ArgbufOverrun.

Inductive outcome (A : Type) :=
| Ok (a : A)
| Fail (f : fault).
Arguments Ok {A} a.
Arguments Fail {A} f.

#[global] Instance outcome_ret : MRet outcome := fun A a => Ok a.

#[global] Instance outcome_bind : MBind outcome := fun A B k x =>
  match x with
  | Ok a => k a
  | Fail f => Fail f
  end.

Definition load (m : memory) (p : pointer) : list ascii :=
  match p with
  | Static => static_mem m
  | Heap b => default [] (heap_mem m !! b)
  end.

(** Stores through a pointer; a store through a released pointer is lost. *)
Definition store (m : memory) (p : pointer) (off : Z) (data : list ascii) : memory :=
  match p with
  | Static =>
      {| static_mem := poke (static_mem m) off data; heap_mem := heap_mem m;
         next_block := next_block m; released := released m |}
  | Heap b =>
      {| static_mem := static_mem m;
         heap_mem := alter (fun cells => poke cells off data) b (heap_mem m);
         next_block := next_block m; released := released m |}
  end.

Definition delete_array (m : memory) (p : pointer) : memory :=
  {| static_mem := static_mem m;
     heap_mem := match p with Static => heap_mem m | Heap b => delete b (heap_mem m) end;
     next_block := next_block m;
     released := p :: released m |}.

Section Buffer.
Context `{RT : Runtime}.

(** [new char[n]] *)
Definition new_array (m : memory) (n : Z) : outcome (pointer * memory) :=
  if n <=? max_alloc then
    Ok (Heap (next_block m),
        {| static_mem := static_mem m;
           heap_mem := <[next_block m := replicate (Z.to_nat n) uninit]> (heap_mem m);
           next_block := S (next_block m);
           released := released m |})
  else Fail BadAlloc.

(** [memcpy(dst, src, n)] between two arrays, both from their first cell. *)
Definition memcpy (m : memory) (dst src : pointer) (n : Z) : memory :=
  store m dst 0 (take (Z.to_nat n) (load m src)).

(** ** [StackBuffer] *)

Record StackBuffer := {
  Buffer : pointer;
  Pos : Z;
  Capacity : Z;
  OwnBuffer : bool
}.

Definition StackBuffer_new (staticbuf : pointer) (staticbuf_size : Z) : StackBuffer :=
  {| Buffer := staticbuf; Pos := 0; Capacity := staticbuf_size; OwnBuffer := false |}.

Definition Reserve (bytes : Z) (s : StackBuffer * memory) : outcome (StackBuffer * memory) :=
  let '(sb, m) := s in
  if Capacity sb <? cast size_t (Pos sb + bytes) then
    let ncap := cast size_t (Capacity sb * 2) in
    let ncap := if ncap <? cast size_t (Pos sb + bytes)
                then cast size_t (Pos sb + bytes) else ncap in
    '(nbuf, m) ← new_array m ncap;
    let m := memcpy m nbuf (Buffer sb) (Pos sb) in
    let m := if OwnBuffer sb then delete_array m (Buffer sb) else m in
    Ok ({| Buffer := nbuf; Pos := Pos sb; Capacity := ncap; OwnBuffer := true |}, m)
  else Ok (sb, m).

Definition MoveCurrentPos (bytes : Z) (sb : StackBuffer) : outcome StackBuffer :=
  let sb := {| Buffer := Buffer sb; Pos := cast size_t (Pos sb + bytes);
               Capacity := Capacity sb; OwnBuffer := OwnBuffer sb |} in
  if Pos sb <=? Capacity sb then Ok sb else Fail AssertFailed.

(** Returns the offset of the reserved region in [Buffer]. *)
Definition AddUninitialized (bytes : Z) (s : StackBuffer * memory)
  : outcome (Z * (StackBuffer * memory)) :=
  '(sb, m) ← Reserve bytes s;
  let p := Pos sb in
  Ok (p, ({| Buffer := Buffer sb; Pos := cast size_t (Pos sb + bytes);
             Capacity := Capacity sb; OwnBuffer := OwnBuffer sb |}, m)).

Definition Add (c : ascii) (s : StackBuffer * memory) : outcome (StackBuffer * memory) :=
  '(p, (sb, m)) ← AddUninitialized 1 s;
  Ok (sb, store m (Buffer sb) p [c]).

Definition RemainingSpace (sb : StackBuffer) : Z := cast size_t (Capacity sb - Pos sb).

(** The store after a growth of the buffer [sb] to [ncap] bytes. *)
Definition grown (sb : StackBuffer) (m : memory) (ncap : Z) : memory :=
  let nb := next_block m in
  let m1 := {| static_mem := static_mem m;
               heap_mem := <[nb := replicate (Z.to_nat ncap) uninit]> (heap_mem m);
               next_block := S nb; released := released m |} in
  let m2 := memcpy m1 (Heap nb) (Buffer sb) (Pos sb) in
  if OwnBuffer sb then delete_array m2 (Buffer sb) else m2.

End Buffer.

(** ** The scanner ([fmt_core]) *)

Record StrLenPair := { Str : pointer; Len : Z }.

Definition MaxOutputSize : Z := 1 * 1024 * 1024.

(** The letters of the [switch] in the directive state. *)
Definition conversion_letters : list ascii :=
  ["a"; "A"; "c"; "C"; "d"; "i"; "e"; "E"; "f"; "g"; "G"; "H"; "o"; "s"; "S";
   "u"; "x"; "X"; "p"; "n"; "v"; "q"; "Q"].

Definition is_conversion_letter (c : ascii) : bool := one_of c conversion_letters.

(** The variables of the main loop: [cur] is [i]. *)
Record scan_state := {
  cur : Z;
  tokenstart : Z;
  iarg : Z;
  output : StackBuffer;
  heap : memory
}.

(** [i++] at the end of a pass. *)
Definition advance (st : scan_state) : scan_state :=
  {| cur := cur st + 1; tokenstart := tokenstart st; iarg := iarg st;
     output := output st; heap := heap st |}.

Section Core.
Context `{RT : Runtime}.
Variable cx : context.
Variable fmt : list ascii.
Variable nargs : Z.
Variable args : list fmtarg.
Variable staticbuf_size : Z.

Definition initial_sprintf_guessed_size : Z := Z.shiftr staticbuf_size 2.

(** [for (j = tokenstart; j <= i; j++) output.Add(fmt[j]);] *)
Fixpoint add_token (passes : nat) (j : Z) (s : StackBuffer * memory)
  : outcome (StackBuffer * memory) :=
  match passes with
  | O => Ok s
  | S passes' => s ← Add (char_at fmt j) s; add_token passes' (j + 1) s
  end.

(** [for (j = tokenstart; j < i; j++)]: the directive without its stars.
    The list is the filled part of [argbuf], its length is [argbufsize]. *)
Fixpoint build_argbuf (passes : nat) (j : Z) (argbuf : list ascii) : list ascii :=
  match passes with
  | O => argbuf
  | S passes' =>
      if is_char (char_at fmt j) "*" then build_argbuf passes' (j + 1) argbuf
      else build_argbuf passes' (j + 1) (argbuf ++ [char_at fmt j])
  end.

(** The [while (true)] of a conversion: reserve [outputSize] bytes, let the
    backend write, keep what fits or double and try again.  [argbuf] is the
    one array of the frame and [argbufsize] the length of the directive
    first built in it: [fmt_output_with_snprintf] rewrites the array in
    place, and the next round hands it the rewritten cells with the same
    [argbufsize].  When its stores have gone behind [argbuf[15]] the run
    ends in [ArgbufOverrun]. *)
Fixpoint conversion_loop (fuel : nat) (is_q is_Q : bool) (fmt_type : ascii)
    (argbuf : list ascii) (argbufsize : Z) (arg : fmtarg) (outputSize : Z)
    (s : StackBuffer * memory) : outcome (StackBuffer * memory) :=
  match fuel with
  | O => Fail OutOfFuel
  | S fuel' =>
      '(outbuf, (sb, m)) ← AddUninitialized (cast size_t outputSize) s;
      '(argbuf, (stored, written)) ←
        (if is_q then
           match Escape_q cx with
           | Some f =>
               let '(b, r) := f (cast size_t outputSize) arg in
               Ok (argbuf, (b, cast ssize_t r))
           | None => Fail NullCall
           end
         else if is_Q then
           match Escape_Q cx with
           | Some f =>
               let '(b, r) := f (cast size_t outputSize) arg in
               Ok (argbuf, (b, cast ssize_t r))
           | None => Fail NullCall
           end
         else
           let rewritten := fmt_output_argbuf fmt_type argbuf argbufsize arg in
           if argbuf_arraysize <? Z.of_nat (length rewritten) then Fail ArgbufOverrun
           else Ok (rewritten,
                    fmt_output_with_snprintf fmt_type argbuf argbufsize
                      (cast size_t outputSize) arg));
      let m := store m (Buffer sb) outbuf stored in
      if (0 <=? written) && (written <? outputSize) then
        sb ← MoveCurrentPos (cast size_t (written - outputSize)) sb;
        Ok (sb, m)
      else if MaxOutputSize <=? outputSize then
        Ok (sb, m)
      else
        sb ← MoveCurrentPos (cast size_t (- outputSize)) sb;
        conversion_loop fuel' is_q is_Q fmt_type argbuf argbufsize arg
          (cast ssize_t (outputSize * 2)) (sb, m)
  end.

(** The conversion loop entered with the directive as the loop before it
    built it: [argbufsize] cells, all of them filled. *)
Definition retry (fuel : nat) (is_q is_Q : bool) (fmt_type : ascii) (argbuf : list ascii)
    (arg : fmtarg) (outputSize : Z) (s : StackBuffer * memory)
  : outcome (StackBuffer * memory) :=
  conversion_loop fuel is_q is_Q fmt_type argbuf (Z.of_nat (length argbuf)) arg
    outputSize s.

(** [for (; i < stopAt && fmt[i] != '%' && fmt[i] != 0; i++)
       output.Buffer[output.Pos++] = fmt[i];]
    The loop passes at most [stopAt - i] times. *)
Fixpoint copy_literal (passes : nat) (stopAt i : Z) (s : StackBuffer * memory)
  : Z * (StackBuffer * memory) :=
  match passes with
  | O => (i, s)
  | S passes' =>
      let c := char_at fmt i in
      if (i <? stopAt) && negb (is_char c "%") && negb (is_char c NUL) then
        let '(sb, m) := s in
        copy_literal passes' stopAt (i + 1)
          ({| Buffer := Buffer sb; Pos := cast size_t (Pos sb + 1);
              Capacity := Capacity sb; OwnBuffer := OwnBuffer sb |},
           store m (Buffer sb) (Pos sb) [c])
      else (i, s)
  end.

(** One pass through the body of the main loop, entered with [fmt[i] != 0].
    The flag tells whether the body left through [break]; otherwise the
    loop goes on with [i++]. *)
Definition body (fuel : nat) (st : scan_state) : outcome (bool * scan_state) :=
  let i := cur st in
  let c := char_at fmt i in
  if negb (tokenstart st =? -1) then
    let is_q := is_char c "q" in
    let is_Q := is_char c "Q" in
    if is_conversion_letter c then
      let no_args_remaining := nargs <=? iarg st in
      let spec_too_long := argbuf_arraysize - 1 <=? cast size_t (i - tokenstart st) in
      let disallowed := is_char c "n" in
      let disallowed := if is_q && negb (is_Some_bool (Escape_q cx)) then true else disallowed in
      let disallowed := if is_Q && negb (is_Some_bool (Escape_Q cx)) then true else disallowed in
      if no_args_remaining || spec_too_long || disallowed then
        '(sb, m) ← add_token (Z.to_nat (i - tokenstart st + 1)) (tokenstart st)
                     (output st, heap st);
        Ok (false, {| cur := i; tokenstart := -1; iarg := iarg st; output := sb; heap := m |})
      else
        let argbuf := build_argbuf (Z.to_nat (i - tokenstart st)) (tokenstart st) [] in
        let arg := nth (Z.to_nat (iarg st)) args TNull in
        let iarg' := iarg st + 1 in
        let outputSize := cast ssize_t initial_sprintf_guessed_size in
        '(sb, m) ← retry fuel is_q is_Q c argbuf arg outputSize (output st, heap st);
        Ok (false, {| cur := i; tokenstart := -1; iarg := iarg'; output := sb; heap := m |})
    else if is_char c "%" then
      '(sb, m) ← Add "%" (output st, heap st);
      Ok (false, {| cur := i; tokenstart := -1; iarg := iarg st; output := sb; heap := m |})
    else Ok (false, st)
  else
    let stopAt := cast ssize_t (cast size_t (i + RemainingSpace (output st))) in
    let '(i, (sb, m)) := copy_literal (Z.to_nat (stopAt - i)) stopAt i (output st, heap st) in
    if is_char (char_at fmt i) "%" then
      Ok (false, {| cur := i; tokenstart := i; iarg := iarg st; output := sb; heap := m |})
    else if is_char (char_at fmt i) NUL then
      Ok (true, {| cur := i; tokenstart := tokenstart st; iarg := iarg st; output := sb; heap := m |})
    else
      '(sb, m) ← Reserve 1 (sb, m);
      Ok (false, {| cur := i - 1; tokenstart := tokenstart st; iarg := iarg st;
                    output := sb; heap := m |}).

(** [for (ssize_t i = 0; fmt[i]; i++) { ... }] *)
Fixpoint scan (fuel : nat) (st : scan_state) : outcome scan_state :=
  match fuel with
  | O => Fail OutOfFuel
  | S fuel' =>
      if is_char (char_at fmt (cur st)) NUL then Ok st
      else
        '(stop, st) ← body fuel' st;
        if (stop : bool) then Ok st
        else scan fuel' (advance st)
  end.

(** The loop variables on entry. *)
Definition initial_state (m : memory) : scan_state :=
  {| cur := 0; tokenstart := -1; iarg := 0;
     output := StackBuffer_new Static staticbuf_size; heap := m |}.

(** [fmt_core(context, fmt, nargs, args, staticbuf, staticbuf_size)], run
    on the store [m] whose [static_mem] holds the caller's buffer. *)
Definition fmt_core (fuel : nat) (m : memory) : outcome (StrLenPair * memory) :=
  if nargs =? 0 then
    let len := strlen fmt in
    if negb (staticbuf_size =? 0) && (len <=? cast size_t (staticbuf_size + 1)) then
      Ok ({| Str := Static; Len := len |}, store m Static 0 (c_str fmt ++ [NUL]))
    else
      '(p, m) ← new_array m (cast size_t (len + 1));
      Ok ({| Str := p; Len := len |}, store m p 0 (c_str fmt ++ [NUL]))
  else
    st ← scan fuel (initial_state m);
    '(sb, m) ← Add NUL (output st, heap st);
    Ok ({| Str := Buffer sb; Len := cast size_t (Pos sb - 1) |}, m).

End Core.

(** [std::string str(p, n)] on the [n] characters [chars]: up to fifteen
    characters are held in the string object itself, more go to an array of
    their own from [operator new], which can throw. *)
Definition std_string `{RT : Runtime} (m : memory) (chars : list ascii) (n : Z)
  : outcome (list ascii) :=
  if n <=? 15 then Ok chars
  else
    '(_, _) ← new_array m (cast size_t (n + 1));
    Ok chars.

(** The overload that returns [std::string]: it formats into 256 bytes of
    its own frame, builds the string from the result and releases the
    result when it is not that array.  The frame's array takes the place of
    the caller's buffer in the store.  When the string's constructor throws,
    the result is not released. *)
Definition fmt_core_string `{RT : Runtime} (cx : context) (fmt : list ascii) (nargs : Z)
    (args : list fmtarg) (fuel : nat) : outcome (list ascii) :=
  let bufsize := 256 in
  let m := {| static_mem := replicate (Z.to_nat bufsize) uninit; heap_mem := ∅;
              next_block := O; released := [] |} in
  '(res, m) ← fmt_core cx fmt nargs args bufsize fuel m;
  str ← std_string m (take (Z.to_nat (Len res)) (load m (Str res))) (Len res);
  let m := if negb (pointer_eqb (Str res) Static) then delete_array m (Str res) else m in
  Ok str.

(** ** Reference: the generic backend on plain integer directives

    What [snprintf] prints for [%d], [%i], [%u], [%x] and [%X] according to
    the C standard, written with the decimal and hexadecimal printers of
    the standard library rather than with the program's own loop. *)

Definition to_upper (c : ascii) : ascii :=
  let n := N_of_ascii c in
  if ((97 <=? n) && (n <=? 122))%N then ascii_of_N (n - 32) else c.

Definition decimal_digits (v : Z) : list ascii :=
  list_ascii_of_string (DecimalString.NilEmpty.string_of_int (Z.to_int v)).

Definition hex_digits (upcase : bool) (v : Z) : list ascii :=
  let s := list_ascii_of_string
             (HexadecimalString.NilEmpty.string_of_uint (N.to_hex_uint (Z.to_N v))) in
  if upcase then map to_upper s else s.

(** The digits printed for an argument of [bits] bits under the conversion
    [letter]. *)
Definition snprintf_plain (bits : Z) (letter : ascii) (v : Z) : list ascii :=
  if one_of letter ["d"; "i"] then decimal_digits (wrap_signed bits v)
  else if is_char letter "u" then decimal_digits (wrap_unsigned bits v)
  else if is_char letter "x" then hex_digits false (wrap_unsigned bits v)
  else if is_char letter "X" then hex_digits true (wrap_unsigned bits v)
  else [].

(** The digit values of [n] in base [b], least significant first. *)
Fixpoint lsd_first (b : Z) (passes : nat) (n : Z) : list Z :=
  n mod b ::
  match passes with
  | O => []
  | S passes' => if n / b =? 0 then [] else lsd_first b passes' (n / b)
  end.

(** The characters that [lut] gives to a list of digit values. *)
Definition digit_chars (uc : bool) (ds : list Z) : list ascii :=
  map (fun d => lut_at uc (35 + d)) ds.

(** The characters of a number of the standard library, in the order of its
    digits. *)
Definition dec_chars (d : Decimal.uint) : list ascii :=
  list_ascii_of_string (DecimalString.NilEmpty.string_of_uint d).

Definition hex_chars (d : Hexadecimal.uint) : list ascii :=
  list_ascii_of_string (HexadecimalString.NilEmpty.string_of_uint d).

(** ** A runtime to run the model on

    The Windows build with a [vsnprintf] that knows the plain integer
    directives and [%s]; it stores what fits, terminated, and returns the
    full length as C99 asks.  Arrays of up to 2^40 bytes can be allocated. *)

Definition sample_render (spec : list ascii) (v : va_value) : list ascii :=
  match spec, v with
  | ["%"; l], va_int z => snprintf_plain 32 l z
  | ["%"; "I"; "6"; "4"; l], va_int64 z => snprintf_plain 64 l z
  | ["%"; "s"], va_str s => c_str s
  | _, _ => []
  end.

Definition sample_vsnprintf (count : Z) (spec : list ascii) (v : va_value)
  : list ascii * Z :=
  let text := sample_render spec v in
  (if count =? 0 then [] else take (Z.to_nat (count - 1)) text ++ [NUL],
   Z.of_nat (length text)).

Definition sample_runtime : Runtime :=
  {| WIN32 := true; vsnprintf := sample_vsnprintf; max_alloc := 2 ^ 40 |}.

(** A store with a caller's buffer of [n] cells and nothing allocated. *)
Definition fresh_memory (n : nat) : memory :=
  {| static_mem := replicate n uninit; heap_mem := ∅; next_block := O; released := [] |}.

(** ** Observations on a buffer *)

(** The bytes appended so far. *)
Definition contents (s : StackBuffer * memory) : list ascii :=
  take (Z.to_nat (Pos (fst s))) (load (snd s) (Buffer (fst s))).

(** The characters [fmt[from]] ... [fmt[from + n - 1]]. *)
Definition segment (fmt : list ascii) (from : Z) (n : nat) : list ascii :=
  take n (drop (Z.to_nat from) fmt).

Definition heap_fresh (m : memory) : Prop :=
  forall b, (next_block m <= b)%nat -> heap_mem m !! b = None.

Definition live (m : memory) (p : pointer) : Prop :=
  match p with
  | Static => True
  | Heap b => is_Some (heap_mem m !! b)
  end.

(** A buffer in good standing: the cursor is inside the capacity, the
    capacity is backed by cells of a live array and stays below [bound]. *)
Record buffer_ok (bound : Z) (s : StackBuffer * memory) : Prop := {
  ok_pos : 0 <= Pos (fst s) <= Capacity (fst s);
  ok_cap : Capacity (fst s) <= bound;
  ok_cells : Capacity (fst s) <= Z.of_nat (length (load (snd s) (Buffer (fst s))));
  ok_live : live (snd s) (Buffer (fst s));
  ok_fresh : heap_fresh (snd s)
}.

(** ** Outcomes with a postcondition

    [ensures tolerated x Q]: the computation [x] ends with a value that
    satisfies [Q], or with one of the tolerated faults. *)

Definition ensures {A} (tolerated : fault -> bool) (x : outcome A) (Q : A -> Prop) : Prop :=
  match x with
  | Ok a => Q a
  | Fail f => tolerated f = true
  end.

(** Only the allocator may fail. *)
Definition memory_only (f : fault) : bool :=
  match f with BadAlloc => true | _ => false end.

(** The allocator may fail, the fuel of the model may run out and a
    directive may overrun [argbuf], but no assertion fails and no null
    callback is called. *)
Definition no_abort (f : fault) : bool :=
  match f with BadAlloc | OutOfFuel | ArgbufOverrun => true | _ => false end.

(** The allocator may fail and a directive may overrun [argbuf]. *)
Definition alloc_or_overrun (f : fault) : bool :=
  match f with BadAlloc | ArgbufOverrun => true | _ => false end.

(** ** Observations on a run *)

(** The characters [fmt[from]], ..., [fmt[from + n - 1]] as the program
    reads them. *)
Definition chars_from (fmt : list ascii) (from : Z) (n : nat) : list ascii :=
  map (fun k => char_at fmt (from + Z.of_nat k)) (seq 0 n).

(** [s'] keeps what [s] had appended. *)
Definition keeps (s s' : StackBuffer * memory) : Prop :=
  Pos (fst s) <= Pos (fst s')
  /\ Capacity (fst s) <= Capacity (fst s')
  /\ take (Z.to_nat (Pos (fst s))) (load (snd s') (Buffer (fst s'))) = contents s.

(** The loop variables in good standing at the head of the main loop: the
    buffer is, the index is inside the format string, and an open directive
    started before it. *)
Record state_ok (bound : Z) (fmt : list ascii) (st : scan_state) : Prop := {
  st_buffer : buffer_ok bound (output st, heap st);
  st_cur : 0 <= cur st <= Z.of_nat (length fmt);
  st_token : tokenstart st = -1 \/ 0 <= tokenstart st < cur st
}.

(** The buffer [sb] with its cursor at [p]. *)
Definition at_pos (sb : StackBuffer) (p : Z) : StackBuffer :=
  {| Buffer := Buffer sb; Pos := p; Capacity := Capacity sb; OwnBuffer := OwnBuffer sb |}.


(** ** Letters and tags

    The vocabulary of the claims about retyping: the natural letter of a
    tag, the class of argument a letter stands for in the C standard, and
    when a letter conflicts with a tag. *)

Inductive arg_class := IntegerArg | FloatingArg | StringArg | WideStringArg | PointerArg.

Definition tag_class (arg : fmtarg) : option arg_class :=
  match arg with
  | TNull => None
  | TPtr _ => Some PointerArg
  | TCStr _ => Some StringArg
  | TWStr _ => Some WideStringArg
  | TI32 _ | TU32 _ | TI64 _ | TU64 _ => Some IntegerArg
  | TDbl _ => Some FloatingArg
  end.

Definition letter_class (c : ascii) : option arg_class :=
  if one_of c ["d"; "i"; "o"; "u"; "x"; "X"; "c"; "C"] then Some IntegerArg
  else if one_of c ["e"; "E"; "f"; "g"; "G"; "a"; "A"] then Some FloatingArg
  else if is_char c "s" then Some StringArg
  else if is_char c "S" then Some WideStringArg
  else if is_char c "p" then Some PointerArg
  else None.

Definition arg_class_eqb (a b : option arg_class) : bool :=
  match a, b with
  | Some IntegerArg, Some IntegerArg
  | Some FloatingArg, Some FloatingArg
  | Some StringArg, Some StringArg
  | Some WideStringArg, Some WideStringArg
  | Some PointerArg, Some PointerArg
  | None, None => true
  | _, _ => false
  end.

(** An explicit letter conflicts with a tag when it is not the generic [v]
    and stands for another class of argument than the tag holds. *)
Definition conflicts (letter : ascii) (arg : fmtarg) : bool :=
  negb (is_char letter "v") && negb (arg_class_eqb (letter_class letter) (tag_class arg)).

Definition natural_letter `{RT : Runtime} (arg : fmtarg) : option ascii :=
  match arg with
  | TNull => None
  | TPtr _ => Some "p"
  | TCStr _ => Some "s"
  | TWStr _ => Some wcharType
  | TI32 _ | TI64 _ => Some "d"
  | TU32 _ | TU64 _ => Some "u"
  | TDbl _ => Some "g"
  end.

(** The width argument of the [SETTYPE] in the case of a tag, and the call
    that follows it. *)
Definition settype_width `{RT : Runtime} (arg : fmtarg) : option (list ascii) :=
  match arg with
  | TNull | TPtr _ | TDbl _ => None
  | TCStr _ | TI32 _ | TU32 _ => Some []
  | TWStr _ => Some wcharPrefix
  | TI64 _ | TU64 _ => Some i64Prefix
  end.

Definition backend_call `{RT : Runtime} (outputSize : Z) (arg : fmtarg)
    (argbuf : list ascii) : list ascii * Z :=
  match arg with
  | TNull => ([], 0)
  | TPtr Ptr => fmt_snprintf outputSize argbuf (va_ptr Ptr)
  | TCStr CStr => format_string outputSize argbuf CStr
  | TWStr WStr => fmt_snprintf outputSize argbuf (va_wstr WStr)
  | TI32 v | TU32 v => format_int32 outputSize argbuf (cast int32_t v)
  | TI64 v | TU64 v => format_int64 outputSize argbuf (cast int64_t v)
  | TDbl Dbl => fmt_snprintf outputSize argbuf (va_double Dbl)
  end.

(** The loop variables [st] with the index at [c]. *)
Definition at_cur (st : scan_state) (c : Z) : scan_state :=
  {| cur := c; tokenstart := tokenstart st; iarg := iarg st;
     output := output st; heap := heap st |}.

(** As long as [Buffer] is the caller's array, [Capacity] is the size the
    caller gave and the arrays of [new char[]] are those of the store [m0]
    on entry: none was allocated, written or released. *)
Definition unmoved (staticbuf_size : Z) (m0 : memory) (s : StackBuffer * memory) : Prop :=
  Buffer (fst s) = Static ->
  Capacity (fst s) = staticbuf_size
  /\ next_block (snd s) = next_block m0
  /\ heap_mem (snd s) = heap_mem m0.

(** The progress of the main loop: twice the characters still to be read,
    plus one while the literal copy stands before a full buffer. *)
Definition progress (fmt : list ascii) (st : scan_state) : Z :=
  2 * (Z.of_nat (length fmt) - cur st)
  + (if (tokenstart st =? -1) && (Capacity (output st) <=? Pos (output st)) then 1 else 0).

(** ** Reference: the formatter on a list

    What [fmt_core] means, with neither buffer nor indices: the format
    string is read one character at a time, [spec] holds the directive that
    is open (from its percent sign on), and the arguments are taken from the
    front of [args].  The outcome is [None] where the program's output
    depends on bytes a backend left unwritten, where a directive overruns
    the scratch array, and where a directive whose length modifier the
    backend has overwritten needs a second round. *)

Section Reference.
Context `{RT : Runtime}.
Variable cx : context.

(** The bytes stored and the count returned by the backend of a conversion
    for a destination of [outputSize] bytes; [None] is a null callback. *)
Definition conversion_call (is_q is_Q : bool) (fmt_type : ascii) (argbuf : list ascii)
    (arg : fmtarg) (outputSize : Z) : option (list ascii * Z) :=
  if is_q then
    match Escape_q cx with
    | Some f => let '(b, r) := f (cast size_t outputSize) arg in Some (b, cast ssize_t r)
    | None => None
    end
  else if is_Q then
    match Escape_Q cx with
    | Some f => let '(b, r) := f (cast size_t outputSize) arg in Some (b, cast ssize_t r)
    | None => None
    end
  else Some (fmt_output_with_snprintf fmt_type argbuf (Z.of_nat (length argbuf))
               (cast size_t outputSize) arg).

(** The text a conversion contributes: what the backend wrote at the first
    size it accepted, the sizes doubling from [outputSize]; at
    [MaxOutputSize] what it wrote is taken as it is. *)
Fixpoint converted (rounds : nat) (call : Z -> option (list ascii * Z)) (outputSize : Z)
  : option (list ascii) :=
  match rounds with
  | O => None
  | S rounds' =>
      match call outputSize with
      | None => None
      | Some (stored, written) =>
          if (0 <=? written) && (written <? outputSize) then
            if written <=? Z.of_nat (length stored)
            then Some (take (Z.to_nat written) stored) else None
          else if MaxOutputSize <=? outputSize then
            if outputSize <=? Z.of_nat (length stored)
            then Some (take (Z.to_nat outputSize) stored) else None
          else converted rounds' call (outputSize * 2)
      end
  end.

(** A directive that is copied as it stands although an argument is left. *)
Definition unconvertible (spec : list ascii) (c : ascii) : bool :=
  (argbuf_arraysize - 1 <=? Z.of_nat (length spec))
  || is_char c "n"
  || (is_char c "q" && negb (is_Some_bool (Escape_q cx)))
  || (is_char c "Q" && negb (is_Some_bool (Escape_Q cx))).

Definition without_stars (spec : list ascii) : list ascii :=
  List.filter (fun c => negb (is_char c "*")) spec.

(** The directive [argbuf] under the letter [c] reaches the generic backend. *)
Definition to_backend (c : ascii) : bool := negb (is_char c "q" || is_char c "Q").

(** The backend stores behind the sixteen cells of its array: the program
    has no defined output. *)
Definition overruns (argbuf : list ascii) (c : ascii) (arg : fmtarg) : bool :=
  to_backend c
  && (argbuf_arraysize
      <? Z.of_nat (length (fmt_output_argbuf c argbuf (Z.of_nat (length argbuf)) arg))).

(** The rounds of the conversion loop that the reference speaks for.  The
    directive is conversion-stable when the backend, called again on the
    cells it left, leaves the same cells: then every round formats under
    the same directive.  Otherwise (a length modifier before the letter
    has been overwritten) the rounds after the first format under another
    directive, and the reference speaks for the first round only. *)
Definition rounds_covered (argbuf : list ascii) (c : ascii) (arg : fmtarg) : nat :=
  let argbufsize := Z.of_nat (length argbuf) in
  let rewritten := fmt_output_argbuf c argbuf argbufsize arg in
  if to_backend c
     && negb (bool_decide (fmt_output_argbuf c rewritten argbufsize arg = rewritten))
  then 1%nat else 22%nat.

Fixpoint render (guess : Z) (fmt : list ascii) (spec : option (list ascii))
    (args : list fmtarg) : option (list ascii) :=
  match fmt with
  | [] => Some []
  | c :: rest =>
      if is_char c NUL then Some []
      else
        match spec with
        | None =>
            if is_char c "%" then render guess rest (Some [c]) args
            else option_map (cons c) (render guess rest None args)
        | Some sp =>
            if is_conversion_letter c then
              match args with
              | [] => option_map (app (sp ++ [c])) (render guess rest None [])
              | arg :: args' =>
                  if unconvertible sp c
                  then option_map (app (sp ++ [c])) (render guess rest None args)
                  else if overruns (without_stars sp) c arg then None
                  else
                    match converted (rounds_covered (without_stars sp) c arg)
                            (conversion_call (is_char c "q") (is_char c "Q") c
                               (without_stars sp) arg) guess with
                    | Some piece => option_map (app piece) (render guess rest None args')
                    | None => None
                    end
              end
            else if is_char c "%" then option_map (cons c) (render guess rest None args)
            else render guess rest (Some (sp ++ [c])) args
        end
  end.

End Reference.

(** The directive open at the head of the main loop, and what the reference
    makes of the rest of the format string from there. *)
Definition spec_of (fmt : list ascii) (st : scan_state) : option (list ascii) :=
  if tokenstart st =? -1 then None
  else Some (segment fmt (tokenstart st) (Z.to_nat (cur st - tokenstart st))).

Definition rendering `{RT : Runtime} (cx : context) (fmt : list ascii) (nargs : Z)
    (args : list fmtarg) (staticbuf_size : Z) (st : scan_state) : option (list ascii) :=
  render cx (cast ssize_t (initial_sprintf_guessed_size staticbuf_size))
    (drop (Z.to_nat (cur st)) fmt) (spec_of fmt st)
    (drop (Z.to_nat (iarg st)) (take (Z.to_nat nargs) args)).

(** What a pass of the main loop owes the reference: it appends a piece of
    the text the reference gives for the rest of the format string, and the
    rest of that text is what the reference gives from the next head of the
    loop. *)
Definition pass_renders `{RT : Runtime} (cx : context) (fmt : list ascii) (nargs : Z)
    (args : list fmtarg) (staticbuf_size bound : Z) (st : scan_state) (out : list ascii)
    (r : bool * scan_state) : Prop :=
  buffer_ok bound (output (snd r), heap (snd r))
  /\ exists piece rest : list ascii,
       out = piece ++ rest
       /\ contents (output (snd r), heap (snd r)) = contents (output st, heap st) ++ piece
       /\ (fst r = true -> rest = [])
       /\ (fst r = false ->
           state_ok bound fmt (advance (snd r))
           /\ 0 <= iarg (snd r)
           /\ rendering cx fmt nargs args staticbuf_size (advance (snd r)) = Some rest
           /\ progress fmt (advance (snd r)) < progress fmt st).

(** The integer tags: the width in bits of the payload, the payload, and
    the conversion letter that [fmt_output_with_snprintf] falls back on. *)
Definition integer_payload (arg : fmtarg) : option (Z * Z * ascii) :=
  match arg with
  | TI32 v => Some (32, v, "d")
  | TU32 v => Some (32, v, "u")
  | TI64 v => Some (64, v, "d")
  | TU64 v => Some (64, v, "u")
  | _ => None
  end.

(** ** Ownership of the arrays

    [owned m0 s]: what a run that started on the store [m0] has done to the
    heap by the time its buffer is [s].  The buffer is the caller's array,
    unowned, and the live arrays are those of [m0]; or it is an array the
    run allocated itself, owned, and the only live array that [m0] did not
    have.  What the run has passed to [delete[]] are arrays it allocated
    itself, each once, none of them live any more. *)
Record owned (m0 : memory) (s : StackBuffer * memory) : Prop := {
  own_fresh : heap_fresh (snd s);
  own_blocks : (next_block m0 <= next_block (snd s))%nat;
  own_buffer :
    match Buffer (fst s) with
    | Static => OwnBuffer (fst s) = false /\ heap_mem (snd s) = heap_mem m0
    | Heap b =>
        OwnBuffer (fst s) = true
        /\ (next_block m0 <= b)%nat
        /\ is_Some (heap_mem (snd s) !! b)
        /\ delete b (heap_mem (snd s)) = heap_mem m0
    end;
  own_released :
    exists freed : list nat,
      released (snd s) = map Heap freed ++ released m0
      /\ NoDup freed
      /\ Forall (fun b => (next_block m0 <= b < next_block (snd s))%nat
                          /\ heap_mem (snd s) !! b = None) freed
}.

(** Every fault is tolerated: a statement about the runs that return. *)
Definition any_fault (f : fault) : bool := true.

(** ** The templates of [tsf.h] *)

(** [internal::fmt_pack(pack, arg, args...)]: [*pack = arg], then the rest
    from [pack + 1].  The pointer [pack] is an index into the array. *)
Fixpoint fmt_pack (pack_array : list fmtarg) (pack : nat) (args : list fmtarg)
  : list fmtarg :=
  match args with
  | [] => pack_array
  | arg :: args' => fmt_pack (<[pack := arg]> pack_array) (S pack) args'
  end.

(** [fmtarg pack_array[num_args + 1]], default constructed, then packed. *)
Definition packed (args : list fmtarg) : list fmtarg :=
  fmt_pack (replicate (length args + 1) TNull) 0 args.

(** [tsf::fmt(fs, args...)] *)
Definition fmt `{RT : Runtime} (fs : list ascii) (args : list fmtarg) (fuel : nat)
  : outcome (list ascii) :=
  let num_args := Z.of_nat (length args) in
  let pack_array := packed args in
  let cx := default_context in
  fmt_core_string cx fs (cast ssize_t num_args) pack_array fuel.

(* ===================================================================== *)
(** ** The desktop duplication wrapper ([WinDesktopDup.cpp])

    The calls into Windows, Direct3D and DXGI are the environment of the
    class.  A run records each call with what it returned, and what a call
    returns is given by the reply of the run.  An interface pointer is kept
    as the fact whether it is non-null: a call that succeeds hands out a
    non-null pointer and one that fails leaves null.  [OutputDesc] is only
    ever written and is left out. *)

(** [HRESULT] is a 32-bit [long]. *)
Definition SUCCEEDED (hr : Z) : bool := 0 <=? hr.
Definition FAILED (hr : Z) : bool := hr <? 0.
Definition S_OK : Z := 0.
Definition DXGI_ERROR_WAIT_TIMEOUT : Z := cast int32_t 0x887A0027.
Definition DXGI_ERROR_NOT_CURRENTLY_AVAILABLE : Z := cast int32_t 0x887A0022.
Definition E_INVALIDARG : Z := cast int32_t 0x80070057.

Inductive D3D_DRIVER_TYPE :=
| D3D_DRIVER_TYPE_HARDWARE
| D3D_DRIVER_TYPE_WARP
| D3D_DRIVER_TYPE_REFERENCE.

(** The handles and interface pointers of the two member functions. *)
Inductive handle :=
| hDesk | dxgiDevice | dxgiAdapter | dxgiOutput | dxgiOutput1
| deskRes | gpuTex | cpuTex
| the_DeskDupl | the_D3DDeviceContext | the_D3DDevice.

Inductive call :=
| OpenInputDesktop (opened : bool)
| SetThreadDesktop (attached : bool)
| CloseDesktop
| D3D11CreateDevice (driver : D3D_DRIVER_TYPE) (hr : Z)
| QueryInterface (source target : handle) (hr : Z)
| GetParent (hr : Z)
| EnumOutputs (Output : Z) (hr : Z)
| GetDesc (h : handle)
| DuplicateOutput (hr : Z)
| Release (h : handle)
| ReleaseFrame
| AcquireNextFrame (hr : Z)
| CreateTexture2D (hr : Z)
| CopyResource
| MapSubresource (hr : Z)
| Unmap
| OutputDebugStringA (msg : list ascii).

(** What the environment answers during [Initialize]. *)
Record init_reply := {
  open_desktop : bool;
  set_thread_desktop : bool;
  create_device : D3D_DRIVER_TYPE -> Z;
  query_dxgi_device : Z;
  get_parent : Z;
  enum_outputs : Z;
  query_output1 : Z;
  duplicate_output : Z
}.

(** What the environment answers during [CaptureNext]: the results of the
    calls, the size of the texture ([desc.Width], [desc.Height]), the
    mapped subresource ([sr.RowPitch] and the bytes from [sr.pData] on),
    and whether the allocator refuses the vector the memory it asks for
    when it has to grow. *)
Record frame_reply := {
  acquire_next_frame : Z;
  query_texture : Z;
  desc_Width : Z;
  desc_Height : Z;
  create_texture : Z;
  map_subresource : Z;
  RowPitch : Z;
  pData : Z -> Byte.byte;
  resize_throws : bool
}.

(** BGRA U8 bitmap *)
Record Bitmap := {
  Width : Z;
  Height : Z;
  Buf : list Byte.byte
}.

Record WinDesktopDup := {
  Latest : Bitmap;
  OutputNumber : Z;
  D3DDevice : bool;
  D3DDeviceContext : bool;
  DeskDupl : bool;
  HaveFrameLock : bool
}.

(** The member initialisers of [WinDesktopDup.h]. *)
Definition WinDesktopDup_new : WinDesktopDup :=
  {| Latest := {| Width := 0; Height := 0; Buf := [] |};
     OutputNumber := 0;
     D3DDevice := false; D3DDeviceContext := false; DeskDupl := false;
     HaveFrameLock := false |}.

Definition set_device (self : WinDesktopDup) (device context : bool) : WinDesktopDup :=
  {| Latest := Latest self; OutputNumber := OutputNumber self;
     D3DDevice := device; D3DDeviceContext := context;
     DeskDupl := DeskDupl self; HaveFrameLock := HaveFrameLock self |}.

Definition set_DeskDupl (self : WinDesktopDup) (p : bool) : WinDesktopDup :=
  {| Latest := Latest self; OutputNumber := OutputNumber self;
     D3DDevice := D3DDevice self; D3DDeviceContext := D3DDeviceContext self;
     DeskDupl := p; HaveFrameLock := HaveFrameLock self |}.

Definition set_HaveFrameLock (self : WinDesktopDup) (b : bool) : WinDesktopDup :=
  {| Latest := Latest self; OutputNumber := OutputNumber self;
     D3DDevice := D3DDevice self; D3DDeviceContext := D3DDeviceContext self;
     DeskDupl := DeskDupl self; HaveFrameLock := b |}.

Definition set_Latest (self : WinDesktopDup) (bmp : Bitmap) : WinDesktopDup :=
  {| Latest := bmp; OutputNumber := OutputNumber self;
     D3DDevice := D3DDevice self; D3DDeviceContext := D3DDeviceContext self;
     DeskDupl := DeskDupl self; HaveFrameLock := HaveFrameLock self |}.

(** [for (i = 0; i < numDriverTypes; i++) { hr = D3D11CreateDevice(...);
     if (SUCCEEDED(hr)) break; }] *)
Fixpoint create_device_loop (reply : init_reply) (driverTypes : list D3D_DRIVER_TYPE)
    (hr : Z) (log : list call) : Z * list call :=
  match driverTypes with
  | [] => (hr, log)
  | driver :: rest =>
      let hr := create_device reply driver in
      let log := log ++ [D3D11CreateDevice driver hr] in
      if SUCCEEDED hr then (hr, log) else create_device_loop reply rest hr log
  end.

Definition driverTypes : list D3D_DRIVER_TYPE :=
  [D3D_DRIVER_TYPE_HARDWARE; D3D_DRIVER_TYPE_WARP; D3D_DRIVER_TYPE_REFERENCE].

(** [Error WinDesktopDup::Initialize()]: the error text (empty on success),
    the object afterwards, and the calls made. *)
Definition Initialize `{RT : Runtime} (reply : init_reply) (fuel : nat)
    (self : WinDesktopDup) : outcome (list ascii * WinDesktopDup * list call) :=
  let opened := open_desktop reply in
  let log := [OpenInputDesktop opened] in
  if negb opened then
    Ok (list_ascii_of_string "Failed to open desktop", self, log)
  else
    let deskAttached := set_thread_desktop reply in
    let log := log ++ [SetThreadDesktop deskAttached; CloseDesktop] in
    if negb deskAttached then
      Ok (list_ascii_of_string "Failed to attach recording thread to desktop", self, log)
    else
      let '(hr, log) := create_device_loop reply driverTypes S_OK log in
      let self := set_device self (SUCCEEDED hr) (SUCCEEDED hr) in
      if FAILED hr then
        msg ← fmt (list_ascii_of_string "D3D11CreateDevice failed: %v") [TI32 hr] fuel;
        Ok (msg, self, log)
      else
        let hr := query_dxgi_device reply in
        let log := log ++ [QueryInterface the_D3DDevice dxgiDevice hr] in
        if FAILED hr then
          msg ← fmt (list_ascii_of_string "D3DDevice->QueryInterface failed: %v")
                  [TI32 hr] fuel;
          Ok (msg, self, log)
        else
          let hr := get_parent reply in
          let log := log ++ [GetParent hr; Release dxgiDevice] in
          if FAILED hr then
            msg ← fmt (list_ascii_of_string "dxgiDevice->GetParent failed: %v")
                    [TI32 hr] fuel;
            Ok (msg, self, log)
          else
            let hr := enum_outputs reply in
            let log := log ++ [EnumOutputs (OutputNumber self) hr; Release dxgiAdapter] in
            if FAILED hr then
              msg ← fmt (list_ascii_of_string "dxgiAdapter->EnumOutputs failed: %v")
                      [TI32 hr] fuel;
              Ok (msg, self, log)
            else
              let log := log ++ [GetDesc dxgiOutput] in
              let hr := query_output1 reply in
              let log := log ++ [QueryInterface dxgiOutput dxgiOutput1 hr;
                                 Release dxgiOutput] in
              if FAILED hr then
                msg ← fmt (list_ascii_of_string "dxgiOutput->QueryInterface failed: %v")
                        [TI32 hr] fuel;
                Ok (msg, self, log)
              else
                let hr := duplicate_output reply in
                let self := set_DeskDupl self (SUCCEEDED hr) in
                let log := log ++ [DuplicateOutput hr; Release dxgiOutput1] in
                if FAILED hr then
                  if hr =? DXGI_ERROR_NOT_CURRENTLY_AVAILABLE then
                    Ok (list_ascii_of_string "Too many desktop recorders already active",
                        self, log)
                  else
                    msg ← fmt (list_ascii_of_string "DuplicateOutput failed: %v")
                            [TI32 hr] fuel;
                    Ok (msg, self, log)
                else Ok ([], self, log).

(** [void WinDesktopDup::Close()], also the destructor. *)
Definition Close (self : WinDesktopDup) : WinDesktopDup * list call :=
  let log := if DeskDupl self then [Release the_DeskDupl] else [] in
  let log := log ++ (if D3DDeviceContext self then [Release the_D3DDeviceContext] else []) in
  let log := log ++ (if D3DDevice self then [Release the_D3DDevice] else []) in
  ({| Latest := Latest self; OutputNumber := OutputNumber self;
      D3DDevice := false; D3DDeviceContext := false; DeskDupl := false;
      HaveFrameLock := false |}, log).

(** [std::vector<uint8_t>::resize(n)].  A vector that does not grow keeps
    its memory; one that grows may have to ask for more, and [throws] says
    whether that request ends in [std::bad_alloc]. *)
Definition resize (throws : bool) (n : Z) (v : list Byte.byte)
  : outcome (list Byte.byte) :=
  if (Z.of_nat (length v) <? n) && throws then Fail BadAlloc
  else Ok (take (Z.to_nat n) v ++ replicate (Z.to_nat n - length v) Byte.x00).

(** [memcpy] into the vector from offset [off] on; like [poke], a copy that
    runs past the end shows in the length. *)
Definition poke_bytes (cells : list Byte.byte) (off : Z) (data : list Byte.byte)
  : list Byte.byte :=
  let o := Z.to_nat off in
  take o cells ++ replicate (o - length cells)%nat Byte.x00
    ++ data ++ drop (o + length data)%nat cells.

(** The [n] bytes at [sr.pData + from]. *)
Definition mapped_bytes (reply : frame_reply) (from n : Z) : list Byte.byte :=
  map (fun k => pData reply (from + Z.of_nat k)) (seq 0 (Z.to_nat n)).

(** [for (int y = 0; y < (int) desc.Height; y++)
       memcpy(Latest.Buf.data() + y * desc.Width * 4,
              sr.pData + sr.RowPitch * y, desc.Width * 4);]
    with the arithmetic of [UINT]. *)
Fixpoint copy_rows (reply : frame_reply) (rows : nat) (y : Z) (buf : list Byte.byte)
  : list Byte.byte :=
  match rows with
  | O => buf
  | S rows' =>
      let dst := cast uint32_t (cast uint32_t (cast uint32_t y * desc_Width reply) * 4) in
      let src := cast uint32_t (RowPitch reply * cast uint32_t y) in
      let n := cast uint32_t (desc_Width reply * 4) in
      copy_rows reply rows' (cast int32_t (y + 1))
        (poke_bytes buf dst (mapped_bytes reply src n))
  end.

(** The body of [if (SUCCEEDED(hr))] after [Map], up to the row copy. *)
Definition store_frame (reply : frame_reply) (bmp : Bitmap) : outcome Bitmap :=
  bmp ←
    (if negb (cast uint32_t (Width bmp) =? desc_Width reply)
        || negb (cast uint32_t (Height bmp) =? desc_Height reply)
     then
       buf ← resize (resize_throws reply)
                (cast size_t (cast uint32_t
                   (cast uint32_t (desc_Width reply * desc_Height reply) * 4)))
                (Buf bmp);
       Ok {| Width := cast int32_t (desc_Width reply);
             Height := cast int32_t (desc_Height reply);
             Buf := buf |}
     else Ok bmp);
  Ok {| Width := Width bmp; Height := Height bmp;
        Buf := copy_rows reply (Z.to_nat (cast int32_t (desc_Height reply))) 0 (Buf bmp) |}.

(** [bool WinDesktopDup::CaptureNext()].  A member call through a null
    pointer is the fault [NullCall]: [D3DDevice] and [D3DDeviceContext] are
    called through as they are, and [cpuTex] is null at its [Release] when
    [CreateTexture2D] had failed.  [Map] is handed [cpuTex]; there is
    nothing to map behind a null pointer, and the call fails with
    [E_INVALIDARG].  An exception of [resize] leaves the function at once,
    before [Unmap] and the two [Release] calls. *)
Definition CaptureNext `{RT : Runtime} (reply : frame_reply) (fuel : nat)
    (self : WinDesktopDup) : outcome (bool * WinDesktopDup * list call) :=
  if negb (DeskDupl self) then Ok (false, self, [])
  else
    let '(self, log) :=
      if HaveFrameLock self then (set_HaveFrameLock self false, [ReleaseFrame])
      else (self, []) in
    let hr := acquire_next_frame reply in
    let log := log ++ [AcquireNextFrame hr] in
    if hr =? DXGI_ERROR_WAIT_TIMEOUT then Ok (false, self, log)
    else if FAILED hr then
      msg ← fmt (list_ascii_of_string "Acquire failed: %x" ++ ["010"]) [TI32 hr] fuel;
      Ok (false, self, log ++ [OutputDebugStringA msg])
    else
      let self := set_HaveFrameLock self true in
      let hr := query_texture reply in
      let log := log ++ [QueryInterface deskRes gpuTex hr; Release deskRes] in
      if FAILED hr then Ok (false, self, log)
      else
        let ok := true in
        let log := log ++ [GetDesc gpuTex] in
        if negb (D3DDevice self) then Fail NullCall
        else
          let hr := create_texture reply in
          let have_cpuTex := SUCCEEDED hr in
          let log := log ++ [CreateTexture2D hr] in
          if negb (D3DDeviceContext self) then Fail NullCall
          else
            let '(ok, log) :=
              if SUCCEEDED hr then (ok, log ++ [CopyResource]) else (false, log) in
            let hr := if have_cpuTex then map_subresource reply else E_INVALIDARG in
            let log := log ++ [MapSubresource hr] in
            '(ok, self, log) ←
              (if SUCCEEDED hr
               then
                 bmp ← store_frame reply (Latest self);
                 Ok (ok, set_Latest self bmp, log ++ [Unmap])
               else Ok (false, self, log));
            if negb have_cpuTex then Fail NullCall
            else Ok (ok, self, log ++ [Release cpuTex; Release gpuTex]).

(** The bitmap that a capture is to deliver: the rows of the mapped
    texture one after the other, each of [4 * desc.Width] bytes, without
    the padding that [RowPitch] leaves between them. *)
Definition tightly_packed (reply : frame_reply) : list Byte.byte :=
  concat (map (fun y => mapped_bytes reply (RowPitch reply * Z.of_nat y)
                          (4 * desc_Width reply))
            (seq 0 (Z.to_nat (desc_Height reply)))).

(** The size that the dimensions of a bitmap call for. *)
Definition bitmap_sized (bmp : Bitmap) : Prop :=
  0 <= Width bmp < 2 ^ 31 /\ 0 <= Height bmp < 2 ^ 31
  /\ Z.of_nat (length (Buf bmp)) = 4 * Width bmp * Height bmp.

(** ** The pointers in flight

    What the calls of a log do to the interface pointers and handles: a
    call that succeeds hands out the pointer it creates, [Release] and
    [CloseDesktop] give one back.  [track held log] follows the pointers
    held through the log; it has no result when a call overwrites a
    pointer that is still held (a leak) or gives back one that is not held
    (a second release). *)

#[global] Instance handle_eq_dec : EqDecision handle.
Proof. solve_decision. Defined.

Definition acquires (c : call) : list handle :=
  match c with
  | OpenInputDesktop opened => if opened then [hDesk] else []
  | D3D11CreateDevice _ hr =>
      if SUCCEEDED hr then [the_D3DDevice; the_D3DDeviceContext] else []
  | QueryInterface _ target hr => if SUCCEEDED hr then [target] else []
  | GetParent hr => if SUCCEEDED hr then [dxgiAdapter] else []
  | EnumOutputs _ hr => if SUCCEEDED hr then [dxgiOutput] else []
  | DuplicateOutput hr => if SUCCEEDED hr then [the_DeskDupl] else []
  | AcquireNextFrame hr => if SUCCEEDED hr then [deskRes] else []
  | CreateTexture2D hr => if SUCCEEDED hr then [cpuTex] else []
  | _ => []
  end.

Definition releases (c : call) : list handle :=
  match c with
  | CloseDesktop => [hDesk]
  | Release h => [h]
  | _ => []
  end.

Definition is_held (held : list handle) (h : handle) : bool := bool_decide (h ∈ held).

Fixpoint track (held : list handle) (log : list call) : option (list handle) :=
  match log with
  | [] => Some held
  | c :: log' =>
      if existsb (is_held held) (acquires c) then None
      else if forallb (is_held held) (releases c)
      then track (filter (fun h => h ∉ releases c) held ++ acquires c) log'
      else None
  end.

(** The pointers that the object records. *)
Definition recorded (self : WinDesktopDup) : list handle :=
  (if D3DDevice self then [the_D3DDevice] else [])
  ++ (if D3DDeviceContext self then [the_D3DDeviceContext] else [])
  ++ (if DeskDupl self then [the_DeskDupl] else []).

(** A run of captures, one after the other, each of which returns. *)
Inductive captured `{RT : Runtime} (fuel : nat)
  : WinDesktopDup -> list call -> WinDesktopDup -> Prop :=
| captured_none self : captured fuel self [] self
| captured_next reply self ok self' log self'' log' :
    CaptureNext reply fuel self = Ok (ok, self', log) ->
    captured fuel self' log' self'' ->
    captured fuel self (log ++ log') self''.

(* ===================================================================== *)
(** * Part II. Properties *)
(* ===================================================================== *)

(** ** The fast integer formatter *)

Lemma cast_in_range t z : 0 < width t -> in_range t z -> cast t z = z.
Proof.
  unfold cast, in_range, wrap_signed, wrap_unsigned. intros Hw.
  destruct (is_signed t); intros H.
  - assert (E : 2 ^ width t = 2 * 2 ^ (width t - 1)).
    { rewrite <- Z.pow_succ_r by lia. f_equal. lia. }
    rewrite Z.mod_small; lia.
  - apply Z.mod_small. lia.
Qed.

(** A property of the numbers below [n] follows from its instances. *)
Lemma below_ind (n : nat) (P : Z -> Prop) :
  List.Forall P (map Z.of_nat (seq 0 n)) -> forall d, 0 <= d < Z.of_nat n -> P d.
Proof.
  intros HF d Hd. apply (proj1 (List.Forall_forall P _) HF).
  apply in_map_iff. exists (Z.to_nat d). split; [lia |]. apply in_seq. lia.
Qed.

Lemma lut_at_digit uc d :
  0 <= d < 16 -> lut_at uc (35 - d) = lut_at uc (35 + d).
Proof.
  revert d. apply (below_ind 16). destruct uc; repeat constructor.
Qed.

Lemma lut_at_upper d :
  0 <= d < 16 -> lut_at true (35 + d) = to_upper (lut_at false (35 + d)).
Proof.
  revert d. apply (below_ind 16). repeat constructor.
Qed.

Lemma quot_abs v b : 0 < b -> Z.abs (Z.quot v b) = Z.abs v / b.
Proof.
  intros Hb. destruct (Z_lt_le_dec v 0).
  - rewrite (Z.abs_neq v) by lia.
    replace v with (- - v) at 1 by lia. rewrite Z.quot_opp_l by lia.
    rewrite Z.abs_opp, Z.quot_div_nonneg by lia.
    apply Z.abs_eq. apply Z.div_pos; lia.
  - rewrite (Z.abs_eq v) by lia. rewrite Z.quot_div_nonneg by lia.
    apply Z.abs_eq. apply Z.div_pos; lia.
Qed.

Lemma rem_abs v b : 0 < b -> Z.abs (Z.rem v b) = Z.abs v mod b.
Proof.
  intros Hb. destruct (Z_lt_le_dec v 0).
  - rewrite (Z.abs_neq v) by lia.
    replace v with (- - v) at 1 by lia. rewrite Z.rem_opp_l by lia.
    rewrite Z.abs_opp, Z.rem_mod_nonneg by lia.
    apply Z.abs_eq. apply Z.mod_pos_bound; lia.
  - rewrite (Z.abs_eq v) by lia. rewrite Z.rem_mod_nonneg by lia.
    apply Z.abs_eq. apply Z.mod_pos_bound; lia.
Qed.

Lemma quot_sign v b : 0 < b -> Z.quot v b <> 0 -> (Z.quot v b < 0 <-> v < 0).
Proof.
  intros Hb Hq. destruct (Z_lt_le_dec v 0).
  - replace v with (- - v) in * by lia. rewrite Z.quot_opp_l in * by lia.
    rewrite Z.quot_div_nonneg in * by lia.
    assert (0 <= (- v) / b) by (apply Z.div_pos; lia). lia.
  - rewrite Z.quot_div_nonneg in * by lia.
    assert (0 <= v / b) by (apply Z.div_pos; lia). lia.
Qed.

Lemma rem_sign v b : 0 < b -> Z.rem v b = if v <? 0 then - Z.abs (Z.rem v b) else Z.abs (Z.rem v b).
Proof.
  intros Hb. destruct (Z.ltb_spec v 0).
  - assert (Z.rem v b <= 0) by (apply Z.rem_nonpos; lia). lia.
  - assert (0 <= Z.rem v b) by (apply Z.rem_nonneg; lia). lia.
Qed.

Lemma in_range_quot t v b :
  0 < width t -> 0 < b -> in_range t v -> in_range t (Z.quot v b).
Proof.
  intros Hw Hb. unfold in_range.
  assert (Ha := quot_abs v b Hb).
  assert (Hd : 0 <= Z.abs v / b <= Z.abs v).
  { split; [apply Z.div_pos; lia |]. apply Z.div_le_upper_bound; nia. }
  assert (Hs : Z.quot v b = 0 \/ (Z.quot v b < 0 <-> v < 0)).
  { destruct (Z.eq_dec (Z.quot v b) 0); [auto | right; now apply quot_sign]. }
  destruct (is_signed t); lia.
Qed.

Lemma in_range_quot_mul t v b :
  0 < width t -> 0 < b -> in_range t v -> in_range t (Z.quot v b * b).
Proof.
  intros Hw Hb. unfold in_range.
  assert (E := Z.quot_rem' v b).
  assert (Hr := rem_sign v b Hb).
  assert (Hm : 0 <= Z.abs v mod b < b) by (apply Z.mod_pos_bound; lia).
  rewrite (rem_abs v b Hb) in Hr.
  assert (Ha : Z.abs v mod b <= Z.abs v) by (apply Z.mod_le; lia).
  destruct (Z.ltb_spec v 0); destruct (is_signed t); lia.
Qed.

Lemma in_range_small t d :
  8 <= width t -> -16 < d < 16 -> (is_signed t = false -> 0 <= d) -> in_range t d.
Proof.
  intros Hw Hd Hs. unfold in_range.
  assert (2 ^ 7 <= 2 ^ (width t - 1)) by (apply Z.pow_le_mono_r; lia).
  assert (2 ^ 7 <= 2 ^ width t) by (apply Z.pow_le_mono_r; lia).
  change (2 ^ 7) with 128 in *.
  destruct (is_signed t); [lia | specialize (Hs eq_refl); lia].
Qed.

Lemma digit_loop_spec t b uc :
  8 <= width t -> 1 < b <= 16 ->
  forall passes v buf, in_range t v ->
  exists tmp,
    digit_loop t b uc passes v buf
      = (buf ++ digit_chars uc (lsd_first b passes (Z.abs v)), tmp)
    /\ (tmp < 0 <-> v < 0).
Proof.
  intros Hw Hb. induction passes as [| passes IH]; intros v buf Hv.
  all: assert (Hq : cast t (Z.quot v b) = Z.quot v b)
         by (apply cast_in_range; [lia | apply in_range_quot; [lia | lia | done]]).
  all: assert (Hqm : cast t (Z.quot v b * b) = Z.quot v b * b)
         by (apply cast_in_range; [lia | apply in_range_quot_mul; [lia | lia | done]]).
  all: assert (Hrem : v - Z.quot v b * b = Z.rem v b)
         by (pose proof (Z.quot_rem' v b); lia).
  all: assert (Hm : 0 <= Z.abs v mod b < b) by (apply Z.mod_pos_bound; lia).
  all: assert (Hra := rem_abs v b ltac:(lia)).
  all: assert (Hrs := rem_sign v b ltac:(lia)).
  all: assert (Hrr : cast t (Z.rem v b) = Z.rem v b).
  1,3: apply cast_in_range; [lia |]; apply in_range_small; [lia | destruct (v <? 0); lia |];
       intros Hu; unfold in_range in Hv; rewrite Hu in Hv;
       destruct (Z.ltb_spec v 0); lia.
  all: assert (Hdig : lut_at uc (35 + Z.rem v b) = lut_at uc (35 + Z.abs v mod b)).
  1,3: rewrite Hrs, Hra; destruct (v <? 0); [| done];
       replace (35 + - (Z.abs v mod b)) with (35 - Z.abs v mod b) by lia;
       apply lut_at_digit; lia.
  - exists v. split; [| done]. simpl. rewrite Hq, Hqm, Hrem, Hrr, Hdig. done.
  - simpl. rewrite Hq, Hqm, Hrem, Hrr, Hdig.
    assert (Hz : (Z.quot v b =? 0) = (Z.abs v / b =? 0)).
    { rewrite <- quot_abs by lia. destruct (Z.eqb_spec (Z.quot v b) 0);
        destruct (Z.eqb_spec (Z.abs (Z.quot v b)) 0); lia. }
    rewrite <- Hz. destruct (Z.eqb_spec (Z.quot v b) 0) as [E | E].
    + exists v. done.
    + destruct (IH (Z.quot v b) (buf ++ [lut_at uc (35 + Z.abs v mod b)])) as (tmp & -> & Hs).
      { apply in_range_quot; [lia | lia | done]. }
      exists tmp. split.
      * rewrite quot_abs by lia. unfold digit_chars. simpl.
        now rewrite <- app_assoc.
      * rewrite Hs. apply quot_sign; [lia | done].
Qed.

Lemma lsd_first_length b passes n : (length (lsd_first b passes n) <= S passes)%nat.
Proof.
  revert n. induction passes as [| p IH]; intros n; simpl; [lia |].
  destruct (n / b =? 0); simpl; [lia |]. specialize (IH (n / b)). lia.
Qed.

Lemma lsd_first_digits b passes n k :
  1 < b -> 0 <= n < b ^ Z.of_nat (S k) -> (length (lsd_first b passes n) <= S k)%nat.
Proof.
  intros Hb. revert n k. induction passes as [| p IH]; intros n k Hn; simpl; [lia |].
  destruct (Z.eqb_spec (n / b) 0) as [E | E]; simpl; [lia |].
  destruct k as [| k].
  - exfalso. apply E. apply Z.div_small. simpl in Hn. lia.
  - specialize (IH (n / b) k). apply le_n_S, IH. split; [apply Z.div_pos; lia |].
    apply Z.div_lt_upper_bound; [lia |].
    rewrite (Nat2Z.inj_succ (S k)), Z.pow_succ_r in Hn by lia. lia.
Qed.

(** *** Decimal: the loop against the printer of the standard library *)

Lemma dec_chars_revapp d d' :
  dec_chars (Decimal.revapp d d') = rev (dec_chars d) ++ dec_chars d'.
Proof.
  unfold dec_chars. revert d'.
  induction d; intros d'; simpl; [done | ..];
    rewrite IHd; simpl; now rewrite <- app_assoc.
Qed.

Lemma dec_chars_rev d : dec_chars (Decimal.rev d) = rev (dec_chars d).
Proof. unfold Decimal.rev. rewrite dec_chars_revapp. unfold dec_chars at 2. simpl. apply app_nil_r. Qed.

Lemma dec_to_lu_step (q k : N) :
  (0 < q)%N ->
  DecimalPos.Unsigned.to_lu (10 * q + k)
  = Nat.iter (N.to_nat k) Decimal.Little.succ (Decimal.D0 (DecimalPos.Unsigned.to_lu q)).
Proof.
  intros Hq. induction k as [| k IH] using N.peano_ind.
  - rewrite N.add_0_r. destruct q as [| p]; [lia |].
    apply DecimalPos.Unsigned.to_ldec_tenfold.
  - rewrite N.add_succ_r, DecimalPos.Unsigned.to_lu_succ, IH, N2Nat.inj_succ. done.
Qed.

Lemma dec_small n :
  0 <= n < 10 -> dec_chars (DecimalPos.Unsigned.to_lu (Z.to_N n)) = [lut_at false (35 + n)].
Proof.
  revert n. apply (below_ind 10). repeat constructor.
Qed.

Lemma dec_push d k :
  0 <= k < 10 ->
  dec_chars (Nat.iter (N.to_nat (Z.to_N k)) Decimal.Little.succ (Decimal.D0 d))
  = lut_at false (35 + k) :: dec_chars d.
Proof.
  revert k. apply (below_ind 10). repeat constructor.
Qed.

Lemma dec_lsd passes n :
  0 <= n < 10 ^ Z.of_nat (S passes) ->
  dec_chars (DecimalPos.Unsigned.to_lu (Z.to_N n)) = digit_chars false (lsd_first 10 passes n).
Proof.
  revert n. induction passes as [| p IH]; intros n Hn.
  - simpl in *. rewrite Z.mod_small by lia. apply dec_small. lia.
  - cbn [lsd_first]. destruct (Z.eqb_spec (n / 10) 0) as [E | E].
    + assert (n < 10).
      { pose proof (Z.div_mod n 10 ltac:(lia)).
        pose proof (Z.mod_pos_bound n 10 ltac:(lia)). lia. }
      rewrite Z.mod_small by lia. apply dec_small. lia.
    + assert (Hq : 0 < n / 10).
      { assert (0 <= n / 10) by (apply Z.div_pos; lia). lia. }
      assert (Hk : 0 <= n mod 10 < 10) by (apply Z.mod_pos_bound; lia).
      rewrite (Z.div_mod n 10) at 1 by lia.
      rewrite Z2N.inj_add, Z2N.inj_mul by lia.
      change (Z.to_N 10) with 10%N.
      rewrite dec_to_lu_step by lia.
      rewrite dec_push by lia. unfold digit_chars. simpl. f_equal.
      apply IH. split; [lia |].
      apply Z.div_lt_upper_bound; [lia |].
      rewrite (Nat2Z.inj_succ (S p)), Z.pow_succ_r in Hn by lia. lia.
Qed.

Lemma decimal_digits_lsd passes v :
  Z.abs v < 10 ^ Z.of_nat (S passes) ->
  decimal_digits v
  = (if v <? 0 then ["-"] else []) ++ rev (digit_chars false (lsd_first 10 passes (Z.abs v))).
Proof.
  intros Hv. rewrite <- dec_lsd by lia. rewrite <- dec_chars_rev.
  unfold decimal_digits. destruct v as [| p | p]; try reflexivity.
Qed.

(** *** Hexadecimal *)

Lemma hex_chars_revapp d d' :
  hex_chars (Hexadecimal.revapp d d') = rev (hex_chars d) ++ hex_chars d'.
Proof.
  unfold hex_chars. revert d'.
  induction d; intros d'; simpl; [done | ..];
    rewrite IHd; simpl; now rewrite <- app_assoc.
Qed.

Lemma hex_chars_rev d : hex_chars (Hexadecimal.rev d) = rev (hex_chars d).
Proof.
  unfold Hexadecimal.rev. rewrite hex_chars_revapp. unfold hex_chars at 2. simpl.
  apply app_nil_r.
Qed.

Lemma hex_to_lu_step (q k : N) :
  (0 < q)%N ->
  HexadecimalPos.Unsigned.to_lu (16 * q + k)
  = Nat.iter (N.to_nat k) Hexadecimal.Little.succ
      (Hexadecimal.D0 (HexadecimalPos.Unsigned.to_lu q)).
Proof.
  intros Hq. induction k as [| k IH] using N.peano_ind.
  - rewrite N.add_0_r. destruct q as [| p]; [lia |].
    apply HexadecimalPos.Unsigned.to_lhex_tenfold.
  - rewrite N.add_succ_r, HexadecimalPos.Unsigned.to_lu_succ, IH, N2Nat.inj_succ. done.
Qed.

Lemma hex_small n :
  0 <= n < 16 -> hex_chars (HexadecimalPos.Unsigned.to_lu (Z.to_N n)) = [lut_at false (35 + n)].
Proof.
  revert n. apply (below_ind 16). repeat constructor.
Qed.

Lemma hex_push d k :
  0 <= k < 16 ->
  hex_chars (Nat.iter (N.to_nat (Z.to_N k)) Hexadecimal.Little.succ (Hexadecimal.D0 d))
  = lut_at false (35 + k) :: hex_chars d.
Proof.
  revert k. apply (below_ind 16). repeat constructor.
Qed.

Lemma hex_lsd passes n :
  0 <= n < 16 ^ Z.of_nat (S passes) ->
  hex_chars (HexadecimalPos.Unsigned.to_lu (Z.to_N n)) = digit_chars false (lsd_first 16 passes n).
Proof.
  revert n. induction passes as [| p IH]; intros n Hn.
  - simpl in *. rewrite Z.mod_small by lia. apply hex_small. lia.
  - cbn [lsd_first]. destruct (Z.eqb_spec (n / 16) 0) as [E | E].
    + assert (n < 16).
      { pose proof (Z.div_mod n 16 ltac:(lia)).
        pose proof (Z.mod_pos_bound n 16 ltac:(lia)). lia. }
      rewrite Z.mod_small by lia. apply hex_small. lia.
    + assert (Hq : 0 < n / 16).
      { assert (0 <= n / 16) by (apply Z.div_pos; lia). lia. }
      assert (Hk : 0 <= n mod 16 < 16) by (apply Z.mod_pos_bound; lia).
      rewrite (Z.div_mod n 16) at 1 by lia.
      rewrite Z2N.inj_add, Z2N.inj_mul by lia.
      change (Z.to_N 16) with 16%N.
      rewrite hex_to_lu_step by lia.
      rewrite hex_push by lia. unfold digit_chars. simpl. f_equal.
      apply IH. split; [lia |].
      apply Z.div_lt_upper_bound; [lia |].
      rewrite (Nat2Z.inj_succ (S p)), Z.pow_succ_r in Hn by lia. lia.
Qed.

Lemma digit_chars_upper ds :
  Forall (fun d => 0 <= d < 16) ds ->
  digit_chars true ds = map to_upper (digit_chars false ds).
Proof.
  induction 1 as [| d ds Hd _ IH]; [done |].
  unfold digit_chars in *. simpl. rewrite IH. f_equal. now apply lut_at_upper.
Qed.

Lemma lsd_first_bound b passes n :
  0 < b -> Forall (fun d => 0 <= d < b) (lsd_first b passes n).
Proof.
  intros Hb. revert n. induction passes as [| p IH]; intros n; simpl.
  - constructor; [apply Z.mod_pos_bound; lia | constructor].
  - constructor; [apply Z.mod_pos_bound; lia |].
    destruct (n / b =? 0); [constructor | apply IH].
Qed.

Lemma hex_digits_lsd uc passes v :
  0 <= v < 16 ^ Z.of_nat (S passes) ->
  hex_digits uc v = rev (digit_chars uc (lsd_first 16 passes v)).
Proof.
  intros Hv. unfold hex_digits.
  assert (E : list_ascii_of_string
                (HexadecimalString.NilEmpty.string_of_uint (N.to_hex_uint (Z.to_N v)))
              = rev (digit_chars false (lsd_first 16 passes v))).
  { rewrite <- hex_lsd by lia. rewrite <- hex_chars_rev.
    destruct v as [| p | p]; reflexivity. }
  rewrite E. destruct uc; [| done].
  rewrite digit_chars_upper by (apply lsd_first_bound; lia).
  now rewrite map_rev.
Qed.

(** The loop leaves by itself: once the passes cover the digits of the
    value, one more pass changes nothing. *)
Lemma digit_loop_fuel t b uc :
  8 <= width t -> 1 < b <= 16 ->
  forall passes v buf, in_range t v -> Z.abs v < b ^ Z.of_nat (S passes) ->
  digit_loop t b uc (S passes) v buf = digit_loop t b uc passes v buf.
Proof.
  intros Hw Hb. induction passes as [| passes IH]; intros v buf Hv Hsmall.
  all: assert (Hq : cast t (Z.quot v b) = Z.quot v b)
         by (apply cast_in_range; [lia | apply in_range_quot; [lia | lia | done]]).
  - cbn [digit_loop]. rewrite Hq.
    assert (E : Z.quot v b = 0).
    { apply Z.abs_0_iff. rewrite quot_abs by lia. apply Z.div_small.
      change (Z.of_nat 1) with 1 in Hsmall. rewrite Z.pow_1_r in Hsmall. lia. }
    rewrite E. reflexivity.
  - change (digit_loop t b uc (S (S passes)) v buf)
      with (let value := cast t (Z.quot v b) in
            let buf' := buf ++ [lut_at uc (35 + cast t (v - cast t (value * b)))] in
            if value =? 0 then (buf', v) else digit_loop t b uc (S passes) value buf').
    change (digit_loop t b uc (S passes) v buf)
      with (let value := cast t (Z.quot v b) in
            let buf' := buf ++ [lut_at uc (35 + cast t (v - cast t (value * b)))] in
            if value =? 0 then (buf', v) else digit_loop t b uc passes value buf').
    cbv zeta. rewrite Hq. destruct (Z.quot v b =? 0); [reflexivity |].
    apply IH; [apply in_range_quot; [lia | lia | done] |].
    rewrite quot_abs by lia. apply Z.div_lt_upper_bound; [lia |].
    rewrite (Nat2Z.inj_succ (S passes)), Z.pow_succ_r in Hsmall by lia. lia.
Qed.

(** *** [format_integer] on the four instantiations *)

Lemma in_range_abs_bound t v :
  0 < width t <= 64 -> in_range t v -> Z.abs v < 10 ^ 65 /\ Z.abs v < 16 ^ 65.
Proof.
  intros Hw Hv. unfold in_range in Hv.
  assert (2 ^ width t <= 2 ^ 64) by (apply Z.pow_le_mono_r; lia).
  assert (2 ^ (width t - 1) <= 2 ^ 64) by (apply Z.pow_le_mono_r; lia).
  assert (2 ^ 64 < 10 ^ 65) by reflexivity.
  assert (2 ^ 64 < 16 ^ 65) by reflexivity.
  destruct (is_signed t); lia.
Qed.

Lemma cast_int_length (l : list ascii) :
  (length l <= 100)%nat -> cast int (Z.of_nat (length l)) = Z.of_nat (length l).
Proof.
  intros H. apply cast_in_range; [reflexivity |].
  unfold in_range, int, int32_t. simpl. lia.
Qed.

Lemma format_integer_decimal t v :
  8 <= width t <= 64 -> in_range t v ->
  format_integer t 10 false v = (decimal_digits v, Z.of_nat (length (decimal_digits v))).
Proof.
  intros Hw Hv. unfold format_integer.
  assert (Hb : cast t 10 = 10).
  { apply cast_in_range; [lia |]. apply in_range_small; [lia | lia | lia]. }
  rewrite Hb.
  destruct (digit_loop_spec t 10 false ltac:(lia) ltac:(lia) 64%nat v [] Hv) as (tmp & -> & Hs).
  rewrite (decimal_digits_lsd 64 v) by (apply (in_range_abs_bound t v); [lia | done]).
  pose proof (lsd_first_length 10 64 (Z.abs v)) as Hlen.
  set (ds := digit_chars false (lsd_first 10 64 (Z.abs v))) in *.
  assert (Hl : length ds = length (lsd_first 10 64 (Z.abs v))) by apply length_map.
  cbn [app].
  assert (Hsign : (tmp <? 0) = (v <? 0)).
  { destruct (Z.ltb_spec tmp 0); destruct (Z.ltb_spec v 0); lia. }
  rewrite Hsign. destruct (v <? 0).
  - rewrite rev_app_distr. cbn [rev app].
    rewrite cast_int_length by (rewrite length_app; cbn [length]; lia).
    rewrite length_app. cbn [length app]. rewrite length_rev. f_equal. f_equal. lia.
  - rewrite cast_int_length by lia. cbn [app]. now rewrite length_rev.
Qed.

Lemma format_integer_hex t uc v :
  is_signed t = false -> 8 <= width t <= 64 -> in_range t v ->
  format_integer t 16 uc v = (hex_digits uc v, Z.of_nat (length (hex_digits uc v))).
Proof.
  intros Hu Hw Hv. unfold format_integer.
  assert (Hb : cast t 16 = 16).
  { unfold cast. rewrite Hu. apply Z.mod_small.
    assert (2 ^ 8 <= 2 ^ width t) by (apply Z.pow_le_mono_r; lia).
    change (2 ^ 8) with 256 in *. lia. }
  rewrite Hb.
  destruct (digit_loop_spec t 16 uc ltac:(lia) ltac:(lia) 64%nat v [] Hv) as (tmp & -> & Hs).
  assert (Hv0 : 0 <= v) by (unfold in_range in Hv; rewrite Hu in Hv; lia).
  rewrite (Z.abs_eq v) by lia.
  rewrite (hex_digits_lsd uc 64 v).
  2:{ pose proof (in_range_abs_bound t v ltac:(lia) Hv). lia. }
  pose proof (lsd_first_length 16 64 v) as Hlen.
  set (ds := digit_chars uc (lsd_first 16 64 v)) in *.
  assert (Hl : length ds = length (lsd_first 16 64 v)) by apply length_map.
  cbn [app].
  destruct (Z.ltb_spec tmp 0); [lia |].
  rewrite cast_int_length by lia. now rewrite length_rev.
Qed.

(** The scratch array [buf[20]] is large enough in each instantiation that
    the program uses. *)
Lemma format_integer_scratch t tbase uc v :
  (t = int32_t \/ t = int64_t) /\ tbase = 10 \/
  (t = uint32_t \/ t = uint64_t) /\ (tbase = 10 \/ tbase = 16) ->
  in_range t v ->
  0 <= snd (format_integer t tbase uc v) <= 20.
Proof.
  intros Ht Hv. unfold format_integer.
  assert (Hw : 8 <= width t <= 64) by (destruct Ht as [[[-> | ->] _] | [[-> | ->] _]]; simpl; lia).
  assert (Hb : cast t tbase = tbase).
  { destruct Ht as [[[-> | ->] ->] | [[-> | ->] [-> | ->]]]; reflexivity. }
  rewrite Hb.
  destruct (digit_loop_spec t tbase uc ltac:(lia) ltac:(lia) 64%nat v [] Hv) as (tmp & -> & Hs).
  cbn [app snd].
  set (ds := digit_chars uc (lsd_first tbase 64 (Z.abs v))).
  assert (Hl : length ds = length (lsd_first tbase 64 (Z.abs v))) by apply length_map.
  assert (Hd : (length ds + (if (tmp <? 0)%Z then 1 else 0) <= 20)%nat).
  { rewrite Hl. unfold in_range in Hv.
    destruct Ht as [[[-> | ->] ->] | [[-> | ->] [-> | ->]]]; simpl in Hv.
    - pose proof (lsd_first_digits 10 64 (Z.abs v) 9 ltac:(lia) ltac:(simpl; lia)).
      destruct (tmp <? 0); lia.
    - pose proof (lsd_first_digits 10 64 (Z.abs v) 18 ltac:(lia) ltac:(simpl; lia)).
      destruct (tmp <? 0); lia.
    - pose proof (lsd_first_digits 10 64 (Z.abs v) 9 ltac:(lia) ltac:(simpl; lia)).
      destruct (Z.ltb_spec tmp 0); lia.
    - pose proof (lsd_first_digits 16 64 (Z.abs v) 7 ltac:(lia) ltac:(simpl; lia)).
      destruct (Z.ltb_spec tmp 0); lia.
    - pose proof (lsd_first_digits 10 64 (Z.abs v) 19 ltac:(lia) ltac:(simpl; lia)).
      destruct (Z.ltb_spec tmp 0); lia.
    - pose proof (lsd_first_digits 16 64 (Z.abs v) 15 ltac:(lia) ltac:(simpl; lia)).
      destruct (Z.ltb_spec tmp 0); lia. }
  assert (Hlen : length (if tmp <? 0 then ds ++ ["-"] else ds)
                 = (length ds + (if (tmp <? 0)%Z then 1 else 0))%nat).
  { destruct (tmp <? 0); [rewrite length_app; cbn [length]; lia | lia]. }
  rewrite cast_int_length by lia. lia.
Qed.

(** *** The dispatch of [format_int32] and [format_int64] *)

Lemma is_char_true c d : is_char c d = true <-> c = d.
Proof. unfold is_char. apply Ascii.eqb_eq. Qed.

Lemma one_of_true c l : one_of c l = true <-> In c l.
Proof.
  unfold one_of. rewrite existsb_exists. split.
  - intros (d & Hd & E). apply is_char_true in E. now subst.
  - intros H. exists c. split; [done | now apply is_char_true].
Qed.

Lemma wrap_signed_in_range w z :
  0 < w -> - 2 ^ (w - 1) <= z < 2 ^ (w - 1) -> wrap_signed w z = z.
Proof.
  intros Hw H. unfold wrap_signed.
  assert (E : 2 ^ w = 2 * 2 ^ (w - 1)).
  { rewrite <- Z.pow_succ_r by lia. f_equal. lia. }
  rewrite Z.mod_small; lia.
Qed.

Lemma wrap_unsigned_range w z : 0 < w -> 0 <= wrap_unsigned w z < 2 ^ w.
Proof. intros Hw. unfold wrap_unsigned. apply Z.mod_pos_bound. lia. Qed.

Section Dispatch.
Context `{RT : Runtime}.

Lemma format_int32_fast letter count v :
  one_of letter ["d"; "i"; "u"; "x"; "X"] = true ->
  in_range int32_t v ->
  (if one_of letter ["x"; "X"] then 8 else 11) <= count ->
  format_int32 count ["%"; letter; NUL] v
  = (snprintf_plain 32 letter v, Z.of_nat (length (snprintf_plain 32 letter v))).
Proof.
  intros Hl Hv Hc. apply one_of_true in Hl.
  assert (Hu : in_range uint32_t (cast uint32_t v))
    by (apply (wrap_unsigned_range 32); lia).
  assert (Hs : wrap_signed 32 v = v) by (apply wrap_signed_in_range; [lia | apply Hv]).
  unfold format_int32, snprintf_plain.
  change (char_at ["%"; letter; NUL] 1) with letter.
  destruct Hl as [<- | [<- | [<- | [<- | [<- | []]]]]];
    cbn [one_of existsb is_char Ascii.eqb Bool.eqb orb andb] in *;
    (destruct (Z.leb_spec 11 count); [| lia]) || (destruct (Z.leb_spec 8 count); [| lia]);
    cbn [andb]; rewrite ?Hs;
    first [ apply format_integer_decimal; [simpl; lia | done]
          | apply format_integer_hex; [done | simpl; lia | done] ].
Qed.

Lemma format_int64_fast letter count v :
  WIN32 = true ->
  one_of letter ["d"; "i"; "u"; "x"; "X"] = true ->
  in_range int64_t v ->
  (if one_of letter ["x"; "X"] then 16 else 20) <= count ->
  format_int64 count ("%" :: i64Prefix ++ [letter; NUL]) v
  = (snprintf_plain 64 letter v, Z.of_nat (length (snprintf_plain 64 letter v))).
Proof.
  intros Hwin Hl Hv Hc. apply one_of_true in Hl.
  assert (Hu : in_range uint64_t (cast uint64_t v))
    by (apply (wrap_unsigned_range 64); lia).
  assert (Hs : wrap_signed 64 v = v) by (apply wrap_signed_in_range; [lia | apply Hv]).
  unfold format_int64, snprintf_plain, i64Prefix. rewrite Hwin.
  cbn [app].
  change (char_at ["%"; "I"; "6"; "4"; letter; NUL] 4) with letter.
  change (is_char (char_at ["%"; "I"; "6"; "4"; letter; NUL] 1) (char_at ["I"; "6"; "4"] 0)
          && is_char (char_at ["%"; "I"; "6"; "4"; letter; NUL] 2) (char_at ["I"; "6"; "4"] 1)
          && is_char (char_at ["%"; "I"; "6"; "4"; letter; NUL] 3) (char_at ["I"; "6"; "4"] 2))
    with true.
  destruct Hl as [<- | [<- | [<- | [<- | [<- | []]]]]];
    cbn [one_of existsb is_char Ascii.eqb Bool.eqb orb andb] in *;
    (destruct (Z.leb_spec 20 count); [| lia]) || (destruct (Z.leb_spec 16 count); [| lia]);
    cbn [andb]; rewrite ?Hs;
    first [ apply format_integer_decimal; [simpl; lia | done]
          | apply format_integer_hex; [done | simpl; lia | done] ].
Qed.

(** Built without [_WIN32], [format_int64] looks for the conversion letter
    one cell too far: on the plain directive it finds the terminator and
    leaves the value to the backend. *)
Lemma format_int64_posix_plain letter count v :
  WIN32 = false ->
  format_int64 count ("%" :: i64Prefix ++ [letter; NUL]) v
  = fmt_snprintf count ("%" :: i64Prefix ++ [letter; NUL]) (va_int64 v).
Proof.
  intros Hwin. unfold format_int64, i64Prefix. rewrite Hwin. cbn [app].
  change (char_at ["%"; "l"; "l"; letter; NUL] 4) with NUL.
  cbn [one_of existsb is_char Ascii.eqb Bool.eqb orb andb NUL].
  now rewrite !andb_false_r.
Qed.

End Dispatch.

(** C1.  For every value of the 32-bit and of the 64-bit argument types and
    each of the plain conversions d, i, u, x and X, the fast path taken by
    [format_int32] and [format_int64] (that is, [format_integer] at the
    instantiation they select) stores exactly the digits that the generic
    backend prints for the same value, base and letter case, and returns
    their number.  The fast path is taken whenever the destination has the
    room the dispatcher asks for; the 64-bit dispatch is the one of the
    Windows build. *)
Theorem fast_integer_path_matches_backend `{RT : Runtime} (letter : ascii) (count v : Z) :
  one_of letter ["d"; "i"; "u"; "x"; "X"] = true ->
  (in_range int32_t v ->
   (if one_of letter ["x"; "X"] then 8 else 11) <= count ->
   format_int32 count ["%"; letter; NUL] v
   = (snprintf_plain 32 letter v, Z.of_nat (length (snprintf_plain 32 letter v))))
  /\
  (WIN32 = true ->
   in_range int64_t v ->
   (if one_of letter ["x"; "X"] then 16 else 20) <= count ->
   format_int64 count ("%" :: i64Prefix ++ [letter; NUL]) v
   = (snprintf_plain 64 letter v, Z.of_nat (length (snprintf_plain 64 letter v)))).
Proof.
  intros Hl. split.
  - intros Hv Hc. now apply format_int32_fast.
  - intros Hw Hv Hc. now apply format_int64_fast.
Qed.

Lemma fast_integer_path_matches_backend_witness :
  format_int32 (RT := sample_runtime) 11 ["%"; "d"; NUL] (-2147483648)
  = (snprintf_plain 32 "d" (-2147483648),
     Z.of_nat (length (snprintf_plain 32 "d" (-2147483648))))
  /\ format_int64 (RT := sample_runtime) 20
       ("%" :: i64Prefix (RT := sample_runtime) ++ ["d"; NUL]) (-2147483648)
     = (snprintf_plain 64 "d" (-2147483648),
        Z.of_nat (length (snprintf_plain 64 "d" (-2147483648)))).
Proof.
  destruct (fast_integer_path_matches_backend (RT := sample_runtime)
              "d" 20 (-2147483648) eq_refl) as [H32 H64].
  split.
  - apply (proj1 (fast_integer_path_matches_backend (RT := sample_runtime)
                    "d" 11 (-2147483648) eq_refl)).
    + unfold in_range; simpl; lia.
    + simpl; lia.
  - apply H64.
    + reflexivity.
    + unfold in_range; simpl; lia.
    + simpl; lia.
Defined.

Example format_integer_int32_min :
  format_integer int32_t 10 false (-2147483648)
  = (list_ascii_of_string "-2147483648", 11).
Proof. reflexivity. Qed.

Example format_integer_uint64_max_hex :
  format_integer uint64_t 16 true 18446744073709551615
  = (list_ascii_of_string "FFFFFFFFFFFFFFFF", 16).
Proof. reflexivity. Qed.

(** ** Arrays and the store *)

Lemma ensures_bind {A B} tol (x : outcome A) (k : A -> outcome B) (Q : A -> Prop)
    (R : B -> Prop) :
  ensures tol x Q -> (forall a, Q a -> ensures tol (k a) R) -> ensures tol (x ≫= k) R.
Proof. destruct x as [a | f]; simpl; auto. Qed.

Lemma ensures_mono {A} (tol tol' : fault -> bool) (x : outcome A) (Q R : A -> Prop) :
  ensures tol x Q -> (forall f, tol f = true -> tol' f = true) ->
  (forall a, Q a -> R a) -> ensures tol' x R.
Proof. destruct x as [a | f]; simpl; auto. Qed.

Lemma memory_only_no_abort f : memory_only f = true -> no_abort f = true.
Proof. now destruct f. Qed.

Lemma memory_only_alloc_or_overrun f :
  memory_only f = true -> alloc_or_overrun f = true.
Proof. now destruct f. Qed.

Lemma poke_inside cells off data :
  (Z.to_nat off <= length cells)%nat ->
  poke cells off data
  = take (Z.to_nat off) cells ++ data ++ drop (Z.to_nat off + length data) cells.
Proof.
  intros H. unfold poke.
  replace (Z.to_nat off - length cells)%nat with O by lia. done.
Qed.

Lemma length_poke cells off data :
  length (poke cells off data) = Nat.max (length cells) (Z.to_nat off + length data).
Proof.
  unfold poke. rewrite !length_app, length_take, length_replicate, length_drop. lia.
Qed.

Lemma take_poke_before cells off data k :
  (k <= Z.to_nat off)%nat -> (Z.to_nat off <= length cells)%nat ->
  take k (poke cells off data) = take k cells.
Proof.
  intros Hk Ho. rewrite poke_inside by done.
  rewrite take_app_le by (rewrite length_take; lia).
  rewrite take_take. f_equal. lia.
Qed.

Lemma take_poke_through cells off data :
  (Z.to_nat off <= length cells)%nat ->
  take (Z.to_nat off + length data) (poke cells off data)
  = take (Z.to_nat off) cells ++ data.
Proof.
  intros Ho. rewrite poke_inside by done.
  rewrite app_assoc. apply take_app_length'.
  rewrite length_app, length_take. lia.
Qed.

Lemma load_store_same m p off data :
  live m p -> load (store m p off data) p = poke (load m p) off data.
Proof.
  destruct p as [| b]; simpl; [done |]. intros [cells E].
  now rewrite lookup_alter_eq, E.
Qed.

Lemma load_store_other m p q off data :
  p <> q -> load (store m p off data) q = load m q.
Proof.
  destruct p as [| b], q as [| c]; simpl; try done.
  intros Hne. rewrite lookup_alter_ne; [done | congruence].
Qed.

Lemma live_store m p off data q : live m q -> live (store m p off data) q.
Proof.
  destruct p as [| b], q as [| c]; simpl; try done.
  intros H. apply lookup_alter_is_Some. done.
Qed.

Lemma heap_fresh_store m p off data : heap_fresh m -> heap_fresh (store m p off data).
Proof.
  unfold heap_fresh. destruct p as [| b]; simpl; [done |].
  intros H c Hc. apply lookup_alter_None. auto.
Qed.

Lemma released_store m p off data : released (store m p off data) = released m.
Proof. now destruct p. Qed.

Lemma next_block_store m p off data : next_block (store m p off data) = next_block m.
Proof. now destruct p. Qed.

Lemma live_below m b : heap_fresh m -> live m (Heap b) -> (b < next_block m)%nat.
Proof.
  intros Hf [cells E]. destruct (Nat.lt_ge_cases b (next_block m)) as [| Hge]; [done |].
  rewrite (Hf b Hge) in E. discriminate.
Qed.

Lemma live_not_next m p : heap_fresh m -> live m p -> p <> Heap (next_block m).
Proof.
  intros Hf Hl ->. apply live_below in Hl; [lia | done].
Qed.

(** ** [StackBuffer] *)

Lemma cast_size_t z : 0 <= z < 2 ^ 64 -> cast size_t z = z.
Proof. intros H. apply Z.mod_small. exact H. Qed.

Lemma cast_ssize_t z : - 2 ^ 63 <= z < 2 ^ 63 -> cast ssize_t z = z.
Proof. intros H. apply (wrap_signed_in_range 64); [lia | exact H]. Qed.

Section BufferFacts.
Context `{RT : Runtime}.

Lemma load_new_array_other m n p m' q :
  new_array m n = Ok (p, m') -> q <> p -> load m' q = load m q.
Proof.
  unfold new_array. destruct (n <=? max_alloc); [| discriminate].
  intros [= <- <-] Hne. destruct q as [| c]; simpl; [done |].
  rewrite lookup_insert_ne; [done | congruence].
Qed.

Lemma Reserve_unfold (sb : StackBuffer) (m : memory) (requested : Z) :
  0 <= Pos sb -> 0 <= requested -> Pos sb + requested < 2 ^ 64 ->
  0 <= Capacity sb -> Capacity sb * 2 < 2 ^ 64 ->
  Reserve requested (sb, m)
  = if Capacity sb <? Pos sb + requested then
      let ncap := Z.max (Capacity sb * 2) (Pos sb + requested) in
      if ncap <=? max_alloc then
        Ok ({| Buffer := Heap (next_block m); Pos := Pos sb; Capacity := ncap;
               OwnBuffer := true |}, grown sb m ncap)
      else Fail BadAlloc
    else Ok (sb, m).
Proof.
  intros Hp Hr Hsum Hc Hc2. unfold Reserve.
  rewrite !cast_size_t by lia.
  destruct (Z.ltb_spec (Capacity sb) (Pos sb + requested)); [| done].
  replace (if Capacity sb * 2 <? Pos sb + requested
           then Pos sb + requested else Capacity sb * 2)
    with (Z.max (Capacity sb * 2) (Pos sb + requested))
    by (destruct (Z.ltb_spec (Capacity sb * 2) (Pos sb + requested)); lia).
  cbv zeta. unfold new_array.
  destruct (Z.max (Capacity sb * 2) (Pos sb + requested) <=? max_alloc); reflexivity.
Qed.

Lemma load_grown_new sb m ncap :
  0 <= Pos sb <= Z.of_nat (length (load m (Buffer sb))) ->
  live m (Buffer sb) -> heap_fresh m ->
  load (grown sb m ncap) (Heap (next_block m))
  = take (Z.to_nat (Pos sb)) (load m (Buffer sb))
    ++ drop (Z.to_nat (Pos sb)) (replicate (Z.to_nat ncap) uninit).
Proof.
  intros Hp Hlive Hfresh. unfold grown. cbv zeta.
  set (nb := next_block m).
  set (m1 := {| static_mem := static_mem m;
                heap_mem := <[nb := replicate (Z.to_nat ncap) uninit]> (heap_mem m);
                next_block := S nb; released := released m |}).
  assert (Hne : Buffer sb <> Heap nb) by now apply live_not_next.
  assert (Hold : load m1 (Buffer sb) = load m (Buffer sb)).
  { destruct (Buffer sb) as [| b]; simpl; [done |].
    rewrite lookup_insert_ne; [done | congruence]. }
  assert (E2 : load (memcpy m1 (Heap nb) (Buffer sb) (Pos sb)) (Heap nb)
               = take (Z.to_nat (Pos sb)) (load m (Buffer sb))
                 ++ drop (Z.to_nat (Pos sb)) (replicate (Z.to_nat ncap) uninit)).
  { unfold memcpy. rewrite load_store_same by (simpl; rewrite lookup_insert_eq; eauto).
    rewrite Hold. rewrite poke_inside by (simpl; lia).
    simpl. rewrite lookup_insert_eq. simpl.
    rewrite length_take_le by lia. done. }
  destruct (OwnBuffer sb); [| exact E2].
  rewrite <- E2. destruct (Buffer sb) as [| b]; simpl; [done |].
  rewrite lookup_delete_ne; [done | congruence].
Qed.

Lemma heap_fresh_grown sb m ncap : heap_fresh m -> heap_fresh (grown sb m ncap).
Proof.
  intros Hf b Hb. unfold grown in *. cbv zeta in *.
  assert (E : forall c, (S (next_block m) <= c)%nat ->
              (alter (fun cells => poke cells 0
                        (take (Z.to_nat (Pos sb))
                           (load {| static_mem := static_mem m;
                                    heap_mem := <[next_block m :=
                                      replicate (Z.to_nat ncap) uninit]> (heap_mem m);
                                    next_block := S (next_block m);
                                    released := released m |} (Buffer sb))))
                 (next_block m)
                 (<[next_block m := replicate (Z.to_nat ncap) uninit]> (heap_mem m)))
              !! c = None).
  { intros c Hc. apply lookup_alter_None. rewrite lookup_insert_ne by lia.
    apply Hf. lia. }
  destruct (OwnBuffer sb); simpl in *.
  - destruct (Buffer sb) as [| d]; simpl.
    + now apply E.
    + destruct (decide (d = b)) as [-> | Hne];
        [apply lookup_delete_eq | rewrite lookup_delete_ne by done; now apply E].
  - now apply E.
Qed.

Lemma released_grown sb m ncap :
  released (grown sb m ncap) = (if OwnBuffer sb then [Buffer sb] else []) ++ released m.
Proof. unfold grown. cbv zeta. destruct (OwnBuffer sb); reflexivity. Qed.

Lemma load_grown_old sb m ncap :
  live m (Buffer sb) -> heap_fresh m -> OwnBuffer sb = false ->
  load (grown sb m ncap) (Buffer sb) = load m (Buffer sb).
Proof.
  intros Hlive Hfresh Hown. unfold grown. cbv zeta. rewrite Hown.
  assert (Hne : Buffer sb <> Heap (next_block m)) by now apply live_not_next.
  unfold memcpy. rewrite load_store_other by congruence.
  destruct (Buffer sb) as [| b]; simpl; [done |].
  rewrite lookup_insert_ne; [done | congruence].
Qed.

Lemma Reserve_spec (sb : StackBuffer) (m : memory) (requested : Z) :
  0 <= Pos sb -> 0 <= requested -> Pos sb + requested < 2 ^ 64 ->
  0 <= Capacity sb -> Capacity sb * 2 < 2 ^ 64 ->
  Pos sb <= Z.of_nat (length (load m (Buffer sb))) ->
  live m (Buffer sb) -> heap_fresh m ->
  (Pos sb + requested > Capacity sb ->
   Z.max (Capacity sb * 2) (Pos sb + requested) <= max_alloc ->
   exists sb' m',
     Reserve requested (sb, m) = Ok (sb', m')
     /\ Capacity sb' = Z.max (Capacity sb * 2) (Pos sb + requested)
     /\ Pos sb' = Pos sb
     /\ OwnBuffer sb' = true
     /\ Buffer sb' = Heap (next_block m)
     /\ Z.of_nat (length (load m' (Buffer sb'))) = Capacity sb'
     /\ take (Z.to_nat (Pos sb)) (load m' (Buffer sb'))
        = take (Z.to_nat (Pos sb)) (load m (Buffer sb))
     /\ released m' = (if OwnBuffer sb then [Buffer sb] else []) ++ released m
     /\ (OwnBuffer sb = false -> load m' (Buffer sb) = load m (Buffer sb)))
  /\ (Pos sb + requested <= Capacity sb -> Reserve requested (sb, m) = Ok (sb, m)).
Proof.
  intros Hp Hr Hsum Hc Hc2 Hcells Hlive Hfresh.
  rewrite (Reserve_unfold sb m requested) by lia.
  split.
  - intros Hgrow Halloc.
    destruct (Z.ltb_spec (Capacity sb) (Pos sb + requested)); [| lia]. cbv zeta.
    destruct (Z.leb_spec (Z.max (Capacity sb * 2) (Pos sb + requested)) max_alloc); [| lia].
    eexists _, _. split; [reflexivity |]. cbn [Capacity Pos OwnBuffer Buffer].
    rewrite load_grown_new by (done || lia).
    repeat split; try done.
    + rewrite length_app, length_take_le, length_drop, length_replicate by lia. lia.
    + apply take_app_length'. rewrite length_take_le; lia.
    + apply released_grown.
    + now apply load_grown_old.
  - intros Hfit. destruct (Z.ltb_spec (Capacity sb) (Pos sb + requested)); [lia | done].
Qed.

(** C7.  When the request does not fit ([Pos + requested > Capacity]),
    [Reserve] allocates [max (Capacity * 2) (Pos + requested)] bytes, copies
    the first [Pos] bytes of the old storage into the new one, releases the
    old storage exactly when the buffer owned it, and sets [OwnBuffer]; when
    the request fits it changes nothing.  The sizes involved are those that
    [size_t] represents, and the allocation is one that succeeds. *)
Theorem Reserve_growth_policy (sb : StackBuffer) (m : memory) (requested : Z) :
  0 <= Pos sb -> 0 <= requested -> Pos sb + requested < 2 ^ 64 ->
  0 <= Capacity sb -> Capacity sb * 2 < 2 ^ 64 ->
  Pos sb <= Z.of_nat (length (load m (Buffer sb))) ->
  live m (Buffer sb) -> heap_fresh m ->
  (Pos sb + requested > Capacity sb ->
   Z.max (Capacity sb * 2) (Pos sb + requested) <= max_alloc ->
   exists sb' m',
     Reserve requested (sb, m) = Ok (sb', m')
     /\ Capacity sb' = Z.max (Capacity sb * 2) (Pos sb + requested)
     /\ Pos sb' = Pos sb
     /\ OwnBuffer sb' = true
     /\ Buffer sb' = Heap (next_block m)
     /\ Z.of_nat (length (load m' (Buffer sb'))) = Capacity sb'
     /\ take (Z.to_nat (Pos sb)) (load m' (Buffer sb'))
        = take (Z.to_nat (Pos sb)) (load m (Buffer sb))
     /\ released m' = (if OwnBuffer sb then [Buffer sb] else []) ++ released m
     /\ (OwnBuffer sb = false -> load m' (Buffer sb) = load m (Buffer sb)))
  /\ (Pos sb + requested <= Capacity sb -> Reserve requested (sb, m) = Ok (sb, m)).
Proof. apply Reserve_spec. Qed.

End BufferFacts.

Lemma heap_fresh_fresh_memory n : heap_fresh (fresh_memory n).
Proof. intros b _. apply lookup_empty. Qed.

Lemma Reserve_growth_policy_witness :
  let sb := {| Buffer := Static; Pos := 3; Capacity := 4; OwnBuffer := false |} in
  let m := fresh_memory 4 in
  (Pos sb + 2 > Capacity sb ->
   Z.max (Capacity sb * 2) (Pos sb + 2) <= max_alloc (Runtime := sample_runtime) ->
   exists sb' m',
     Reserve (RT := sample_runtime) 2 (sb, m) = Ok (sb', m')
     /\ Capacity sb' = Z.max (Capacity sb * 2) (Pos sb + 2)
     /\ Pos sb' = Pos sb
     /\ OwnBuffer sb' = true
     /\ Buffer sb' = Heap (next_block m)
     /\ Z.of_nat (length (load m' (Buffer sb'))) = Capacity sb'
     /\ take (Z.to_nat (Pos sb)) (load m' (Buffer sb'))
        = take (Z.to_nat (Pos sb)) (load m (Buffer sb))
     /\ released m' = (if OwnBuffer sb then [Buffer sb] else []) ++ released m
     /\ (OwnBuffer sb = false -> load m' (Buffer sb) = load m (Buffer sb)))
  /\ (Pos sb + 2 <= Capacity sb -> Reserve (RT := sample_runtime) 2 (sb, m) = Ok (sb, m)).
Proof.
  intros sb m.
  apply (Reserve_growth_policy (RT := sample_runtime) sb m 2).
  - simpl; lia.
  - lia.
  - simpl; lia.
  - simpl; lia.
  - simpl; lia.
  - simpl; lia.
  - simpl; exact I.
  - apply heap_fresh_fresh_memory.
Defined.

Example Reserve_doubles :
  Reserve (RT := sample_runtime) 2
    ({| Buffer := Static; Pos := 3; Capacity := 4; OwnBuffer := false |}, fresh_memory 4)
  = Ok ({| Buffer := Heap 0; Pos := 3; Capacity := 8; OwnBuffer := true |},
        {| static_mem := replicate 4 uninit;
           heap_mem := {[ O := replicate 8 uninit ]};
           next_block := 1; released := [] |}).
Proof. vm_compute. reflexivity. Qed.

(** ** The buffer operations keep the buffer in good standing *)

Section BufferInvariant.
Context `{RT : Runtime}.
Variable bound : Z.
Hypothesis bound_alloc : max_alloc <= bound.
Hypothesis bound_small : bound < 2 ^ 62.

Lemma buffer_ok_store sb m off data :
  buffer_ok bound (sb, m) -> buffer_ok bound (sb, store m (Buffer sb) off data).
Proof.
  intros [Hp Hc Hl Hv Hf]. simpl in *. split; simpl; try done.
  - rewrite load_store_same, length_poke by done. lia.
  - now apply live_store.
  - now apply heap_fresh_store.
Qed.

Lemma contents_store sb m off data :
  buffer_ok bound (sb, m) -> Pos sb <= off ->
  contents (sb, store m (Buffer sb) off data) = contents (sb, m).
Proof.
  intros [Hp Hc Hl Hv Hf] Ho. simpl in *. unfold contents. simpl.
  rewrite load_store_same by done.
  destruct (Nat.le_gt_cases (Z.to_nat off) (length (load m (Buffer sb)))) as [Hin | Hout].
  - apply take_poke_before; lia.
  - unfold poke. rewrite take_app_le by (rewrite length_take; lia).
    rewrite take_take. f_equal. lia.
Qed.

Lemma Reserve_ok bytes s :
  buffer_ok bound s -> 0 <= bytes < 2 ^ 62 ->
  ensures memory_only (Reserve bytes s)
    (fun s' => buffer_ok bound s'
               /\ Pos (fst s') = Pos (fst s)
               /\ Pos (fst s) + bytes <= Capacity (fst s')
               /\ Capacity (fst s) <= Capacity (fst s')
               /\ contents s' = contents s).
Proof.
  destruct s as [sb m]. intros Hok Hb. pose proof Hok as [Hp Hc Hl Hv Hf].
  cbn [fst snd] in *.
  rewrite (Reserve_unfold sb m bytes) by lia.
  destruct (Z.ltb_spec (Capacity sb) (Pos sb + bytes)) as [Hgt | Hle].
  - cbv zeta.
    destruct (Z.leb_spec (Z.max (Capacity sb * 2) (Pos sb + bytes)) max_alloc) as [Ha | Ha];
      [| reflexivity].
    assert (Hnew := load_grown_new sb m (Z.max (Capacity sb * 2) (Pos sb + bytes))
                      ltac:(lia) Hv Hf).
    unfold ensures, contents. cbn [fst snd Pos Capacity Buffer].
    rewrite Hnew. repeat split; cbn [fst snd Pos Capacity Buffer]; try lia.
    + rewrite Hnew, length_app, length_take_le, length_drop, length_replicate by lia. lia.
    + unfold live, grown. cbv zeta.
      assert (Hne : Buffer sb <> Heap (next_block m)) by now apply live_not_next.
      destruct (OwnBuffer sb); simpl.
      * destruct (Buffer sb) as [| b]; simpl.
        -- apply lookup_alter_is_Some. rewrite lookup_insert_eq. eauto.
        -- rewrite lookup_delete_ne by congruence.
           apply lookup_alter_is_Some. rewrite lookup_insert_eq. eauto.
      * apply lookup_alter_is_Some. rewrite lookup_insert_eq. eauto.
    + now apply heap_fresh_grown.
    + apply take_app_length'. rewrite length_take_le; lia.
  - unfold ensures. cbn [fst snd]. split; [exact Hok |]. repeat split; lia.
Qed.

Lemma AddUninitialized_ok bytes s :
  buffer_ok bound s -> 0 <= bytes < 2 ^ 62 ->
  ensures memory_only (AddUninitialized bytes s)
    (fun r => fst r = Pos (fst s)
              /\ buffer_ok bound (snd r)
              /\ Pos (fst (snd r)) = Pos (fst s) + bytes
              /\ Capacity (fst s) <= Capacity (fst (snd r))
              /\ take (Z.to_nat (Pos (fst s))) (load (snd (snd r)) (Buffer (fst (snd r))))
                 = contents s).
Proof.
  intros Hok Hb. unfold AddUninitialized.
  eapply ensures_bind; [apply (Reserve_ok bytes s Hok Hb) |].
  intros [sb m] (Hok' & Epos & Hroom & Hcap & Econt). cbn [fst snd] in *.
  destruct Hok' as [Hp Hc Hl Hv Hf]. cbn [fst snd] in *.
  unfold ensures. cbn [fst snd Pos Capacity Buffer].
  rewrite cast_size_t by (destruct Hok; lia).
  repeat split; cbn [fst snd Pos Capacity Buffer]; try done; try lia.
  rewrite <- Epos. exact Econt.
Qed.

Lemma Add_ok c s :
  buffer_ok bound s ->
  ensures memory_only (Add c s)
    (fun s' => buffer_ok bound s'
               /\ Pos (fst s') = Pos (fst s) + 1
               /\ Capacity (fst s) <= Capacity (fst s')
               /\ contents s' = contents s ++ [c]).
Proof.
  intros Hok. unfold Add.
  eapply ensures_bind; [apply (AddUninitialized_ok 1 s Hok); lia |].
  intros [p [sb m]] (Ep & Hok' & Epos & Hcap & Econt). cbn [fst snd] in *. subst p.
  unfold ensures. cbn [fst snd].
  split; [now apply buffer_ok_store |]. split; [done |]. split; [done |].
  destruct Hok' as [Hp Hc Hl Hv Hf]. destruct Hok as [Hp0 _ _ _ _]. cbn [fst snd] in *.
  unfold contents. cbn [fst snd]. rewrite load_store_same by done.
  rewrite Epos.
  replace (Z.to_nat (Pos (fst s) + 1)) with (Z.to_nat (Pos (fst s)) + length [c])%nat
    by (simpl; lia).
  rewrite take_poke_through by lia. now rewrite Econt.
Qed.

End BufferInvariant.

(** ** The loops of [fmt_core] *)

Lemma chars_from_S fmt j n :
  chars_from fmt j (S n) = char_at fmt j :: chars_from fmt (j + 1) n.
Proof.
  unfold chars_from. cbn [seq map]. rewrite Z.add_0_r. f_equal.
  rewrite <- seq_shift, map_map. apply map_ext. intros k. f_equal. lia.
Qed.

Lemma chars_from_snoc fmt j n :
  chars_from fmt j (S n) = chars_from fmt j n ++ [char_at fmt (j + Z.of_nat n)].
Proof.
  unfold chars_from. rewrite seq_S, map_app. reflexivity.
Qed.

Lemma length_chars_from fmt j n : length (chars_from fmt j n) = n.
Proof. unfold chars_from. now rewrite length_map, length_seq. Qed.

Lemma char_at_nth fmt i :
  0 <= i -> char_at fmt i = nth (Z.to_nat i) fmt NUL.
Proof. intros H. unfold char_at. destruct (Z.ltb_spec i 0); [lia | done]. Qed.

Lemma char_at_outside fmt i : Z.of_nat (length fmt) <= i -> char_at fmt i = NUL.
Proof.
  intros H. unfold char_at. destruct (Z.ltb_spec i 0); [done |].
  apply nth_overflow. lia.
Qed.

Lemma char_at_inside fmt i : char_at fmt i <> NUL -> 0 <= i < Z.of_nat (length fmt).
Proof.
  intros H. split.
  - unfold char_at in H. destruct (Z.ltb_spec i 0); [done | lia].
  - destruct (Z_lt_le_dec i (Z.of_nat (length fmt))); [done |].
    now rewrite char_at_outside in H.
Qed.

Lemma chars_from_segment fmt j n :
  0 <= j -> j + Z.of_nat n <= Z.of_nat (length fmt) ->
  chars_from fmt j n = segment fmt j n.
Proof.
  intros Hj. unfold segment. revert j Hj. induction n as [| n IH]; intros j Hj Hn.
  - now rewrite take_0.
  - rewrite chars_from_S, IH by lia.
    rewrite char_at_nth by lia.
    replace (Z.to_nat (j + 1)) with (Z.to_nat j + 1)%nat by lia.
    assert (Hlt : (Z.to_nat j < length fmt)%nat) by lia.
    destruct (drop (Z.to_nat j) fmt) as [| c rest] eqn:E.
    + apply (f_equal length) in E. rewrite length_drop in E. simpl in E. lia.
    + assert (Hc : nth (Z.to_nat j) fmt NUL = c).
      { rewrite <- (take_drop (Z.to_nat j) fmt) at 1. rewrite E.
        rewrite app_nth2 by (rewrite length_take; lia).
        rewrite length_take_le by lia. now rewrite Nat.sub_diag. }
      rewrite Hc. cbn [take]. f_equal.
      rewrite <- (drop_drop fmt 1 (Z.to_nat j)), E. reflexivity.
Qed.

Section CoreFacts.
Context `{RT : Runtime}.
Variable cx : context.
Variable fmt : list ascii.
Variable nargs : Z.
Variable args : list fmtarg.
Variable staticbuf_size : Z.
Variable bound : Z.
Hypothesis bound_alloc : max_alloc <= bound.
Hypothesis bound_small : bound < 2 ^ 62.

Lemma at_pos_same sb : at_pos sb (Pos sb) = sb.
Proof. now destruct sb. Qed.

Lemma add_token_ok n j s :
  buffer_ok bound s ->
  ensures memory_only (add_token fmt n j s)
    (fun s' => buffer_ok bound s'
               /\ Pos (fst s') = Pos (fst s) + Z.of_nat n
               /\ Capacity (fst s) <= Capacity (fst s')
               /\ contents s' = contents s ++ chars_from fmt j n).
Proof.
  revert j s. induction n as [| n IH]; intros j s Hok.
  - cbn [add_token ensures]. split; [exact Hok |].
    split; [simpl; lia |]. split; [lia |]. cbn. now rewrite app_nil_r.
  - cbn [add_token].
    eapply ensures_bind; [apply (Add_ok bound bound_alloc bound_small _ s Hok) |].
    intros s1 (Hok1 & Epos1 & Hcap1 & Econt1).
    eapply ensures_mono; [apply (IH (j + 1) s1 Hok1) | done |].
    intros s2 (Hok2 & Epos2 & Hcap2 & Econt2).
    split; [exact Hok2 |]. split; [lia |]. split; [lia |].
    rewrite Econt2, Econt1, chars_from_S, <- app_assoc. reflexivity.
Qed.

(** The literal copy: [k] characters go from the format string into the
    buffer, none of them a percent sign or the terminator, and the loop
    stops at [stopAt] or in front of one of the two. *)
Lemma copy_literal_spec stopAt : forall passes i sb m,
  buffer_ok bound (sb, m) -> 0 <= i ->
  Pos sb + Z.of_nat passes <= Capacity sb ->
  stopAt - i <= Z.of_nat passes ->
  exists (k : nat) (m' : memory),
    copy_literal fmt passes stopAt i (sb, m)
    = (i + Z.of_nat k, (at_pos sb (Pos sb + Z.of_nat k), m'))
    /\ (k <= passes)%nat
    /\ buffer_ok bound (at_pos sb (Pos sb + Z.of_nat k), m')
    /\ contents (at_pos sb (Pos sb + Z.of_nat k), m')
       = contents (sb, m) ++ chars_from fmt i k
    /\ Forall (fun c => c <> "%" /\ c <> NUL) (chars_from fmt i k)
    /\ (stopAt <= i + Z.of_nat k
        \/ char_at fmt (i + Z.of_nat k) = "%"
        \/ char_at fmt (i + Z.of_nat k) = NUL).
Proof.
  assert (Hzero : forall i sb m passes,
            buffer_ok bound (sb, m) ->
            copy_literal fmt passes stopAt i (sb, m) = (i, (sb, m)) ->
            (stopAt <= i \/ char_at fmt i = "%" \/ char_at fmt i = NUL) ->
            exists (k : nat) (m' : memory),
              copy_literal fmt passes stopAt i (sb, m)
              = (i + Z.of_nat k, (at_pos sb (Pos sb + Z.of_nat k), m'))
              /\ (k <= passes)%nat
              /\ buffer_ok bound (at_pos sb (Pos sb + Z.of_nat k), m')
              /\ contents (at_pos sb (Pos sb + Z.of_nat k), m')
                 = contents (sb, m) ++ chars_from fmt i k
              /\ Forall (fun c => c <> "%" /\ c <> NUL) (chars_from fmt i k)
              /\ (stopAt <= i + Z.of_nat k
                  \/ char_at fmt (i + Z.of_nat k) = "%"
                  \/ char_at fmt (i + Z.of_nat k) = NUL)).
  { intros i sb m passes Hok Erun Hend. exists O, m.
    change (Z.of_nat 0) with 0. rewrite !Z.add_0_r, at_pos_same.
    split; [exact Erun |]. split; [lia |]. split; [exact Hok |].
    split; [cbn; now rewrite app_nil_r |]. split; [constructor | exact Hend]. }
  intros passes. induction passes as [| p IH]; intros i sb m Hok Hi Hroom Hstop.
  - apply Hzero; [done | reflexivity | left; lia].
  - destruct (Z.ltb_spec i stopAt) as [Hlt | Hge].
    2:{ apply Hzero; [done | | left; lia]. cbn [copy_literal].
        destruct (Z.ltb_spec i stopAt); [lia | reflexivity]. }
    destruct (is_char (char_at fmt i) "%") eqn:Epc.
    { apply Hzero; [done | | right; left; now apply is_char_true]. cbn [copy_literal].
      rewrite Epc. now rewrite andb_false_r. }
    destruct (is_char (char_at fmt i) NUL) eqn:Enul.
    { apply Hzero; [done | | right; right; now apply is_char_true]. cbn [copy_literal].
      rewrite Enul. now rewrite andb_false_r. }
    pose proof Hok as [Hp Hc Hl Hv Hf]. cbn [fst snd] in *.
    set (sb1 := at_pos sb (Pos sb + 1)).
    set (m1 := store m (Buffer sb) (Pos sb) [char_at fmt i]).
    assert (Erun1 : copy_literal fmt (S p) stopAt i (sb, m)
                    = copy_literal fmt p stopAt (i + 1) (sb1, m1)).
    { cbn [copy_literal]. destruct (Z.ltb_spec i stopAt); [| lia].
      rewrite Epc, Enul. cbn [negb andb]. rewrite cast_size_t by lia. reflexivity. }
    assert (Hok1 : buffer_ok bound (sb1, m1)).
    { pose proof (buffer_ok_store bound sb m (Pos sb) [char_at fmt i] Hok)
        as [Hp' Hc' Hl' Hv' Hf'].
      cbn [fst snd] in *. split; cbn [fst snd sb1 at_pos Buffer Pos Capacity]; try done. lia. }
    assert (Econt1 : contents (sb1, m1) = contents (sb, m) ++ [char_at fmt i]).
    { unfold contents, m1. cbn [fst snd sb1 at_pos Buffer Pos].
      rewrite load_store_same by done.
      replace (Z.to_nat (Pos sb + 1)) with (Z.to_nat (Pos sb) + length [char_at fmt i])%nat
        by (simpl; lia).
      apply take_poke_through. lia. }
    destruct (IH (i + 1) sb1 m1 Hok1 ltac:(lia)) as (k & m' & Erun & Hk & Hokk & Econt & Hall & Hend).
    { cbn [sb1 at_pos Pos Capacity]. lia. }
    { lia. }
    exists (S k), m'. rewrite Erun1, Erun.
    unfold sb1 in *. cbn [at_pos Buffer Pos Capacity OwnBuffer] in *.
    unfold at_pos in *. cbn [Buffer Pos Capacity OwnBuffer] in *.
    replace (i + 1 + Z.of_nat k) with (i + Z.of_nat (S k)) in * by lia.
    replace (Pos sb + 1 + Z.of_nat k) with (Pos sb + Z.of_nat (S k)) in * by lia.
    split; [reflexivity |]. split; [lia |]. split; [exact Hokk |].
    split; [| split; [| exact Hend]].
    + rewrite Econt, Econt1, chars_from_S, <- app_assoc. reflexivity.
    + rewrite chars_from_S. constructor; [| exact Hall].
      split; intros E; apply is_char_true in E; congruence.
Qed.

Lemma MoveCurrentPos_back sb delta :
  0 <= Pos sb + delta < 2 ^ 64 -> Pos sb + delta <= Capacity sb ->
  MoveCurrentPos (cast size_t delta) sb = Ok (at_pos sb (Pos sb + delta)).
Proof.
  intros Hp Hc. unfold MoveCurrentPos. cbn [Pos Capacity].
  assert (E : cast size_t (Pos sb + cast size_t delta) = Pos sb + delta).
  { unfold cast, size_t, uint64_t, wrap_unsigned. cbn [is_signed width].
    rewrite Z.add_mod_idemp_r by lia. apply Z.mod_small. lia. }
  rewrite E. destruct (Z.leb_spec (Pos sb + delta) (Capacity sb)); [reflexivity | lia].
Qed.

Lemma keeps_refl s : buffer_ok bound s -> keeps s s.
Proof. intros [Hp _ _ _ _]. unfold keeps, contents. repeat split; lia. Qed.

Lemma keeps_trans s1 s2 s3 :
  buffer_ok bound s1 -> keeps s1 s2 -> keeps s2 s3 -> keeps s1 s3.
Proof.
  intros [Hp _ _ _ _] (Hp12 & Hc12 & E12) (Hp23 & Hc23 & E23).
  unfold keeps, contents in *. repeat split; try lia.
  rewrite <- E12.
  replace (take (Z.to_nat (Pos (fst s1))) (load (snd s3) (Buffer (fst s3))))
    with (take (Z.to_nat (Pos (fst s1)))
            (take (Z.to_nat (Pos (fst s2))) (load (snd s3) (Buffer (fst s3)))))
    by (rewrite take_take; f_equal; lia).
  rewrite E23, take_take. f_equal. lia.
Qed.

Lemma keeps_contents s s' l :
  buffer_ok bound s -> contents s' = contents s ++ l -> Pos (fst s) <= Pos (fst s') ->
  Capacity (fst s) <= Capacity (fst s') -> keeps s s'.
Proof.
  intros [Hp _ Hl _ _] E Hpos Hcap. unfold keeps. repeat split; try done.
  assert (Hlen : length (contents s) = Z.to_nat (Pos (fst s))).
  { unfold contents. rewrite length_take_le; lia. }
  transitivity (take (Z.to_nat (Pos (fst s))) (contents s')).
  - unfold contents. rewrite take_take. f_equal. lia.
  - rewrite E. now apply take_app_length'.
Qed.

Lemma conversion_loop_ok fuel is_q is_Q fmt_type argbufsize arg :
  forall argbuf outputSize s,
  buffer_ok bound s -> 0 <= outputSize < 2 ^ 61 ->
  (is_q = true -> is_Some (Escape_q cx)) ->
  (is_q = false -> is_Q = true -> is_Some (Escape_Q cx)) ->
  ensures no_abort
    (conversion_loop cx fuel is_q is_Q fmt_type argbuf argbufsize arg outputSize s)
    (fun s' => buffer_ok bound s' /\ keeps s s').
Proof.
  induction fuel as [| fuel IH]; intros argbuf outputSize s Hok Hsize Hq HQ;
    [reflexivity |].
  cbn [conversion_loop]. rewrite !(cast_size_t outputSize) by lia.
  eapply ensures_bind.
  { eapply ensures_mono;
      [apply (AddUninitialized_ok bound bound_alloc bound_small outputSize s Hok); lia
      | apply memory_only_no_abort | intros r Hr; exact Hr]. }
  intros [outbuf [sb m]] (Ebuf & Hok1 & Epos & Hcap & Etake). cbn [fst snd] in *. subst outbuf.
  match goal with |- ensures _ (mbind _ ?call) _ => set (backend := call) end.
  assert (Hcall : backend = Fail ArgbufOverrun
                  \/ exists argbuf' stored written,
                       backend = Ok (argbuf', (stored, written))).
  { unfold backend. destruct is_q.
    - destruct (Hq eq_refl) as [f ->]. destruct (f outputSize arg) as [b r]. eauto 6.
    - destruct is_Q.
      + destruct (HQ eq_refl eq_refl) as [f ->]. destruct (f outputSize arg) as [b r].
        eauto 6.
      + destruct (argbuf_arraysize
                  <? Z.of_nat (length (fmt_output_argbuf fmt_type argbuf argbufsize arg)));
          [now left |].
        destruct (fmt_output_with_snprintf fmt_type argbuf argbufsize outputSize arg)
          as [b r]. eauto 6. }
  destruct Hcall as [-> | (argbuf' & stored & written & ->)]; [reflexivity |].
  cbn [mbind outcome_bind].
  set (m2 := store m (Buffer sb) (Pos (fst s)) stored).
  assert (Hok2 : buffer_ok bound (sb, m2)) by now apply buffer_ok_store.
  pose proof Hok as [Hp0 Hc0 Hl0 Hv0 Hf0].
  pose proof Hok1 as [Hp1 Hc1 Hl1 Hv1 Hf1]. cbn [fst snd] in *.
  assert (Etake2 : take (Z.to_nat (Pos (fst s))) (load m2 (Buffer sb)) = contents s).
  { unfold m2. rewrite load_store_same by done.
    rewrite take_poke_before by lia. exact Etake. }
  destruct ((0 <=? written) && (written <? outputSize)) eqn:Efit.
  - apply andb_true_iff in Efit as [Hw0 Hw1].
    apply Z.leb_le in Hw0. apply Z.ltb_lt in Hw1.
    rewrite MoveCurrentPos_back by (rewrite Epos; lia).
    cbn [mbind outcome_bind ensures]. split.
    + destruct Hok2 as [Hp2 Hc2 Hl2 Hv2 Hf2]. cbn [fst snd] in *.
      split; cbn [fst snd at_pos Buffer Pos Capacity]; try done. lia.
    + unfold keeps. cbn [fst snd at_pos Buffer Pos Capacity].
      split; [lia |]. split; [lia |]. exact Etake2.
  - destruct (Z.leb_spec MaxOutputSize outputSize) as [Hmax | Hmax].
    + cbn [ensures]. split; [exact Hok2 |].
      unfold keeps. cbn [fst snd]. split; [lia |]. split; [lia |]. exact Etake2.
    + rewrite MoveCurrentPos_back by (rewrite Epos; lia).
      cbn [mbind outcome_bind].
      replace (Pos sb + - outputSize) with (Pos (fst s)) by lia.
      unfold MaxOutputSize in Hmax.
      rewrite cast_ssize_t by lia.
      assert (Hok3 : buffer_ok bound (at_pos sb (Pos (fst s)), m2)).
      { destruct Hok2 as [Hp2 Hc2 Hl2 Hv2 Hf2]. cbn [fst snd] in *.
        split; cbn [fst snd at_pos Buffer Pos Capacity]; try done. lia. }
      eapply ensures_mono;
        [apply (IH argbuf' (outputSize * 2) _ Hok3); [lia | done | done] | done |].
      intros s' (Hok' & Hp' & Hc' & Et'). cbn [fst snd at_pos Pos Capacity] in *.
      split; [exact Hok' |]. unfold keeps. split; [lia |]. split; [lia |].
      rewrite Et'. unfold contents. cbn [fst snd at_pos Buffer Pos]. exact Etake2.
Qed.

Lemma retry_ok fuel is_q is_Q fmt_type argbuf arg : forall outputSize s,
  buffer_ok bound s -> 0 <= outputSize < 2 ^ 61 ->
  (is_q = true -> is_Some (Escape_q cx)) ->
  (is_q = false -> is_Q = true -> is_Some (Escape_Q cx)) ->
  ensures no_abort (retry cx fuel is_q is_Q fmt_type argbuf arg outputSize s)
    (fun s' => buffer_ok bound s' /\ keeps s s').
Proof. intros outputSize s. apply conversion_loop_ok. Qed.

Hypothesis fmt_small : Z.of_nat (length fmt) < 2 ^ 62.
Hypothesis size_range : 0 <= staticbuf_size < 2 ^ 63.

Lemma guessed_size_range : 0 <= initial_sprintf_guessed_size staticbuf_size < 2 ^ 61.
Proof.
  unfold initial_sprintf_guessed_size. rewrite Z.shiftr_div_pow2 by lia.
  change (2 ^ 2) with 4. split; [apply Z.div_pos; lia |].
  apply Z.div_lt_upper_bound; lia.
Qed.

Lemma body_ok fuel st :
  state_ok bound fmt st -> char_at fmt (cur st) <> NUL ->
  ensures no_abort (body cx fmt nargs args staticbuf_size fuel st)
    (fun r => buffer_ok bound (output (snd r), heap (snd r))
              /\ keeps (output st, heap st) (output (snd r), heap (snd r))
              /\ (fst r = false -> state_ok bound fmt (advance (snd r)))).
Proof.
  intros [Hok Hcur Htok] Hc.
  apply char_at_inside in Hc as Hin.
  unfold body. cbv zeta.
  destruct (Z.eqb_spec (tokenstart st) (-1)) as [Etok | Ntok]; cbn [negb].
  - (* scanning literal text *)
    pose proof Hok as [Hp Hcap Hl Hv Hf]. cbn [fst snd] in *.
    assert (Erem : RemainingSpace (output st) = Capacity (output st) - Pos (output st)).
    { unfold RemainingSpace. apply cast_size_t. lia. }
    rewrite Erem. rewrite cast_size_t by lia. rewrite cast_ssize_t by lia.
    set (stopAt := cur st + (Capacity (output st) - Pos (output st))).
    destruct (copy_literal_spec stopAt (Z.to_nat (stopAt - cur st)) (cur st)
                (output st) (heap st) Hok ltac:(lia) ltac:(unfold stopAt; lia)
                ltac:(unfold stopAt; lia))
      as (k & m' & -> & Hk & Hokk & Econt & Hall & Hend).
    assert (Hkeep : keeps (output st, heap st)
                      (at_pos (output st) (Pos (output st) + Z.of_nat k), m')).
    { apply (keeps_contents _ _ (chars_from fmt (cur st) k)); try done;
        cbn [fst snd at_pos Pos Capacity]; lia. }
    destruct (is_char (char_at fmt (cur st + Z.of_nat k)) "%") eqn:Epc.
    { cbn [ensures fst snd output heap]. split; [exact Hokk |]. split; [exact Hkeep |].
      intros _. apply is_char_true in Epc.
      assert (Hin' : 0 <= cur st + Z.of_nat k < Z.of_nat (length fmt))
        by (apply char_at_inside; rewrite Epc; discriminate).
      split; cbn [advance cur tokenstart output heap]; [exact Hokk | lia | right; lia]. }
    destruct (is_char (char_at fmt (cur st + Z.of_nat k)) NUL) eqn:Enul.
    { cbn [ensures fst snd output heap]. split; [exact Hokk |]. split; [exact Hkeep |].
      discriminate. }
    eapply ensures_bind.
    { eapply ensures_mono;
        [apply (Reserve_ok bound bound_alloc bound_small 1 _ Hokk); lia
        | apply memory_only_no_abort | intros r Hr; exact Hr]. }
    intros [sb m] (Hok3 & Epos3 & Hroom3 & Hcap3 & Econt3).
    cbn [ensures fst snd output heap at_pos Pos Capacity] in *.
    split; [exact Hok3 |]. split.
    + eapply keeps_trans; [exact Hok | exact Hkeep |].
      apply (keeps_contents _ _ []); [exact Hokk | | |];
        cbn [fst snd at_pos Pos Capacity]; [| lia | lia].
      rewrite app_nil_r. exact Econt3.
    + intros _.
      assert (Hin' : 0 <= cur st + Z.of_nat k < Z.of_nat (length fmt)).
      { apply char_at_inside. intros E. apply is_char_true in E. congruence. }
      split; cbn [advance cur tokenstart output heap]; [exact Hok3 | lia | left; exact Etok].
  - (* inside a directive *)
    destruct Htok as [Htok | Htok]; [done |].
    destruct (is_conversion_letter (char_at fmt (cur st))) eqn:Eletter.
    + set (is_q := is_char (char_at fmt (cur st)) "q").
      set (is_Q := is_char (char_at fmt (cur st)) "Q").
      destruct ((nargs <=? iarg st)
                || (argbuf_arraysize - 1 <=? cast size_t (cur st - tokenstart st))
                || (if is_Q && negb (is_Some_bool (Escape_Q cx)) then true
                    else if is_q && negb (is_Some_bool (Escape_q cx)) then true
                         else is_char (char_at fmt (cur st)) "n")) eqn:Epass.
      * eapply ensures_bind.
        { eapply ensures_mono;
            [apply (add_token_ok (Z.to_nat (cur st - tokenstart st + 1)) (tokenstart st) _ Hok)
            | apply memory_only_no_abort | intros r Hr; exact Hr]. }
        intros [sb m] (Hok2 & Epos2 & Hcap2 & Econt2).
        cbn [ensures fst snd output heap] in *.
        split; [exact Hok2 |]. split.
        -- apply (keeps_contents _ _ _ Hok Econt2); cbn [fst snd]; lia.
        -- intros _. split; cbn [advance cur tokenstart output heap];
             [exact Hok2 | lia | left; reflexivity].
      * apply orb_false_iff in Epass as [Epass Edis].
        eapply ensures_bind.
        { apply retry_ok; [exact Hok | | | ].
          - rewrite cast_ssize_t; pose proof guessed_size_range; lia.
          - intros Eq. fold is_q in Eq. rewrite Eq in Edis.
            destruct (Escape_q cx); [eauto |]. cbn in Edis.
            destruct (is_Q && negb (is_Some_bool (Escape_Q cx))); discriminate.
          - intros _ EQ. fold is_Q in EQ. rewrite EQ in Edis.
            destruct (Escape_Q cx); [eauto |]. cbn in Edis. discriminate. }
        intros [sb m] (Hok2 & Hkeep2).
        cbn [ensures fst snd output heap] in *.
        split; [exact Hok2 |]. split; [exact Hkeep2 |].
        intros _. split; cbn [advance cur tokenstart output heap];
          [exact Hok2 | lia | left; reflexivity].
    + destruct (is_char (char_at fmt (cur st)) "%").
      * eapply ensures_bind.
        { eapply ensures_mono;
            [apply (Add_ok bound bound_alloc bound_small "%" _ Hok)
            | apply memory_only_no_abort | intros r Hr; exact Hr]. }
        intros [sb m] (Hok2 & Epos2 & Hcap2 & Econt2).
        cbn [ensures fst snd output heap] in *.
        split; [exact Hok2 |]. split.
        -- apply (keeps_contents _ _ _ Hok Econt2); cbn [fst snd]; lia.
        -- intros _. split; cbn [advance cur tokenstart output heap];
             [exact Hok2 | lia | left; reflexivity].
      * cbn [ensures fst snd]. split; [exact Hok |]. split; [now apply keeps_refl |].
        intros _. split; cbn [advance cur tokenstart output heap];
          [exact Hok | lia | right; lia].
Qed.

Lemma scan_ok fuel : forall st,
  state_ok bound fmt st ->
  ensures no_abort (scan cx fmt nargs args staticbuf_size fuel st)
    (fun st' => buffer_ok bound (output st', heap st')
                /\ keeps (output st, heap st) (output st', heap st')).
Proof.
  induction fuel as [| fuel IH]; intros st Hst; [reflexivity |].
  cbn [scan]. destruct (is_char (char_at fmt (cur st)) NUL) eqn:Enul.
  { cbn [ensures]. split; [apply Hst | apply keeps_refl, Hst]. }
  eapply ensures_bind.
  { apply (body_ok fuel st Hst). intros E. apply is_char_true in E. congruence. }
  intros [stop st1] (Hok1 & Hkeep1 & Hnext). cbn [fst snd] in *.
  destruct stop.
  - cbn [ensures]. split; [exact Hok1 | exact Hkeep1].
  - eapply ensures_mono; [apply (IH (advance st1) (Hnext eq_refl)) | done |].
    intros st2 (Hok2 & Hkeep2). split; [exact Hok2 |].
    eapply keeps_trans; [apply Hst | exact Hkeep1 | exact Hkeep2].
Qed.


Lemma initial_state_ok m :
  staticbuf_size <= bound ->
  staticbuf_size <= Z.of_nat (length (static_mem m)) ->
  heap_fresh m ->
  state_ok bound fmt (initial_state staticbuf_size m).
Proof.
  intros Hb Hcells Hf. split; cbn; [| lia | left; reflexivity].
  split; cbn; try done; lia.
Qed.

End CoreFacts.



(** ** Directives that are copied through *)

Section Passthrough.
Context `{RT : Runtime}.
Variable cx : context.
Variable fmt : list ascii.
Variable nargs : Z.
Variable args : list fmtarg.
Variable staticbuf_size : Z.
Variable bound : Z.
Hypothesis bound_alloc : max_alloc <= bound.
Hypothesis bound_small : bound < 2 ^ 62.
Hypothesis fmt_small : Z.of_nat (length fmt) < 2 ^ 62.

Lemma conversion_letter_not_NUL c : is_conversion_letter c = true -> c <> NUL.
Proof.
  intros H ->. vm_compute in H. discriminate.
Qed.

Lemma passthrough_spec fuel st :
  state_ok bound fmt st ->
  0 <= tokenstart st ->
  is_conversion_letter (char_at fmt (cur st)) = true ->
  (nargs <= iarg st
   \/ argbuf_arraysize - 1 <= cur st - tokenstart st
   \/ char_at fmt (cur st) = "n"
   \/ (char_at fmt (cur st) = "q" /\ Escape_q cx = None)
   \/ (char_at fmt (cur st) = "Q" /\ Escape_Q cx = None)) ->
  ensures memory_only (body cx fmt nargs args staticbuf_size fuel st)
    (fun r =>
       fst r = false
       /\ cur (advance (snd r)) = cur st + 1
       /\ tokenstart (advance (snd r)) = -1
       /\ iarg (advance (snd r)) = iarg st
       /\ contents (output (snd r), heap (snd r))
          = contents (output st, heap st)
            ++ segment fmt (tokenstart st) (Z.to_nat (cur st - tokenstart st + 1))).
Proof.
  intros [Hok Hcur Htok] Hdir Hletter Hwhy.
  destruct Htok as [Htok | Htok]; [lia |].
  pose proof (conversion_letter_not_NUL _ Hletter) as Hnn.
  apply char_at_inside in Hnn as Hin.
  unfold body. cbv zeta.
  destruct (Z.eqb_spec (tokenstart st) (-1)) as [E | _]; [lia |]. cbn [negb].
  rewrite Hletter. rewrite cast_size_t by lia.
  assert (Epass :
    (nargs <=? iarg st) || (argbuf_arraysize - 1 <=? cur st - tokenstart st)
    || (if is_char (char_at fmt (cur st)) "Q" && negb (is_Some_bool (Escape_Q cx))
        then true
        else if is_char (char_at fmt (cur st)) "q" && negb (is_Some_bool (Escape_q cx))
             then true
             else is_char (char_at fmt (cur st)) "n") = true).
  { destruct Hwhy as [H | [H | [H | [[H HN] | [H HN]]]]].
    - apply Z.leb_le in H. rewrite H. reflexivity.
    - apply Z.leb_le in H. rewrite H. now rewrite orb_true_r.
    - rewrite H. cbn.
      destruct (is_Some_bool (Escape_Q cx)), (is_Some_bool (Escape_q cx));
        now rewrite !orb_true_r.
    - rewrite H, HN. cbn. now rewrite !orb_true_r.
    - rewrite H, HN. cbn. now rewrite !orb_true_r. }
  rewrite Epass.
  eapply ensures_bind;
    [apply (add_token_ok fmt bound bound_alloc bound_small
              (Z.to_nat (cur st - tokenstart st + 1)) (tokenstart st) _ Hok) |].
  intros [sb m] (Hok2 & Epos2 & Hcap2 & Econt2).
  cbn [ensures fst snd advance cur tokenstart iarg output heap] in *.
  repeat split; try done.
  rewrite Econt2. f_equal. apply chars_from_segment; lia.
Qed.

(** C5.  A recognized conversion letter ends a directive that started at
    [tokenstart].  When no argument is left for it ([iarg >= nargs]), or the
    text from the percent sign to the letter has sixteen characters or more
    (it does not fit the sixteen bytes of [argbuf] with its terminator:
    [i - tokenstart >= 15]), or the letter is [n], or it is [q] or [Q] and
    the context has no callback for it, the pass through the loop body
    appends exactly the characters [fmt[tokenstart]] ... [fmt[i]] to the
    output, leaves [iarg] as it was, and hands the loop back in the scanning
    state, to go on behind the letter.  Only the allocator can fail. *)
Theorem passthrough_directive fuel st :
  state_ok bound fmt st ->
  0 <= tokenstart st ->
  is_conversion_letter (char_at fmt (cur st)) = true ->
  (nargs <= iarg st
   \/ argbuf_arraysize - 1 <= cur st - tokenstart st
   \/ char_at fmt (cur st) = "n"
   \/ (char_at fmt (cur st) = "q" /\ Escape_q cx = None)
   \/ (char_at fmt (cur st) = "Q" /\ Escape_Q cx = None)) ->
  ensures memory_only (body cx fmt nargs args staticbuf_size fuel st)
    (fun r =>
       fst r = false
       /\ cur (advance (snd r)) = cur st + 1
       /\ tokenstart (advance (snd r)) = -1
       /\ iarg (advance (snd r)) = iarg st
       /\ contents (output (snd r), heap (snd r))
          = contents (output st, heap st)
            ++ segment fmt (tokenstart st) (Z.to_nat (cur st - tokenstart st + 1))).
Proof. apply passthrough_spec. Qed.

End Passthrough.

Lemma passthrough_directive_witness :
  let fmt := ["%"; "q"] in
  let st := {| cur := 1; tokenstart := 0; iarg := 0;
               output := StackBuffer_new Static 16; heap := fresh_memory 16 |} in
  ensures memory_only (body (RT := sample_runtime) default_context fmt 1 [TI32 42] 16 O st)
    (fun r =>
       fst r = false
       /\ cur (advance (snd r)) = cur st + 1
       /\ tokenstart (advance (snd r)) = -1
       /\ iarg (advance (snd r)) = iarg st
       /\ contents (output (snd r), heap (snd r))
          = contents (output st, heap st)
            ++ segment fmt (tokenstart st) (Z.to_nat (cur st - tokenstart st + 1))).
Proof.
  intros fmt st.
  apply (passthrough_directive (RT := sample_runtime) default_context fmt 1 [TI32 42] 16
           (2 ^ 40)).
  - reflexivity.
  - reflexivity.
  - simpl; lia.
  - split; [| simpl; lia | right; simpl; lia].
    split; simpl; try lia; try exact I. apply heap_fresh_fresh_memory.
  - simpl; lia.
  - reflexivity.
  - right; right; right; left. split; reflexivity.
Defined.

(** ** Retyping a directive to its argument *)

Section Retyping.
Context `{RT : Runtime}.

(** The format handed to the backend is the scratch text closed by
    [settype_letter], and the result is that of the call for the tag. *)
Lemma fmt_output_with_snprintf_view fmt_type argbuf argbufsize outputSize arg :
  fmt_output_with_snprintf fmt_type argbuf argbufsize outputSize arg
  = match settype_letter fmt_type arg with
    | None => ([], 0)
    | Some t =>
        backend_call outputSize arg (fmt_settype argbuf argbufsize (settype_width arg) t)
    end.
Proof.
  destruct arg; cbn [fmt_output_with_snprintf settype_letter backend_call settype_width];
    try reflexivity;
    repeat match goal with |- context [if ?b then _ else _] => destruct b end;
    reflexivity.
Qed.

(** The cells left in the scratch array are that text. *)
Lemma fmt_output_argbuf_view fmt_type argbuf argbufsize arg :
  fmt_output_argbuf fmt_type argbuf argbufsize arg
  = match settype_letter fmt_type arg with
    | None => argbuf
    | Some t => fmt_settype argbuf argbufsize (settype_width arg) t
    end.
Proof.
  destruct arg; cbn [fmt_output_argbuf settype_letter settype_width];
    try reflexivity;
    repeat match goal with |- context [if ?b then _ else _] => destruct b end;
    reflexivity.
Qed.

Lemma settype_letter_v arg : settype_letter "v" arg = natural_letter arg.
Proof. destruct arg; reflexivity. Qed.

Lemma settype_letter_natural arg t :
  natural_letter arg = Some t -> settype_letter t arg = Some t.
Proof. destruct arg; cbn; intros [= <-]; reflexivity. Qed.

Lemma settype_letter_conflict letter arg :
  conflicts letter arg = true -> settype_letter letter arg = natural_letter arg.
Proof.
  unfold conflicts. intros H. apply andb_true_iff in H as [_ H].
  apply negb_true_iff in H.
  destruct arg; cbn [settype_letter natural_letter tag_class] in *; try reflexivity.
  all: unfold letter_class, tokenint_of, tokenreal_of in *.
  all: destruct (one_of letter ["d"; "i"; "o"; "u"; "x"; "X"; "c"; "C"]) eqn:Eint;
       try discriminate.
  all: try (cbn [one_of existsb] in Eint;
            repeat (apply orb_false_elim in Eint as [? Eint]);
            cbn [one_of existsb];
            repeat match goal with E : is_char _ _ = false |- _ => rewrite E; clear E end;
            reflexivity).
  (* the double: a letter of the integers is none of the reals *)
  - apply one_of_true in Eint.
    repeat (destruct Eint as [<- | Eint]; [reflexivity |]). destruct Eint.
  - destruct (one_of letter ["e"; "E"; "f"; "g"; "G"; "a"; "A"]) eqn:Ereal;
      [discriminate | reflexivity].
Qed.
End Retyping.

Section RetypingClaim.
Context `{RT : Runtime}.

Lemma fmt_output_with_snprintf_natural arg t argbuf argbufsize outputSize :
  natural_letter arg = Some t ->
  fmt_output_with_snprintf "v" argbuf argbufsize outputSize arg
  = fmt_output_with_snprintf t argbuf argbufsize outputSize arg.
Proof.
  intros Ht. rewrite !fmt_output_with_snprintf_view.
  now rewrite settype_letter_v, (settype_letter_natural arg t Ht), Ht.
Qed.

Lemma fmt_output_argbuf_natural arg t argbuf argbufsize :
  natural_letter arg = Some t ->
  fmt_output_argbuf "v" argbuf argbufsize arg = fmt_output_argbuf t argbuf argbufsize arg.
Proof.
  intros Ht. rewrite !fmt_output_argbuf_view.
  now rewrite settype_letter_v, (settype_letter_natural arg t Ht), Ht.
Qed.

(** The backend reads the scratch array only through what its [SETTYPE]
    leaves there. *)
Lemma fmt_output_with_snprintf_cells c x y argbufsize outputSize arg :
  fmt_output_argbuf c x argbufsize arg = fmt_output_argbuf c y argbufsize arg ->
  fmt_output_with_snprintf c x argbufsize outputSize arg
  = fmt_output_with_snprintf c y argbufsize outputSize arg.
Proof.
  rewrite !fmt_output_argbuf_view, !fmt_output_with_snprintf_view.
  destruct (settype_letter c arg); [intros -> |]; reflexivity.
Qed.

(** The conversion loop reads the letter only to pass it on. *)
Lemma conversion_loop_letter cx fuel c1 c2 argbufsize arg :
  (forall argbuf outputSize,
     fmt_output_with_snprintf c1 argbuf argbufsize outputSize arg
     = fmt_output_with_snprintf c2 argbuf argbufsize outputSize arg) ->
  (forall argbuf,
     fmt_output_argbuf c1 argbuf argbufsize arg
     = fmt_output_argbuf c2 argbuf argbufsize arg) ->
  forall is_q is_Q argbuf outputSize s,
    conversion_loop cx fuel is_q is_Q c1 argbuf argbufsize arg outputSize s
    = conversion_loop cx fuel is_q is_Q c2 argbuf argbufsize arg outputSize s.
Proof.
  intros Hsame Hcells.
  induction fuel as [| fuel IH]; intros is_q is_Q argbuf outputSize s; [reflexivity |].
  cbn [conversion_loop]. rewrite Hsame, Hcells.
  destruct (AddUninitialized (cast size_t outputSize) s) as [[outbuf [sb m]] | f];
    [| reflexivity].
  cbn [mbind outcome_bind].
  match goal with |- mbind _ ?call = _ => destruct call as [[cells [stored written]] | f] end;
    [| reflexivity].
  cbn [mbind outcome_bind].
  destruct ((0 <=? written) && (written <? outputSize)); [reflexivity |].
  destruct (MaxOutputSize <=? outputSize); [reflexivity |].
  destruct (MoveCurrentPos (cast size_t (- outputSize)) sb); [| reflexivity].
  cbn [mbind outcome_bind]. apply IH.
Qed.

Lemma retry_letter cx fuel c1 c2 argbuf arg :
  (forall argbuf argbufsize outputSize,
     fmt_output_with_snprintf c1 argbuf argbufsize outputSize arg
     = fmt_output_with_snprintf c2 argbuf argbufsize outputSize arg) ->
  (forall argbuf argbufsize,
     fmt_output_argbuf c1 argbuf argbufsize arg
     = fmt_output_argbuf c2 argbuf argbufsize arg) ->
  forall is_q is_Q outputSize s,
    retry cx fuel is_q is_Q c1 argbuf arg outputSize s
    = retry cx fuel is_q is_Q c2 argbuf arg outputSize s.
Proof.
  intros Hsame Hcells is_q is_Q outputSize s. unfold retry.
  apply conversion_loop_letter; intros; [apply Hsame | apply Hcells].
Qed.

(** C6.  The generic directive [v] formats an argument exactly as the
    natural letter of its tag does (d for the signed integers, u for the
    unsigned ones, g for the double, s for the C string, p for the pointer):
    the conversion stores the same bytes and returns the same count, and
    the whole conversion loop leaves the same buffer.  An explicit letter
    that conflicts with the tag is replaced by the tag's natural letter:
    that letter closes the format handed to the backend. *)
Theorem generic_directive_is_natural (letter : ascii) (arg : fmtarg)
    (argbuf : list ascii) (argbufsize outputSize : Z) :
  (forall t, natural_letter arg = Some t ->
     fmt_output_with_snprintf "v" argbuf argbufsize outputSize arg
     = fmt_output_with_snprintf t argbuf argbufsize outputSize arg)
  /\ (forall t cx fuel s, natural_letter arg = Some t ->
        retry cx fuel false false "v" argbuf arg outputSize s
        = retry cx fuel false false t argbuf arg outputSize s)
  /\ (conflicts letter arg = true ->
        settype_letter letter arg = natural_letter arg
        /\ fmt_output_with_snprintf letter argbuf argbufsize outputSize arg
           = match natural_letter arg with
             | Some t =>
                 backend_call outputSize arg
                   (fmt_settype argbuf argbufsize (settype_width arg) t)
             | None => ([], 0)
             end).
Proof.
  split; [| split].
  - intros t Ht. now apply fmt_output_with_snprintf_natural.
  - intros t cx fuel s Ht. apply retry_letter.
    + intros cells n size. now apply fmt_output_with_snprintf_natural.
    + intros cells n. now apply fmt_output_argbuf_natural.
  - intros Hc. pose proof (settype_letter_conflict letter arg Hc) as E.
    split; [exact E |]. now rewrite fmt_output_with_snprintf_view, E.
Qed.

End RetypingClaim.

Lemma generic_directive_is_natural_witness :
  conflicts "s" (TI32 123) = true
  /\ settype_letter (RT := sample_runtime) "s" (TI32 123) = Some "d"
  /\ fmt_output_with_snprintf (RT := sample_runtime) "v" ["%"] 1 16 (TI32 123)
     = fmt_output_with_snprintf (RT := sample_runtime) "d" ["%"] 1 16 (TI32 123).
Proof.
  destruct (generic_directive_is_natural (RT := sample_runtime) "s" (TI32 123) ["%"] 1 16)
    as (Hv & _ & Hc).
  split; [reflexivity |]. split.
  - exact (proj1 (Hc eq_refl)).
  - exact (Hv "d" eq_refl).
Defined.

Example fmt_v_equals_d :
  fmt_core_string (RT := sample_runtime) default_context ["%"; "v"] 1 [TI32 (-7)] 10
  = fmt_core_string (RT := sample_runtime) default_context ["%"; "d"] 1 [TI32 (-7)] 10.
Proof. vm_compute. reflexivity. Qed.

(** ** The call without arguments *)

Lemma strlen_nat_no_NUL s : ~ In NUL s -> strlen_nat s = length s.
Proof.
  induction s as [| c s IH]; [done |]. intros Hn. cbn [strlen_nat length].
  destruct (Ascii.eqb_spec c NUL) as [-> | _]; [exfalso; apply Hn; now left |].
  f_equal. apply IH. intros Hin. apply Hn. now right.
Qed.

Lemma c_str_no_NUL s : ~ In NUL s -> c_str s = s.
Proof.
  intros Hn. unfold c_str. rewrite strlen_nat_no_NUL by done. apply firstn_all.
Qed.

Lemma take_poke_front cells data :
  take (length data) (poke cells 0 data) = data.
Proof.
  unfold poke. change (Z.to_nat 0) with O. rewrite take_0.
  change (0 - length cells)%nat with O. cbn [replicate app].
  now apply take_app_length'.
Qed.

Section ZeroArgs.
Context `{RT : Runtime}.

Lemma zero_args_spec (cx : context) (fmt : list ascii) (args : list fmtarg)
    (staticbuf_size : Z) (fuel : nat) (m : memory) :
  ~ In NUL fmt ->
  Z.of_nat (length fmt) + 1 < 2 ^ 64 ->
  heap_fresh m ->
  ensures memory_only (fmt_core cx fmt 0 args staticbuf_size fuel m)
    (fun r =>
       Len (fst r) = Z.of_nat (length fmt)
       /\ take (length fmt + 1) (load (snd r) (Str (fst r))) = fmt ++ [NUL]
       /\ (Str (fst r) = Static
           \/ (Str (fst r) = Heap (next_block m)
               /\ heap_mem m !! next_block m = None
               /\ next_block (snd r) = S (next_block m))))
  /\ (Z.of_nat (length fmt) + 1 <= max_alloc ->
      exists r, fmt_core cx fmt 0 args staticbuf_size fuel m = Ok r).
Proof.
  intros Hn Hlen Hfresh.
  assert (Elen : strlen fmt = Z.of_nat (length fmt))
    by (unfold strlen; now rewrite strlen_nat_no_NUL).
  assert (Ecopy : length (fmt ++ [NUL]) = (length fmt + 1)%nat)
    by (rewrite length_app; reflexivity).
  unfold fmt_core. cbn [Z.eqb]. rewrite Elen, c_str_no_NUL by done.
  destruct (negb (staticbuf_size =? 0)
            && (Z.of_nat (length fmt) <=? cast size_t (staticbuf_size + 1))).
  - split; [| eauto]. cbn [ensures fst snd Str Len load store static_mem].
    split; [reflexivity |]. split; [| now left].
    rewrite <- Ecopy. apply take_poke_front.
  - rewrite cast_size_t by lia. unfold new_array.
    destruct (Z.leb_spec (Z.of_nat (length fmt) + 1) max_alloc) as [Ha | Ha].
    + cbn [mbind outcome_bind]. split; [| eauto].
      cbn [ensures fst snd Str Len load store heap_mem next_block].
      split; [reflexivity |]. split.
      * rewrite lookup_alter_eq, lookup_insert_eq. cbn [fmap option_fmap option_map default].
        rewrite <- Ecopy. apply take_poke_front.
      * right. split; [reflexivity |]. split; [| reflexivity]. apply Hfresh. lia.
    + cbn [mbind outcome_bind]. split; [reflexivity | lia].
Qed.

(** C2.  Called without arguments, [fmt_core] returns the length of the
    format string and a pointer to a copy of it, terminator included.  The
    pointer is the caller's buffer or the array that this call allocated;
    the format string itself is only read.  The call returns unless the
    allocator refuses the [len + 1] bytes of the copy. *)
Theorem zero_args_copy (cx : context) (fmt : list ascii) (args : list fmtarg)
    (staticbuf_size : Z) (fuel : nat) (m : memory) :
  ~ In NUL fmt ->
  Z.of_nat (length fmt) + 1 < 2 ^ 64 ->
  heap_fresh m ->
  ensures memory_only (fmt_core cx fmt 0 args staticbuf_size fuel m)
    (fun r =>
       Len (fst r) = Z.of_nat (length fmt)
       /\ take (length fmt + 1) (load (snd r) (Str (fst r))) = fmt ++ [NUL]
       /\ (Str (fst r) = Static
           \/ (Str (fst r) = Heap (next_block m)
               /\ heap_mem m !! next_block m = None
               /\ next_block (snd r) = S (next_block m))))
  /\ (Z.of_nat (length fmt) + 1 <= max_alloc ->
      exists r, fmt_core cx fmt 0 args staticbuf_size fuel m = Ok r).
Proof. apply zero_args_spec. Qed.

End ZeroArgs.

Lemma zero_args_copy_witness :
  let fmt := list_ascii_of_string "hello" in
  let m := fresh_memory 16 in
  ensures memory_only (fmt_core (RT := sample_runtime) default_context fmt 0 [] 16 O m)
    (fun r =>
       Len (fst r) = Z.of_nat (length fmt)
       /\ take (length fmt + 1) (load (snd r) (Str (fst r))) = fmt ++ [NUL]
       /\ (Str (fst r) = Static
           \/ (Str (fst r) = Heap (next_block m)
               /\ heap_mem m !! next_block m = None
               /\ next_block (snd r) = S (next_block m))))
  /\ (Z.of_nat (length fmt) + 1 <= max_alloc (Runtime := sample_runtime) ->
      exists r, fmt_core (RT := sample_runtime) default_context fmt 0 [] 16 O m = Ok r).
Proof.
  intros fmt m.
  apply (zero_args_copy (RT := sample_runtime) default_context fmt [] 16 O m).
  - vm_compute. intros H. repeat (destruct H as [H | H]; [discriminate |]). exact H.
  - vm_compute. reflexivity.
  - apply heap_fresh_fresh_memory.
Defined.

Example zero_args_into_heap :
  match fmt_core (RT := sample_runtime) default_context (list_ascii_of_string "hello")
          0 [] 3 O (fresh_memory 3) with
  | Ok (res, m) => Str res = Heap 0 /\ Len res = 5
                   /\ load m (Str res) = list_ascii_of_string "hello" ++ [NUL]
                   /\ static_mem m = replicate 3 uninit
  | Fail _ => False
  end.
Proof. vm_compute. repeat split. Qed.

(** ** Where the program departs from its documentation *)

Section Departures.
Context `{RT : Runtime}.

(** C10 (the code falls short of it).  The fast path for a call without
    arguments tests [len <= staticbuf_size + 1] where [len + 1 <=
    staticbuf_size] is meant: a format string as long as the caller's
    buffer, or one byte longer, is copied into it with its terminator, and
    the copy ends one or two bytes behind the buffer. *)
Theorem zero_args_overruns_caller_buffer (cx : context) (fmt : list ascii)
    (args : list fmtarg) (staticbuf_size : Z) (fuel : nat) (m : memory) :
  ~ In NUL fmt ->
  0 < staticbuf_size < 2 ^ 63 ->
  Z.of_nat (length (static_mem m)) = staticbuf_size ->
  Z.of_nat (length fmt) = staticbuf_size \/ Z.of_nat (length fmt) = staticbuf_size + 1 ->
  exists m',
    fmt_core cx fmt 0 args staticbuf_size fuel m
    = Ok ({| Str := Static; Len := Z.of_nat (length fmt) |}, m')
    /\ Z.of_nat (length (static_mem m')) = Z.of_nat (length fmt) + 1
    /\ staticbuf_size < Z.of_nat (length fmt) + 1.
Proof.
  intros Hn Hsize Hcells Hlen.
  assert (Elen : strlen fmt = Z.of_nat (length fmt))
    by (unfold strlen; now rewrite strlen_nat_no_NUL).
  unfold fmt_core. cbn [Z.eqb]. rewrite Elen, c_str_no_NUL by done.
  rewrite cast_size_t by lia.
  destruct (Z.eqb_spec staticbuf_size 0); [lia |].
  destruct (Z.leb_spec (Z.of_nat (length fmt)) (staticbuf_size + 1)); [| lia].
  cbn [negb andb]. eexists. split; [reflexivity |].
  cbn [store static_mem]. rewrite length_poke, length_app. cbn [length]. lia.
Qed.

Lemma AddUninitialized_zero sb m :
  0 <= Pos sb <= Capacity sb -> Capacity sb < 2 ^ 64 ->
  AddUninitialized 0 (sb, m) = Ok (Pos sb, (sb, m)).
Proof.
  intros Hp Hc. unfold AddUninitialized, Reserve.
  rewrite !Z.add_0_r, !cast_size_t by lia.
  destruct (Z.ltb_spec (Capacity sb) (Pos sb)); [lia |].
  cbn [mbind outcome_bind]. rewrite !Z.add_0_r, !cast_size_t by lia. now destruct sb.
Qed.

Lemma MoveCurrentPos_zero sb :
  0 <= Pos sb <= Capacity sb -> Capacity sb < 2 ^ 64 -> MoveCurrentPos 0 sb = Ok sb.
Proof.
  intros Hp Hc. unfold MoveCurrentPos. cbn [Pos Capacity].
  rewrite !Z.add_0_r, !cast_size_t by lia.
  destruct (Z.leb_spec (Pos sb) (Capacity sb)); [| lia]. now destruct sb.
Qed.

(** With a provisional size of zero the conversion loop reserves nothing,
    finds that nothing was written in it, doubles zero and starts over. *)
Lemma conversion_loop_zero_diverges cx fuel c argbufsize arg (cells : list ascii -> Prop) :
  (forall x, cells x ->
     (argbuf_arraysize <? Z.of_nat (length (fmt_output_argbuf c x argbufsize arg))) = false
     /\ cells (fmt_output_argbuf c x argbufsize arg)) ->
  forall argbuf sb m,
  cells argbuf ->
  0 <= Pos sb <= Capacity sb -> Capacity sb < 2 ^ 64 ->
  conversion_loop cx fuel false false c argbuf argbufsize arg 0 (sb, m) = Fail OutOfFuel.
Proof.
  intros Hcells.
  induction fuel as [| fuel IH]; intros argbuf sb m Hin Hp Hc; [reflexivity |].
  cbn [conversion_loop]. change (cast size_t 0) with 0.
  rewrite AddUninitialized_zero by done. cbn [mbind outcome_bind].
  destruct (Hcells argbuf Hin) as [-> Hnext].
  destruct (fmt_output_with_snprintf c argbuf argbufsize 0 arg) as [stored written].
  cbn [mbind outcome_bind].
  replace ((0 <=? written) && (written <? 0)) with false
    by (destruct (Z.leb_spec 0 written), (Z.ltb_spec written 0); try reflexivity; lia).
  change (MaxOutputSize <=? 0) with false. cbv iota.
  change (cast size_t (- 0)) with 0.
  rewrite MoveCurrentPos_zero by done. cbn [mbind outcome_bind].
  change (cast ssize_t (0 * 2)) with 0.
  now apply IH.
Qed.

(** C9 (the code falls short of it).  A caller's buffer of fewer than four
    bytes makes the first provisional size [staticbuf_size >> 2] zero, and
    the conversion loop never leaves: whatever the fuel, the call with one
    directive and its argument does not return. *)
Theorem conversion_loop_never_exits (cx : context) (staticbuf_size : Z) (fuel : nat)
    (m : memory) :
  0 <= staticbuf_size < 4 ->
  fmt_core cx ["%"; "d"] 1 [TI32 5] staticbuf_size fuel m = Fail OutOfFuel.
Proof.
  intros Hsize.
  assert (Hguess : initial_sprintf_guessed_size staticbuf_size = 0).
  { unfold initial_sprintf_guessed_size. rewrite Z.shiftr_div_pow2 by lia.
    apply Z.div_small. change (2 ^ 2) with 4. lia. }
  unfold fmt_core. cbn [Z.eqb].
  destruct fuel as [| fuel]; [reflexivity |].
  cbn [scan initial_state cur]. change (is_char (char_at ["%"; "d"] 0) NUL) with false.
  cbv iota.
  assert (Hbody : body cx ["%"; "d"] 1 [TI32 5] staticbuf_size fuel
                    (initial_state staticbuf_size m)
                  = Ok (false, {| cur := 0; tokenstart := 0; iarg := 0;
                                  output := StackBuffer_new Static staticbuf_size;
                                  heap := m |})).
  { unfold body. cbn [initial_state tokenstart cur output heap iarg Z.eqb negb].
    destruct (Z.to_nat
                (cast ssize_t
                   (cast size_t (0 + RemainingSpace (StackBuffer_new Static staticbuf_size)))
                 - 0)) as [| passes]; cbn [copy_literal].
    - reflexivity.
    - change (is_char (char_at ["%"; "d"] 0) "%") with true.
      cbn [negb andb]. rewrite andb_false_r. reflexivity. }
  unfold initial_state in Hbody |- *. rewrite Hbody. cbn [mbind outcome_bind advance cur
    tokenstart iarg output heap].
  destruct fuel as [| fuel]; [reflexivity |].
  cbn [scan cur]. change (is_char (char_at ["%"; "d"] (0 + 1)) NUL) with false.
  cbv iota. unfold body.
  cbn [cur tokenstart iarg output heap Z.eqb negb].
  change (is_conversion_letter (char_at ["%"; "d"] (0 + 1))) with true.
  change (is_char (char_at ["%"; "d"] (0 + 1)) "q") with false.
  change (is_char (char_at ["%"; "d"] (0 + 1)) "Q") with false.
  change (is_char (char_at ["%"; "d"] (0 + 1)) "n") with false.
  cbn [andb]. cbv iota.
  change (1 <=? 0) with false.
  change (argbuf_arraysize - 1 <=? cast size_t (0 + 1 - 0)) with false.
  cbn [orb]. cbv iota.
  rewrite Hguess. change (cast ssize_t 0) with 0.
  unfold retry.
  change (build_argbuf ["%"; "d"] (Z.to_nat (0 + 1 - 0)) 0 []) with ["%"].
  rewrite (conversion_loop_zero_diverges cx fuel _ _ _
             (fun x => x = ["%"] \/ x = ["%"; "d"; NUL]));
    [reflexivity | | now left | cbn; lia | cbn; lia].
  intros x [-> | ->]; (split; [reflexivity | now right]).
Qed.

End Departures.

(** C3 (the code falls short of it).  The header promises the caller's
    buffer back exactly when the result fits with its terminator.  Two runs
    show that the program keeps neither direction: "hello" without
    arguments comes back in a buffer of five bytes although it needs six,
    and a result of fifteen bytes comes back in a new array although the
    buffer has sixteen, because a conversion reserved a provisional chunk
    first. *)
Theorem caller_buffer_not_iff_fit :
  match fmt_core (RT := sample_runtime) default_context (list_ascii_of_string "hello")
          0 [] 5 O (fresh_memory 5) with
  | Ok (res, _) => Str res = Static /\ ~ Len res + 1 <= 5
  | Fail _ => False
  end
  /\ match fmt_core (RT := sample_runtime) default_context
             (list_ascii_of_string "aaaaaaaaaaaaa%d") 1 [TI32 5] 16 10 (fresh_memory 16) with
     | Ok (res, m) => Str res = Heap 0 /\ Len res + 1 <= 16
                      /\ take (Z.to_nat (Len res)) (load m (Str res))
                         = list_ascii_of_string "aaaaaaaaaaaaa5"
     | Fail _ => False
     end.
Proof.
  vm_compute.
  repeat split; try reflexivity; try (intros H; discriminate H).
  intros H. apply H. reflexivity.
Qed.

Lemma zero_args_overruns_caller_buffer_witness :
  exists m',
    fmt_core (RT := sample_runtime) default_context (list_ascii_of_string "hello") 0 [] 5 O
      (fresh_memory 5)
    = Ok ({| Str := Static; Len := 5 |}, m')
    /\ Z.of_nat (length (static_mem m')) = 5 + 1
    /\ 5 < 5 + 1.
Proof.
  apply (zero_args_overruns_caller_buffer (RT := sample_runtime) default_context
           (list_ascii_of_string "hello") [] 5 O (fresh_memory 5)).
  - vm_compute. intros H. repeat (destruct H as [H | H]; [discriminate |]). exact H.
  - lia.
  - reflexivity.
  - left. reflexivity.
Defined.

Lemma conversion_loop_never_exits_witness :
  0 <= 3 < 4
  /\ fmt_core (RT := sample_runtime) default_context ["%"; "d"] 1 [TI32 5] 3 1000
       (fresh_memory 3)
     = Fail OutOfFuel.
Proof.
  split; [lia |].
  apply (conversion_loop_never_exits (RT := sample_runtime) default_context 3 1000
           (fresh_memory 3)).
  lia.
Defined.

(** ** Runs of literal text and open directives *)

Lemma chars_from_app fmt i a b :
  chars_from fmt i (a + b) = chars_from fmt i a ++ chars_from fmt (i + Z.of_nat a) b.
Proof.
  revert i. induction a as [| a IH]; intros i.
  - cbn [Nat.add]. change (Z.of_nat 0) with 0. now rewrite Z.add_0_r.
  - cbn [Nat.add]. rewrite !chars_from_S, IH. cbn [app]. do 3 f_equal. lia.
Qed.

Lemma In_chars_from fmt i k j :
  i <= j < i + Z.of_nat k -> In (char_at fmt j) (chars_from fmt i k).
Proof.
  intros H. unfold chars_from. apply in_map_iff. exists (Z.to_nat (j - i)).
  split; [f_equal; lia | apply in_seq; lia].
Qed.

Section LiteralRun.
Context `{RT : Runtime}.
Variable cx : context.
Variable fmt : list ascii.
Variable nargs : Z.
Variable args : list fmtarg.
Variable staticbuf_size : Z.
Variable bound : Z.
Hypothesis bound_alloc : max_alloc <= bound.
Hypothesis bound_small : bound < 2 ^ 62.
Hypothesis fmt_small : Z.of_nat (length fmt) < 2 ^ 62.

(** Outside a directive the body does not use its fuel. *)
Lemma body_scanning_fuel fuel st :
  tokenstart st = -1 ->
  body cx fmt nargs args staticbuf_size fuel st
  = body cx fmt nargs args staticbuf_size O st.
Proof. intros E. unfold body. rewrite E. reflexivity. Qed.


Lemma body_literal fuel st p :
  state_ok bound fmt st -> tokenstart st = -1 -> cur st <= p ->
  (forall j, cur st <= j < p -> char_at fmt j <> "%" /\ char_at fmt j <> NUL) ->
  char_at fmt p = "%" \/ char_at fmt p = NUL ->
  ensures memory_only (body cx fmt nargs args staticbuf_size fuel st)
    (fun r =>
       buffer_ok bound (output (snd r), heap (snd r))
       /\ iarg (snd r) = iarg st
       /\ exists k : nat,
            cur st + Z.of_nat k <= p
            /\ contents (output (snd r), heap (snd r))
               = contents (output st, heap st) ++ chars_from fmt (cur st) k
            /\ ((cur st + Z.of_nat k = p /\ char_at fmt p = "%" /\ fst r = false
                 /\ cur (snd r) = p /\ tokenstart (snd r) = p)
                \/ (cur st + Z.of_nat k = p /\ char_at fmt p = NUL /\ fst r = true
                    /\ cur (snd r) = p /\ tokenstart (snd r) = -1)
                \/ (cur st + Z.of_nat k < p /\ fst r = false
                    /\ cur (snd r) = cur st + Z.of_nat k - 1 /\ tokenstart (snd r) = -1
                    /\ Pos (output (snd r)) < Capacity (output (snd r))
                    /\ (k = O -> Pos (output st) = Capacity (output st))))).
Proof.
  intros [Hok Hcur Htok] Etok Hp Hlit Hstop.
  unfold body. cbv zeta. rewrite Etok. change (-1 =? -1) with true. cbn [negb].
  pose proof Hok as [Hpos Hcap Hl Hv Hf]. cbn [fst snd] in *.
  assert (Erem : RemainingSpace (output st) = Capacity (output st) - Pos (output st)).
  { unfold RemainingSpace. apply cast_size_t. lia. }
  rewrite Erem. rewrite cast_size_t by lia. rewrite cast_ssize_t by lia.
  set (stopAt := cur st + (Capacity (output st) - Pos (output st))).
  destruct (copy_literal_spec fmt bound bound_small stopAt (Z.to_nat (stopAt - cur st))
              (cur st) (output st) (heap st) Hok ltac:(lia) ltac:(unfold stopAt; lia)
              ltac:(unfold stopAt; lia))
    as (k & m' & -> & Hk & Hokk & Econt & Hall & Hend).
  assert (Hkp : cur st + Z.of_nat k <= p).
  { destruct (Z_le_gt_dec (cur st + Z.of_nat k) p) as [| Hgt]; [done | exfalso].
    assert (Hin : In (char_at fmt p) (chars_from fmt (cur st) k))
      by (apply In_chars_from; lia).
    apply (proj1 (List.Forall_forall _ _) Hall) in Hin. destruct Hstop; tauto. }
  destruct (is_char (char_at fmt (cur st + Z.of_nat k)) "%") eqn:Epc.
  { apply is_char_true in Epc.
    assert (E : cur st + Z.of_nat k = p).
    { destruct (Z.eq_dec (cur st + Z.of_nat k) p) as [| Hne]; [done |].
      destruct (Hlit (cur st + Z.of_nat k)); [lia | contradiction]. }
    cbn [ensures fst snd output heap iarg cur tokenstart].
    split; [exact Hokk |]. split; [reflexivity |]. exists k.
    split; [lia |]. split; [exact Econt |]. left. rewrite <- E. tauto. }
  destruct (is_char (char_at fmt (cur st + Z.of_nat k)) NUL) eqn:Enul.
  { apply is_char_true in Enul.
    assert (E : cur st + Z.of_nat k = p).
    { destruct (Z.eq_dec (cur st + Z.of_nat k) p) as [| Hne]; [done |].
      destruct (Hlit (cur st + Z.of_nat k)); [lia | contradiction]. }
    cbn [ensures fst snd output heap iarg cur tokenstart].
    split; [exact Hokk |]. split; [reflexivity |]. exists k.
    split; [lia |]. split; [exact Econt |]. right; left. rewrite <- E. tauto. }
  assert (Hlt : cur st + Z.of_nat k < p).
  { destruct (Z.eq_dec (cur st + Z.of_nat k) p) as [E |]; [| lia].
    rewrite E in Epc, Enul. destruct Hstop as [Hs | Hs]; rewrite Hs in *; discriminate. }
  assert (Hfull : Z.of_nat k = Capacity (output st) - Pos (output st)).
  { destruct Hend as [Hend | [Hend | Hend]].
    - unfold stopAt in Hend. lia.
    - rewrite Hend in Epc. discriminate.
    - rewrite Hend in Enul. discriminate. }
  eapply ensures_bind;
    [apply (Reserve_ok bound bound_alloc bound_small 1 _ Hokk); lia |].
  intros [sb m] (Hok3 & Epos3 & Hroom3 & Hcap3 & Econt3).
  cbn [ensures fst snd output heap iarg cur tokenstart at_pos Pos Capacity] in *.
  split; [exact Hok3 |]. split; [reflexivity |]. exists k.
  split; [lia |]. split; [now rewrite Econt3 |]. right; right.
  repeat split; try done; lia.
Qed.

Lemma scan_unfold fuel st :
  scan cx fmt nargs args staticbuf_size (S fuel) st
  = if is_char (char_at fmt (cur st)) NUL then Ok st
    else '(stop, st1) ← body cx fmt nargs args staticbuf_size fuel st;
         if (stop : bool) then Ok st1
         else scan cx fmt nargs args staticbuf_size fuel (advance st1).
Proof. reflexivity. Qed.

(** One pass over literal text that ends at [p] with a percent sign or the
    terminator. *)
Lemma scan_literal_pass st p :
  state_ok bound fmt st -> tokenstart st = -1 -> cur st <= p <= Z.of_nat (length fmt) ->
  (forall j, cur st <= j < p -> char_at fmt j <> "%" /\ char_at fmt j <> NUL) ->
  char_at fmt p = "%" \/ char_at fmt p = NUL ->
  (forall fuel, scan cx fmt nargs args staticbuf_size (S fuel) st = Fail BadAlloc)
  \/ exists (k : nat) (st' : scan_state),
       state_ok bound fmt st'
       /\ iarg st' = iarg st
       /\ cur st + Z.of_nat k <= p
       /\ contents (output st', heap st')
          = contents (output st, heap st) ++ chars_from fmt (cur st) k
       /\ ((cur st + Z.of_nat k = p /\ char_at fmt p = "%"
            /\ (forall fuel, scan cx fmt nargs args staticbuf_size (S fuel) st
                             = scan cx fmt nargs args staticbuf_size fuel st')
            /\ cur st' = p + 1 /\ tokenstart st' = p)
           \/ (cur st + Z.of_nat k = p /\ char_at fmt p = NUL
               /\ (forall fuel, scan cx fmt nargs args staticbuf_size (S fuel) st = Ok st')
               /\ cur st' = p /\ tokenstart st' = -1)
           \/ (cur st + Z.of_nat k < p
               /\ (forall fuel, scan cx fmt nargs args staticbuf_size (S fuel) st
                                = scan cx fmt nargs args staticbuf_size fuel st')
               /\ cur st' = cur st + Z.of_nat k /\ tokenstart st' = -1
               /\ Pos (output st') < Capacity (output st')
               /\ (k = O -> Pos (output st) = Capacity (output st)))).
Proof.
  intros Hst Etok Hp Hlit Hstop.
  pose proof Hst as [Hok Hcur Htok].
  destruct (is_char (char_at fmt (cur st)) NUL) eqn:Enul.
  { apply is_char_true in Enul.
    assert (E : cur st = p).
    { destruct (Z.eq_dec (cur st) p) as [| Hne]; [done |].
      destruct (Hlit (cur st)); [lia | contradiction]. }
    right. exists O, st. change (Z.of_nat 0) with 0. rewrite Z.add_0_r.
    split; [exact Hst |]. split; [reflexivity |]. split; [lia |].
    split; [cbn; now rewrite app_nil_r |].
    right; left. rewrite <- E. repeat split; try done.
    all: intros fuel; rewrite scan_unfold; apply is_char_true in Enul; now rewrite Enul. }
  pose proof (body_literal O st p Hst Etok ltac:(lia) Hlit Hstop) as Hbody.
  assert (Hrun : forall fuel,
            scan cx fmt nargs args staticbuf_size (S fuel) st
            = '(stop, st1) ← body cx fmt nargs args staticbuf_size O st;
              if (stop : bool) then Ok st1
              else scan cx fmt nargs args staticbuf_size fuel (advance st1)).
  { intros fuel. rewrite scan_unfold, Enul. now rewrite (body_scanning_fuel fuel). }
  destruct (body cx fmt nargs args staticbuf_size O st) as [[stop st1] | f].
  2:{ left. intros fuel. rewrite Hrun. cbn in Hbody |- *. now destruct f. }
  cbn [ensures fst snd] in Hbody.
  destruct Hbody as (Hok1 & Eiarg & k & Hk & Econt & Hcase).
  right. exists k.
  destruct Hcase as [(E & Hpc & -> & Ecur & Etok1)
                    | [(E & Hnul & -> & Ecur & Etok1)
                      | (Hlt & -> & Ecur & Etok1 & Hroom & Hk0)]].
  - exists (advance st1).
    assert (Hin : 0 <= p < Z.of_nat (length fmt))
      by (apply char_at_inside; rewrite Hpc; discriminate).
    split; [split; cbn [advance cur tokenstart output heap]; [exact Hok1 | lia | right; lia] |].
    split; [exact Eiarg |]. split; [lia |]. split; [exact Econt |].
    left. cbn [advance cur tokenstart]. repeat split; try done; try lia.
    all: intros fuel; now rewrite Hrun.
  - exists st1.
    split; [split; [exact Hok1 | lia | left; exact Etok1] |].
    split; [exact Eiarg |]. split; [lia |]. split; [exact Econt |].
    right; left. repeat split; try done.
    all: intros fuel; now rewrite Hrun.
  - exists (advance st1).
    split; [split; cbn [advance cur tokenstart output heap];
            [exact Hok1 | lia | left; exact Etok1] |].
    split; [exact Eiarg |]. split; [lia |]. split; [exact Econt |].
    right; right. cbn [advance cur tokenstart output heap].
    repeat split; try done; try lia.
    all: intros fuel; now rewrite Hrun.
Qed.

(** The whole run of literal text from [cur st] to [p]. *)
Lemma scan_literal_run p :
  p <= Z.of_nat (length fmt) ->
  char_at fmt p = "%" \/ char_at fmt p = NUL ->
  forall (mu : nat) (st : scan_state),
    state_ok bound fmt st -> tokenstart st = -1 -> cur st <= p ->
    (forall j, cur st <= j < p -> char_at fmt j <> "%" /\ char_at fmt j <> NUL) ->
    2 * (p - cur st)
      + (if Pos (output st) =? Capacity (output st) then 1 else 0) <= Z.of_nat mu ->
    exists n : nat,
      (forall fuel, scan cx fmt nargs args staticbuf_size (S n + fuel) st = Fail BadAlloc)
      \/ exists st' : scan_state,
           state_ok bound fmt st'
           /\ iarg st' = iarg st
           /\ contents (output st', heap st')
              = contents (output st, heap st)
                ++ chars_from fmt (cur st) (Z.to_nat (p - cur st))
           /\ ((char_at fmt p = "%"
                /\ (forall fuel, scan cx fmt nargs args staticbuf_size (S n + fuel) st
                                 = scan cx fmt nargs args staticbuf_size fuel st')
                /\ cur st' = p + 1 /\ tokenstart st' = p)
               \/ (char_at fmt p = NUL
                   /\ (forall fuel,
                         scan cx fmt nargs args staticbuf_size (S n + fuel) st = Ok st')
                   /\ cur st' = p /\ tokenstart st' = -1)).
Proof.
  intros Hplen Hstop mu. induction mu as [| mu IH]; intros st Hst Etok Hp Hlit Hmu.
  all: destruct (scan_literal_pass st p Hst Etok ltac:(lia) Hlit Hstop)
         as [Hfail | (k & st1 & Hst1 & Eiarg & Hk & Econt & Hcase)];
       [exists O; left; exact Hfail |].
  all: destruct Hcase as [(E & Hpc & Hrun & Ecur & Etok1)
                         | [(E & Hnul & Hrun & Ecur & Etok1)
                           | (Hlt & Hrun & Ecur & Etok1 & Hroom & Hk0)]].
  all: try (exists O; right; exists st1;
            split; [exact Hst1 |]; split; [exact Eiarg |];
            split; [rewrite Econt; do 2 f_equal; lia |];
            first [ left; repeat split; try done; exact Hrun
                  | right; repeat split; try done; exact Hrun ]).
  - (* no measure left: the text cannot go on *)
    exfalso. destruct (Pos (output st) =? Capacity (output st)); lia.
  - destruct (IH st1 Hst1 Etok1 ltac:(lia)) as (n & Hn).
    { intros j Hj. apply Hlit. lia. }
    { rewrite Ecur.
      destruct (Z.eqb_spec (Pos (output st1)) (Capacity (output st1))); [lia |].
      destruct (Z.eqb_spec (Pos (output st)) (Capacity (output st))) as [Efull | Nfull].
      - lia.
      - assert (k <> O) by (intros ->; now apply Nfull, Hk0). lia. }
    exists (S n).
    destruct Hn as [Hfail | (st2 & Hst2 & Eiarg2 & Econt2 & Hcase2)].
    + left. intros fuel. change (S (S n) + fuel)%nat with (S (S n + fuel)).
      rewrite Hrun. apply Hfail.
    + right. exists st2. split; [exact Hst2 |]. split; [congruence |].
      split.
      * rewrite Econt2, Econt, <- app_assoc. f_equal. rewrite Ecur.
        replace (Z.to_nat (p - cur st))
          with (k + Z.to_nat (p - (cur st + Z.of_nat k)))%nat by lia.
        now rewrite chars_from_app.
      * destruct Hcase2 as [(Hpc & Hrun2 & Ecur2 & Etok2) | (Hnul & Hrun2 & Ecur2 & Etok2)].
        -- left. repeat split; try done. intros fuel.
           change (S (S n) + fuel)%nat with (S (S n + fuel)). rewrite Hrun. apply Hrun2.
        -- right. repeat split; try done. intros fuel.
           change (S (S n) + fuel)%nat with (S (S n + fuel)). rewrite Hrun. apply Hrun2.
Qed.

(** Inside a directive a character that is neither a conversion letter nor
    a percent sign changes nothing: the directive stays open. *)
Lemma body_open_directive fuel st :
  tokenstart st <> -1 ->
  is_conversion_letter (char_at fmt (cur st)) = false ->
  char_at fmt (cur st) <> "%" ->
  body cx fmt nargs args staticbuf_size fuel st = Ok (false, st).
Proof.
  intros Htok Hletter Hpc. unfold body. cbv zeta.
  destruct (Z.eqb_spec (tokenstart st) (-1)); [done |]. cbn [negb].
  rewrite Hletter.
  destruct (is_char (char_at fmt (cur st)) "%") eqn:E; [| reflexivity].
  apply is_char_true in E. contradiction.
Qed.

Lemma scan_open_directive (n : nat) : forall st fuel,
  tokenstart st <> -1 ->
  (forall j, cur st <= j < cur st + Z.of_nat n ->
     is_conversion_letter (char_at fmt j) = false
     /\ char_at fmt j <> "%" /\ char_at fmt j <> NUL) ->
  scan cx fmt nargs args staticbuf_size (n + fuel) st
  = scan cx fmt nargs args staticbuf_size fuel (at_cur st (cur st + Z.of_nat n)).
Proof.
  induction n as [| n IH]; intros st fuel Htok Hjunk.
  - cbn [Nat.add]. change (Z.of_nat 0) with 0. rewrite Z.add_0_r. now destruct st.
  - destruct (Hjunk (cur st) ltac:(lia)) as (Hl & Hpc & Hnul).
    change (S n + fuel)%nat with (S (n + fuel)). rewrite scan_unfold.
    destruct (is_char (char_at fmt (cur st)) NUL) eqn:E;
      [apply is_char_true in E; contradiction |].
    rewrite body_open_directive by done. cbn [mbind outcome_bind].
    rewrite IH.
    + f_equal. unfold at_cur, advance. cbn [cur tokenstart iarg output heap].
      f_equal. lia.
    + exact Htok.
    + cbn [advance cur]. intros j Hj. apply Hjunk. lia.
Qed.

End LiteralRun.

Lemma char_at_app l1 l2 j :
  0 <= j ->
  char_at (l1 ++ l2) j
  = if j <? Z.of_nat (length l1) then char_at l1 j else char_at l2 (j - Z.of_nat (length l1)).
Proof.
  intros Hj. rewrite (char_at_nth (l1 ++ l2)) by lia.
  destruct (Z.ltb_spec j (Z.of_nat (length l1))).
  - rewrite char_at_nth by lia. apply app_nth1. lia.
  - rewrite char_at_nth by lia. rewrite app_nth2 by lia. f_equal. lia.
Qed.

Lemma char_at_Forall (P : ascii -> Prop) l j :
  Forall P l -> 0 <= j < Z.of_nat (length l) -> P (char_at l j).
Proof.
  intros HF Hj. rewrite char_at_nth by lia.
  apply (proj1 (List.Forall_forall P l) HF). apply nth_In. lia.
Qed.

(** ** Directives that never end *)

(** C4 as stated fails: with an argument in the pack, the directive [%z]
    is still open when the string ends, and the result is "ab", not
    "ab%z".  The two characters of the directive are dropped. *)
Lemma open_directive_not_copied :
  match fmt_core (RT := sample_runtime) default_context (list_ascii_of_string "ab%z")
          1 [TI32 5] 16 10 (fresh_memory 16) with
  | Ok (res, m) =>
      take (Z.to_nat (Len res)) (load m (Str res)) = list_ascii_of_string "ab"
      /\ take (Z.to_nat (Len res)) (load m (Str res)) <> list_ascii_of_string "ab%z"
  | Fail _ => False
  end.
Proof. vm_compute. split; [reflexivity | discriminate]. Qed.

Section OpenDirective.
Context `{RT : Runtime}.

Lemma open_directive_spec (cx : context) (lit junk : list ascii) (nargs : Z)
    (args : list fmtarg) (staticbuf_size : Z) (m : memory) :
  nargs <> 0 ->
  Forall (fun c => c <> "%" /\ c <> NUL) lit ->
  Forall (fun c => is_conversion_letter c = false /\ c <> "%" /\ c <> NUL) junk ->
  max_alloc < 2 ^ 62 ->
  0 <= staticbuf_size < 2 ^ 62 ->
  Z.of_nat (length (lit ++ "%" :: junk)) < 2 ^ 62 ->
  staticbuf_size <= Z.of_nat (length (static_mem m)) ->
  heap_fresh m ->
  exists n : nat, forall fuel,
    ensures memory_only
      (fmt_core cx (lit ++ "%" :: junk) nargs args staticbuf_size (n + fuel) m)
      (fun r =>
         Len (fst r) = Z.of_nat (length lit)
         /\ take (length lit + 1) (load (snd r) (Str (fst r))) = lit ++ [NUL]).
Proof.
  intros Hnargs Hlit Hjunk Halloc Hsize Hfmt Hcells Hfresh.
  set (fmt := lit ++ "%" :: junk) in *.
  set (bound := Z.max max_alloc staticbuf_size).
  assert (Hb1 : max_alloc <= bound) by (unfold bound; lia).
  assert (Hb2 : bound < 2 ^ 62) by (unfold bound; lia).
  set (p := Z.of_nat (length lit)).
  assert (Elen : Z.of_nat (length fmt) = p + 1 + Z.of_nat (length junk)).
  { unfold fmt, p. rewrite length_app. cbn [length]. lia. }
  assert (Hpc : char_at fmt p = "%").
  { unfold fmt. rewrite char_at_app by lia. unfold p.
    destruct (Z.ltb_spec (Z.of_nat (length lit)) (Z.of_nat (length lit))); [lia |].
    now rewrite Z.sub_diag. }
  assert (Hlits : forall j, 0 <= j < p -> char_at fmt j <> "%" /\ char_at fmt j <> NUL).
  { intros j Hj. unfold fmt. rewrite char_at_app by lia.
    destruct (Z.ltb_spec j (Z.of_nat (length lit))); [| unfold p in Hj; lia].
    apply (char_at_Forall _ lit j Hlit). lia. }
  assert (Hjunks : forall j, p + 1 <= j < p + 1 + Z.of_nat (length junk) ->
            is_conversion_letter (char_at fmt j) = false
            /\ char_at fmt j <> "%" /\ char_at fmt j <> NUL).
  { intros j Hj. unfold fmt. rewrite char_at_app by lia.
    destruct (Z.ltb_spec j (Z.of_nat (length lit))); [unfold p in Hj; lia |].
    fold p. rewrite (char_at_nth _ (j - p)) by lia.
    replace (Z.to_nat (j - p)) with (S (Z.to_nat (j - p - 1))) by lia. cbn [nth].
    rewrite <- char_at_nth by lia.
    apply (char_at_Forall _ junk (j - p - 1) Hjunk). lia. }
  assert (Hinit : state_ok bound fmt (initial_state staticbuf_size m)).
  { apply initial_state_ok; try done; unfold bound; lia. }
  destruct (scan_literal_run cx fmt nargs args staticbuf_size bound Hb1 Hb2 Hfmt p
              ltac:(lia) (or_introl Hpc) (Z.to_nat (2 * p + 1))
              (initial_state staticbuf_size m) Hinit eq_refl)
    as (n1 & Hn1).
  { cbn [initial_state cur]. lia. }
  { cbn [initial_state cur]. exact Hlits. }
  { cbn [initial_state cur output StackBuffer_new Pos Capacity].
    destruct (0 =? staticbuf_size); lia. }
  exists (S n1 + (length junk + 1))%nat. intros fuel.
  replace (S n1 + (length junk + 1) + fuel)%nat
    with (S n1 + (length junk + S fuel))%nat by lia.
  unfold fmt_core. destruct (Z.eqb_spec nargs 0); [contradiction |].
  destruct Hn1 as [Hfail | (st1 & Hst1 & Eiarg & Econt & Hcase)].
  { rewrite Hfail. reflexivity. }
  destruct Hcase as [(_ & Hrun & Ecur & Etok) | (Hnul & _)];
    [| rewrite Hpc in Hnul; discriminate].
  rewrite Hrun.
  rewrite (scan_open_directive cx fmt nargs args staticbuf_size (length junk) st1 (S fuel))
    by (rewrite ?Ecur, ?Etok; first [unfold p; lia | exact Hjunks]).
  rewrite scan_unfold. cbn [at_cur cur].
  assert (Hend : char_at fmt (cur st1 + Z.of_nat (length junk)) = NUL)
    by (apply char_at_outside; lia).
  rewrite Hend. change (is_char NUL NUL) with true. cbv iota.
  cbn [mbind outcome_bind at_cur output heap].
  destruct Hst1 as [Hok1 _ _].
  eapply ensures_bind; [apply (Add_ok bound Hb1 Hb2 NUL _ Hok1) |].
  intros [sb m2] (Hok2 & Epos2 & Hcap2 & Econt2).
  cbn [ensures fst snd Str Len] in *.
  assert (E0 : contents (output (initial_state staticbuf_size m),
                         heap (initial_state staticbuf_size m)) = []).
  { unfold contents. cbn. apply take_0. }
  assert (Elit : chars_from fmt 0 (Z.to_nat (p - 0)) = lit).
  { rewrite chars_from_segment by lia. unfold segment, fmt.
    change (Z.to_nat 0) with O. rewrite drop_0.
    apply take_app_length'. unfold p. lia. }
  cbn [initial_state cur] in Econt. rewrite E0, Elit in Econt. cbn [app] in Econt.
  assert (Hpos1 : Pos (output st1) = p).
  { apply (f_equal (@length ascii)) in Econt. unfold contents in Econt. cbn [fst snd] in Econt.
    destruct Hok1 as [Hp1 _ Hl1 _ _]. cbn [fst snd] in *.
    rewrite length_take_le in Econt by lia. unfold p. lia. }
  split.
  - rewrite Epos2, Hpos1. rewrite cast_size_t by (unfold p; lia). lia.
  - rewrite Econt in Econt2. rewrite <- Econt2. unfold contents. cbn [fst snd].
    f_equal. rewrite Epos2, Hpos1. unfold p. lia.
Qed.

(** C4, as the code has it.  With at least one argument in the pack, a
    directive whose characters are never a conversion letter or a percent
    sign stays open to the end of the string and leaves nothing in the
    output: the result is the literal text in front of it, terminated, and
    its length is that of the text.  Nothing is raised; only the allocator
    can fail.  (Called without arguments the format is copied whole, see
    C2.) *)
Theorem open_directive_is_dropped (cx : context) (lit junk : list ascii) (nargs : Z)
    (args : list fmtarg) (staticbuf_size : Z) (m : memory) :
  nargs <> 0 ->
  Forall (fun c => c <> "%" /\ c <> NUL) lit ->
  Forall (fun c => is_conversion_letter c = false /\ c <> "%" /\ c <> NUL) junk ->
  max_alloc < 2 ^ 62 ->
  0 <= staticbuf_size < 2 ^ 62 ->
  Z.of_nat (length (lit ++ "%" :: junk)) < 2 ^ 62 ->
  staticbuf_size <= Z.of_nat (length (static_mem m)) ->
  heap_fresh m ->
  exists n : nat, forall fuel,
    ensures memory_only
      (fmt_core cx (lit ++ "%" :: junk) nargs args staticbuf_size (n + fuel) m)
      (fun r =>
         Len (fst r) = Z.of_nat (length lit)
         /\ take (length lit + 1) (load (snd r) (Str (fst r))) = lit ++ [NUL]).
Proof. apply open_directive_spec. Qed.

End OpenDirective.

Lemma open_directive_is_dropped_witness :
  exists n : nat, forall fuel,
    ensures memory_only
      (fmt_core (RT := sample_runtime) default_context (["a"; "b"] ++ "%" :: ["z"]) 1
         [TI32 5] 16 (n + fuel) (fresh_memory 16))
      (fun r =>
         Len (fst r) = Z.of_nat (length ["a"; "b"])
         /\ take (length ["a"; "b"] + 1) (load (snd r) (Str (fst r))) = ["a"; "b"] ++ [NUL]).
Proof.
  apply (open_directive_is_dropped (RT := sample_runtime) default_context ["a"; "b"] ["z"] 1
           [TI32 5] 16 (fresh_memory 16)).
  - lia.
  - repeat (constructor; [split; discriminate |]). constructor.
  - repeat (constructor; [repeat split; discriminate || reflexivity |]). constructor.
  - reflexivity.
  - lia.
  - simpl; lia.
  - simpl; lia.
  - apply heap_fresh_fresh_memory.
Defined.

(** ** Further properties of the scanner *)

Section LiteralText.
Context `{RT : Runtime}.

(** A format string without percent signs comes back unchanged whatever the
    size of the caller's buffer, growth included (the run of 10,000
    characters through a buffer of 16 bytes is an instance). *)
Theorem literal_text_round_trip (cx : context) (fmt : list ascii) (nargs : Z)
    (args : list fmtarg) (staticbuf_size : Z) (m : memory) :
  nargs <> 0 ->
  Forall (fun c => c <> "%" /\ c <> NUL) fmt ->
  max_alloc < 2 ^ 62 ->
  0 <= staticbuf_size < 2 ^ 62 ->
  Z.of_nat (length fmt) < 2 ^ 62 ->
  staticbuf_size <= Z.of_nat (length (static_mem m)) ->
  heap_fresh m ->
  exists n : nat, forall fuel,
    ensures memory_only (fmt_core cx fmt nargs args staticbuf_size (n + fuel) m)
      (fun r =>
         Len (fst r) = Z.of_nat (length fmt)
         /\ take (length fmt + 1) (load (snd r) (Str (fst r))) = fmt ++ [NUL]).
Proof.
  intros Hnargs Hlit Halloc Hsize Hfmt Hcells Hfresh.
  set (bound := Z.max max_alloc staticbuf_size).
  assert (Hb1 : max_alloc <= bound) by (unfold bound; lia).
  assert (Hb2 : bound < 2 ^ 62) by (unfold bound; lia).
  set (p := Z.of_nat (length fmt)).
  assert (Hnul : char_at fmt p = NUL) by (apply char_at_outside; unfold p; lia).
  assert (Hlits : forall j, 0 <= j < p -> char_at fmt j <> "%" /\ char_at fmt j <> NUL).
  { intros j Hj. apply (char_at_Forall _ fmt j Hlit). exact Hj. }
  assert (Hinit : state_ok bound fmt (initial_state staticbuf_size m)).
  { apply initial_state_ok; try done; unfold bound; lia. }
  destruct (scan_literal_run cx fmt nargs args staticbuf_size bound Hb1 Hb2 Hfmt p
              ltac:(unfold p; lia) (or_intror Hnul) (Z.to_nat (2 * p + 1))
              (initial_state staticbuf_size m) Hinit eq_refl)
    as (n1 & Hn1).
  { cbn [initial_state cur]. unfold p. lia. }
  { cbn [initial_state cur]. exact Hlits. }
  { cbn [initial_state cur output StackBuffer_new Pos Capacity].
    destruct (0 =? staticbuf_size); unfold p; lia. }
  exists (S n1). intros fuel.
  unfold fmt_core. destruct (Z.eqb_spec nargs 0); [contradiction |].
  destruct Hn1 as [Hfail | (st1 & Hst1 & Eiarg & Econt & Hcase)].
  { rewrite Hfail. reflexivity. }
  destruct Hcase as [(Hpc & _) | (_ & Hrun & Ecur & Etok)];
    [rewrite Hnul in Hpc; discriminate |].
  rewrite Hrun. cbn [mbind outcome_bind].
  destruct Hst1 as [Hok1 _ _].
  eapply ensures_bind; [apply (Add_ok bound Hb1 Hb2 NUL _ Hok1) |].
  intros [sb m2] (Hok2 & Epos2 & Hcap2 & Econt2).
  cbn [ensures fst snd Str Len] in *.
  assert (E0 : contents (output (initial_state staticbuf_size m),
                         heap (initial_state staticbuf_size m)) = []).
  { unfold contents. cbn. apply take_0. }
  assert (Elit : chars_from fmt 0 (Z.to_nat (p - 0)) = fmt).
  { rewrite chars_from_segment by (unfold p; lia). unfold segment.
    change (Z.to_nat 0) with O. rewrite drop_0. apply take_ge. unfold p. lia. }
  cbn [initial_state cur] in Econt. rewrite E0, Elit in Econt. cbn [app] in Econt.
  assert (Hpos1 : Pos (output st1) = p).
  { apply (f_equal (@length ascii)) in Econt. unfold contents in Econt. cbn [fst snd] in Econt.
    destruct Hok1 as [Hp1 _ Hl1 _ _]. cbn [fst snd] in *.
    rewrite length_take_le in Econt by lia. unfold p. lia. }
  split.
  - rewrite Epos2, Hpos1. rewrite cast_size_t by (unfold p; lia). lia.
  - rewrite Econt in Econt2. rewrite <- Econt2. unfold contents. cbn [fst snd].
    f_equal. rewrite Epos2, Hpos1. unfold p. lia.
Qed.

End LiteralText.

Lemma literal_text_round_trip_witness :
  exists n : nat, forall fuel,
    ensures memory_only
      (fmt_core (RT := sample_runtime) default_context (list_ascii_of_string "hello world")
         1 [TI32 5] 4 (n + fuel) (fresh_memory 4))
      (fun r =>
         Len (fst r) = Z.of_nat (length (list_ascii_of_string "hello world"))
         /\ take (length (list_ascii_of_string "hello world") + 1)
              (load (snd r) (Str (fst r)))
            = list_ascii_of_string "hello world" ++ [NUL]).
Proof.
  apply (literal_text_round_trip (RT := sample_runtime) default_context
           (list_ascii_of_string "hello world") 1 [TI32 5] 4 (fresh_memory 4)).
  - lia.
  - repeat (constructor; [split; discriminate |]). constructor.
  - reflexivity.
  - lia.
  - simpl; lia.
  - simpl; lia.
  - apply heap_fresh_fresh_memory.
Defined.

(** ** The returned pointer on the main path *)

Lemma outcome_bind_Ok {A B} (x : outcome A) (k : A -> outcome B) (b : B) :
  x ≫= k = Ok b -> exists a, x = Ok a /\ k a = Ok b.
Proof. destruct x as [a | f]; [eauto | discriminate]. Qed.

Section Unmoved.
Context `{RT : Runtime}.
Variable cx : context.
Variable fmt : list ascii.
Variable nargs : Z.
Variable args : list fmtarg.
Variable staticbuf_size : Z.
Variable m0 : memory.

Local Abbreviation in_place := (unmoved staticbuf_size m0).

Lemma unmoved_store sb sb' m off data :
  Buffer sb' = Buffer sb -> Capacity sb' = Capacity sb ->
  in_place (sb, m) -> in_place (sb', store m (Buffer sb) off data).
Proof.
  unfold unmoved. cbn [fst snd]. intros -> -> Hs E.
  rewrite E, next_block_store. apply (Hs E).
Qed.

Lemma unmoved_at sb sb' m :
  Buffer sb' = Buffer sb -> Capacity sb' = Capacity sb ->
  in_place (sb, m) -> in_place (sb', m).
Proof. unfold unmoved. cbn [fst snd]. intros -> ->. done. Qed.

Lemma Reserve_unmoved bytes s s' :
  Reserve bytes s = Ok s' -> in_place s -> in_place s'.
Proof.
  destruct s as [sb m]. unfold Reserve.
  destruct (Capacity sb <? cast size_t (Pos sb + bytes)); [| intros [= <-]; done].
  intros E. apply outcome_bind_Ok in E as ([nbuf m1] & Enew & E).
  unfold new_array in Enew. destruct (_ <=? max_alloc); [| discriminate].
  injection Enew as <- <-. injection E as <-. intros _ E. discriminate E.
Qed.

Lemma AddUninitialized_unmoved bytes s r :
  AddUninitialized bytes s = Ok r -> in_place s -> in_place (snd r).
Proof.
  unfold AddUninitialized. intros E Hs.
  apply outcome_bind_Ok in E as ([sb m] & Eres & E).
  apply Reserve_unmoved in Eres; [| exact Hs]. injection E as <-.
  apply (unmoved_at sb); [reflexivity | reflexivity | exact Eres].
Qed.

Lemma Add_unmoved c s s' :
  Add c s = Ok s' -> in_place s -> in_place s'.
Proof.
  unfold Add. intros E Hs.
  apply outcome_bind_Ok in E as ([p [sb m]] & Eadd & E).
  apply AddUninitialized_unmoved in Eadd; [| exact Hs]. injection E as <-.
  apply unmoved_store; [reflexivity | reflexivity | exact Eadd].
Qed.

Lemma MoveCurrentPos_unmoved bytes sb sb' m :
  MoveCurrentPos bytes sb = Ok sb' -> in_place (sb, m) -> in_place (sb', m).
Proof.
  unfold MoveCurrentPos. cbn [Pos Capacity].
  destruct (_ <=? _); [| discriminate]. intros [= <-].
  apply unmoved_at; reflexivity.
Qed.

Lemma add_token_unmoved passes : forall j s s',
  add_token fmt passes j s = Ok s' -> in_place s -> in_place s'.
Proof.
  induction passes as [| passes IH]; intros j s s'; cbn [add_token].
  - intros [= <-]. done.
  - intros E Hs. apply outcome_bind_Ok in E as (s1 & Eadd & E).
    apply (IH _ _ _ E). apply (Add_unmoved _ _ _ Eadd Hs).
Qed.

Lemma copy_literal_unmoved passes : forall stopAt i s,
  in_place s -> in_place (snd (copy_literal fmt passes stopAt i s)).
Proof.
  induction passes as [| passes IH]; intros stopAt i [sb m] Hs; cbn [copy_literal]; [exact Hs |].
  destruct (_ && _); [| exact Hs]. apply IH.
  apply unmoved_store; [reflexivity | reflexivity | exact Hs].
Qed.

Lemma conversion_loop_unmoved fuel :
  forall is_q is_Q fmt_type argbuf argbufsize arg outputSize s s',
  conversion_loop cx fuel is_q is_Q fmt_type argbuf argbufsize arg outputSize s = Ok s' ->
  in_place s -> in_place s'.
Proof.
  induction fuel as [| fuel IH];
    intros is_q is_Q fmt_type argbuf argbufsize arg outputSize s s';
    cbn [conversion_loop]; [discriminate |].
  intros E Hs.
  apply outcome_bind_Ok in E as ([outbuf [sb m]] & Eadd & E).
  apply AddUninitialized_unmoved in Eadd; [| exact Hs]. cbn [fst snd] in Eadd.
  apply outcome_bind_Ok in E as ([cells [stored written]] & _ & E).
  assert (Hst : in_place (sb, store m (Buffer sb) outbuf stored))
    by (apply unmoved_store; [reflexivity | reflexivity | exact Eadd]).
  destruct (_ && _).
  { apply outcome_bind_Ok in E as (sb1 & Emove & E). injection E as <-.
    apply (MoveCurrentPos_unmoved _ _ _ _ Emove Hst). }
  destruct (MaxOutputSize <=? outputSize).
  { injection E as <-. exact Hst. }
  apply outcome_bind_Ok in E as (sb1 & Emove & E).
  apply (IH _ _ _ _ _ _ _ _ _ E). apply (MoveCurrentPos_unmoved _ _ _ _ Emove Hst).
Qed.

Lemma retry_unmoved fuel : forall is_q is_Q fmt_type argbuf arg outputSize s s',
  retry cx fuel is_q is_Q fmt_type argbuf arg outputSize s = Ok s' ->
  in_place s -> in_place s'.
Proof. intros is_q is_Q fmt_type argbuf arg outputSize s s'. apply conversion_loop_unmoved. Qed.

Lemma body_unmoved fuel st r :
  body cx fmt nargs args staticbuf_size fuel st = Ok r ->
  in_place (output st, heap st) -> in_place (output (snd r), heap (snd r)).
Proof.
  unfold body. intros E Hs.
  destruct (negb (tokenstart st =? -1)).
  - destruct (is_conversion_letter _).
    + destruct (_ || _).
      * apply outcome_bind_Ok in E as ([sb m] & Etok & E). injection E as <-.
        apply (add_token_unmoved _ _ _ _ Etok Hs).
      * apply outcome_bind_Ok in E as ([sb m] & Etry & E). injection E as <-.
        apply (retry_unmoved _ _ _ _ _ _ _ _ _ Etry Hs).
    + destruct (is_char _ "%").
      * apply outcome_bind_Ok in E as ([sb m] & Eadd & E). injection E as <-.
        apply (Add_unmoved _ _ _ Eadd Hs).
      * injection E as <-. exact Hs.
  - pose proof (copy_literal_unmoved
                  (Z.to_nat (cast ssize_t (cast size_t (cur st + RemainingSpace (output st)))
                             - cur st))
                  (cast ssize_t (cast size_t (cur st + RemainingSpace (output st))))
                  (cur st) (output st, heap st) Hs) as Hcopy.
    destruct (copy_literal _ _ _ _ _) as [i [sb m]]. cbn [fst snd] in Hcopy.
    destruct (is_char _ "%"); [injection E as <-; exact Hcopy |].
    destruct (is_char _ NUL); [injection E as <-; exact Hcopy |].
    apply outcome_bind_Ok in E as ([sb1 m1] & Eres & E). injection E as <-.
    apply (Reserve_unmoved _ _ _ Eres Hcopy).
Qed.

Lemma scan_unmoved fuel : forall st st',
  scan cx fmt nargs args staticbuf_size fuel st = Ok st' ->
  in_place (output st, heap st) -> in_place (output st', heap st').
Proof.
  induction fuel as [| fuel IH]; intros st st'; cbn [scan]; [discriminate |].
  destruct (is_char _ NUL); [intros [= <-]; done |].
  intros E Hs. apply outcome_bind_Ok in E as ([stop st1] & Ebody & E).
  apply body_unmoved in Ebody; [| exact Hs]. cbn [snd] in Ebody.
  destruct stop; [injection E as <-; exact Ebody |].
  apply (IH _ _ E). exact Ebody.
Qed.

End Unmoved.

(** On the main path (at least one argument), a result that is the caller's
    buffer fits it, terminator included, and no array was allocated on the
    way: the direction of the contract of [fmt_buf] that the scanner
    keeps.  The runs spoken of are those that return: a run in which
    [fmt_settype] stores behind the sixteen cells of [argbuf] ends there
    and returns nothing. *)
Theorem caller_buffer_result_fits `{RT : Runtime} (cx : context) (fmt : list ascii)
    (nargs : Z) (args : list fmtarg) (staticbuf_size : Z) (m : memory)
    (fuel : nat) (res : StrLenPair) (m' : memory) :
  nargs <> 0 ->
  max_alloc < 2 ^ 62 ->
  0 <= staticbuf_size < 2 ^ 62 ->
  Z.of_nat (length fmt) < 2 ^ 62 ->
  staticbuf_size <= Z.of_nat (length (static_mem m)) ->
  heap_fresh m ->
  fmt_core cx fmt nargs args staticbuf_size fuel m = Ok (res, m') ->
  Str res = Static ->
  Len res + 1 <= staticbuf_size
  /\ next_block m' = next_block m
  /\ heap_mem m' = heap_mem m.
Proof.
  intros Hnargs Halloc Hsize Hfmt Hcells Hfresh Hrun Hstr.
  set (bound := Z.max max_alloc staticbuf_size).
  assert (Hb1 : max_alloc <= bound) by (unfold bound; lia).
  assert (Hb2 : bound < 2 ^ 62) by (unfold bound; lia).
  assert (Hinit : state_ok bound fmt (initial_state staticbuf_size m)).
  { apply initial_state_ok; try done; unfold bound; lia. }
  unfold fmt_core in Hrun. destruct (Z.eqb_spec nargs 0); [contradiction |].
  apply outcome_bind_Ok in Hrun as (st & Escan & Hrun).
  apply outcome_bind_Ok in Hrun as ([sb m1] & Eadd & Hrun).
  injection Hrun as <- <-. cbn [Str Len] in *.
  pose proof (scan_ok cx fmt nargs args staticbuf_size bound Hb1 Hb2 Hfmt
                ltac:(lia) fuel _ Hinit) as Hscan.
  rewrite Escan in Hscan. cbn [ensures] in Hscan. destruct Hscan as (Hok & _).
  pose proof (Add_ok bound Hb1 Hb2 NUL _ Hok) as Hadd.
  rewrite Eadd in Hadd. cbn [ensures fst snd] in Hadd.
  destruct Hadd as (Hok1 & Epos & _ & _).
  assert (Hun : unmoved staticbuf_size m (sb, m1)).
  { apply (Add_unmoved staticbuf_size m _ _ _ Eadd).
    apply (scan_unmoved cx fmt nargs args staticbuf_size m _ _ _ Escan).
    intros _. done. }
  destruct (Hun Hstr) as (Ecap & Eblocks & Eheap). cbn [fst snd] in *.
  destruct Hok as [Hp0 _ _ _ _]. destruct Hok1 as [Hp1 Hc1 _ _ _]. cbn [fst snd] in *.
  rewrite cast_size_t by lia. repeat split; [lia | exact Eblocks | exact Eheap].
Qed.

Lemma caller_buffer_result_fits_witness :
  Len {| Str := Static; Len := 4 |} + 1 <= 16
  /\ next_block (store (fresh_memory 16) Static 0 (list_ascii_of_string "n=42" ++ [NUL]))
     = next_block (fresh_memory 16)
  /\ heap_mem (store (fresh_memory 16) Static 0 (list_ascii_of_string "n=42" ++ [NUL]))
     = heap_mem (fresh_memory 16).
Proof.
  apply (caller_buffer_result_fits (RT := sample_runtime) default_context
           (list_ascii_of_string "n=%d") 1 [TI32 42] 16 (fresh_memory 16) 100).
  - lia.
  - reflexivity.
  - lia.
  - simpl; lia.
  - simpl; lia.
  - apply heap_fresh_fresh_memory.
  - vm_compute. reflexivity.
  - reflexivity.
Defined.

(** ** Termination of the scanner

    From a caller's buffer of four bytes or more the first guess of the
    conversion loop is at least one byte, the guess doubles up to
    [MaxOutputSize] in at most twenty rounds, and every pass of the main
    loop lowers [progress]. *)

Lemma bind_fuel_left {A B} (x : outcome A) (k : A -> outcome B) :
  x <> Fail OutOfFuel -> (forall a, x = Ok a -> k a <> Fail OutOfFuel) ->
  x ≫= k <> Fail OutOfFuel.
Proof.
  destruct x as [a | f]; cbn; [intros _ H; apply H; reflexivity |].
  intros H _ [= ->]. apply H. reflexivity.
Qed.

Lemma ensures_fuel_left {A} (x : outcome A) (Q : A -> Prop) :
  ensures no_abort x Q -> x <> Fail OutOfFuel -> ensures alloc_or_overrun x Q.
Proof. destruct x as [a | []]; cbn; congruence. Qed.

Lemma ensures_memory_only_fuel {A} (x : outcome A) (Q : A -> Prop) :
  ensures memory_only x Q -> x <> Fail OutOfFuel.
Proof. destruct x as [a | []]; cbn; congruence. Qed.

Section Termination.
Context `{RT : Runtime}.
Variable cx : context.
Variable fmt : list ascii.
Variable nargs : Z.
Variable args : list fmtarg.
Variable staticbuf_size : Z.

Lemma Reserve_fuel_left bytes s : Reserve bytes s <> Fail OutOfFuel.
Proof.
  destruct s as [sb m]. unfold Reserve, new_array.
  destruct (_ <? _); [| discriminate]. destruct (_ <=? max_alloc); discriminate.
Qed.

Lemma AddUninitialized_fuel_left bytes s : AddUninitialized bytes s <> Fail OutOfFuel.
Proof.
  unfold AddUninitialized. apply bind_fuel_left; [apply Reserve_fuel_left |].
  intros [sb m] _. discriminate.
Qed.

Lemma Add_fuel_left c s : Add c s <> Fail OutOfFuel.
Proof.
  unfold Add. apply bind_fuel_left; [apply AddUninitialized_fuel_left |].
  intros [p [sb m]] _. discriminate.
Qed.

Lemma MoveCurrentPos_fuel_left bytes sb : MoveCurrentPos bytes sb <> Fail OutOfFuel.
Proof. unfold MoveCurrentPos. destruct (_ <=? _); discriminate. Qed.

Lemma add_token_fuel_left passes : forall j s, add_token fmt passes j s <> Fail OutOfFuel.
Proof.
  induction passes as [| passes IH]; intros j s; cbn [add_token]; [discriminate |].
  apply bind_fuel_left; [apply Add_fuel_left | intros s1 _; apply IH].
Qed.

(** The conversion loop ends within the rounds it takes the guess to reach
    [MaxOutputSize]. *)
Lemma conversion_loop_fuel_left is_q is_Q fmt_type argbufsize arg fuel :
  forall argbuf outputSize s,
  1 <= outputSize ->
  MaxOutputSize <= outputSize * 2 ^ Z.of_nat fuel ->
  conversion_loop cx (S fuel) is_q is_Q fmt_type argbuf argbufsize arg outputSize s
  <> Fail OutOfFuel.
Proof.
  assert (Hcall : forall argbuf outputSize,
    (if is_q
     then match Escape_q cx with
          | Some f =>
              let '(b, r) := f (cast size_t outputSize) arg in
              Ok (argbuf, (b, cast ssize_t r))
          | None => Fail NullCall
          end
     else if is_Q
          then match Escape_Q cx with
               | Some f =>
                   let '(b, r) := f (cast size_t outputSize) arg in
                   Ok (argbuf, (b, cast ssize_t r))
               | None => Fail NullCall
               end
          else
            let rewritten := fmt_output_argbuf fmt_type argbuf argbufsize arg in
            if argbuf_arraysize <? Z.of_nat (length rewritten) then Fail ArgbufOverrun
            else Ok (rewritten,
                     fmt_output_with_snprintf fmt_type argbuf argbufsize
                       (cast size_t outputSize) arg))
    <> Fail OutOfFuel).
  { intros argbuf outputSize.
    destruct is_q; [destruct (Escape_q cx) as [g |]; [destruct (g _ _) |]; discriminate |].
    destruct is_Q; [destruct (Escape_Q cx) as [g |]; [destruct (g _ _) |]; discriminate |].
    cbv zeta. destruct (_ <? _); discriminate. }
  induction fuel as [| fuel IH]; intros argbuf outputSize s Hsize Hmax.
  - cbn [conversion_loop]. change (2 ^ Z.of_nat 0) with 1 in Hmax.
    apply bind_fuel_left; [apply AddUninitialized_fuel_left |].
    intros [outbuf [sb m]] _. apply bind_fuel_left; [apply Hcall |].
    intros [cells [stored written]] _.
    destruct (_ && _).
    { apply bind_fuel_left; [apply MoveCurrentPos_fuel_left | discriminate]. }
    destruct (Z.leb_spec MaxOutputSize outputSize); [discriminate | lia].
  - remember (S fuel) as fuel1 eqn:Efuel. cbn [conversion_loop]. subst fuel1.
    apply bind_fuel_left; [apply AddUninitialized_fuel_left |].
    intros [outbuf [sb m]] _. apply bind_fuel_left; [apply Hcall |].
    intros [cells [stored written]] _.
    destruct (_ && _).
    { apply bind_fuel_left; [apply MoveCurrentPos_fuel_left | discriminate]. }
    destruct (Z.leb_spec MaxOutputSize outputSize); [discriminate |].
    apply bind_fuel_left; [apply MoveCurrentPos_fuel_left |].
    intros sb1 _. unfold MaxOutputSize in *.
    rewrite cast_ssize_t by lia. apply IH; [lia |].
    rewrite Nat2Z.inj_succ, Z.pow_succ_r in Hmax by lia. lia.
Qed.

Lemma retry_fuel_left is_q is_Q fmt_type argbuf arg fuel : forall outputSize s,
  1 <= outputSize ->
  MaxOutputSize <= outputSize * 2 ^ Z.of_nat fuel ->
  retry cx (S fuel) is_q is_Q fmt_type argbuf arg outputSize s <> Fail OutOfFuel.
Proof. intros outputSize s. apply conversion_loop_fuel_left. Qed.

Hypothesis size_four : 4 <= staticbuf_size < 2 ^ 62.

Lemma guessed_size_positive : 1 <= cast ssize_t (initial_sprintf_guessed_size staticbuf_size).
Proof.
  unfold initial_sprintf_guessed_size. rewrite Z.shiftr_div_pow2 by lia.
  change (2 ^ 2) with 4.
  assert (1 <= staticbuf_size / 4) by (apply Z.div_le_lower_bound; lia).
  assert (staticbuf_size / 4 < 2 ^ 62) by (apply Z.div_lt_upper_bound; lia).
  rewrite cast_ssize_t by lia. lia.
Qed.

Lemma body_fuel_left fuel st :
  (20 <= fuel)%nat ->
  body cx fmt nargs args staticbuf_size (S fuel) st <> Fail OutOfFuel.
Proof.
  intros Hfuel. unfold body.
  destruct (negb (tokenstart st =? -1)).
  - destruct (is_conversion_letter _).
    + destruct (_ || _).
      * apply bind_fuel_left; [apply add_token_fuel_left |]. intros [sb m] _. discriminate.
      * apply bind_fuel_left; [| intros [sb m] _; discriminate].
        apply retry_fuel_left; [apply guessed_size_positive |].
        pose proof guessed_size_positive as Hg.
        assert (2 ^ 20 <= 2 ^ Z.of_nat fuel) by (apply Z.pow_le_mono_r; lia).
        unfold MaxOutputSize. change (1 * 1024 * 1024) with (2 ^ 20). nia.
    + destruct (is_char _ "%"); [| discriminate].
      apply bind_fuel_left; [apply Add_fuel_left |]. intros [sb m] _. discriminate.
  - destruct (copy_literal _ _ _ _ _) as [i [sb m]].
    destruct (is_char _ "%"); [discriminate |].
    destruct (is_char _ NUL); [discriminate |].
    apply bind_fuel_left; [apply Reserve_fuel_left |]. intros [sb1 m1] _. discriminate.
Qed.

(** Inside a directive a pass leaves the index where it is. *)
Lemma body_directive_cur fuel st r :
  tokenstart st <> -1 ->
  body cx fmt nargs args staticbuf_size fuel st = Ok r ->
  fst r = false /\ cur (snd r) = cur st.
Proof.
  intros Htok. unfold body.
  destruct (Z.eqb_spec (tokenstart st) (-1)); [contradiction |]. cbn [negb].
  destruct (is_conversion_letter _).
  - destruct (_ || _); intros E; apply outcome_bind_Ok in E as ([sb m] & _ & E);
      injection E as <-; done.
  - destruct (is_char _ "%"); intros E.
    + apply outcome_bind_Ok in E as ([sb m] & _ & E). injection E as <-. done.
    + injection E as <-. done.
Qed.

End Termination.

Lemma next_special (fmt : list ascii) : forall (n : nat) (i : Z),
  Z.of_nat (length fmt) - i <= Z.of_nat n ->
  exists p, i <= p
            /\ (forall j, i <= j < p -> char_at fmt j <> "%" /\ char_at fmt j <> NUL)
            /\ (char_at fmt p = "%" \/ char_at fmt p = NUL).
Proof.
  induction n as [| n IH]; intros i Hn.
  - exists i. repeat split; try lia. right. apply char_at_outside. lia.
  - destruct (ascii_dec (char_at fmt i) "%") as [Epc | Npc].
    { exists i. repeat split; try lia. left. exact Epc. }
    destruct (ascii_dec (char_at fmt i) NUL) as [Enul | Nnul].
    { exists i. repeat split; try lia. right. exact Enul. }
    destruct (IH (i + 1)) as (p & Hp & Hlit & Hend); [lia |].
    exists p. split; [lia |]. split; [| exact Hend].
    intros j Hj. destruct (Z.eq_dec j i) as [-> | Hne]; [done |]. apply Hlit. lia.
Qed.

Section ScannerReturns.
Context `{RT : Runtime}.
Variable cx : context.
Variable fmt : list ascii.
Variable nargs : Z.
Variable args : list fmtarg.
Variable staticbuf_size : Z.
Variable bound : Z.
Hypothesis bound_alloc : max_alloc <= bound.
Hypothesis bound_small : bound < 2 ^ 62.
Hypothesis fmt_small : Z.of_nat (length fmt) < 2 ^ 62.
Hypothesis size_four : 4 <= staticbuf_size < 2 ^ 62.

Lemma body_progress fuel st :
  state_ok bound fmt st -> char_at fmt (cur st) <> NUL -> (20 <= fuel)%nat ->
  ensures alloc_or_overrun (body cx fmt nargs args staticbuf_size (S fuel) st)
    (fun r => buffer_ok bound (output (snd r), heap (snd r))
              /\ (fst r = false ->
                  state_ok bound fmt (advance (snd r))
                  /\ progress fmt (advance (snd r)) < progress fmt st)).
Proof.
  intros Hst Hnul Hfuel.
  pose proof (body_ok cx fmt nargs args staticbuf_size bound bound_alloc bound_small
                fmt_small ltac:(lia) (S fuel) st Hst Hnul) as Hok.
  pose proof (body_fuel_left cx fmt nargs args staticbuf_size size_four fuel st Hfuel)
    as Hleft.
  apply ensures_fuel_left; [| exact Hleft].
  destruct (body cx fmt nargs args staticbuf_size (S fuel) st) as [[stop st1] | f] eqn:E;
    [| exact Hok].
  cbn [ensures fst snd] in *. destruct Hok as (Hbuf & _ & Hnext).
  split; [exact Hbuf |]. intros ->. split; [apply Hnext; reflexivity |].
  pose proof (st_cur _ _ _ Hst) as Hcur.
  destruct (Z.eq_dec (tokenstart st) (-1)) as [Etok | Ntok].
  - destruct (next_special fmt (Z.to_nat (Z.of_nat (length fmt) - cur st)) (cur st))
      as (p & Hp & Hlit & Hend); [lia |].
    pose proof (body_literal cx fmt nargs args staticbuf_size bound bound_alloc bound_small
                  fmt_small (S fuel) st p Hst Etok Hp Hlit Hend) as Hbody.
    rewrite E in Hbody. cbn [ensures fst snd] in Hbody.
    destruct Hbody as (_ & _ & k & Hk & _ & Hcase).
    unfold progress, advance. cbn [cur tokenstart output].
    destruct Hcase as [(Ek & _ & _ & Ecur & Etok1) | [(_ & _ & Estop & _) | Hfull]];
      [| discriminate Estop |].
    + rewrite Ecur, Etok1. destruct (Z.eqb_spec p (-1)); [lia |]. cbn [andb].
      destruct (_ && _); lia.
    + destruct Hfull as (Hlt & _ & Ecur & Etok1 & Hroom & Hzero).
      rewrite Ecur, Etok1, Etok. change (-1 =? -1) with true. cbn [andb].
      destruct (Z.leb_spec (Capacity (output st1)) (Pos (output st1))); [lia |].
      destruct k as [| k].
      * rewrite (Hzero eq_refl). rewrite Z.leb_refl. lia.
      * destruct (_ <=? _); lia.
  - destruct (body_directive_cur cx fmt nargs args staticbuf_size (S fuel) st _ Ntok E)
      as (_ & Ecur).
    cbn [snd] in Ecur. unfold progress, advance. cbn [cur tokenstart output].
    rewrite Ecur. destruct (Z.eqb_spec (tokenstart st) (-1)); [contradiction |].
    cbn [andb]. destruct (_ && _); lia.
Qed.

Lemma scan_returns : forall (n fuel : nat) (st : scan_state),
  state_ok bound fmt st -> progress fmt st < Z.of_nat n -> (n + 21 <= fuel)%nat ->
  ensures alloc_or_overrun (scan cx fmt nargs args staticbuf_size fuel st)
    (fun st' => buffer_ok bound (output st', heap st')).
Proof.
  induction n as [| n IH]; intros fuel st Hst Hn Hfuel.
  - pose proof (st_cur _ _ _ Hst) as Hcur. unfold progress in Hn.
    destruct (_ && _); lia.
  - destruct fuel as [| fuel]; [lia |]. rewrite scan_unfold.
    destruct (is_char (char_at fmt (cur st)) NUL) eqn:Enul; [apply Hst |].
    assert (Hnul : char_at fmt (cur st) <> NUL).
    { intros E. apply is_char_true in E. congruence. }
    destruct fuel as [| fuel]; [lia |].
    eapply ensures_bind; [apply (body_progress fuel st Hst Hnul); lia |].
    intros [stop st1] (Hbuf & Hnext). cbn [fst snd] in *.
    destruct stop; [exact Hbuf |].
    destruct (Hnext eq_refl) as (Hst1 & Hless).
    apply IH; [exact Hst1 | lia | lia].
Qed.

End ScannerReturns.

(** From a caller's buffer of four bytes or more the scanner comes to an
    end, for every format string, argument pack and context: with fuel for
    two passes of the main loop per character and twenty rounds of the
    conversion loop the run ends with a result, with a failed allocation,
    or at a directive that overruns [argbuf].  It does not loop, no
    assertion fails and no null callback is called.  The result is a
    terminated string inside its array. *)
Theorem scanner_returns `{RT : Runtime} (cx : context) (fmt : list ascii) (nargs : Z)
    (args : list fmtarg) (staticbuf_size : Z) (m : memory) (fuel : nat) :
  nargs <> 0 ->
  max_alloc < 2 ^ 62 ->
  4 <= staticbuf_size < 2 ^ 62 ->
  Z.of_nat (length fmt) < 2 ^ 62 ->
  staticbuf_size <= Z.of_nat (length (static_mem m)) ->
  heap_fresh m ->
  (2 * length fmt + 22 <= fuel)%nat ->
  ensures alloc_or_overrun (fmt_core cx fmt nargs args staticbuf_size fuel m)
    (fun r => 0 <= Len (fst r)
              /\ load (snd r) (Str (fst r)) !! Z.to_nat (Len (fst r)) = Some NUL).
Proof.
  intros Hnargs Halloc Hsize Hfmt Hcells Hfresh Hfuel.
  set (bound := Z.max max_alloc staticbuf_size).
  assert (Hb1 : max_alloc <= bound) by (unfold bound; lia).
  assert (Hb2 : bound < 2 ^ 62) by (unfold bound; lia).
  assert (Hinit : state_ok bound fmt (initial_state staticbuf_size m)).
  { apply initial_state_ok; try done; unfold bound; lia. }
  unfold fmt_core. destruct (Z.eqb_spec nargs 0); [contradiction |].
  eapply ensures_bind.
  { apply (scan_returns cx fmt nargs args staticbuf_size bound Hb1 Hb2 Hfmt Hsize
             (2 * length fmt + 1) fuel _ Hinit); [| lia].
    unfold progress, initial_state. cbn [cur tokenstart output StackBuffer_new Capacity Pos].
    destruct (Z.leb_spec staticbuf_size 0); [lia |].
    rewrite andb_false_r. lia. }
  intros st Hok. eapply ensures_bind.
  { eapply ensures_mono; [apply (Add_ok bound Hb1 Hb2 NUL _ Hok)
                         | apply memory_only_alloc_or_overrun | intros r Hr; exact Hr]. }
  intros [sb m1] (Hok1 & Epos & _ & Econt). cbn [ensures fst snd Str Len] in *.
  destruct Hok as [Hp0 _ Hl0 _ _]. destruct Hok1 as [Hp1 Hc1 Hl1 _ _]. cbn [fst snd] in *.
  rewrite cast_size_t by lia. split; [lia |].
  unfold contents in Econt. cbn [fst snd] in Econt.
  rewrite <- (lookup_take_lt _ (Z.to_nat (Pos sb))) by lia.
  rewrite Econt. apply list_lookup_middle.
  rewrite length_take_le by lia. lia.
Qed.

Lemma scanner_returns_witness :
  ensures alloc_or_overrun
    (fmt_core (RT := sample_runtime) default_context (list_ascii_of_string "%d")
       1 [TI32 5] 4 26 (fresh_memory 4))
    (fun r => 0 <= Len (fst r)
              /\ load (snd r) (Str (fst r)) !! Z.to_nat (Len (fst r)) = Some NUL).
Proof.
  apply (scanner_returns (RT := sample_runtime) default_context
           (list_ascii_of_string "%d") 1 [TI32 5] 4 (fresh_memory 4) 26).
  - lia.
  - reflexivity.
  - lia.
  - simpl; lia.
  - simpl; lia.
  - apply heap_fresh_fresh_memory.
  - simpl; lia.
Defined.

(** ** The scanner against the reference formatter *)

Lemma take_poke_part cells off data (w : nat) :
  (Z.to_nat off <= length cells)%nat -> (w <= length data)%nat ->
  take (Z.to_nat off + w) (poke cells off data) = take (Z.to_nat off) cells ++ take w data.
Proof.
  intros Hoff Hw.
  replace (take (Z.to_nat off + w) (poke cells off data))
    with (take (Z.to_nat off + w)
            (take (Z.to_nat off + length data) (poke cells off data)))
    by (rewrite take_take; f_equal; lia).
  rewrite take_poke_through by exact Hoff.
  rewrite take_app_add'; [reflexivity |].
  rewrite length_take_le; lia.
Qed.

Section Refinement.
Context `{RT : Runtime}.
Variable cx : context.
Variable fmt : list ascii.
Variable nargs : Z.
Variable args : list fmtarg.
Variable staticbuf_size : Z.
Variable bound : Z.
Hypothesis bound_alloc : max_alloc <= bound.
Hypothesis bound_small : bound < 2 ^ 62.

(** The conversion loop appends what the reference says the conversion
    contributes. *)
Lemma conversion_loop_renders is_q is_Q fmt_type argbuf arg piece :
  let argbufsize := Z.of_nat (length argbuf) in
  let rewritten := fmt_output_argbuf fmt_type argbuf argbufsize arg in
  (is_q || is_Q = false -> (argbuf_arraysize <? Z.of_nat (length rewritten)) = false) ->
  forall (rounds fuel : nat) (cells : list ascii) (outputSize : Z)
         (s : StackBuffer * memory),
    buffer_ok bound s -> 0 <= outputSize < 2 ^ 61 -> (rounds <= fuel)%nat ->
    fmt_output_argbuf fmt_type cells argbufsize arg = rewritten ->
    (is_q || is_Q = false -> (1 < rounds)%nat ->
     fmt_output_argbuf fmt_type rewritten argbufsize arg = rewritten) ->
    converted rounds (conversion_call cx is_q is_Q fmt_type argbuf arg) outputSize
    = Some piece ->
    ensures memory_only
      (conversion_loop cx fuel is_q is_Q fmt_type cells argbufsize arg outputSize s)
      (fun s' => buffer_ok bound s' /\ contents s' = contents s ++ piece).
Proof.
  intros argbufsize rewritten Hfit.
  induction rounds as [| rounds IH];
    intros fuel cells outputSize s Hok Hsize Hfuel Hcells Hstable Hconv; [discriminate |].
  destruct fuel as [| fuel]; [lia |].
  cbn [converted] in Hconv. cbn [conversion_loop].
  destruct (conversion_call cx is_q is_Q fmt_type argbuf arg outputSize)
    as [[stored written] |] eqn:Ecall; [| discriminate].
  eapply ensures_bind;
    [apply (AddUninitialized_ok bound bound_alloc bound_small (cast size_t outputSize) s Hok);
     rewrite cast_size_t; lia |].
  intros [outbuf [sb m]] (Ebuf & Hok1 & Epos & Hcap & Etake). cbn [fst snd] in *. subst outbuf.
  rewrite cast_size_t in Epos by lia.
  match goal with |- ensures _ (mbind _ ?call) _ => set (backend := call) end.
  assert (Hcall : exists cells',
    backend = Ok (cells', (stored, written))
    /\ ((1 < S rounds)%nat ->
        fmt_output_argbuf fmt_type cells' argbufsize arg = rewritten)).
  { unfold backend. unfold conversion_call in Ecall. destruct is_q.
    - destruct (Escape_q cx) as [f |]; [| discriminate].
      destruct (f (cast size_t outputSize) arg) as [b r]. injection Ecall as -> ->.
      exists cells. split; [reflexivity | intros _; exact Hcells].
    - destruct is_Q.
      + destruct (Escape_Q cx) as [f |]; [| discriminate].
        destruct (f (cast size_t outputSize) arg) as [b r]. injection Ecall as -> ->.
        exists cells. split; [reflexivity | intros _; exact Hcells].
      + cbv zeta. rewrite Hcells, (Hfit eq_refl).
        rewrite (fmt_output_with_snprintf_cells fmt_type cells argbuf) by exact Hcells.
        fold argbufsize in Ecall. injection Ecall as ->.
        exists rewritten. split; [reflexivity |]. intros Hr. now apply Hstable. }
  destruct Hcall as (cells' & -> & Hnext). cbn [mbind outcome_bind].
  set (m2 := store m (Buffer sb) (Pos (fst s)) stored).
  assert (Hok2 : buffer_ok bound (sb, m2)) by now apply buffer_ok_store.
  pose proof Hok as [Hp0 Hc0 Hl0 Hv0 Hf0].
  pose proof Hok1 as [Hp1 Hc1 Hl1 Hv1 Hf1]. cbn [fst snd] in *.
  assert (Epart : forall w : nat, (w <= length stored)%nat ->
            take (Z.to_nat (Pos (fst s)) + w) (load m2 (Buffer sb))
            = contents s ++ take w stored).
  { intros w Hw. unfold m2. rewrite load_store_same by done.
    rewrite take_poke_part by lia. now rewrite Etake. }
  destruct ((0 <=? written) && (written <? outputSize)) eqn:Efit.
  - apply andb_true_iff in Efit as [Hw0 Hw1].
    apply Z.leb_le in Hw0. apply Z.ltb_lt in Hw1.
    destruct (Z.leb_spec written (Z.of_nat (length stored))); [| discriminate].
    injection Hconv as <-.
    rewrite MoveCurrentPos_back by (rewrite Epos; lia).
    cbn [mbind outcome_bind ensures]. split.
    + destruct Hok2 as [Hp2 Hc2 Hl2 Hv2 Hf2]. cbn [fst snd] in *.
      split; cbn [fst snd at_pos Buffer Pos Capacity]; try done. lia.
    + unfold contents at 1. cbn [fst snd at_pos Buffer Pos].
      rewrite <- Epart by lia. f_equal. lia.
  - destruct (Z.leb_spec MaxOutputSize outputSize) as [Hmax | Hmax].
    + destruct (Z.leb_spec outputSize (Z.of_nat (length stored))); [| discriminate].
      injection Hconv as <-. cbn [ensures]. split; [exact Hok2 |].
      unfold contents at 1. cbn [fst snd].
      rewrite <- Epart by lia. f_equal. lia.
    + rewrite MoveCurrentPos_back by (rewrite Epos; lia).
      cbn [mbind outcome_bind].
      replace (Pos sb + - outputSize) with (Pos (fst s)) by lia.
      unfold MaxOutputSize in Hmax.
      rewrite cast_ssize_t by lia.
      assert (Hok3 : buffer_ok bound (at_pos sb (Pos (fst s)), m2)).
      { destruct Hok2 as [Hp2 Hc2 Hl2 Hv2 Hf2]. cbn [fst snd] in *.
        split; cbn [fst snd at_pos Buffer Pos Capacity]; try done. lia. }
      destruct rounds as [| rounds']; [discriminate Hconv |].
      eapply ensures_mono;
        [apply (IH fuel cells' (outputSize * 2) _ Hok3);
         [lia | lia | apply Hnext; lia | intros Hb Hr; apply Hstable; [exact Hb | lia]
         | exact Hconv]
        | done |].
      intros s' (Hok' & Econt'). split; [exact Hok' |].
      rewrite Econt'. f_equal. unfold contents. cbn [fst snd at_pos Buffer Pos].
      specialize (Epart O ltac:(lia)). rewrite Nat.add_0_r, take_0, app_nil_r in Epart.
      exact Epart.
Qed.

Lemma retry_renders is_q is_Q fmt_type argbuf arg piece :
  let argbufsize := Z.of_nat (length argbuf) in
  let rewritten := fmt_output_argbuf fmt_type argbuf argbufsize arg in
  (is_q || is_Q = false -> (argbuf_arraysize <? Z.of_nat (length rewritten)) = false) ->
  forall (rounds fuel : nat) (outputSize : Z) (s : StackBuffer * memory),
    buffer_ok bound s -> 0 <= outputSize < 2 ^ 61 -> (rounds <= fuel)%nat ->
    (is_q || is_Q = false -> (1 < rounds)%nat ->
     fmt_output_argbuf fmt_type rewritten argbufsize arg = rewritten) ->
    converted rounds (conversion_call cx is_q is_Q fmt_type argbuf arg) outputSize
    = Some piece ->
    ensures memory_only (retry cx fuel is_q is_Q fmt_type argbuf arg outputSize s)
      (fun s' => buffer_ok bound s' /\ contents s' = contents s ++ piece).
Proof.
  intros argbufsize rewritten Hfit rounds fuel outputSize s Hok Hsize Hfuel Hstable Hconv.
  unfold retry.
  apply (conversion_loop_renders is_q is_Q fmt_type argbuf arg piece Hfit rounds);
    try done.
Qed.

Lemma build_argbuf_filter : forall (n : nat) (j : Z) (acc : list ascii),
  build_argbuf fmt n j acc = acc ++ without_stars (chars_from fmt j n).
Proof.
  induction n as [| n IH]; intros j acc.
  - cbn. now rewrite app_nil_r.
  - cbn [build_argbuf]. rewrite chars_from_S. unfold without_stars. cbn [List.filter].
    fold without_stars. destruct (is_char (char_at fmt j) "*"); cbn [negb]; rewrite IH.
    + reflexivity.
    + now rewrite <- app_assoc.
Qed.

Lemma drop_char_at (i : Z) :
  0 <= i < Z.of_nat (length fmt) ->
  drop (Z.to_nat i) fmt = char_at fmt i :: drop (Z.to_nat (i + 1)) fmt.
Proof.
  intros Hi. rewrite char_at_nth by lia.
  replace (Z.to_nat (i + 1)) with (S (Z.to_nat i)) by lia.
  apply drop_S.
  destruct (nth_lookup_or_length fmt (Z.to_nat i) NUL) as [E | E]; [exact E | lia].
Qed.

Lemma segment_snoc (t i : Z) :
  0 <= t <= i -> i < Z.of_nat (length fmt) ->
  segment fmt t (Z.to_nat (i - t + 1)) = segment fmt t (Z.to_nat (i - t)) ++ [char_at fmt i].
Proof.
  intros Ht Hi.
  rewrite <- (chars_from_segment fmt t (Z.to_nat (i - t + 1))) by lia.
  rewrite <- (chars_from_segment fmt t (Z.to_nat (i - t))) by lia.
  replace (Z.to_nat (i - t + 1)) with (S (Z.to_nat (i - t))) by lia.
  rewrite chars_from_snoc.
  replace (t + Z.of_nat (Z.to_nat (i - t))) with i by lia. reflexivity.
Qed.

Lemma length_segment (t : Z) (n : nat) :
  0 <= t -> t + Z.of_nat n <= Z.of_nat (length fmt) -> length (segment fmt t n) = n.
Proof. intros Ht Hn. unfold segment. rewrite length_take_le; [reflexivity |]. rewrite length_drop. lia. Qed.

(** The reference on a run of literal text. *)
Lemma render_literal guess a : forall (k : nat) (i : Z),
  0 <= i ->
  (forall j, i <= j < i + Z.of_nat k -> char_at fmt j <> "%" /\ char_at fmt j <> NUL) ->
  render cx guess (drop (Z.to_nat i) fmt) None a
  = option_map (app (chars_from fmt i k))
      (render cx guess (drop (Z.to_nat (i + Z.of_nat k)) fmt) None a).
Proof.
  induction k as [| k IH]; intros i Hi Hlit.
  - rewrite Z.add_0_r. cbn. now destruct (render cx guess _ None a).
  - destruct (Hlit i ltac:(lia)) as (Hpc & Hnul).
    pose proof (char_at_inside _ _ Hnul) as Hin.
    rewrite drop_char_at by lia. cbn [render].
    destruct (is_char (char_at fmt i) NUL) eqn:E1; [apply is_char_true in E1; done |].
    destruct (is_char (char_at fmt i) "%") eqn:E2; [apply is_char_true in E2; done |].
    rewrite (IH (i + 1)) by (try lia; intros j Hj; apply Hlit; lia).
    replace (i + 1 + Z.of_nat k) with (i + Z.of_nat (S k)) by lia.
    rewrite chars_from_S. now destruct (render cx guess _ None a).
Qed.

Lemma render_at_end guess (i : Z) sp a :
  0 <= i -> char_at fmt i = NUL -> render cx guess (drop (Z.to_nat i) fmt) sp a = Some [].
Proof.
  intros Hi Hnul. destruct (Z.lt_ge_cases i (Z.of_nat (length fmt))) as [Hlt | Hge].
  - rewrite drop_char_at by lia. cbn [render]. rewrite Hnul. reflexivity.
  - rewrite drop_ge by lia. reflexivity.
Qed.

Hypothesis fmt_small : Z.of_nat (length fmt) < 2 ^ 62.
Hypothesis size_range : 0 <= staticbuf_size < 2 ^ 62.
Hypothesis args_given : nargs <= Z.of_nat (length args).

Lemma body_conversion_eq fuel st :
  tokenstart st <> -1 ->
  is_conversion_letter (char_at fmt (cur st)) = true ->
  (nargs <=? iarg st) = false ->
  (argbuf_arraysize - 1 <=? cast size_t (cur st - tokenstart st)) = false ->
  is_char (char_at fmt (cur st)) "n" = false ->
  is_char (char_at fmt (cur st)) "q" && negb (is_Some_bool (Escape_q cx)) = false ->
  is_char (char_at fmt (cur st)) "Q" && negb (is_Some_bool (Escape_Q cx)) = false ->
  body cx fmt nargs args staticbuf_size fuel st
  = '(sb, m) ← retry cx fuel (is_char (char_at fmt (cur st)) "q")
                 (is_char (char_at fmt (cur st)) "Q") (char_at fmt (cur st))
                 (build_argbuf fmt (Z.to_nat (cur st - tokenstart st)) (tokenstart st) [])
                 (nth (Z.to_nat (iarg st)) args TNull)
                 (cast ssize_t (initial_sprintf_guessed_size staticbuf_size))
                 (output st, heap st);
    Ok (false, {| cur := cur st; tokenstart := -1; iarg := iarg st + 1;
                  output := sb; heap := m |}).
Proof.
  intros Htok Hletter Hargs Hlong Hn Hq HQ. unfold body.
  destruct (Z.eqb_spec (tokenstart st) (-1)); [contradiction |]. cbn [negb].
  rewrite Hletter, Hargs, Hlong, Hn, Hq, HQ. reflexivity.
Qed.

Lemma body_percent_eq fuel st :
  tokenstart st <> -1 ->
  char_at fmt (cur st) = "%" ->
  body cx fmt nargs args staticbuf_size fuel st
  = '(sb, m) ← Add "%" (output st, heap st);
    Ok (false, {| cur := cur st; tokenstart := -1; iarg := iarg st;
                  output := sb; heap := m |}).
Proof.
  intros Htok Hc. unfold body.
  destruct (Z.eqb_spec (tokenstart st) (-1)); [contradiction |]. cbn [negb].
  rewrite Hc. reflexivity.
Qed.

Lemma body_skip_eq fuel st :
  tokenstart st <> -1 ->
  is_conversion_letter (char_at fmt (cur st)) = false ->
  is_char (char_at fmt (cur st)) "%" = false ->
  body cx fmt nargs args staticbuf_size fuel st = Ok (false, st).
Proof.
  intros Htok Hletter Hpc. unfold body.
  destruct (Z.eqb_spec (tokenstart st) (-1)); [contradiction |]. cbn [negb].
  rewrite Hletter, Hpc. reflexivity.
Qed.

Lemma ensures_both {A} (x : outcome A) (Q1 Q2 : A -> Prop) :
  ensures memory_only x Q1 -> ensures no_abort x Q2 ->
  ensures memory_only x (fun a => Q1 a /\ Q2 a).
Proof. destruct x as [a | f]; cbn; auto. Qed.

Lemma body_directive_renders fuel st out :
  state_ok bound fmt st -> 0 <= iarg st -> char_at fmt (cur st) <> NUL ->
  (22 <= fuel)%nat -> tokenstart st <> -1 ->
  rendering cx fmt nargs args staticbuf_size st = Some out ->
  ensures memory_only (body cx fmt nargs args staticbuf_size fuel st)
    (pass_renders cx fmt nargs args staticbuf_size bound st out).
Proof.
  intros Hst Hiarg Hnul Hfuel Htok Hrender.
  pose proof (body_ok cx fmt nargs args staticbuf_size bound bound_alloc bound_small
                fmt_small ltac:(lia) fuel st Hst Hnul) as Hbody.
  pose proof Hst as [Hok Hcur [Htk | Htk]]; [contradiction |].
  pose proof (char_at_inside _ _ Hnul) as Hin.
  set (c := char_at fmt (cur st)) in *.
  set (sp := segment fmt (tokenstart st) (Z.to_nat (cur st - tokenstart st))).
  assert (Hsp : Z.of_nat (length sp) = cur st - tokenstart st).
  { unfold sp. rewrite length_segment; lia. }
  assert (Hnulb : is_char c NUL = false).
  { destruct (is_char c NUL) eqn:E; [apply is_char_true in E; done | reflexivity]. }
  unfold rendering, spec_of in Hrender.
  destruct (Z.eqb_spec (tokenstart st) (-1)); [contradiction |].
  rewrite drop_char_at in Hrender by lia. fold c sp in Hrender.
  cbn [render] in Hrender. rewrite Hnulb in Hrender.
  set (g := cast ssize_t (initial_sprintf_guessed_size staticbuf_size)) in *.
  set (a := drop (Z.to_nat (iarg st)) (take (Z.to_nat nargs) args)) in *.
  (* what the closing branches and the skipping branch have in common *)
  assert (Hclose : forall piece rest tk' iarg',
    out = piece ++ rest -> 0 <= iarg' ->
    tk' = -1 \/ tk' = tokenstart st ->
    render cx g (drop (Z.to_nat (cur st + 1)) fmt)
      (if tk' =? -1 then None
       else Some (segment fmt tk' (Z.to_nat (cur st + 1 - tk'))))
      (drop (Z.to_nat iarg') (take (Z.to_nat nargs) args)) = Some rest ->
    ensures memory_only (body cx fmt nargs args staticbuf_size fuel st)
      (fun r => fst r = false /\ cur (snd r) = cur st /\ tokenstart (snd r) = tk'
                /\ iarg (snd r) = iarg'
                /\ contents (output (snd r), heap (snd r))
                   = contents (output st, heap st) ++ piece) ->
    ensures memory_only (body cx fmt nargs args staticbuf_size fuel st)
      (pass_renders cx fmt nargs args staticbuf_size bound st out)).
  { intros piece rest tk' iarg' Eout Hiarg' Htk' Hrest Hpass.
    eapply ensures_mono; [apply (ensures_both _ _ _ Hpass Hbody) | done |].
    intros [stop st1] ((Estop & Ecur & Etk & Eiarg & Econt) & Hok1 & _ & Hnext).
    unfold pass_renders. cbn [fst snd] in *. subst stop. split; [exact Hok1 |].
    exists piece, rest. split; [exact Eout |]. split; [exact Econt |].
    split; [discriminate |]. intros _. split; [apply Hnext; reflexivity |].
    split; [lia |]. split.
    - unfold rendering, spec_of, advance. cbn [cur tokenstart iarg output heap].
      rewrite Ecur, Etk, Eiarg. exact Hrest.
    - unfold progress, advance. cbn [cur tokenstart output]. rewrite Ecur.
      destruct (Z.eqb_spec (tokenstart st) (-1)); [contradiction |]. cbn [andb].
      destruct (_ && _); lia. }
  assert (Hseg : segment fmt (tokenstart st) (Z.to_nat (cur st - tokenstart st + 1))
                 = sp ++ [c]) by (apply segment_snoc; lia).
  destruct (is_conversion_letter c) eqn:Eletter.
  - assert (Hpassthrough : forall rest,
      option_map (app (sp ++ [c])) (render cx g (drop (Z.to_nat (cur st + 1)) fmt) None a)
      = Some rest ->
      nargs <= iarg st
      \/ argbuf_arraysize - 1 <= cur st - tokenstart st
      \/ c = "n" \/ (c = "q" /\ Escape_q cx = None) \/ (c = "Q" /\ Escape_Q cx = None) ->
      out = rest ->
      ensures memory_only (body cx fmt nargs args staticbuf_size fuel st)
        (pass_renders cx fmt nargs args staticbuf_size bound st out)).
    { intros rest Hrest Hwhy ->.
      destruct (render cx g (drop (Z.to_nat (cur st + 1)) fmt) None a) as [rest0 |] eqn:Erest0;
        [| discriminate].
      injection Hrest as <-.
      apply (Hclose (sp ++ [c]) rest0 (-1) (iarg st)); [reflexivity | lia | left; reflexivity | exact Erest0 |].
      eapply ensures_mono;
        [apply (passthrough_spec cx fmt nargs args staticbuf_size bound bound_alloc
                  bound_small fmt_small fuel st Hst ltac:(lia) Eletter Hwhy) | done |].
      intros [stop st1] (Estop & Ecur & Etk & Eiarg & Econt).
      cbn [fst snd advance cur tokenstart iarg] in *.
      rewrite Hseg in Econt. repeat split; try done; lia. }
    destruct a as [| arg a'] eqn:Ea.
    + apply (Hpassthrough out Hrender); [| reflexivity]. left.
      apply (f_equal (@length fmtarg)) in Ea. unfold a in Ea.
      rewrite length_drop, length_take in Ea. cbn [length] in Ea. lia.
    + assert (Harg : args !! Z.to_nat (iarg st) = Some arg
                     /\ (Z.to_nat (iarg st) < Z.to_nat nargs)%nat).
      { assert (E : a !! O = Some arg) by now rewrite Ea.
        unfold a in E. rewrite lookup_drop, Nat.add_0_r in E.
        now apply lookup_take_Some in E. }
      destruct Harg as (Harg & Hlt).
      assert (Ea' : a' = drop (Z.to_nat (iarg st + 1)) (take (Z.to_nat nargs) args)).
      { assert (E : take (Z.to_nat nargs) args !! Z.to_nat (iarg st) = Some arg)
          by (apply lookup_take_Some; split; [exact Harg | exact Hlt]).
        apply drop_S in E. fold a in E. rewrite Ea in E. injection E as ->.
        f_equal. lia. }
      destruct (unconvertible cx sp c) eqn:Eun.
      * apply (Hpassthrough out Hrender); [| reflexivity]. right.
        unfold unconvertible in Eun. rewrite Hsp in Eun.
        apply orb_true_iff in Eun as [Eun | Eun];
          [apply orb_true_iff in Eun as [Eun | Eun];
           [apply orb_true_iff in Eun as [Eun | Eun] |] |].
        -- left. now apply Z.leb_le in Eun.
        -- right. left. now apply is_char_true.
        -- right. right. left. apply andb_true_iff in Eun as [E1 E2].
           split; [now apply is_char_true |]. now destruct (Escape_q cx).
        -- right. right. right. apply andb_true_iff in Eun as [E1 E2].
           split; [now apply is_char_true |]. now destruct (Escape_Q cx).
      * destruct (overruns (without_stars sp) c arg) eqn:Eover; [discriminate |].
        destruct (converted (rounds_covered (without_stars sp) c arg) _ g)
          as [piece |] eqn:Econv; [| discriminate].
        destruct (render cx g (drop (Z.to_nat (cur st + 1)) fmt) None a') as [rest0 |] eqn:Erest0;
          [| discriminate].
        injection Hrender as <-.
        apply (Hclose piece rest0 (-1) (iarg st + 1));
          [reflexivity | lia | left; reflexivity | rewrite <- Ea'; exact Erest0 |].
        unfold unconvertible in Eun. rewrite Hsp in Eun.
        apply orb_false_iff in Eun as [Eun EQ]. apply orb_false_iff in Eun as [Eun Eq].
        apply orb_false_iff in Eun as [Elong En].
        rewrite body_conversion_eq; try done.
        2:{ apply Z.leb_gt. lia. }
        2:{ rewrite cast_size_t by lia. exact Elong. }
        rewrite build_argbuf_filter. cbn [app].
        rewrite chars_from_segment by lia. fold sp.
        rewrite (nth_lookup_Some _ _ TNull _ Harg).
        eapply ensures_bind.
        { assert (Hback : is_char c "q" || is_char c "Q" = false -> to_backend c = true)
            by (unfold to_backend; now intros ->).
          apply (retry_renders _ _ _ _ _ piece) with
            (rounds := rounds_covered (without_stars sp) c arg); [| exact Hok | | | | exact Econv].
          - intros Hb. unfold overruns in Eover. now rewrite (Hback Hb) in Eover.
          - unfold g, initial_sprintf_guessed_size. rewrite Z.shiftr_div_pow2 by lia.
            change (2 ^ 2) with 4.
            assert (0 <= staticbuf_size / 4) by (apply Z.div_pos; lia).
            assert (staticbuf_size / 4 < 2 ^ 61) by (apply Z.div_lt_upper_bound; lia).
            rewrite cast_ssize_t; lia.
          - unfold rounds_covered. cbv zeta.
            destruct (to_backend c && _); [apply Nat.le_trans with 22%nat; [lia | exact Hfuel]
                                          | exact Hfuel].
          - intros Hb. unfold rounds_covered. cbv zeta. rewrite (Hback Hb). cbn [andb].
            destruct (bool_decide _) eqn:Estable; cbn [negb]; [| lia].
            intros _. now apply bool_decide_eq_true in Estable. }
        intros [sb m] (Hok2 & Econt2). cbn [ensures fst snd cur tokenstart iarg output heap].
        repeat split; done.
  - destruct (is_char c "%") eqn:Epc.
    + destruct (render cx g (drop (Z.to_nat (cur st + 1)) fmt) None a) as [rest0 |] eqn:Erest0;
        [| discriminate].
      injection Hrender as <-.
      apply (Hclose [c] rest0 (-1) (iarg st));
        [reflexivity | lia | left; reflexivity | exact Erest0 |].
      apply is_char_true in Epc. rewrite body_percent_eq by done.
      eapply ensures_bind; [apply (Add_ok bound bound_alloc bound_small "%" _ Hok) |].
      intros [sb m] (Hok2 & _ & _ & Econt2).
      cbn [ensures fst snd cur tokenstart iarg output heap]. rewrite Epc.
      repeat split; done.
    + apply (Hclose [] out (tokenstart st) (iarg st));
        [reflexivity | lia | right; reflexivity | |].
      * destruct (Z.eqb_spec (tokenstart st) (-1)); [contradiction |].
        replace (cur st + 1 - tokenstart st) with (cur st - tokenstart st + 1) by lia.
        rewrite Hseg. exact Hrender.
      * rewrite body_skip_eq by done. cbn [ensures fst snd]. rewrite app_nil_r.
        repeat split; done.
Qed.

Lemma body_literal_renders fuel st out :
  state_ok bound fmt st -> 0 <= iarg st -> char_at fmt (cur st) <> NUL ->
  tokenstart st = -1 ->
  rendering cx fmt nargs args staticbuf_size st = Some out ->
  ensures memory_only (body cx fmt nargs args staticbuf_size fuel st)
    (pass_renders cx fmt nargs args staticbuf_size bound st out).
Proof.
  intros Hst Hiarg Hnul Etok Hrender.
  pose proof (body_ok cx fmt nargs args staticbuf_size bound bound_alloc bound_small
                fmt_small ltac:(lia) fuel st Hst Hnul) as Hbody.
  pose proof (st_cur _ _ _ Hst) as Hcur.
  destruct (next_special fmt (Z.to_nat (Z.of_nat (length fmt) - cur st)) (cur st))
    as (p & Hp & Hlit & Hend); [lia |].
  pose proof (body_literal cx fmt nargs args staticbuf_size bound bound_alloc bound_small
                fmt_small fuel st p Hst Etok Hp Hlit Hend) as Hpass.
  eapply ensures_mono; [apply (ensures_both _ _ _ Hpass Hbody) | done |].
  intros [stop st1] ((_ & Eiarg & k & Hk & Econt & Hcase) & Hok1 & _ & Hnext).
  unfold pass_renders. cbn [fst snd] in *. split; [exact Hok1 |].
  unfold rendering, spec_of in Hrender. rewrite Etok in Hrender.
  change (-1 =? -1) with true in Hrender. cbn match in Hrender.
  set (g := cast ssize_t (initial_sprintf_guessed_size staticbuf_size)) in *.
  set (a := drop (Z.to_nat (iarg st)) (take (Z.to_nat nargs) args)) in *.
  rewrite (render_literal g a k (cur st)) in Hrender
    by (try lia; intros j Hj; apply Hlit; lia).
  destruct (render cx g (drop (Z.to_nat (cur st + Z.of_nat k)) fmt) None a)
    as [rest0 |] eqn:Erest0; [| discriminate].
  injection Hrender as <-.
  exists (chars_from fmt (cur st) k), rest0.
  split; [reflexivity |]. split; [exact Econt |].
  destruct Hcase as [(Ek & Epc & Estop & Ecur & Etok1)
                    | [(Ek & Enul & Estop & Ecur & Etok1)
                      | (Hlt & Estop & Ecur & Etok1 & Hroom & Hzero)]]; subst stop.
  - split; [discriminate |]. intros _. split; [apply Hnext; reflexivity |].
    split; [lia |].
    assert (Hin : 0 <= p < Z.of_nat (length fmt))
      by (apply char_at_inside; rewrite Epc; discriminate).
    split.
    + unfold rendering, spec_of, advance. cbn [cur tokenstart iarg output heap].
      rewrite Ecur, Etok1, Eiarg. destruct (Z.eqb_spec p (-1)); [lia |].
      fold g a. rewrite Ek in Erest0. rewrite drop_char_at in Erest0 by lia.
      cbn [render] in Erest0. rewrite Epc in Erest0.
      change (is_char "%" NUL) with false in Erest0.
      change (is_char "%" "%") with true in Erest0. cbn match in Erest0.
      replace (p + 1 - p) with 1 by lia. rewrite <- chars_from_segment by (simpl; lia).
      change (chars_from fmt p (Z.to_nat 1)) with [char_at fmt (p + 0)].
      rewrite Z.add_0_r, Epc. exact Erest0.
    + unfold progress, advance. cbn [cur tokenstart output].
      rewrite Ecur, Etok1. destruct (Z.eqb_spec p (-1)); [lia |]. cbn [andb].
      destruct (_ && _); lia.
  - split; [| discriminate]. intros _.
    rewrite Ek in Erest0. rewrite render_at_end in Erest0 by (try lia; exact Enul).
    now injection Erest0 as <-.
  - split; [discriminate |]. intros _. split; [apply Hnext; reflexivity |].
    split; [lia |]. split.
    + unfold rendering, spec_of, advance. cbn [cur tokenstart iarg output heap].
      rewrite Ecur, Etok1, Eiarg. change (-1 =? -1) with true. cbn match.
      fold g a. rewrite <- Erest0. do 2 f_equal. lia.
    + unfold progress, advance. cbn [cur tokenstart output].
      rewrite Ecur, Etok1, Etok. change (-1 =? -1) with true. cbn [andb].
      destruct (Z.leb_spec (Capacity (output st1)) (Pos (output st1))); [lia |].
      destruct k as [| k].
      * rewrite (Hzero eq_refl). rewrite Z.leb_refl. lia.
      * destruct (_ <=? _); lia.
Qed.

Lemma scan_renders : forall (n fuel : nat) (st : scan_state) (out : list ascii),
  state_ok bound fmt st -> 0 <= iarg st ->
  progress fmt st < Z.of_nat n -> (n + 23 <= fuel)%nat ->
  rendering cx fmt nargs args staticbuf_size st = Some out ->
  ensures memory_only (scan cx fmt nargs args staticbuf_size fuel st)
    (fun st' => buffer_ok bound (output st', heap st')
                /\ contents (output st', heap st') = contents (output st, heap st) ++ out).
Proof.
  induction n as [| n IH]; intros fuel st out Hst Hiarg Hn Hfuel Hrender.
  - pose proof (st_cur _ _ _ Hst) as Hcur. unfold progress in Hn.
    destruct (_ && _); lia.
  - destruct fuel as [| fuel]; [lia |]. rewrite scan_unfold.
    pose proof (st_cur _ _ _ Hst) as Hcur.
    destruct (is_char (char_at fmt (cur st)) NUL) eqn:Enul.
    { apply is_char_true in Enul. unfold rendering in Hrender.
      rewrite render_at_end in Hrender by (try lia; exact Enul).
      injection Hrender as <-. cbn [ensures]. rewrite app_nil_r.
      split; [apply Hst | reflexivity]. }
    assert (Hnul : char_at fmt (cur st) <> NUL).
    { intros E. apply is_char_true in E. congruence. }
    eapply ensures_bind.
    { destruct (Z.eq_dec (tokenstart st) (-1)) as [Etok | Ntok].
      - apply (body_literal_renders fuel st out Hst Hiarg Hnul Etok Hrender).
      - apply (body_directive_renders fuel st out Hst Hiarg Hnul ltac:(lia) Ntok Hrender). }
    intros [stop st1] (Hbuf & piece & rest & -> & Econt & Hstop & Hnext).
    cbn [fst snd] in *. destruct stop.
    + cbn [ensures]. rewrite (Hstop eq_refl), app_nil_r. split; [exact Hbuf | exact Econt].
    + destruct (Hnext eq_refl) as (Hst1 & Hiarg1 & Hrest & Hless).
      eapply ensures_mono;
        [apply (IH fuel (advance st1) rest Hst1 Hiarg1); [lia | lia | exact Hrest] | done |].
      intros st2 (Hok2 & Econt2). split; [exact Hok2 |].
      rewrite Econt2. cbn [advance output heap]. rewrite Econt, <- app_assoc. reflexivity.
Qed.

End Refinement.
Lemma fmt_core_render_spec `{RT : Runtime} (cx : context) (fmt : list ascii) (nargs : Z)
    (args : list fmtarg) (staticbuf_size : Z) (m : memory) (fuel : nat) (out : list ascii) :
  nargs <> 0 -> nargs <= Z.of_nat (length args) ->
  max_alloc < 2 ^ 62 ->
  0 <= staticbuf_size < 2 ^ 62 ->
  Z.of_nat (length fmt) < 2 ^ 62 ->
  staticbuf_size <= Z.of_nat (length (static_mem m)) ->
  heap_fresh m ->
  render cx (initial_sprintf_guessed_size staticbuf_size) fmt None
    (take (Z.to_nat nargs) args) = Some out ->
  (2 * length fmt + 25 <= fuel)%nat ->
  ensures memory_only (fmt_core cx fmt nargs args staticbuf_size fuel m)
    (fun r => Len (fst r) = Z.of_nat (length out)
              /\ take (length out + 1) (load (snd r) (Str (fst r))) = out ++ [NUL]).
Proof.
  intros Hnargs Hargs Halloc Hsize Hfmt Hcells Hfresh Hrender Hfuel.
  set (bound := Z.max max_alloc staticbuf_size).
  assert (Hb1 : max_alloc <= bound) by (unfold bound; lia).
  assert (Hb2 : bound < 2 ^ 62) by (unfold bound; lia).
  assert (Hinit : state_ok bound fmt (initial_state staticbuf_size m)).
  { apply initial_state_ok; try done; unfold bound; lia. }
  assert (Hguess : cast ssize_t (initial_sprintf_guessed_size staticbuf_size)
                   = initial_sprintf_guessed_size staticbuf_size).
  { unfold initial_sprintf_guessed_size. rewrite Z.shiftr_div_pow2 by lia.
    change (2 ^ 2) with 4.
    assert (0 <= staticbuf_size / 4) by (apply Z.div_pos; lia).
    assert (staticbuf_size / 4 < 2 ^ 61) by (apply Z.div_lt_upper_bound; lia).
    apply cast_ssize_t. lia. }
  unfold fmt_core. destruct (Z.eqb_spec nargs 0); [contradiction |].
  eapply ensures_bind.
  { apply (scan_renders cx fmt nargs args staticbuf_size bound Hb1 Hb2 Hfmt Hsize Hargs
             (2 * length fmt + 2) fuel _ out Hinit).
    - cbn. lia.
    - unfold progress, initial_state. cbn [cur tokenstart output StackBuffer_new Capacity Pos].
      destruct (_ && _); lia.
    - lia.
    - unfold rendering, spec_of, initial_state. cbn [cur tokenstart iarg].
      change (-1 =? -1) with true. cbn match. change (Z.to_nat 0) with O.
      rewrite !drop_0, Hguess. exact Hrender. }
  intros st (Hok & Econt).
  eapply ensures_bind; [apply (Add_ok bound Hb1 Hb2 NUL _ Hok) |].
  intros [sb m2] (Hok2 & Epos2 & Hcap2 & Econt2).
  cbn [ensures fst snd Str Len] in *.
  assert (E0 : contents (output (initial_state staticbuf_size m),
                         heap (initial_state staticbuf_size m)) = []).
  { unfold contents. cbn. apply take_0. }
  rewrite E0 in Econt. cbn [app] in Econt.
  assert (Hpos1 : Pos (output st) = Z.of_nat (length out)).
  { apply (f_equal (@length ascii)) in Econt. unfold contents in Econt. cbn [fst snd] in Econt.
    destruct Hok as [Hp1 _ Hl1 _ _]. cbn [fst snd] in *.
    rewrite length_take_le in Econt by lia. lia. }
  pose proof Hok as [Hp1 Hc1 _ _ _]. cbn [fst snd] in Hp1, Hc1.
  split.
  - rewrite Epos2, Hpos1. rewrite cast_size_t by lia. lia.
  - rewrite Econt in Econt2. rewrite <- Econt2. unfold contents. cbn [fst snd].
    f_equal. rewrite Epos2, Hpos1. lia.
Qed.
(** The scanner refines the reference formatter: whenever [render] gives a
    text for the format string and the arguments, [fmt_core] returns that
    text, terminated, with its length, whatever the size and the contents
    of the caller's buffer and however often the buffer had to grow; the
    only other way out is a failed allocation.  [render] gives no text
    for a directive that overruns [argbuf], nor for a directive whose
    length modifier [fmt_settype] overwrites when the first guess is too
    small for it: from the second round on the backend sees another
    directive there. *)
Theorem fmt_core_refines_render `{RT : Runtime} (cx : context) (fmt : list ascii)
    (nargs : Z) (args : list fmtarg) (staticbuf_size : Z) (m : memory) (fuel : nat)
    (out : list ascii) :
  nargs <> 0 -> nargs <= Z.of_nat (length args) ->
  max_alloc < 2 ^ 62 ->
  0 <= staticbuf_size < 2 ^ 62 ->
  Z.of_nat (length fmt) < 2 ^ 62 ->
  staticbuf_size <= Z.of_nat (length (static_mem m)) ->
  heap_fresh m ->
  render cx (initial_sprintf_guessed_size staticbuf_size) fmt None
    (take (Z.to_nat nargs) args) = Some out ->
  (2 * length fmt + 25 <= fuel)%nat ->
  ensures memory_only (fmt_core cx fmt nargs args staticbuf_size fuel m)
    (fun r => Len (fst r) = Z.of_nat (length out)
              /\ take (length out + 1) (load (snd r) (Str (fst r))) = out ++ [NUL]).
Proof. apply fmt_core_render_spec. Qed.

Lemma fmt_core_refines_render_witness :
  ensures memory_only
    (fmt_core (RT := sample_runtime) default_context
       (list_ascii_of_string "n=%5%%d, %s and %q") 2
       [TI32 42; TCStr (list_ascii_of_string "text")] 16 100 (fresh_memory 16))
    (fun r => Len (fst r) = Z.of_nat (length (list_ascii_of_string "n=%42, text and %q"))
              /\ take (length (list_ascii_of_string "n=%42, text and %q") + 1)
                   (load (snd r) (Str (fst r)))
                 = list_ascii_of_string "n=%42, text and %q" ++ [NUL]).
Proof.
  apply (fmt_core_refines_render (RT := sample_runtime) default_context
           (list_ascii_of_string "n=%5%%d, %s and %q") 2
           [TI32 42; TCStr (list_ascii_of_string "text")] 16 (fresh_memory 16) 100
           (list_ascii_of_string "n=%42, text and %q")).
  - lia.
  - simpl; lia.
  - reflexivity.
  - lia.
  - simpl; lia.
  - simpl; lia.
  - apply heap_fresh_fresh_memory.
  - vm_compute. reflexivity.
  - simpl; lia.
Defined.
(** ** The directive handed to the backend ([fmt_settype]) *)

Lemma char_at_last (l : list ascii) :
  char_at l (Z.of_nat (length l) - 1) = List.last l NUL.
Proof.
  induction l as [| c l _] using rev_ind; [reflexivity |].
  rewrite length_app, last_last. cbn [length].
  rewrite char_at_nth by lia.
  replace (Z.to_nat (Z.of_nat (length l + 1) - 1)) with (length l) by lia.
  now rewrite nth_middle.
Qed.

Lemma poke_at_end (cells data : list ascii) (off : Z) :
  (Z.to_nat off <= length cells)%nat -> (length cells <= Z.to_nat off + length data)%nat ->
  poke cells off data = take (Z.to_nat off) cells ++ data.
Proof.
  intros Hoff Hend. rewrite poke_inside by exact Hoff.
  rewrite drop_ge by lia. now rewrite app_nil_r.
Qed.

Lemma fmt_settype_spec (argbuf : list ascii) (t : ascii) :
  fmt_settype argbuf (Z.of_nat (length argbuf)) None t = argbuf ++ [t; NUL]
  /\ forall w : list ascii,
       fmt_settype argbuf (Z.of_nat (length argbuf)) (Some w) t
       = (if one_of (List.last argbuf NUL) ["l"; "h"; "w"]
          then removelast argbuf else argbuf) ++ c_str w ++ [t; NUL].
Proof.
  split.
  - unfold fmt_settype. rewrite poke_at_end by (cbn [length]; lia).
    now rewrite Nat2Z.id, firstn_all.
  - intros w. unfold fmt_settype. rewrite char_at_last.
    destruct (one_of (List.last argbuf NUL) ["l"; "h"; "w"]) eqn:Emod.
    + assert (Hne : argbuf <> []) by (intros ->; discriminate).
      assert (Hlen : (1 <= length argbuf)%nat) by (destruct argbuf; [done | cbn; lia]).
      rewrite poke_at_end by (rewrite ?length_app; cbn [length]; lia).
      f_equal. rewrite removelast_firstn_len. f_equal. lia.
    + rewrite poke_at_end by (rewrite ?length_app; cbn [length]; lia).
      now rewrite Nat2Z.id, firstn_all.
Qed.

(** What [fmt_settype] leaves in [argbuf], as a list: without a width the
    letter and the terminator follow the directive; with a width, one
    length modifier (l, h or w) at the end of the directive, if there is
    one, is replaced by the width, and the letter and the terminator
    follow.  A second modifier stays: [%ll] with the width [ll] becomes
    [%lll]. *)
Theorem fmt_settype_replaces_one_modifier (argbuf : list ascii) (t : ascii) :
  fmt_settype argbuf (Z.of_nat (length argbuf)) None t = argbuf ++ [t; NUL]
  /\ forall w : list ascii,
       fmt_settype argbuf (Z.of_nat (length argbuf)) (Some w) t
       = (if one_of (List.last argbuf NUL) ["l"; "h"; "w"]
          then removelast argbuf else argbuf) ++ c_str w ++ [t; NUL].
Proof. apply fmt_settype_spec. Qed.

Section Argbuf.
Context `{RT : Runtime}.
Variable fmt : list ascii.

Lemma length_without_stars (l : list ascii) : (length (without_stars l) <= length l)%nat.
Proof. unfold without_stars. apply filter_length_le. Qed.

Lemma length_build_argbuf (n : nat) (j : Z) : (length (build_argbuf fmt n j []) <= n)%nat.
Proof.
  rewrite build_argbuf_filter. cbn [app].
  pose proof (length_without_stars (chars_from fmt j n)) as H.
  rewrite length_chars_from in H. exact H.
Qed.

Lemma length_fmt_settype (argbuf : list ascii) (width : option (list ascii)) (t : ascii) :
  (length (fmt_settype argbuf (Z.of_nat (length argbuf)) width t)
   <= length argbuf + length (c_str (default [] width)) + 2)%nat.
Proof.
  destruct (fmt_settype_spec argbuf t) as (Hnone & Hsome).
  destruct width as [w |]; cbn [default]; unfold id.
  - rewrite Hsome. destruct (one_of _ _).
    + rewrite !length_app. cbn [length].
      pose proof (removelast_firstn_len argbuf) as E. rewrite E, length_take.
      pose proof (Nat.le_pred_l (length argbuf)). lia.
    + rewrite !length_app. cbn [length]. lia.
  - rewrite Hnone, length_app. cbn [length]. lia.
Qed.

End Argbuf.
Lemma directive_fits_spec `{RT : Runtime} (fmt : list ascii) (tokenstart i : Z)
    (arg : fmtarg) (t : ascii) :
  0 <= tokenstart < i -> i < 2 ^ 63 ->
  cast size_t (i - tokenstart) < argbuf_arraysize - 1 ->
  settype_width arg = None \/ settype_width arg = Some [] ->
  Z.of_nat (length (fmt_settype (build_argbuf fmt (Z.to_nat (i - tokenstart)) tokenstart [])
                      (Z.of_nat (length (build_argbuf fmt (Z.to_nat (i - tokenstart))
                                           tokenstart [])))
                      (settype_width arg) t))
  <= argbuf_arraysize.
Proof.
  intros Htok Hi Hguard Hwidth.
  rewrite cast_size_t in Hguard by lia. unfold argbuf_arraysize in *.
  pose proof (length_build_argbuf fmt (Z.to_nat (i - tokenstart)) tokenstart) as Hlen.
  pose proof (length_fmt_settype
                (build_argbuf fmt (Z.to_nat (i - tokenstart)) tokenstart [])
                (settype_width arg) t) as Hset.
  assert (Hw : length (c_str (default [] (settype_width arg))) = O)
    by (destruct Hwidth as [-> | ->]; reflexivity).
  lia.
Qed.

(** The directive fits [argbuf]: when the main loop lets a conversion
    through ([spec_too_long] is false), what [fmt_settype] leaves in the
    sixteen bytes of [argbuf] for an argument that takes no width prefix
    (a pointer, a C string, a 32-bit integer, a double) is at most sixteen
    bytes long, terminator included. *)
Theorem directive_fits_argbuf `{RT : Runtime} (fmt : list ascii) (tokenstart i : Z)
    (arg : fmtarg) (t : ascii) :
  0 <= tokenstart < i -> i < 2 ^ 63 ->
  cast size_t (i - tokenstart) < argbuf_arraysize - 1 ->
  settype_width arg = None \/ settype_width arg = Some [] ->
  Z.of_nat (length (fmt_settype (build_argbuf fmt (Z.to_nat (i - tokenstart)) tokenstart [])
                      (Z.of_nat (length (build_argbuf fmt (Z.to_nat (i - tokenstart))
                                           tokenstart [])))
                      (settype_width arg) t))
  <= argbuf_arraysize.
Proof. apply directive_fits_spec. Qed.

Lemma directive_fits_argbuf_witness :
  Z.of_nat (length (fmt_settype
                      (build_argbuf (list_ascii_of_string "%-+ #0000000.12f")
                         (Z.to_nat (14 - 0)) 0 [])
                      (Z.of_nat (length (build_argbuf (list_ascii_of_string "%-+ #0000000.12f")
                                           (Z.to_nat (14 - 0)) 0 [])))
                      (settype_width (RT := sample_runtime) (TDbl 0)) "f"))
  <= argbuf_arraysize.
Proof.
  apply (directive_fits_argbuf (RT := sample_runtime)
           (list_ascii_of_string "%-+ #0000000.12f") 0 14 (TDbl 0) "f").
  - lia.
  - lia.
  - vm_compute. reflexivity.
  - left. reflexivity.
Defined.

Lemma without_stars_id (l : list ascii) :
  Forall (fun c => c <> "*") l -> without_stars l = l.
Proof.
  induction 1 as [| c l Hc _ IH]; [reflexivity |].
  unfold without_stars in *. cbn [List.filter].
  destruct (is_char c "*") eqn:E; [apply is_char_true in E; done |].
  cbn [negb]. now rewrite IH.
Qed.

Lemma directive_overruns_spec `{RT : Runtime} (fmt : list ascii) (tokenstart i : Z)
    (arg : fmtarg) (t : ascii) (v : Z) (dflt : ascii) :
  0 <= tokenstart < i -> i <= Z.of_nat (length fmt) ->
  cast size_t (i - tokenstart) < argbuf_arraysize - 1 ->
  Forall (fun c => c <> "*") (segment fmt tokenstart (Z.to_nat (i - tokenstart))) ->
  one_of (char_at fmt (i - 1)) ["l"; "h"; "w"] = false ->
  integer_payload arg = Some (64, v, dflt) ->
  14 < i - tokenstart + Z.of_nat (length i64Prefix) ->
  argbuf_arraysize
  < Z.of_nat (length (fmt_settype (build_argbuf fmt (Z.to_nat (i - tokenstart)) tokenstart [])
                        (Z.of_nat (length (build_argbuf fmt (Z.to_nat (i - tokenstart))
                                             tokenstart [])))
                        (settype_width arg) t)).
Proof.
  intros Htok Hi Hguard Hstars Hmod Hp Hlong.
  rewrite build_argbuf_filter. cbn [app].
  rewrite chars_from_segment by lia. rewrite without_stars_id by exact Hstars.
  set (argbuf := segment fmt tokenstart (Z.to_nat (i - tokenstart))).
  assert (Hlen : length argbuf = Z.to_nat (i - tokenstart)).
  { unfold argbuf, segment. rewrite length_take_le; [reflexivity |].
    rewrite length_drop. lia. }
  assert (Hlast : List.last argbuf NUL = char_at fmt (i - 1)).
  { unfold argbuf. rewrite <- chars_from_segment by lia.
    replace (Z.to_nat (i - tokenstart)) with (S (Z.to_nat (i - tokenstart - 1))) by lia.
    rewrite chars_from_snoc, last_last. f_equal. lia. }
  assert (Hwidth : settype_width arg = Some i64Prefix).
  { destruct arg; try discriminate; reflexivity. }
  destruct (fmt_settype_spec argbuf t) as (_ & Hsome).
  rewrite Hwidth, Hsome, Hlast, Hmod.
  assert (Hpre : c_str i64Prefix = i64Prefix)
    by (unfold i64Prefix; destruct WIN32; reflexivity).
  rewrite Hpre, !length_app. cbn [length]. unfold argbuf_arraysize. lia.
Qed.

(** The directive does not always fit [argbuf]: for a 64-bit integer the
    width prefix ([I64] or [ll]) goes in as well, and a directive of
    twelve to fourteen characters that the main loop lets through leaves
    more than sixteen bytes in the sixteen bytes of [argbuf]. *)
Theorem directive_overruns_argbuf `{RT : Runtime} (fmt : list ascii) (tokenstart i : Z)
    (arg : fmtarg) (t : ascii) (v : Z) (dflt : ascii) :
  0 <= tokenstart < i -> i <= Z.of_nat (length fmt) ->
  cast size_t (i - tokenstart) < argbuf_arraysize - 1 ->
  Forall (fun c => c <> "*") (segment fmt tokenstart (Z.to_nat (i - tokenstart))) ->
  one_of (char_at fmt (i - 1)) ["l"; "h"; "w"] = false ->
  integer_payload arg = Some (64, v, dflt) ->
  14 < i - tokenstart + Z.of_nat (length i64Prefix) ->
  argbuf_arraysize
  < Z.of_nat (length (fmt_settype (build_argbuf fmt (Z.to_nat (i - tokenstart)) tokenstart [])
                        (Z.of_nat (length (build_argbuf fmt (Z.to_nat (i - tokenstart))
                                             tokenstart [])))
                        (settype_width arg) t)).
Proof. apply directive_overruns_spec. Qed.

Lemma directive_overruns_argbuf_witness :
  argbuf_arraysize
  < Z.of_nat (length (fmt_settype
                        (build_argbuf (list_ascii_of_string "%0000000000020d")
                           (Z.to_nat (14 - 0)) 0 [])
                        (Z.of_nat (length (build_argbuf
                                             (list_ascii_of_string "%0000000000020d")
                                             (Z.to_nat (14 - 0)) 0 [])))
                        (settype_width (RT := sample_runtime) (TI64 5)) "d")).
Proof.
  apply (directive_overruns_argbuf (RT := sample_runtime)
           (list_ascii_of_string "%0000000000020d") 0 14 (TI64 5) "d" 5 "d").
  - lia.
  - simpl; lia.
  - vm_compute. reflexivity.
  - repeat constructor; discriminate.
  - reflexivity.
  - reflexivity.
  - simpl; lia.
Defined.

(** ** The directive array across the rounds *)

Section InPlace.
Context `{RT : Runtime}.

(** A directive that does not end in a length modifier: [fmt_settype]
    appends to it, and a second [fmt_settype] on the cells of the first
    stores the same cells again. *)
Lemma fmt_settype_plain (argbuf : list ascii) (width : option (list ascii)) (t : ascii) :
  one_of (List.last argbuf NUL) ["l"; "h"; "w"] = false ->
  fmt_settype argbuf (Z.of_nat (length argbuf)) width t
  = argbuf ++ c_str (default [] width) ++ [t; NUL].
Proof.
  intros Hplain. destruct (fmt_settype_spec argbuf t) as (Hnone & Hsome).
  destruct width as [w |]; cbn [default]; unfold id.
  - now rewrite Hsome, Hplain.
  - rewrite Hnone. reflexivity.
Qed.

Lemma fmt_settype_again (argbuf : list ascii) (width : option (list ascii)) (t : ascii) :
  argbuf <> [] ->
  one_of (List.last argbuf NUL) ["l"; "h"; "w"] = false ->
  fmt_settype (argbuf ++ c_str (default [] width) ++ [t; NUL])
    (Z.of_nat (length argbuf)) width t
  = argbuf ++ c_str (default [] width) ++ [t; NUL].
Proof.
  intros Hne Hplain.
  assert (Hlen : (1 <= length argbuf)%nat) by (destruct argbuf; [done | cbn; lia]).
  assert (Hlast : char_at (argbuf ++ c_str (default [] width) ++ [t; NUL])
                    (Z.of_nat (length argbuf) - 1) = List.last argbuf NUL).
  { rewrite <- char_at_last. rewrite !char_at_nth by lia.
    rewrite app_nth1 by lia. reflexivity. }
  assert (Hpoke : forall data,
            poke (argbuf ++ data) (Z.of_nat (length argbuf)) data = argbuf ++ data).
  { intros data. rewrite poke_at_end by (rewrite ?length_app; lia).
    now rewrite Nat2Z.id, take_app_length. }
  unfold fmt_settype. destruct width as [w |]; cbn [default] in *; unfold id in *.
  - rewrite Hlast, Hplain. apply Hpoke.
  - apply (Hpoke [t; NUL]).
Qed.

Lemma length_i64Prefix : (length (c_str i64Prefix) <= 3)%nat.
Proof. unfold i64Prefix. destruct WIN32; cbn; lia. Qed.

Lemma length_settype_width (arg : fmtarg) :
  (length (c_str (default [] (settype_width arg))) <= 3)%nat.
Proof.
  destruct arg; cbn [settype_width default]; unfold id, wcharPrefix;
    try apply length_i64Prefix; try (cbn; lia).
  destruct WIN32; cbn; lia.
Qed.

(** Every round of the conversion loop formats a directive without a
    length modifier before its letter under the same cells, and a
    directive of up to eleven characters stays inside the array. *)
Lemma rounds_covered_plain (argbuf : list ascii) (c : ascii) (arg : fmtarg) :
  argbuf <> [] ->
  one_of (List.last argbuf NUL) ["l"; "h"; "w"] = false ->
  rounds_covered argbuf c arg = 22%nat.
Proof.
  intros Hne Hplain. unfold rounds_covered. cbv zeta.
  rewrite bool_decide_eq_true_2; [now rewrite andb_false_r |].
  rewrite !fmt_output_argbuf_view. destruct (settype_letter c arg) as [t |].
  - rewrite fmt_settype_plain by exact Hplain. now apply fmt_settype_again.
  - reflexivity.
Qed.

Lemma overruns_plain (argbuf : list ascii) (c : ascii) (arg : fmtarg) :
  one_of (List.last argbuf NUL) ["l"; "h"; "w"] = false ->
  (length argbuf <= 11)%nat ->
  overruns argbuf c arg = false.
Proof.
  intros Hplain Hlen. unfold overruns.
  rewrite fmt_output_argbuf_view. destruct (settype_letter c arg) as [t |].
  - rewrite fmt_settype_plain by exact Hplain.
    pose proof (length_settype_width arg) as Hw.
    rewrite !length_app. cbn [length]. unfold argbuf_arraysize.
    destruct (Z.ltb_spec 16 (Z.of_nat (length argbuf
                + (length (c_str (default [] (settype_width arg))) + 2))));
      [lia | now rewrite andb_false_r].
  - unfold argbuf_arraysize.
    destruct (Z.ltb_spec 16 (Z.of_nat (length argbuf))); [lia | now rewrite andb_false_r].
Qed.


(** The letters that [fmt_output_with_snprintf] hands to [fmt_settype]
    with an empty width are no length modifiers. *)
Lemma settype_letter_no_modifier (c t : ascii) (arg : fmtarg) :
  settype_width arg = Some [] ->
  settype_letter c arg = Some t ->
  one_of t ["l"; "h"; "w"] = false.
Proof.
  intros Hw Ht.
  assert (Hint : tokenint_of c = true -> one_of c ["l"; "h"; "w"] = false).
  { unfold tokenint_of, one_of, is_char. cbn [existsb].
    repeat match goal with
           | |- context [Ascii.eqb c ?d] => destruct (Ascii.eqb_spec c d); [subst c |]
           end; cbn; congruence. }
  destruct arg; cbn [settype_width settype_letter] in *; try discriminate;
    injection Ht as <-;
    repeat match goal with
           | |- context [if ?b then _ else _] => destruct b eqn:?
           end; auto.
  unfold wcharType. destruct WIN32; reflexivity.
Qed.

(** A length modifier is lost after the first round of the conversion
    loop.  For an argument whose [SETTYPE] passes an empty width (a 32-bit
    integer or a C string), a directive that ends in [l], [h] or [w] is
    handed to the backend without that modifier the first time:
    [fmt_settype] stores the letter over the modifier.  [argbufsize] is
    still the length of the directive as it was, so when the first guess
    was too small the next call finds the letter where the modifier was
    and stores the letter behind it once more: from the second round on
    the backend formats under the directive with its letter doubled, and
    the cells stay as they are from there. *)
Theorem length_modifier_lost_after_first_round (argbuf : list ascii) (c t : ascii)
    (arg : fmtarg) (size1 size2 : Z) :
  one_of (List.last argbuf NUL) ["l"; "h"; "w"] = true ->
  settype_width arg = Some [] ->
  settype_letter c arg = Some t ->
  let argbufsize := Z.of_nat (length argbuf) in
  let once := fmt_output_argbuf c argbuf argbufsize arg in
  let twice := fmt_output_argbuf c once argbufsize arg in
  once = removelast argbuf ++ [t; NUL]
  /\ twice = removelast argbuf ++ [t; t; NUL]
  /\ fmt_output_argbuf c twice argbufsize arg = twice
  /\ fmt_output_with_snprintf c argbuf argbufsize size1 arg
     = backend_call size1 arg (removelast argbuf ++ [t; NUL])
  /\ fmt_output_with_snprintf c once argbufsize size2 arg
     = backend_call size2 arg (removelast argbuf ++ [t; t; NUL]).
Proof.
  intros Hmod Hw Ht argbufsize once twice.
  pose proof (settype_letter_no_modifier c t arg Hw Ht) as Hplain.
  assert (Hne : argbuf <> []) by (intros ->; discriminate).
  assert (Hlen : (1 <= length argbuf)%nat) by (destruct argbuf; [done | cbn; lia]).
  assert (Hcut : length (removelast argbuf) = (length argbuf - 1)%nat).
  { rewrite removelast_firstn_len, length_take. lia. }
  assert (Hat : forall rest,
            char_at ((removelast argbuf ++ [t]) ++ rest) (argbufsize - 1) = t).
  { intros rest. unfold argbufsize. rewrite char_at_nth by lia.
    rewrite app_nth1 by (rewrite length_app, Hcut; cbn [length]; lia).
    replace (Z.to_nat (Z.of_nat (length argbuf) - 1)) with (length (removelast argbuf))
      by lia.
    now rewrite nth_middle. }
  assert (Hpoke : forall rest,
            (length rest <= 2)%nat ->
            fmt_settype ((removelast argbuf ++ [t]) ++ rest) argbufsize (Some []) t
            = (removelast argbuf ++ [t]) ++ [t; NUL]).
  { intros rest Hrest. unfold fmt_settype. rewrite Hat, Hplain.
    change (c_str [] ++ [t; NUL]) with [t; NUL].
    unfold argbufsize.
    rewrite poke_at_end
      by (rewrite !length_app, Hcut; cbn [length]; lia).
    rewrite Nat2Z.id. f_equal.
    rewrite take_app_le by (rewrite length_app, Hcut; cbn [length]; lia).
    apply take_ge. rewrite length_app, Hcut. cbn [length]. lia. }
  assert (Honce : once = removelast argbuf ++ [t; NUL]).
  { unfold once. rewrite fmt_output_argbuf_view, Ht, Hw.
    unfold argbufsize. rewrite (proj2 (fmt_settype_spec argbuf t)), Hmod. reflexivity. }
  assert (Htwice : twice = removelast argbuf ++ [t; t; NUL]).
  { unfold twice. rewrite fmt_output_argbuf_view, Ht, Hw, Honce.
    change (removelast argbuf ++ [t; NUL]) with (removelast argbuf ++ [t] ++ [NUL]).
    rewrite app_assoc, Hpoke by (cbn; lia). now rewrite <- app_assoc. }
  repeat split.
  - exact Honce.
  - exact Htwice.
  - rewrite fmt_output_argbuf_view, Ht, Hw, Htwice.
    change (removelast argbuf ++ [t; t; NUL])
      with (removelast argbuf ++ [t] ++ [t; NUL]).
    rewrite app_assoc. apply Hpoke. cbn; lia.
  - rewrite fmt_output_with_snprintf_view, Ht, Hw. unfold argbufsize.
    rewrite (proj2 (fmt_settype_spec argbuf t)), Hmod. reflexivity.
  - rewrite fmt_output_with_snprintf_view, Ht, Hw, Honce.
    change (removelast argbuf ++ [t; NUL]) with (removelast argbuf ++ [t] ++ [NUL]).
    rewrite app_assoc, Hpoke by (cbn; lia). now rewrite <- app_assoc.
Qed.

End InPlace.

Lemma length_modifier_lost_after_first_round_witness :
  let argbuf := ["%"; "h"] in
  let arg := TI32 12345 in
  let once := fmt_output_argbuf (RT := sample_runtime) "d" argbuf 2 arg in
  let twice := fmt_output_argbuf (RT := sample_runtime) "d" once 2 arg in
  once = ["%"; "d"; NUL]
  /\ twice = ["%"; "d"; "d"; NUL]
  /\ fmt_output_argbuf (RT := sample_runtime) "d" twice 2 arg = twice
  /\ fmt_output_with_snprintf (RT := sample_runtime) "d" argbuf 2 2 arg
     = backend_call (RT := sample_runtime) 2 arg ["%"; "d"; NUL]
  /\ fmt_output_with_snprintf (RT := sample_runtime) "d" once 2 4 arg
     = backend_call (RT := sample_runtime) 4 arg ["%"; "d"; "d"; NUL].
Proof.
  exact (length_modifier_lost_after_first_round (RT := sample_runtime)
           ["%"; "h"] "d" "d" (TI32 12345) 2 4 eq_refl eq_refl eq_refl).
Defined.

(** ** A run that overruns the directive array *)

Section OverrunningRun.
Context `{RT : Runtime}.
Variable cx : context.
Variable fmt : list ascii.
Variable nargs : Z.
Variable args : list fmtarg.
Variable staticbuf_size : Z.

Lemma scan_inside_directive (fuel : nat) (st : scan_state) :
  tokenstart st <> -1 ->
  is_char (char_at fmt (cur st)) NUL = false ->
  is_conversion_letter (char_at fmt (cur st)) = false ->
  is_char (char_at fmt (cur st)) "%" = false ->
  scan cx fmt nargs args staticbuf_size (S fuel) st
  = scan cx fmt nargs args staticbuf_size fuel (advance st).
Proof.
  intros Hopen Hnul Hletter Hpercent. cbn [scan]. rewrite Hnul.
  unfold body. apply Z.eqb_neq in Hopen. rewrite Hopen. cbn [negb].
  rewrite Hletter, Hpercent. reflexivity.
Qed.

Lemma scan_opens_directive (fuel : nat) (m : memory) :
  0 <= staticbuf_size < 2 ^ 62 ->
  char_at fmt 0 = "%"%char ->
  scan cx fmt nargs args staticbuf_size (S fuel) (initial_state staticbuf_size m)
  = scan cx fmt nargs args staticbuf_size fuel
      {| cur := 1; tokenstart := 0; iarg := 0;
         output := StackBuffer_new Static staticbuf_size; heap := m |}.
Proof.
  intros Hsize Hpercent. cbn [scan initial_state cur]. rewrite Hpercent.
  change (is_char "%" NUL) with false. cbv iota.
  unfold body. cbn [tokenstart cur output heap iarg]. change (-1 =? -1) with true.
  cbn [negb].
  assert (Hcopy : forall passes stopAt s,
            copy_literal fmt passes stopAt 0 s = (0, s)).
  { intros [| passes] stopAt s; [reflexivity |]. cbn [copy_literal].
    rewrite Hpercent. change (is_char "%" "%") with true.
    now rewrite andb_false_r. }
  rewrite Hcopy, Hpercent. change (is_char "%" "%") with true. reflexivity.
Qed.

End OverrunningRun.

Lemma body_overruns `{RT : Runtime} (cx : context) (v : Z) (staticbuf_size : Z)
    (m : memory) (fuel : nat) :
  0 <= staticbuf_size < 2 ^ 62 ->
  body cx (list_ascii_of_string "%0000000000020d") 1 [TI64 v] staticbuf_size (S fuel)
    {| cur := 14; tokenstart := 0; iarg := 0;
       output := StackBuffer_new Static staticbuf_size; heap := m |}
  = Fail ArgbufOverrun.
Proof.
  intros Hsize.
  unfold body. cbn [cur tokenstart iarg output heap].
  change (negb (0 =? -1)) with true. cbv iota.
  change (char_at _ 14) with "d"%char.
  change (is_conversion_letter "d") with true. cbv iota.
  change (1 <=? 0) with false.
  change (argbuf_arraysize - 1 <=? cast size_t (14 - 0)) with false.
  change (is_char "d" "n") with false. change (is_char "d" "q") with false.
  change (is_char "d" "Q") with false. cbn [andb orb negb]. cbv iota.
  change (build_argbuf _ _ _ _) with (list_ascii_of_string "%0000000000020").
  change (nth (Z.to_nat 0) [TI64 v] TNull) with (TI64 v).
  unfold retry. cbn [conversion_loop].
  assert (Hover : (argbuf_arraysize
                   <? Z.of_nat (length (fmt_output_argbuf "d"
                                  (list_ascii_of_string "%0000000000020")
                                  (Z.of_nat (length (list_ascii_of_string "%0000000000020")))
                                  (TI64 v)))) = true).
  { unfold fmt_output_argbuf, fmt_settype, i64Prefix. destruct WIN32; reflexivity. }
  rewrite Hover.
  assert (Hguess : 0 <= initial_sprintf_guessed_size staticbuf_size <= staticbuf_size).
  { unfold initial_sprintf_guessed_size. rewrite Z.shiftr_div_pow2 by lia.
    change (2 ^ 2) with 4. split; [apply Z.div_pos; lia |].
    apply Z.div_le_upper_bound; lia. }
  rewrite (cast_ssize_t (initial_sprintf_guessed_size staticbuf_size)) by lia.
  rewrite (cast_size_t (initial_sprintf_guessed_size staticbuf_size)) by lia.
  unfold AddUninitialized, Reserve, StackBuffer_new. cbn [Capacity Pos].
  rewrite (cast_size_t (0 + initial_sprintf_guessed_size staticbuf_size)) by lia.
  destruct (Z.ltb_spec staticbuf_size (0 + initial_sprintf_guessed_size staticbuf_size));
    [lia |].
  reflexivity.
Qed.

(** The run that stores behind [argbuf]:
    [fmt_buf(buf, n, "%0000000000020d", v)] with a 64-bit [v], for every
    size of the caller's buffer.  The directive has fourteen characters
    before its letter, one fewer than the fifteen from which a directive
    is copied through, so it is built in [argbuf[0..13]]; the prefix of
    the 64-bit argument, the letter and the terminator then go to
    [argbuf[14]] and the cells after it, the last of them behind
    [argbuf[15]].  The store is made in the first round of the conversion
    loop, before the backend is called, and the run ends there. *)
Theorem long_directive_run_overruns_argbuf `{RT : Runtime} (cx : context) (v : Z)
    (staticbuf_size : Z) (m : memory) (fuel : nat) :
  0 <= staticbuf_size < 2 ^ 62 ->
  (16 <= fuel)%nat ->
  fmt_core cx (list_ascii_of_string "%0000000000020d") 1 [TI64 v] staticbuf_size fuel m
  = Fail ArgbufOverrun.
Proof.
  intros Hsize Hfuel.
  do 16 (destruct fuel as [| fuel]; [lia |]). clear Hfuel.
  unfold fmt_core. change (1 =? 0) with false. cbv iota.
  rewrite scan_opens_directive by (exact Hsize || reflexivity).
  do 13 (rewrite scan_inside_directive by (discriminate || reflexivity);
         unfold advance; cbn [cur tokenstart iarg output heap Z.add Pos.add Pos.succ]).
  change (1 + 1 + 1 + 1 + 1 + 1 + 1 + 1 + 1 + 1 + 1 + 1 + 1 + 1) with 14.
  rewrite scan_unfold.
  cbn [cur]. change (is_char (char_at _ 14) NUL) with false. cbv iota.
  rewrite body_overruns by exact Hsize. reflexivity.
Qed.

Lemma long_directive_run_overruns_argbuf_witness :
  fmt_core (RT := sample_runtime) default_context
    (list_ascii_of_string "%0000000000020d") 1 [TI64 5] 64 16 (fresh_memory 64)
  = Fail ArgbufOverrun.
Proof.
  apply (long_directive_run_overruns_argbuf (RT := sample_runtime)); [lia | lia].
Defined.

(** ** The reference on the shapes of a format string *)

Section RenderFacts.
Context `{RT : Runtime}.
Variable cx : context.
Variable guess : Z.

Lemma render_literal_app (a : list fmtarg) (lit rest : list ascii) :
  Forall (fun c => c <> "%" /\ c <> NUL) lit ->
  render cx guess (lit ++ rest) None a = option_map (app lit) (render cx guess rest None a).
Proof.
  induction 1 as [| c lit (Hpc & Hnul) _ IH]; cbn [app render].
  - now destruct (render cx guess rest None a).
  - destruct (is_char c NUL) eqn:E1; [apply is_char_true in E1; done |].
    destruct (is_char c "%") eqn:E2; [apply is_char_true in E2; done |].
    rewrite IH. now destruct (render cx guess rest None a).
Qed.

Lemma render_literal_only (a : list fmtarg) (lit : list ascii) :
  Forall (fun c => c <> "%" /\ c <> NUL) lit -> render cx guess lit None a = Some lit.
Proof.
  intros Hlit. rewrite <- (app_nil_r lit) at 1. rewrite render_literal_app by exact Hlit.
  cbn. now rewrite app_nil_r.
Qed.

Lemma render_spec_app (a : list fmtarg) (sp junk rest : list ascii) :
  Forall (fun c => is_conversion_letter c = false /\ c <> "%" /\ c <> NUL) junk ->
  render cx guess (junk ++ rest) (Some sp) a = render cx guess rest (Some (sp ++ junk)) a.
Proof.
  intros Hjunk. revert sp.
  induction Hjunk as [| c junk (Hletter & Hpc & Hnul) _ IH]; intros sp; cbn [app render].
  - now rewrite app_nil_r.
  - destruct (is_char c NUL) eqn:E1; [apply is_char_true in E1; done |].
    destruct (is_char c "%") eqn:E2; [apply is_char_true in E2; done |].
    rewrite Hletter, IH, <- app_assoc. reflexivity.
Qed.

(** A directive closed by a percent sign stands for one percent sign. *)
Lemma render_percent (a : list fmtarg) (lit1 junk lit2 : list ascii) :
  Forall (fun c => c <> "%" /\ c <> NUL) lit1 ->
  Forall (fun c => is_conversion_letter c = false /\ c <> "%" /\ c <> NUL) junk ->
  Forall (fun c => c <> "%" /\ c <> NUL) lit2 ->
  render cx guess (lit1 ++ "%" :: junk ++ "%" :: lit2) None a = Some (lit1 ++ "%" :: lit2).
Proof.
  intros H1 Hj H2. rewrite render_literal_app by exact H1.
  cbn [render]. change (is_char "%" NUL) with false. change (is_char "%" "%") with true.
  cbn match. rewrite render_spec_app by exact Hj.
  cbn [render]. change (is_char "%" NUL) with false. change (is_char "%" "%") with true.
  change (is_conversion_letter "%") with false. cbn match.
  rewrite render_literal_only by exact H2. reflexivity.
Qed.

(** A conversion with the directive [%c]: between two runs of literal
    text it contributes what the conversion loop gives. *)
Lemma render_one_directive (arg : fmtarg) (c : ascii) (lit1 lit2 piece : list ascii) :
  Forall (fun c => c <> "%" /\ c <> NUL) lit1 ->
  Forall (fun c => c <> "%" /\ c <> NUL) lit2 ->
  is_conversion_letter c = true ->
  one_of c ["n"; "q"; "Q"] = false ->
  converted 22 (conversion_call cx false false c ["%"] arg) guess = Some piece ->
  render cx guess (lit1 ++ "%" :: c :: lit2) None [arg] = Some (lit1 ++ piece ++ lit2).
Proof.
  intros H1 H2 Hletter Hnot Hconv. rewrite render_literal_app by exact H1.
  cbn [render]. change (is_char "%" NUL) with false. change (is_char "%" "%") with true.
  cbn match. rewrite Hletter.
  unfold one_of in Hnot. cbn [existsb] in Hnot.
  apply orb_false_iff in Hnot as [En Hnot]. apply orb_false_iff in Hnot as [Eq Hnot].
  apply orb_false_iff in Hnot as [EQ _].
  assert (Enul : is_char c NUL = false).
  { destruct (is_char c NUL) eqn:E; [| reflexivity]. apply is_char_true in E. now subst c. }
  rewrite Enul. unfold unconvertible. rewrite En, Eq, EQ. cbn [length andb orb].
  change (argbuf_arraysize - 1 <=? Z.of_nat 1) with false. cbn [orb].
  change (without_stars ["%"]) with ["%"].
  rewrite overruns_plain by (try reflexivity; cbn [length]; lia).
  rewrite rounds_covered_plain by (try reflexivity; discriminate).
  rewrite Hconv.
  rewrite render_literal_only by exact H2. reflexivity.
Qed.

End RenderFacts.
(** ** The fast path for strings ([format_string]) *)

Lemma strlen_nat_le (s : list ascii) : (strlen_nat s <= length s)%nat.
Proof.
  induction s as [| c s IH]; cbn; [lia |]. destruct (Ascii.eqb c NUL); cbn; lia.
Qed.

Lemma nth_strlen_nat (s : list ascii) : nth (strlen_nat s) s NUL = NUL.
Proof.
  induction s as [| c s IH]; cbn; [reflexivity |].
  destruct (Ascii.eqb c NUL) eqn:E; [now apply Ascii.eqb_eq in E | exact IH].
Qed.

Lemma nth_before_strlen_nat (s : list ascii) : forall k : nat,
  (k < strlen_nat s)%nat -> nth k s NUL <> NUL.
Proof.
  induction s as [| c s IH]; cbn; intros k Hk; [lia |].
  destruct (Ascii.eqb c NUL) eqn:E; [lia |].
  destruct k as [| k]; [now apply Ascii.eqb_neq in E | apply IH; lia].
Qed.

Lemma length_c_str (s : list ascii) : length (c_str s) = strlen_nat s.
Proof. unfold c_str. rewrite length_take_le; [reflexivity | apply strlen_nat_le]. Qed.

Lemma chars_from_c_str (s : list ascii) (k : nat) :
  (k <= strlen_nat s)%nat -> chars_from s 0 k = take k (c_str s).
Proof.
  intros Hk. pose proof (strlen_nat_le s).
  rewrite chars_from_segment by lia. unfold segment, c_str.
  change (Z.to_nat 0) with O. rewrite drop_0, take_take. f_equal. lia.
Qed.

Lemma format_string_loop_spec (s : list ascii) : forall (passes i : nat) (dest : list ascii),
  (i <= strlen_nat s)%nat ->
  format_string_loop passes (Z.of_nat i) s dest
  = if (strlen_nat s - i <? passes)%nat
    then (dest ++ chars_from s (Z.of_nat i) (strlen_nat s - i), cast int (strlen s))
    else (dest ++ chars_from s (Z.of_nat i) passes, -1).
Proof.
  induction passes as [| passes IH]; intros i dest Hi.
  - cbn. now rewrite app_nil_r.
  - cbn [format_string_loop]. rewrite char_at_nth, Nat2Z.id by lia.
    destruct (Nat.eq_dec i (strlen_nat s)) as [-> | Hne].
    + rewrite nth_strlen_nat. change (is_char NUL NUL) with true. cbn match.
      rewrite Nat.sub_diag. cbn. now rewrite app_nil_r.
    + pose proof (nth_before_strlen_nat s i ltac:(lia)) as Hc.
      destruct (is_char (nth i s NUL) NUL) eqn:E; [apply is_char_true in E; done |].
      replace (Z.of_nat i + 1) with (Z.of_nat (S i)) by lia.
      rewrite IH by lia.
      replace (strlen_nat s - i)%nat with (S (strlen_nat s - S i)) by lia.
      assert (Ec : nth i s NUL = char_at s (Z.of_nat i))
        by (rewrite char_at_nth, Nat2Z.id by lia; reflexivity).
      rewrite Ec.
      destruct (Nat.ltb_spec (strlen_nat s - S i) passes);
        destruct (Nat.ltb_spec (S (strlen_nat s - S i)) (S passes)); try lia;
        rewrite (chars_from_S s (Z.of_nat i)), <- app_assoc;
        replace (Z.of_nat i + 1) with (Z.of_nat (S i)) by lia; reflexivity.
Qed.

Section StringPath.
Context `{RT : Runtime}.

Lemma format_string_fast_spec (count : Z) (format_str s : list ascii) :
  char_at format_str 0 = "%" -> char_at format_str 1 = "s" ->
  0 <= count -> strlen s < 2 ^ 31 ->
  format_string count format_str s
  = if strlen s <? count then (c_str s, strlen s)
    else (take (Z.to_nat count) (c_str s), -1).
Proof.
  intros E0 E1 Hcount Hlen. unfold format_string. rewrite E0, E1.
  change (is_char "%" "%" && is_char "s" "s") with true. cbn match.
  change 0 with (Z.of_nat O) at 1.
  rewrite (format_string_loop_spec s (Z.to_nat count) O []) by lia.
  change (Z.of_nat O) with 0.
  rewrite Nat.sub_0_r. cbn [app]. unfold strlen in *.
  destruct (Nat.ltb_spec (strlen_nat s) (Z.to_nat count));
    destruct (Z.ltb_spec (Z.of_nat (strlen_nat s)) count); try lia.
  - rewrite chars_from_c_str by lia. rewrite take_ge by (rewrite length_c_str; lia).
    f_equal. unfold cast, int, int32_t, wrap_signed. cbn [is_signed width].
    rewrite Z.mod_small by lia. lia.
  - rewrite chars_from_c_str by lia. reflexivity.
Qed.

End StringPath.
(** On a directive that begins with [%s], [format_string] does the copy
    itself: a string shorter than the destination is stored whole, without
    a terminator, and its length is returned; otherwise the destination is
    filled with the first [count] characters and the result is -1.  What
    follows the [s] in the directive is not looked at. *)
Theorem format_string_fast_path `{RT : Runtime} (count : Z) (format_str s : list ascii) :
  char_at format_str 0 = "%" -> char_at format_str 1 = "s" ->
  0 <= count -> strlen s < 2 ^ 31 ->
  format_string count format_str s
  = if strlen s <? count then (c_str s, strlen s)
    else (take (Z.to_nat count) (c_str s), -1).
Proof. apply format_string_fast_spec. Qed.

Lemma format_string_fast_path_witness :
  format_string (RT := sample_runtime) 3 (list_ascii_of_string "%s")
    (list_ascii_of_string "abcdef")
  = if strlen (list_ascii_of_string "abcdef") <? 3
    then (c_str (list_ascii_of_string "abcdef"), strlen (list_ascii_of_string "abcdef"))
    else (take (Z.to_nat 3) (c_str (list_ascii_of_string "abcdef")), -1).
Proof.
  apply (format_string_fast_path (RT := sample_runtime) 3 (list_ascii_of_string "%s")
           (list_ascii_of_string "abcdef")).
  - reflexivity.
  - reflexivity.
  - lia.
  - vm_compute. reflexivity.
Defined.

Section StringConversion.
Context `{RT : Runtime}.
Variable cx : context.
Variable s : list ascii.
Hypothesis s_short : strlen s < 2 ^ 31.

Lemma string_call (c : ascii) (size : Z) :
  0 <= size < 2 ^ 63 ->
  conversion_call cx false false c ["%"] (TCStr s) size
  = Some (if strlen s <? size then (c_str s, strlen s)
          else (take (Z.to_nat size) (c_str s), -1)).
Proof.
  intros Hsize. unfold conversion_call, fmt_output_with_snprintf.
  rewrite cast_size_t by lia. f_equal.
  apply format_string_fast_spec; [reflexivity | reflexivity | lia | exact s_short].
Qed.

(** A string shorter than [MaxOutputSize] is converted whole. *)
Lemma converted_string (c : ascii) : forall (rounds : nat) (size : Z),
  1 <= size < 2 ^ 61 -> strlen s < MaxOutputSize ->
  MaxOutputSize <= size * 2 ^ Z.of_nat rounds ->
  converted (S rounds) (conversion_call cx false false c ["%"] (TCStr s)) size
  = Some (c_str s).
Proof.
  induction rounds as [| rounds IH]; intros size Hsize Hlen Hmax.
  - cbn [converted]. rewrite string_call by lia.
    change (2 ^ Z.of_nat 0) with 1 in Hmax.
    destruct (Z.ltb_spec (strlen s) size); [| lia].
    unfold strlen in *.
    destruct (Z.leb_spec 0 (Z.of_nat (strlen_nat s))); [| lia].
    destruct (Z.ltb_spec (Z.of_nat (strlen_nat s)) size); [| lia]. cbn [andb].
    rewrite length_c_str. rewrite Z.leb_refl.
    rewrite take_ge by (rewrite length_c_str; lia). reflexivity.
  - remember (S rounds) as r eqn:Er. cbn [converted]. subst r.
    rewrite string_call by lia. unfold strlen in *.
    destruct (Z.ltb_spec (Z.of_nat (strlen_nat s)) size) as [Hfit | Hfit].
    + destruct (Z.leb_spec 0 (Z.of_nat (strlen_nat s))); [| lia].
      destruct (Z.ltb_spec (Z.of_nat (strlen_nat s)) size); [| lia]. cbn [andb].
      rewrite length_c_str. rewrite Z.leb_refl.
      rewrite take_ge by (rewrite length_c_str; lia). reflexivity.
    + change (0 <=? -1) with false. cbn [andb].
      destruct (Z.leb_spec MaxOutputSize size); [lia |].
      apply IH; [unfold MaxOutputSize in *; lia | exact Hlen |].
      rewrite Nat2Z.inj_succ, Z.pow_succ_r in Hmax by lia. lia.
Qed.

(** A string that is longer than the size at which the conversion loop
    gives up is cut there. *)
Lemma converted_string_cut (c : ascii) : forall (k rounds : nat) (size : Z),
  (k < rounds)%nat -> 1 <= size < 2 ^ 61 ->
  MaxOutputSize <= size * 2 ^ Z.of_nat k ->
  (k <> O -> size * 2 ^ Z.of_nat (k - 1) < MaxOutputSize) ->
  size * 2 ^ Z.of_nat k <= strlen s ->
  converted rounds (conversion_call cx false false c ["%"] (TCStr s)) size
  = Some (take (Z.to_nat (size * 2 ^ Z.of_nat k)) (c_str s)).
Proof.
  induction k as [| k IH]; intros rounds size Hk Hsize Hmax Hmin Hlen;
    (destruct rounds as [| rounds]; [lia |]).
  - change (2 ^ Z.of_nat 0) with 1 in *. rewrite Z.mul_1_r in *.
    cbn [converted]. rewrite string_call by lia.
    destruct (Z.ltb_spec (strlen s) size); [lia |].
    change (0 <=? -1) with false. cbn [andb].
    destruct (Z.leb_spec MaxOutputSize size); [| lia].
    rewrite length_take_le by (rewrite length_c_str; unfold strlen in *; lia).
    rewrite Z2Nat.id by lia. rewrite Z.leb_refl. now rewrite take_take, Nat.min_id.
  - assert (Hpow : size * 2 ^ Z.of_nat (S k) = size * 2 * 2 ^ Z.of_nat k).
    { rewrite Nat2Z.inj_succ, Z.pow_succ_r by lia. lia. }
    specialize (Hmin ltac:(lia)). replace (S k - 1)%nat with k in Hmin by lia.
    assert (0 < 2 ^ Z.of_nat k) by (apply Z.pow_pos_nonneg; lia).
    cbn [converted]. rewrite string_call by lia.
    destruct (Z.ltb_spec (strlen s) size); [nia |].
    change (0 <=? -1) with false. cbn [andb].
    destruct (Z.leb_spec MaxOutputSize size); [nia |].
    rewrite Hpow. apply IH.
    + lia.
    + unfold MaxOutputSize in *. lia.
    + lia.
    + intros Hk0. destruct k as [| k']; [done |].
      replace (S k' - 1)%nat with k' by lia.
      rewrite Nat2Z.inj_succ, Z.pow_succ_r in Hmin by lia. lia.
    + lia.
Qed.

End StringConversion.
(** A string argument comes back whole: between two runs of literal text,
    a directive without flags, whatever its conversion letter, prints a
    string of less than [MaxOutputSize] characters as it is. *)
Theorem string_argument_round_trip `{RT : Runtime} (cx : context)
    (lit1 lit2 : list ascii) (c : ascii) (s : list ascii) (staticbuf_size : Z)
    (m : memory) (fuel : nat) :
  Forall (fun c => c <> "%" /\ c <> NUL) lit1 ->
  Forall (fun c => c <> "%" /\ c <> NUL) lit2 ->
  is_conversion_letter c = true -> one_of c ["n"; "q"; "Q"] = false ->
  strlen s < MaxOutputSize ->
  max_alloc < 2 ^ 62 ->
  4 <= staticbuf_size < 2 ^ 62 ->
  Z.of_nat (length (lit1 ++ "%" :: c :: lit2)) < 2 ^ 62 ->
  staticbuf_size <= Z.of_nat (length (static_mem m)) ->
  heap_fresh m ->
  (2 * length (lit1 ++ "%" :: c :: lit2) + 25 <= fuel)%nat ->
  ensures memory_only
    (fmt_core cx (lit1 ++ "%" :: c :: lit2) 1 [TCStr s] staticbuf_size fuel m)
    (fun r => Len (fst r) = Z.of_nat (length (lit1 ++ c_str s ++ lit2))
              /\ take (length (lit1 ++ c_str s ++ lit2) + 1) (load (snd r) (Str (fst r)))
                 = (lit1 ++ c_str s ++ lit2) ++ [NUL]).
Proof.
  intros H1 H2 Hletter Hnot Hlen Halloc Hsize Hfmt Hcells Hfresh Hfuel.
  apply fmt_core_render_spec; try done; try lia.
  all: try (cbn [length]; lia).
  change (take (Z.to_nat 1) [TCStr s]) with [TCStr s].
  apply render_one_directive; try done.
  assert (Hg : 1 <= initial_sprintf_guessed_size staticbuf_size < 2 ^ 61).
  { unfold initial_sprintf_guessed_size. rewrite Z.shiftr_div_pow2 by lia.
    change (2 ^ 2) with 4.
    assert (1 <= staticbuf_size / 4) by (apply Z.div_le_lower_bound; lia).
    assert (staticbuf_size / 4 < 2 ^ 61) by (apply Z.div_lt_upper_bound; lia). lia. }
  apply (converted_string cx s ltac:(unfold MaxOutputSize in Hlen; lia) c 21); try done.
  unfold MaxOutputSize. change (2 ^ Z.of_nat 21) with 2097152. lia.
Qed.

Lemma string_argument_round_trip_witness :
  ensures memory_only
    (fmt_core (RT := sample_runtime) default_context
       (list_ascii_of_string "<" ++ "%" :: "v" :: list_ascii_of_string ">") 1
       [TCStr (list_ascii_of_string "a string that does not fit")] 8 100 (fresh_memory 8))
    (fun r =>
       Len (fst r)
       = Z.of_nat (length (list_ascii_of_string "<"
                           ++ c_str (list_ascii_of_string "a string that does not fit")
                           ++ list_ascii_of_string ">"))
       /\ take (length (list_ascii_of_string "<"
                        ++ c_str (list_ascii_of_string "a string that does not fit")
                        ++ list_ascii_of_string ">") + 1)
            (load (snd r) (Str (fst r)))
          = (list_ascii_of_string "<"
             ++ c_str (list_ascii_of_string "a string that does not fit")
             ++ list_ascii_of_string ">") ++ [NUL]).
Proof.
  apply (string_argument_round_trip (RT := sample_runtime) default_context
           (list_ascii_of_string "<") (list_ascii_of_string ">") "v"
           (list_ascii_of_string "a string that does not fit") 8 (fresh_memory 8) 100).
  - repeat constructor; discriminate.
  - repeat constructor; discriminate.
  - reflexivity.
  - reflexivity.
  - vm_compute. reflexivity.
  - reflexivity.
  - lia.
  - simpl; lia.
  - simpl; lia.
  - apply heap_fresh_fresh_memory.
  - simpl; lia.
Defined.
(** ** Integer arguments from end to end *)

Lemma wrap_signed_idem (w z : Z) : 0 < w -> wrap_signed w (wrap_signed w z) = wrap_signed w z.
Proof.
  intros Hw. unfold wrap_signed.
  replace ((z + 2 ^ (w - 1)) mod 2 ^ w - 2 ^ (w - 1) + 2 ^ (w - 1))
    with ((z + 2 ^ (w - 1)) mod 2 ^ w) by lia.
  now rewrite Z.mod_mod by (apply Z.pow_nonzero; lia).
Qed.

Lemma wrap_unsigned_signed (w z : Z) :
  0 < w -> wrap_unsigned w (wrap_signed w z) = wrap_unsigned w z.
Proof.
  intros Hw. unfold wrap_unsigned, wrap_signed.
  rewrite Zminus_mod_idemp_l. f_equal. lia.
Qed.

Lemma wrap_signed_range (w z : Z) :
  0 < w -> - 2 ^ (w - 1) <= wrap_signed w z < 2 ^ (w - 1).
Proof.
  intros Hw. unfold wrap_signed.
  assert (E : 2 ^ w = 2 * 2 ^ (w - 1)).
  { rewrite <- Z.pow_succ_r by lia. f_equal. lia. }
  pose proof (Z.mod_pos_bound (z + 2 ^ (w - 1)) (2 ^ w) ltac:(apply Z.pow_pos_nonneg; lia)).
  lia.
Qed.

Lemma snprintf_plain_wrapped (bits : Z) (letter : ascii) (v : Z) :
  0 < bits -> snprintf_plain bits letter (wrap_signed bits v) = snprintf_plain bits letter v.
Proof.
  intros Hb. unfold snprintf_plain.
  now rewrite wrap_signed_idem, wrap_unsigned_signed by exact Hb.
Qed.

Section IntegerConversion.
Context `{RT : Runtime}.
Variable cx : context.

Lemma plain_letter (c dflt : ascii) :
  one_of dflt ["d"; "u"] = true -> is_char c "o" = false ->
  one_of (if tokenint_of c then c else dflt) ["d"; "i"; "u"; "x"; "X"] = true.
Proof.
  intros Hd Ho. destruct (tokenint_of c) eqn:E.
  - unfold tokenint_of, one_of in *. cbn [existsb] in *. rewrite Ho in E.
    destruct (is_char c "d"), (is_char c "i"), (is_char c "u"),
      (is_char c "x"), (is_char c "X"); cbn in *; done.
  - unfold one_of in *. cbn [existsb] in *.
    destruct (is_char dflt "d"), (is_char dflt "u"); cbn in *; try done.
    now rewrite orb_true_r.
Qed.

(** The backend of a plain directive on an integer argument, at a size
    that takes the fast path. *)
Lemma integer_call (c : ascii) (arg : fmtarg) (bits v : Z) (dflt : ascii) (size : Z) :
  integer_payload arg = Some (bits, v, dflt) ->
  (bits = 64 -> WIN32 = true) ->
  one_of c ["c"; "o"] = false ->
  20 <= size < 2 ^ 63 ->
  let t := if tokenint_of c then c else dflt in
  conversion_call cx false false c ["%"] arg size
  = Some (snprintf_plain bits t v, Z.of_nat (length (snprintf_plain bits t v))).
Proof.
  intros Hp Hwin Hc Hsize t.
  unfold one_of in Hc. cbn [existsb] in Hc.
  apply orb_false_iff in Hc as [Ec Hc]. apply orb_false_iff in Hc as [Eo _].
  unfold conversion_call, fmt_output_with_snprintf. rewrite cast_size_t by lia. f_equal.
  destruct arg as [| | | | I32 | UI32 | I64 | UI64 |]; try discriminate;
    injection Hp as <- <- <-.
  - rewrite Ec. rewrite <- (snprintf_plain_wrapped 32 t I32) by lia.
    replace (if tokenint_of c then fmt_settype ["%"] (Z.of_nat (length ["%"])) (Some []) c
             else fmt_settype ["%"] (Z.of_nat (length ["%"])) (Some []) "d")
      with ["%"; t; NUL] by (unfold t; destruct (tokenint_of c); reflexivity).
    apply format_int32_fast.
    + apply plain_letter; [reflexivity | exact Eo].
    + apply (wrap_signed_range 32). lia.
    + destruct (one_of t ["x"; "X"]); lia.
  - rewrite <- (snprintf_plain_wrapped 32 t UI32) by lia.
    replace (if tokenint_of c then fmt_settype ["%"] (Z.of_nat (length ["%"])) (Some []) c
             else fmt_settype ["%"] (Z.of_nat (length ["%"])) (Some []) "u")
      with ["%"; t; NUL] by (unfold t; destruct (tokenint_of c); reflexivity).
    apply format_int32_fast.
    + apply plain_letter; [reflexivity | exact Eo].
    + apply (wrap_signed_range 32). lia.
    + destruct (one_of t ["x"; "X"]); lia.
  - rewrite <- (snprintf_plain_wrapped 64 t I64) by lia.
    replace (if tokenint_of c
             then fmt_settype ["%"] (Z.of_nat (length ["%"])) (Some i64Prefix) c
             else fmt_settype ["%"] (Z.of_nat (length ["%"])) (Some i64Prefix) "d")
      with ("%" :: i64Prefix ++ [t; NUL])
      by (unfold t, i64Prefix; rewrite (Hwin eq_refl); destruct (tokenint_of c); reflexivity).
    apply format_int64_fast.
    + exact (Hwin eq_refl).
    + apply plain_letter; [reflexivity | exact Eo].
    + apply (wrap_signed_range 64). lia.
    + destruct (one_of t ["x"; "X"]); lia.
  - rewrite <- (snprintf_plain_wrapped 64 t UI64) by lia.
    replace (if tokenint_of c
             then fmt_settype ["%"] (Z.of_nat (length ["%"])) (Some i64Prefix) c
             else fmt_settype ["%"] (Z.of_nat (length ["%"])) (Some i64Prefix) "u")
      with ("%" :: i64Prefix ++ [t; NUL])
      by (unfold t, i64Prefix; rewrite (Hwin eq_refl); destruct (tokenint_of c); reflexivity).
    apply format_int64_fast.
    + exact (Hwin eq_refl).
    + apply plain_letter; [reflexivity | exact Eo].
    + apply (wrap_signed_range 64). lia.
    + destruct (one_of t ["x"; "X"]); lia.
Qed.

Lemma length_snprintf_plain (bits : Z) (t : ascii) (v : Z) :
  bits = 32 \/ bits = 64 ->
  (length (snprintf_plain bits t v) <= 20)%nat.
Proof.
  intros Hb. unfold snprintf_plain.
  assert (Hdec : forall T z, (T = int32_t \/ T = int64_t) \/ (T = uint32_t \/ T = uint64_t) ->
            in_range T z -> (length (decimal_digits z) <= 20)%nat).
  { intros T z HT Hz.
    assert (Hw : 8 <= width T <= 64) by (destruct HT as [[-> | ->] | [-> | ->]]; simpl; lia).
    pose proof (format_integer_scratch T 10 false z
                  ltac:(destruct HT as [HT | HT]; [left | right]; split; auto) Hz) as H.
    rewrite (format_integer_decimal T z Hw Hz) in H. cbn [snd] in H. lia. }
  assert (Hhex : forall T uc z, T = uint32_t \/ T = uint64_t ->
            in_range T z -> (length (hex_digits uc z) <= 20)%nat).
  { intros T uc z HT Hz.
    assert (Hw : 8 <= width T <= 64) by (destruct HT as [-> | ->]; simpl; lia).
    assert (Hu : is_signed T = false) by (destruct HT as [-> | ->]; reflexivity).
    pose proof (format_integer_scratch T 16 uc z
                  ltac:(right; split; auto) Hz) as H.
    rewrite (format_integer_hex T uc z Hu Hw Hz) in H. cbn [snd] in H. lia. }
  destruct (one_of t ["d"; "i"]).
  { destruct Hb as [-> | ->].
    - apply (Hdec int32_t); [auto | apply (wrap_signed_range 32); lia].
    - apply (Hdec int64_t); [auto | apply (wrap_signed_range 64); lia]. }
  destruct (is_char t "u").
  { destruct Hb as [-> | ->].
    - apply (Hdec uint32_t); [auto | apply (wrap_unsigned_range 32); lia].
    - apply (Hdec uint64_t); [auto | apply (wrap_unsigned_range 64); lia]. }
  destruct (is_char t "x").
  { destruct Hb as [-> | ->].
    - apply (Hhex uint32_t); [auto | apply (wrap_unsigned_range 32); lia].
    - apply (Hhex uint64_t); [auto | apply (wrap_unsigned_range 64); lia]. }
  destruct (is_char t "X"); [| cbn; lia].
  destruct Hb as [-> | ->].
  - apply (Hhex uint32_t); [auto | apply (wrap_unsigned_range 32); lia].
  - apply (Hhex uint64_t); [auto | apply (wrap_unsigned_range 64); lia].
Qed.

Lemma converted_integer (c : ascii) (arg : fmtarg) (bits v : Z) (dflt : ascii) (guess : Z) :
  integer_payload arg = Some (bits, v, dflt) ->
  (bits = 64 -> WIN32 = true) ->
  one_of c ["c"; "o"] = false ->
  21 <= guess < 2 ^ 61 ->
  converted 22 (conversion_call cx false false c ["%"] arg) guess
  = Some (snprintf_plain bits (if tokenint_of c then c else dflt) v).
Proof.
  intros Hp Hwin Hc Hg. cbn [converted].
  rewrite (integer_call c arg bits v dflt guess Hp Hwin Hc) by lia.
  assert (Hbits : bits = 32 \/ bits = 64).
  { destruct arg; try discriminate; injection Hp as <- _ _; auto. }
  pose proof (length_snprintf_plain bits (if tokenint_of c then c else dflt) v Hbits) as Hlen.
  set (digits := snprintf_plain bits (if tokenint_of c then c else dflt) v) in *.
  destruct (Z.leb_spec 0 (Z.of_nat (length digits))); [| lia].
  destruct (Z.ltb_spec (Z.of_nat (length digits)) guess); [| lia]. cbn [andb].
  rewrite Z.leb_refl, Nat2Z.id. now rewrite take_ge by lia.
Qed.

End IntegerConversion.
(** An integer argument under a directive without flags, between two runs
    of literal text: the digits printed are those of the C standard for the
    payload at its width, under the directive's letter when that is one of
    d, i, u, x and X and under the natural letter of the tag otherwise (an
    [%s] given an [int] prints it in decimal).  The caller's buffer is so
    large that the first guess takes the fast path; the 64-bit tags are
    those of the Windows build. *)
Theorem integer_argument_prints_digits `{RT : Runtime} (cx : context)
    (lit1 lit2 : list ascii) (c : ascii) (arg : fmtarg) (bits v : Z) (dflt : ascii)
    (staticbuf_size : Z) (m : memory) (fuel : nat) :
  Forall (fun c => c <> "%" /\ c <> NUL) lit1 ->
  Forall (fun c => c <> "%" /\ c <> NUL) lit2 ->
  integer_payload arg = Some (bits, v, dflt) ->
  (bits = 64 -> WIN32 = true) ->
  is_conversion_letter c = true -> one_of c ["c"; "o"; "n"; "q"; "Q"] = false ->
  max_alloc < 2 ^ 62 ->
  84 <= staticbuf_size < 2 ^ 62 ->
  Z.of_nat (length (lit1 ++ "%" :: c :: lit2)) < 2 ^ 62 ->
  staticbuf_size <= Z.of_nat (length (static_mem m)) ->
  heap_fresh m ->
  (2 * length (lit1 ++ "%" :: c :: lit2) + 25 <= fuel)%nat ->
  let digits := snprintf_plain bits (if tokenint_of c then c else dflt) v in
  ensures memory_only
    (fmt_core cx (lit1 ++ "%" :: c :: lit2) 1 [arg] staticbuf_size fuel m)
    (fun r => Len (fst r) = Z.of_nat (length (lit1 ++ digits ++ lit2))
              /\ take (length (lit1 ++ digits ++ lit2) + 1) (load (snd r) (Str (fst r)))
                 = (lit1 ++ digits ++ lit2) ++ [NUL]).
Proof.
  intros H1 H2 Hp Hwin Hletter Hnot Halloc Hsize Hfmt Hcells Hfresh Hfuel digits.
  unfold one_of in Hnot. cbn [existsb] in Hnot.
  apply orb_false_iff in Hnot as [Ec Hnot]. apply orb_false_iff in Hnot as [Eo Hnot].
  apply fmt_core_render_spec; try done; try lia.
  all: try (cbn [length]; lia).
  change (take (Z.to_nat 1) [arg]) with [arg].
  apply render_one_directive; try done.
  apply (converted_integer cx c arg bits v dflt _ Hp Hwin).
  - unfold one_of. cbn [existsb]. now rewrite Ec, Eo.
  - unfold initial_sprintf_guessed_size. rewrite Z.shiftr_div_pow2 by lia.
    change (2 ^ 2) with 4.
    assert (21 <= staticbuf_size / 4) by (apply Z.div_le_lower_bound; lia).
    assert (staticbuf_size / 4 < 2 ^ 61) by (apply Z.div_lt_upper_bound; lia). lia.
Qed.

Lemma integer_argument_prints_digits_witness :
  ensures memory_only
    (fmt_core (RT := sample_runtime) default_context
       (list_ascii_of_string "Acquire failed: " ++ "%" :: "x" :: [])
       1 [TI32 (-2005270524)] 256 100 (fresh_memory 256))
    (fun r =>
       Len (fst r)
       = Z.of_nat (length (list_ascii_of_string "Acquire failed: "
                           ++ snprintf_plain 32 "x" (-2005270524) ++ []))
       /\ take (length (list_ascii_of_string "Acquire failed: "
                        ++ snprintf_plain 32 "x" (-2005270524) ++ []) + 1)
            (load (snd r) (Str (fst r)))
          = (list_ascii_of_string "Acquire failed: "
             ++ snprintf_plain 32 "x" (-2005270524) ++ []) ++ [NUL]).
Proof.
  apply (integer_argument_prints_digits (RT := sample_runtime) default_context
           (list_ascii_of_string "Acquire failed: ") [] "x" (TI32 (-2005270524))
           32 (-2005270524) "d" 256 (fresh_memory 256) 100).
  - repeat constructor; discriminate.
  - constructor.
  - reflexivity.
  - discriminate.
  - reflexivity.
  - reflexivity.
  - reflexivity.
  - lia.
  - simpl; lia.
  - simpl; lia.
  - apply heap_fresh_fresh_memory.
  - simpl; lia.
Defined.

(** Around a directive that a percent sign closes, whatever stands between
    the two percent signs: the output holds one percent sign in its place
    and no argument is taken. *)
Theorem percent_escape `{RT : Runtime} (cx : context) (lit1 junk lit2 : list ascii)
    (nargs : Z) (args : list fmtarg) (staticbuf_size : Z) (m : memory) (fuel : nat) :
  Forall (fun c => c <> "%" /\ c <> NUL) lit1 ->
  Forall (fun c => is_conversion_letter c = false /\ c <> "%" /\ c <> NUL) junk ->
  Forall (fun c => c <> "%" /\ c <> NUL) lit2 ->
  nargs <> 0 -> nargs <= Z.of_nat (length args) ->
  max_alloc < 2 ^ 62 ->
  0 <= staticbuf_size < 2 ^ 62 ->
  Z.of_nat (length (lit1 ++ "%" :: junk ++ "%" :: lit2)) < 2 ^ 62 ->
  staticbuf_size <= Z.of_nat (length (static_mem m)) ->
  heap_fresh m ->
  (2 * length (lit1 ++ "%" :: junk ++ "%" :: lit2) + 25 <= fuel)%nat ->
  ensures memory_only
    (fmt_core cx (lit1 ++ "%" :: junk ++ "%" :: lit2) nargs args staticbuf_size fuel m)
    (fun r => Len (fst r) = Z.of_nat (length (lit1 ++ "%" :: lit2))
              /\ take (length (lit1 ++ "%" :: lit2) + 1) (load (snd r) (Str (fst r)))
                 = (lit1 ++ "%" :: lit2) ++ [NUL]).
Proof.
  intros H1 Hj H2 Hnargs Hargs Halloc Hsize Hfmt Hcells Hfresh Hfuel.
  apply fmt_core_render_spec; try done.
  now apply render_percent.
Qed.

Lemma percent_escape_witness :
  ensures memory_only
    (fmt_core (RT := sample_runtime) default_context
       (list_ascii_of_string "100" ++ "%" :: list_ascii_of_string "-5."
        ++ "%" :: list_ascii_of_string " sure")
       1 [TI32 7] 4 100 (fresh_memory 4))
    (fun r =>
       Len (fst r)
       = Z.of_nat (length (list_ascii_of_string "100" ++ "%" :: list_ascii_of_string " sure"))
       /\ take (length (list_ascii_of_string "100" ++ "%" :: list_ascii_of_string " sure") + 1)
            (load (snd r) (Str (fst r)))
          = (list_ascii_of_string "100" ++ "%" :: list_ascii_of_string " sure") ++ [NUL]).
Proof.
  apply (percent_escape (RT := sample_runtime) default_context
           (list_ascii_of_string "100") (list_ascii_of_string "-5.")
           (list_ascii_of_string " sure") 1 [TI32 7] 4 (fresh_memory 4) 100).
  - repeat constructor; discriminate.
  - repeat constructor; discriminate.
  - repeat constructor; discriminate.
  - lia.
  - simpl; lia.
  - reflexivity.
  - lia.
  - simpl; lia.
  - simpl; lia.
  - apply heap_fresh_fresh_memory.
  - simpl; lia.
Defined.
(** ** The overload that returns [std::string] *)

(** The string holds the characters it was built from, unless its
    allocation fails; up to fifteen characters need none. *)
Lemma std_string_spec `{RT : Runtime} (m : memory) (chars : list ascii) (n : Z) :
  ensures memory_only (std_string m chars n) (fun str => str = chars)
  /\ (n <= 15 -> std_string m chars n = Ok chars).
Proof.
  unfold std_string, new_array. split.
  - destruct (n <=? 15); [reflexivity |]. destruct (_ <=? max_alloc); reflexivity.
  - intros Hn. destruct (Z.leb_spec n 15); [reflexivity | lia].
Qed.

Lemma fmt_core_string_render_spec `{RT : Runtime} (cx : context) (fmt : list ascii)
    (nargs : Z) (args : list fmtarg) (fuel : nat) (out : list ascii) :
  nargs <> 0 -> nargs <= Z.of_nat (length args) ->
  max_alloc < 2 ^ 62 ->
  Z.of_nat (length fmt) < 2 ^ 62 ->
  render cx 64 fmt None (take (Z.to_nat nargs) args) = Some out ->
  (2 * length fmt + 25 <= fuel)%nat ->
  ensures memory_only (fmt_core_string cx fmt nargs args fuel) (fun str => str = out).
Proof.
  intros Hnargs Hargs Halloc Hfmt Hrender Hfuel. unfold fmt_core_string.
  change {| static_mem := replicate (Z.to_nat 256) uninit; heap_mem := ∅;
            next_block := 0; released := [] |} with (fresh_memory (Z.to_nat 256)).
  eapply ensures_bind.
  { apply (fmt_core_render_spec cx fmt nargs args 256 (fresh_memory (Z.to_nat 256)) fuel out);
      try done; try lia.
    all: try apply heap_fresh_fresh_memory.
    all: try exact Hrender.
    all: cbn; rewrite length_replicate; lia. }
  intros [res m] (Elen & Etake). cbn [fst snd] in *.
  eapply ensures_bind; [apply std_string_spec |].
  intros str ->. cbn [ensures].
  rewrite Elen, Nat2Z.id.
  replace (take (length out) (load m (Str res)))
    with (take (length out) (take (length out + 1) (load m (Str res))))
    by (rewrite take_take; f_equal; lia).
  rewrite Etake. now rewrite take_app_length.
Qed.

(** [fmt_core] into a [std::string] gives the text of the reference
    formatter at the first guess of 64 bytes that the frame's array of 256
    bytes makes, unless an allocation fails (that of the string
    included).  The reference gives no text for a directive that overruns
    [argbuf], nor for one that loses its length modifier and does not fit
    the 64 bytes. *)
Theorem string_overload_returns_render `{RT : Runtime} (cx : context) (fmt : list ascii)
    (nargs : Z) (args : list fmtarg) (fuel : nat) (out : list ascii) :
  nargs <> 0 -> nargs <= Z.of_nat (length args) ->
  max_alloc < 2 ^ 62 ->
  Z.of_nat (length fmt) < 2 ^ 62 ->
  render cx 64 fmt None (take (Z.to_nat nargs) args) = Some out ->
  (2 * length fmt + 25 <= fuel)%nat ->
  ensures memory_only (fmt_core_string cx fmt nargs args fuel) (fun str => str = out).
Proof. apply fmt_core_string_render_spec. Qed.

Lemma string_overload_returns_render_witness :
  ensures memory_only
    (fmt_core_string (RT := sample_runtime) default_context
       (list_ascii_of_string "%v %v") 2
       [TCStr (list_ascii_of_string "abc"); TI32 123] 100)
    (fun str => str = list_ascii_of_string "abc 123").
Proof.
  apply (string_overload_returns_render (RT := sample_runtime) default_context
           (list_ascii_of_string "%v %v") 2
           [TCStr (list_ascii_of_string "abc"); TI32 123] 100
           (list_ascii_of_string "abc 123")).
  - lia.
  - simpl; lia.
  - reflexivity.
  - simpl; lia.
  - vm_compute. reflexivity.
  - simpl; lia.
Defined.

(** A string of [MaxOutputSize] characters or more does not come back
    whole from the [std::string] overload: the conversion loop gives up at
    [MaxOutputSize] bytes (2^20) and the text is cut there, without a sign
    of it. *)
Theorem string_overload_cuts_long_string `{RT : Runtime} (cx : context)
    (lit1 lit2 : list ascii) (c : ascii) (s : list ascii) (fuel : nat) :
  Forall (fun c => c <> "%" /\ c <> NUL) lit1 ->
  Forall (fun c => c <> "%" /\ c <> NUL) lit2 ->
  is_conversion_letter c = true -> one_of c ["n"; "q"; "Q"] = false ->
  MaxOutputSize <= strlen s < 2 ^ 31 ->
  max_alloc < 2 ^ 62 ->
  Z.of_nat (length (lit1 ++ "%" :: c :: lit2)) < 2 ^ 62 ->
  (2 * length (lit1 ++ "%" :: c :: lit2) + 25 <= fuel)%nat ->
  ensures memory_only
    (fmt_core_string cx (lit1 ++ "%" :: c :: lit2) 1 [TCStr s] fuel)
    (fun str => str = lit1 ++ take (Z.to_nat MaxOutputSize) (c_str s) ++ lit2).
Proof.
  intros H1 H2 Hletter Hnot Hlen Halloc Hfmt Hfuel.
  apply fmt_core_string_render_spec; try done; try lia.
  all: try (cbn [length]; lia).
  change (take (Z.to_nat 1) [TCStr s]) with [TCStr s].
  apply render_one_directive; try done.
  replace MaxOutputSize with (64 * 2 ^ Z.of_nat 14) at 1 by reflexivity.
  apply (converted_string_cut cx s ltac:(lia) c 14 22 64); try lia.
  - unfold MaxOutputSize. change (2 ^ Z.of_nat 14) with 16384. lia.
  - intros _. unfold MaxOutputSize. change (2 ^ Z.of_nat (14 - 1)) with 8192. lia.
  - unfold MaxOutputSize in Hlen. change (2 ^ Z.of_nat 14) with 16384. lia.
Qed.

Lemma strlen_nat_replicate (n : nat) : strlen_nat (replicate n "a") = n.
Proof. induction n as [| n IH]; cbn; [reflexivity | now rewrite IH]. Qed.

Lemma string_overload_cuts_long_string_witness :
  ensures memory_only
    (fmt_core_string (RT := sample_runtime) default_context ([] ++ "%" :: "s" :: []) 1
       [TCStr (replicate (Z.to_nat (MaxOutputSize + 1)) "a")] 100)
    (fun str => str = [] ++ take (Z.to_nat MaxOutputSize)
                            (c_str (replicate (Z.to_nat (MaxOutputSize + 1)) "a")) ++ []).
Proof.
  apply (string_overload_cuts_long_string (RT := sample_runtime) default_context
           [] [] "s" (replicate (Z.to_nat (MaxOutputSize + 1)) "a") 100).
  - constructor.
  - constructor.
  - reflexivity.
  - reflexivity.
  - unfold strlen. rewrite strlen_nat_replicate. unfold MaxOutputSize. lia.
  - reflexivity.
  - simpl; lia.
  - simpl; lia.
Defined.
(** ** What the scanner does to the heap *)

Section Preserved.
Context `{RT : Runtime}.
Variable cx : context.
Variable fmt : list ascii.
Variable nargs : Z.
Variable args : list fmtarg.
Variable staticbuf_size : Z.
Variable P : StackBuffer * memory -> Prop.
Hypothesis P_Reserve : forall bytes s s', Reserve bytes s = Ok s' -> P s -> P s'.
Hypothesis P_store : forall sb sb' m off data,
  Buffer sb' = Buffer sb -> OwnBuffer sb' = OwnBuffer sb ->
  P (sb, m) -> P (sb', store m (Buffer sb) off data).
Hypothesis P_at : forall sb sb' m,
  Buffer sb' = Buffer sb -> OwnBuffer sb' = OwnBuffer sb -> P (sb, m) -> P (sb', m).

Lemma AddUninitialized_preserves bytes s r :
  AddUninitialized bytes s = Ok r -> P s -> P (snd r).
Proof.
  unfold AddUninitialized. intros E Hs.
  apply outcome_bind_Ok in E as ([sb m] & Eres & E).
  apply P_Reserve in Eres; [| exact Hs]. injection E as <-.
  apply (P_at sb); [reflexivity | reflexivity | exact Eres].
Qed.

Lemma Add_preserves c s s' : Add c s = Ok s' -> P s -> P s'.
Proof.
  unfold Add. intros E Hs.
  apply outcome_bind_Ok in E as ([p [sb m]] & Eadd & E).
  apply AddUninitialized_preserves in Eadd; [| exact Hs]. injection E as <-.
  apply P_store; [reflexivity | reflexivity | exact Eadd].
Qed.

Lemma MoveCurrentPos_preserves bytes sb sb' m :
  MoveCurrentPos bytes sb = Ok sb' -> P (sb, m) -> P (sb', m).
Proof.
  unfold MoveCurrentPos. cbn [Pos Capacity].
  destruct (_ <=? _); [| discriminate]. intros [= <-].
  apply P_at; reflexivity.
Qed.

Lemma add_token_preserves passes : forall j s s',
  add_token fmt passes j s = Ok s' -> P s -> P s'.
Proof.
  induction passes as [| passes IH]; intros j s s'; cbn [add_token].
  - intros [= <-]. done.
  - intros E Hs. apply outcome_bind_Ok in E as (s1 & Eadd & E).
    apply (IH _ _ _ E). apply (Add_preserves _ _ _ Eadd Hs).
Qed.

Lemma copy_literal_preserves passes : forall stopAt i s,
  P s -> P (snd (copy_literal fmt passes stopAt i s)).
Proof.
  induction passes as [| passes IH]; intros stopAt i [sb m] Hs; cbn [copy_literal]; [exact Hs |].
  destruct (_ && _); [| exact Hs]. apply IH.
  apply P_store; [reflexivity | reflexivity | exact Hs].
Qed.

Lemma conversion_loop_preserves fuel :
  forall is_q is_Q fmt_type argbuf argbufsize arg outputSize s s',
  conversion_loop cx fuel is_q is_Q fmt_type argbuf argbufsize arg outputSize s = Ok s' ->
  P s -> P s'.
Proof.
  induction fuel as [| fuel IH];
    intros is_q is_Q fmt_type argbuf argbufsize arg outputSize s s';
    cbn [conversion_loop]; [discriminate |].
  intros E Hs.
  apply outcome_bind_Ok in E as ([outbuf [sb m]] & Eadd & E).
  apply AddUninitialized_preserves in Eadd; [| exact Hs]. cbn [fst snd] in Eadd.
  apply outcome_bind_Ok in E as ([cells [stored written]] & _ & E).
  assert (Hst : P (sb, store m (Buffer sb) outbuf stored))
    by (apply P_store; [reflexivity | reflexivity | exact Eadd]).
  destruct (_ && _).
  { apply outcome_bind_Ok in E as (sb1 & Emove & E). injection E as <-.
    apply (MoveCurrentPos_preserves _ _ _ _ Emove Hst). }
  destruct (MaxOutputSize <=? outputSize).
  { injection E as <-. exact Hst. }
  apply outcome_bind_Ok in E as (sb1 & Emove & E).
  apply (IH _ _ _ _ _ _ _ _ _ E). apply (MoveCurrentPos_preserves _ _ _ _ Emove Hst).
Qed.

Lemma retry_preserves fuel : forall is_q is_Q fmt_type argbuf arg outputSize s s',
  retry cx fuel is_q is_Q fmt_type argbuf arg outputSize s = Ok s' -> P s -> P s'.
Proof.
  intros is_q is_Q fmt_type argbuf arg outputSize s s'. apply conversion_loop_preserves.
Qed.

Lemma body_preserves fuel st r :
  body cx fmt nargs args staticbuf_size fuel st = Ok r ->
  P (output st, heap st) -> P (output (snd r), heap (snd r)).
Proof.
  unfold body. intros E Hs.
  destruct (negb (tokenstart st =? -1)).
  - destruct (is_conversion_letter _).
    + destruct (_ || _).
      * apply outcome_bind_Ok in E as ([sb m] & Etok & E). injection E as <-.
        apply (add_token_preserves _ _ _ _ Etok Hs).
      * apply outcome_bind_Ok in E as ([sb m] & Etry & E). injection E as <-.
        apply (retry_preserves _ _ _ _ _ _ _ _ _ Etry Hs).
    + destruct (is_char _ "%").
      * apply outcome_bind_Ok in E as ([sb m] & Eadd & E). injection E as <-.
        apply (Add_preserves _ _ _ Eadd Hs).
      * injection E as <-. exact Hs.
  - pose proof (copy_literal_preserves
                  (Z.to_nat (cast ssize_t (cast size_t (cur st + RemainingSpace (output st)))
                             - cur st))
                  (cast ssize_t (cast size_t (cur st + RemainingSpace (output st))))
                  (cur st) (output st, heap st) Hs) as Hcopy.
    destruct (copy_literal _ _ _ _ _) as [i [sb m]]. cbn [fst snd] in Hcopy.
    destruct (is_char _ "%"); [injection E as <-; exact Hcopy |].
    destruct (is_char _ NUL); [injection E as <-; exact Hcopy |].
    apply outcome_bind_Ok in E as ([sb1 m1] & Eres & E). injection E as <-.
    apply (P_Reserve _ _ _ Eres Hcopy).
Qed.

Lemma scan_preserves fuel : forall st st',
  scan cx fmt nargs args staticbuf_size fuel st = Ok st' ->
  P (output st, heap st) -> P (output st', heap st').
Proof.
  induction fuel as [| fuel IH]; intros st st'; cbn [scan]; [discriminate |].
  destruct (is_char _ NUL); [intros [= <-]; done |].
  intros E Hs. apply outcome_bind_Ok in E as ([stop st1] & Ebody & E).
  apply body_preserves in Ebody; [| exact Hs]. cbn [snd] in Ebody.
  destruct stop; [injection E as <-; exact Ebody |].
  apply (IH _ _ E). exact Ebody.
Qed.

End Preserved.
Section Ownership.
Context `{RT : Runtime}.
Variable m0 : memory.

Lemma owned_at sb sb' m :
  Buffer sb' = Buffer sb -> OwnBuffer sb' = OwnBuffer sb ->
  owned m0 (sb, m) -> owned m0 (sb', m).
Proof.
  intros Eb Eo [Hf Hb Hbuf Hrel]. cbn [fst snd] in *.
  split; cbn [fst snd]; try done. now rewrite Eb, Eo.
Qed.

Lemma owned_store sb sb' m off data :
  Buffer sb' = Buffer sb -> OwnBuffer sb' = OwnBuffer sb ->
  owned m0 (sb, m) -> owned m0 (sb', store m (Buffer sb) off data).
Proof.
  intros Eb Eo [Hf Hb Hbuf (freed & Erel & Hnd & Hall)]. cbn [fst snd] in *.
  split; cbn [fst snd].
  - now apply heap_fresh_store.
  - now rewrite next_block_store.
  - rewrite Eb, Eo. destruct (Buffer sb) as [| b]; [exact Hbuf |].
    destruct Hbuf as (Hown & Hlo & Hlive & Hdel). cbn [store heap_mem].
    split; [exact Hown |]. split; [exact Hlo |].
    split; [now apply lookup_alter_is_Some |]. now rewrite delete_alter_eq.
  - exists freed. rewrite released_store, next_block_store.
    split; [exact Erel |]. split; [exact Hnd |].
    eapply Forall_impl; [exact Hall |]. intros c (Hc & Hdead). split; [exact Hc |].
    destruct (Buffer sb) as [| b]; [exact Hdead |].
    cbn [store heap_mem]. now apply lookup_alter_None.
Qed.

Lemma owned_Reserve bytes s s' :
  Reserve bytes s = Ok s' -> owned m0 s -> owned m0 s'.
Proof.
  destruct s as [sb m]. unfold Reserve.
  destruct (Capacity sb <? cast size_t (Pos sb + bytes)); [| intros [= <-]; done].
  intros E. apply outcome_bind_Ok in E as ([nbuf m1] & Enew & E).
  unfold new_array in Enew. destruct (_ <=? max_alloc); [| discriminate].
  injection Enew as <- <-. injection E as <-.
  intros [Hf Hb Hbuf (freed & Erel & Hnd & Hall)]. cbn [fst snd] in *.
  set (nb := next_block m) in *.
  assert (Hnb : heap_mem m !! nb = None) by (apply Hf; lia).
  match goal with
  | |- owned _ (_, if _ then delete_array ?M _ else _) => set (m2 := M)
  end.
  assert (Hheap2 : exists f x, heap_mem m2 = alter f nb (<[nb := x]> (heap_mem m)))
    by (eexists _, _; reflexivity).
  destruct Hheap2 as (g & cells0 & Hheap2).
  assert (Hf2 : heap_fresh m2).
  { intros c Hc. assert (Hc' : (S nb <= c)%nat) by exact Hc.
    rewrite Hheap2. apply lookup_alter_None. rewrite lookup_insert_ne by lia.
    apply Hf. lia. }
  assert (Hlive2 : is_Some (heap_mem m2 !! nb)).
  { rewrite Hheap2. apply lookup_alter_is_Some. rewrite lookup_insert_eq. eauto. }
  assert (Hdel2 : delete nb (heap_mem m2) = heap_mem m).
  { rewrite Hheap2, delete_alter_eq, delete_insert_eq. now apply delete_id. }
  assert (Hother : forall c, c <> nb -> heap_mem m2 !! c = heap_mem m !! c).
  { intros c Hc. rewrite Hheap2, lookup_alter_ne, lookup_insert_ne by done. reflexivity. }
  assert (Hnext2 : next_block m2 = S nb) by reflexivity.
  assert (Hrel2 : released m2 = released m) by reflexivity.
  clearbody m2. clear Hheap2.
  destruct (Buffer sb) as [| b] eqn:Ebuf.
  - destruct Hbuf as (Hown & Hheap). rewrite Hown.
    split; cbn [fst snd Buffer OwnBuffer].
    + exact Hf2.
    + lia.
    + split; [reflexivity |]. split; [lia |]. split; [exact Hlive2 |]. now rewrite Hdel2.
    + exists freed. rewrite Hrel2, Hnext2. split; [exact Erel |]. split; [exact Hnd |].
      eapply Forall_impl; [exact Hall |]. intros c (Hc & Hdead).
      split; [lia |]. rewrite Hother by lia. exact Hdead.
  - destruct Hbuf as (Hown & Hlo & Hlive & Hdel). rewrite Hown.
    assert (Hbnb : b <> nb).
    { intros ->. destruct Hlive as [y Hy]. congruence. }
    assert (Hblt : (b < nb)%nat).
    { destruct (Nat.lt_ge_cases b nb) as [| Hge]; [done |].
      destruct Hlive as [y Hy]. rewrite (Hf b Hge) in Hy. discriminate. }
    split; cbn [fst snd Buffer OwnBuffer delete_array heap_mem next_block released].
    + intros c Hc. assert (Hc' : (S nb <= c)%nat) by (rewrite <- Hnext2; exact Hc).
      cbn [delete_array heap_mem]. rewrite lookup_delete_ne by lia. apply Hf2. lia.
    + lia.
    + split; [reflexivity |]. split; [lia |].
      split; [now rewrite lookup_delete_ne by done |].
      rewrite delete_delete, Hdel2. exact Hdel.
    + exists (b :: freed). rewrite Hrel2, Hnext2. split; [cbn; now rewrite Erel |].
      split.
      * constructor; [| exact Hnd]. intros Hin.
        rewrite List.Forall_forall in Hall. destruct (Hall b) as (_ & Hdead).
        { now apply list_elem_of_In. }
        destruct Hlive as [y Hy]. congruence.
      * constructor.
        -- split; [lia | apply lookup_delete_eq].
        -- eapply Forall_impl; [exact Hall |]. intros c (Hc & Hdead).
           split; [lia |].
           destruct (decide (c = b)) as [-> | Hne]; [apply lookup_delete_eq |].
           rewrite lookup_delete_ne by done. rewrite Hother by lia. exact Hdead.
Qed.

End Ownership.
Lemma fmt_core_owned_spec `{RT : Runtime} (cx : context) (fmt : list ascii) (nargs : Z)
    (args : list fmtarg) (staticbuf_size : Z) (fuel : nat) (m : memory) :
  heap_fresh m ->
  ensures any_fault (fmt_core cx fmt nargs args staticbuf_size fuel m)
    (fun r =>
       (exists freed : list nat,
          released (snd r) = map Heap freed ++ released m
          /\ NoDup freed
          /\ Forall (fun b => (next_block m <= b)%nat /\ Heap b <> Str (fst r)) freed)
       /\ match Str (fst r) with
          | Static => heap_mem (snd r) = heap_mem m
          | Heap b =>
              heap_mem m !! b = None
              /\ is_Some (heap_mem (snd r) !! b)
              /\ heap_mem (delete_array (snd r) (Heap b)) = heap_mem m
          end).
Proof.
  intros Hfresh. unfold fmt_core.
  assert (Hfinal : forall s : StackBuffer * memory, owned m s ->
    (exists freed : list nat,
       released (snd s) = map Heap freed ++ released m
       /\ NoDup freed
       /\ Forall (fun b => (next_block m <= b)%nat /\ Heap b <> Buffer (fst s)) freed)
    /\ match Buffer (fst s) with
       | Static => heap_mem (snd s) = heap_mem m
       | Heap b =>
           heap_mem m !! b = None
           /\ is_Some (heap_mem (snd s) !! b)
           /\ heap_mem (delete_array (snd s) (Heap b)) = heap_mem m
       end).
  { intros [sb m1] [Hf Hb Hbuf (freed & Erel & Hnd & Hall)]. cbn [fst snd] in *. split.
    - exists freed. split; [exact Erel |]. split; [exact Hnd |].
      eapply Forall_impl; [exact Hall |]. intros c (Hc & Hdead). split; [lia |].
      intros E. rewrite <- E in Hbuf. destruct Hbuf as (_ & _ & [y Hy] & _). congruence.
    - destruct (Buffer sb) as [| b]; [apply Hbuf |].
      destruct Hbuf as (_ & Hlo & Hlive & Hdel).
      split; [apply Hfresh; lia |]. split; [exact Hlive | exact Hdel]. }
  destruct (nargs =? 0).
  - destruct (_ && _); cbn [ensures fst snd Str].
    + split; [| reflexivity]. exists []. repeat split; constructor.
    + unfold new_array. destruct (_ <=? max_alloc); [| reflexivity].
      cbn [mbind outcome_bind ensures fst snd Str].
      assert (Hnb : heap_mem m !! next_block m = None) by (apply Hfresh; lia).
      split; [exists []; repeat split; constructor |].
      split; [exact Hnb |]. cbn [store heap_mem delete_array]. split.
      * apply lookup_alter_is_Some. rewrite lookup_insert_eq. eauto.
      * rewrite delete_alter_eq, delete_insert_eq. now apply delete_id.
  - destruct (scan cx fmt nargs args staticbuf_size fuel (initial_state staticbuf_size m))
      as [st | f] eqn:Escan; [| reflexivity].
    cbn [mbind outcome_bind].
    destruct (Add NUL (output st, heap st)) as [[sb m1] | f] eqn:Eadd; [| reflexivity].
    cbn [mbind outcome_bind ensures fst snd Str].
    apply (Hfinal (sb, m1)).
    apply (Add_preserves (owned m) (owned_Reserve m) (owned_store m) (owned_at m) _ _ _ Eadd).
    apply (scan_preserves cx fmt nargs args staticbuf_size (owned m)
             (owned_Reserve m) (owned_store m) (owned_at m) _ _ _ Escan).
    split; cbn; try done.
    exists []. repeat split; constructor.
Qed.

(** What [fmt_core] does to the heap, on every input from which it
    returns (a run that stores behind the sixteen cells of [argbuf] ends
    there and is not among them): it passes to [delete[]] only arrays that it allocated itself,
    each of them once, and never the caller's buffer or the array it
    returns; and the arrays that are live afterwards are those that were
    live before, together with the returned one when that is not the
    caller's buffer.  So a caller who deletes the returned array in that
    case, as the [std::string] overload does, leaves the heap as it was. *)
Theorem fmt_core_owns_what_it_returns `{RT : Runtime} (cx : context) (fmt : list ascii)
    (nargs : Z) (args : list fmtarg) (staticbuf_size : Z) (fuel : nat) (m : memory) :
  heap_fresh m ->
  ensures any_fault (fmt_core cx fmt nargs args staticbuf_size fuel m)
    (fun r =>
       (exists freed : list nat,
          released (snd r) = map Heap freed ++ released m
          /\ NoDup freed
          /\ Forall (fun b => (next_block m <= b)%nat /\ Heap b <> Str (fst r)) freed)
       /\ match Str (fst r) with
          | Static => heap_mem (snd r) = heap_mem m
          | Heap b =>
              heap_mem m !! b = None
              /\ is_Some (heap_mem (snd r) !! b)
              /\ heap_mem (delete_array (snd r) (Heap b)) = heap_mem m
          end).
Proof. apply fmt_core_owned_spec. Qed.

Lemma fmt_core_owns_what_it_returns_witness :
  ensures any_fault
    (fmt_core (RT := sample_runtime) default_context (list_ascii_of_string "%s, %s") 2
       [TCStr (list_ascii_of_string "a first string");
        TCStr (list_ascii_of_string "and a second one that is longer")]
       4 100 (fresh_memory 4))
    (fun r =>
       (exists freed : list nat,
          released (snd r) = map Heap freed ++ released (fresh_memory 4)
          /\ NoDup freed
          /\ Forall (fun b => (next_block (fresh_memory 4) <= b)%nat
                              /\ Heap b <> Str (fst r)) freed)
       /\ match Str (fst r) with
          | Static => heap_mem (snd r) = heap_mem (fresh_memory 4)
          | Heap b =>
              heap_mem (fresh_memory 4) !! b = None
              /\ is_Some (heap_mem (snd r) !! b)
              /\ heap_mem (delete_array (snd r) (Heap b)) = heap_mem (fresh_memory 4)
          end).
Proof.
  apply (fmt_core_owns_what_it_returns (RT := sample_runtime) default_context
           (list_ascii_of_string "%s, %s") 2
           [TCStr (list_ascii_of_string "a first string");
            TCStr (list_ascii_of_string "and a second one that is longer")]
           4 100 (fresh_memory 4)).
  apply heap_fresh_fresh_memory.
Defined.
(** ** The cross-platform [snprintf] *)

(** [fmt_snprintf] keeps what [vsnprintf] stored and returns its count when
    that is at least 0 and less than [count], and -1 in every other case:
    the result is -1 or one of 0, ..., [count - 1], as [tsf.h] says, and a
    destination of no bytes always gives -1. *)
Theorem fmt_snprintf_result `{RT : Runtime} (count : Z) (format_str : list ascii)
    (v : va_value) :
  in_range int (snd (vsnprintf count (c_str format_str) v)) ->
  fst (fmt_snprintf count format_str v) = fst (vsnprintf count (c_str format_str) v)
  /\ snd (fmt_snprintf count format_str v)
     = (if (0 <=? snd (vsnprintf count (c_str format_str) v))
           && (snd (vsnprintf count (c_str format_str) v) <? count)
        then snd (vsnprintf count (c_str format_str) v) else -1)
  /\ (snd (fmt_snprintf count format_str v) = -1
      \/ 0 <= snd (fmt_snprintf count format_str v) < count).
Proof.
  intros Hr. unfold fmt_snprintf, fmt_translate_snprintf_return_value.
  destruct (vsnprintf count (c_str format_str) v) as [stored r]. cbn [fst snd] in *.
  unfold in_range, int, int32_t in Hr. cbn [is_signed width] in Hr.
  split; [reflexivity |].
  destruct (Z.ltb_spec r 0) as [Hneg | Hpos]; cbn [orb].
  - destruct (Z.leb_spec 0 r); [lia |]. cbn [andb]. split; [reflexivity | left; reflexivity].
  - rewrite cast_size_t by lia.
    destruct (Z.leb_spec 0 r); [| lia]. cbn [andb].
    destruct (Z.leb_spec count r); destruct (Z.ltb_spec r count); lia.
Qed.

Lemma fmt_snprintf_result_witness :
  fst (fmt_snprintf (RT := sample_runtime) 3 (list_ascii_of_string "%d") (va_int 12345))
  = fst (vsnprintf (Runtime := sample_runtime) 3 (c_str (list_ascii_of_string "%d"))
           (va_int 12345))
  /\ snd (fmt_snprintf (RT := sample_runtime) 3 (list_ascii_of_string "%d") (va_int 12345))
     = (if (0 <=? snd (vsnprintf (Runtime := sample_runtime) 3
                         (c_str (list_ascii_of_string "%d")) (va_int 12345)))
           && (snd (vsnprintf (Runtime := sample_runtime) 3
                      (c_str (list_ascii_of_string "%d")) (va_int 12345)) <? 3)
        then snd (vsnprintf (Runtime := sample_runtime) 3
                    (c_str (list_ascii_of_string "%d")) (va_int 12345))
        else -1)
  /\ (snd (fmt_snprintf (RT := sample_runtime) 3 (list_ascii_of_string "%d") (va_int 12345))
      = -1
      \/ 0 <= snd (fmt_snprintf (RT := sample_runtime) 3 (list_ascii_of_string "%d")
                     (va_int 12345)) < 3).
Proof.
  apply (fmt_snprintf_result (RT := sample_runtime) 3 (list_ascii_of_string "%d")
           (va_int 12345)).
  vm_compute. split; [discriminate | reflexivity].
Defined.
(** ** The templates of [tsf.h] *)

Lemma fmt_pack_spec : forall (args pack_array : list fmtarg) (k : nat),
  (k + length args <= length pack_array)%nat ->
  fmt_pack pack_array k args
  = take k pack_array ++ args ++ drop (k + length args) pack_array.
Proof.
  induction args as [| arg args IH]; intros pack_array k Hk; cbn [fmt_pack length] in *.
  - rewrite Nat.add_0_r. cbn [app]. now rewrite take_drop.
  - rewrite IH by (rewrite length_insert; lia).
    rewrite take_S_r with (x := arg) by (apply list_lookup_insert_eq; lia).
    rewrite take_insert_ge by lia.
    rewrite drop_insert_lt by lia.
    rewrite <- app_assoc. cbn [app]. replace (S k + length args)%nat with (k + S (length args))%nat by lia. reflexivity.
Qed.

Lemma packed_spec (args : list fmtarg) : packed args = args ++ [TNull].
Proof.
  unfold packed. rewrite fmt_pack_spec by (rewrite length_replicate; lia).
  rewrite take_0. cbn [app Nat.add]. f_equal.
  rewrite drop_replicate. replace (length args + 1 - length args)%nat with 1%nat by lia.
  reflexivity.
Qed.

Lemma fmt_render_spec `{RT : Runtime} (fs : list ascii) (args : list fmtarg) (fuel : nat)
    (out : list ascii) :
  args <> [] ->
  max_alloc < 2 ^ 62 ->
  Z.of_nat (length fs) < 2 ^ 62 -> Z.of_nat (length args) < 2 ^ 62 ->
  render default_context 64 fs None args = Some out ->
  (2 * length fs + 25 <= fuel)%nat ->
  ensures memory_only (fmt fs args fuel) (fun str => str = out).
Proof.
  intros Hargs Halloc Hfs Hn Hrender Hfuel. unfold fmt. cbv zeta.
  rewrite cast_ssize_t by lia. rewrite packed_spec.
  apply fmt_core_string_render_spec; try done.
  - destruct args; [done | cbn [length]; lia].
  - rewrite length_app. cbn [length]. lia.
  - rewrite Nat2Z.id, take_app_length. exact Hrender.
Qed.

(** [tsf::fmt] with at least one argument hands the arguments over in
    their order, with their number, and returns the text that the
    reference formatter gives for them at a first guess of 64 bytes,
    unless an allocation fails.  The reference gives no text for a
    directive that overruns [argbuf], nor for one that loses its length
    modifier and does not fit the 64 bytes. *)
Theorem fmt_returns_render `{RT : Runtime} (fs : list ascii) (args : list fmtarg)
    (fuel : nat) (out : list ascii) :
  args <> [] ->
  max_alloc < 2 ^ 62 ->
  Z.of_nat (length fs) < 2 ^ 62 -> Z.of_nat (length args) < 2 ^ 62 ->
  render default_context 64 fs None args = Some out ->
  (2 * length fs + 25 <= fuel)%nat ->
  ensures memory_only (fmt fs args fuel) (fun str => str = out).
Proof. apply fmt_render_spec. Qed.

Lemma fmt_returns_render_witness :
  ensures memory_only
    (fmt (RT := sample_runtime) (list_ascii_of_string "%s %d")
       [TCStr (list_ascii_of_string "abc"); TI32 123] 100)
    (fun str => str = list_ascii_of_string "abc 123").
Proof.
  apply (fmt_returns_render (RT := sample_runtime) (list_ascii_of_string "%s %d")
           [TCStr (list_ascii_of_string "abc"); TI32 123] 100
           (list_ascii_of_string "abc 123")).
  - discriminate.
  - reflexivity.
  - simpl; lia.
  - simpl; lia.
  - vm_compute. reflexivity.
  - simpl; lia.
Defined.

Lemma fmt_without_arguments_spec `{RT : Runtime} (fs : list ascii) (fuel : nat) :
  ~ In NUL fs -> Z.of_nat (length fs) < 256 ->
  exists m, fmt fs [] fuel = str ← std_string m fs (Z.of_nat (length fs)); Ok str.
Proof.
  intros Hnul Hlen. unfold fmt, fmt_core_string, fmt_core, packed. cbv zeta.
  change (cast ssize_t (Z.of_nat (length (@nil fmtarg)))) with 0.
  change (0 =? 0) with true. cbn match.
  unfold strlen. rewrite strlen_nat_no_NUL, c_str_no_NUL by exact Hnul.
  change (negb (256 =? 0)) with true. change (cast size_t (256 + 1)) with 257.
  destruct (Z.leb_spec (Z.of_nat (length fs)) 257); [| lia].
  cbn [andb mbind outcome_bind Str Len load store static_mem pointer_eqb negb].
  rewrite Nat2Z.id.
  replace (take (length fs) (poke (replicate (Z.to_nat 256) uninit) 0 (fs ++ [NUL])))
    with (take (length fs) (take (length (fs ++ [NUL]))
                              (poke (replicate (Z.to_nat 256) uninit) 0 (fs ++ [NUL]))))
    by (rewrite take_take, length_app; f_equal; cbn [length]; lia).
  rewrite take_poke_front, take_app_length.
  eexists. reflexivity.
Qed.

(** [tsf::fmt] without arguments returns the format string as it stands:
    no directive is looked at, so a doubled percent sign stays doubled
    (with an argument it would become one).  The format string is short
    enough for the 256 bytes of the overload's frame.  The string that is
    returned may fail to allocate; up to fifteen characters it cannot. *)
Theorem fmt_without_arguments `{RT : Runtime} (fs : list ascii) (fuel : nat) :
  ~ In NUL fs -> Z.of_nat (length fs) < 256 ->
  ensures memory_only (fmt fs [] fuel) (fun str => str = fs)
  /\ (Z.of_nat (length fs) <= 15 -> fmt fs [] fuel = Ok fs).
Proof.
  intros Hnul Hlen.
  destruct (fmt_without_arguments_spec fs fuel Hnul Hlen) as (m & ->).
  destruct (std_string_spec m fs (Z.of_nat (length fs))) as (Hany & Hshort). split.
  - eapply ensures_bind; [exact Hany |]. intros str ->. reflexivity.
  - intros Hfit. now rewrite (Hshort Hfit).
Qed.

Lemma fmt_without_arguments_witness :
  ensures memory_only
    (fmt (RT := sample_runtime) (list_ascii_of_string "100%% sure") [] 0)
    (fun str => str = list_ascii_of_string "100%% sure")
  /\ (Z.of_nat (length (list_ascii_of_string "100%% sure")) <= 15 ->
      fmt (RT := sample_runtime) (list_ascii_of_string "100%% sure") [] 0
      = Ok (list_ascii_of_string "100%% sure")).
Proof.
  apply (fmt_without_arguments (RT := sample_runtime) (list_ascii_of_string "100%% sure") 0).
  - simpl. intros H. repeat (destruct H as [H | H]; [discriminate H |]). exact H.
  - simpl; lia.
Defined.
(* ===================================================================== *)
(** * Part III. Properties of the desktop duplication wrapper *)
(* ===================================================================== *)

(** ** The bitmap of a capture *)

Lemma poke_bytes_inside (cells data : list Byte.byte) (off : Z) :
  (Z.to_nat off + length data <= length cells)%nat ->
  poke_bytes cells off data
  = take (Z.to_nat off) cells ++ data ++ drop (Z.to_nat off + length data) cells.
Proof.
  intros H. unfold poke_bytes.
  replace (Z.to_nat off - length cells)%nat with O by lia. reflexivity.
Qed.

Lemma length_mapped_bytes (reply : frame_reply) (from n : Z) :
  length (mapped_bytes reply from n) = Z.to_nat n.
Proof. unfold mapped_bytes. now rewrite length_map, length_seq. Qed.

Lemma length_resize (throws : bool) (n : Z) (v buf : list Byte.byte) :
  resize throws n v = Ok buf -> length buf = Z.to_nat n.
Proof.
  unfold resize. destruct (_ && _); [discriminate |]. intros [= <-].
  rewrite length_app, length_take, length_replicate. lia.
Qed.

Lemma cast_uint32_t (z : Z) : 0 <= z < 2 ^ 32 -> cast uint32_t z = z.
Proof. intros H. apply Z.mod_small. exact H. Qed.

Lemma cast_int32_t (z : Z) : - 2 ^ 31 <= z < 2 ^ 31 -> cast int32_t z = z.
Proof. intros H. apply (wrap_signed_in_range 32); lia. Qed.

Section Frame.
Variable reply : frame_reply.
Let W := desc_Width reply.
Let H := desc_Height reply.
Hypothesis W_range : 0 <= W < 2 ^ 31.
Hypothesis H_range : 0 <= H < 2 ^ 31.
Hypothesis size_range : 4 * W * H < 2 ^ 31.
Hypothesis pitch_range : 0 <= RowPitch reply /\ RowPitch reply * H < 2 ^ 32.

Lemma copy_rows_spec : forall (rows y : nat) (buf : list Byte.byte),
  (y + rows <= Z.to_nat H)%nat ->
  Z.of_nat (length buf) = 4 * W * H ->
  copy_rows reply rows (Z.of_nat y) buf
  = take (Z.to_nat (4 * W) * y) buf
    ++ concat (map (fun y => mapped_bytes reply (RowPitch reply * Z.of_nat y) (4 * W))
                 (seq y rows))
    ++ drop (Z.to_nat (4 * W) * (y + rows)) buf.
Proof.
  induction rows as [| rows IH]; intros y buf Hy Hlen.
  - cbn [copy_rows seq map concat app]. rewrite Nat.add_0_r. now rewrite take_drop.
  - cbn [copy_rows seq map concat]. fold W.
    assert (Hy1 : Z.of_nat y + 1 <= H) by lia.
    assert (HyW : 0 <= Z.of_nat y * W /\ 4 * (Z.of_nat y * W) + 4 * W <= 4 * W * H) by nia.
    assert (Hp : 0 <= RowPitch reply * Z.of_nat y < 2 ^ 32) by nia.
    rewrite (cast_uint32_t (Z.of_nat y)) by lia.
    rewrite (cast_uint32_t (Z.of_nat y * W)) by lia.
    rewrite (cast_uint32_t (Z.of_nat y * W * 4)) by lia.
    rewrite (cast_uint32_t (RowPitch reply * Z.of_nat y)) by lia.
    rewrite (cast_uint32_t (W * 4)) by lia.
    rewrite (cast_int32_t (Z.of_nat y + 1)) by lia.
    replace (W * 4) with (4 * W) by lia.
    set (row := mapped_bytes reply (RowPitch reply * Z.of_nat y) (4 * W)).
    assert (Hrow : length row = Z.to_nat (4 * W)) by apply length_mapped_bytes.
    assert (Eoff : Z.to_nat (Z.of_nat y * W * 4) = (Z.to_nat (4 * W) * y)%nat) by nia.
    rewrite poke_bytes_inside by (rewrite Hrow, Eoff; nia).
    rewrite Eoff, Hrow.
    set (w4 := Z.to_nat (4 * W)) in *.
    set (buf' := take (w4 * y) buf ++ row ++ drop (w4 * y + w4) buf).
    assert (Hlen' : length buf' = length buf).
    { unfold buf'. rewrite !length_app, length_take, length_drop. nia. }
    replace (Z.of_nat y + 1) with (Z.of_nat (S y)) by lia.
    rewrite IH by (try lia; rewrite Hlen'; exact Hlen).
    assert (Etake : take (w4 * S y) buf' = take (w4 * y) buf ++ row).
    { unfold buf'. rewrite app_assoc. rewrite take_app_length'; [reflexivity |].
      rewrite length_app, length_take. nia. }
    assert (Edrop : drop (w4 * (S y + rows)) buf' = drop (w4 * (y + S rows)) buf).
    { unfold buf'. rewrite app_assoc. rewrite drop_app_ge by (rewrite length_app, length_take; nia).
      rewrite length_app, length_take, drop_drop. f_equal. nia. }
    rewrite Etake, Edrop, <- !app_assoc. reflexivity.
Qed.

Lemma store_frame_spec (bmp : Bitmap) :
  bitmap_sized bmp ->
  store_frame reply bmp
  = if (Z.of_nat (length (Buf bmp)) <? 4 * W * H) && resize_throws reply
    then Fail BadAlloc
    else Ok {| Width := W; Height := H; Buf := tightly_packed reply |}.
Proof.
  intros (Hw & Hh & Hlen). unfold store_frame. fold W H.
  rewrite (cast_uint32_t (Width bmp)), (cast_uint32_t (Height bmp)) by lia.
  assert (HWH : 0 <= W * H /\ W * H * 4 < 2 ^ 31) by nia.
  rewrite (cast_uint32_t (W * H)), (cast_uint32_t (W * H * 4)) by lia.
  rewrite (cast_size_t (W * H * 4)) by lia.
  rewrite !cast_int32_t by lia.
  assert (Hrows : forall buf, Z.of_nat (length buf) = 4 * W * H ->
            copy_rows reply (Z.to_nat H) 0 buf = tightly_packed reply).
  { intros buf Hbuf. change 0 with (Z.of_nat O).
    rewrite copy_rows_spec by (try lia; exact Hbuf).
    rewrite Nat.mul_0_r, take_0. cbn [app Nat.add].
    rewrite drop_ge by nia. rewrite app_nil_r. reflexivity. }
  replace (4 * W * H) with (W * H * 4) by lia.
  destruct (negb (Width bmp =? W) || negb (Height bmp =? H)) eqn:Edims.
  - destruct (resize (resize_throws reply) (W * H * 4) (Buf bmp)) as [buf | f] eqn:Ebuf.
    + pose proof (length_resize _ _ _ _ Ebuf) as Hbuf.
      unfold resize in Ebuf. destruct (_ && _); [discriminate |].
      cbn [mbind outcome_bind Width Height Buf]. do 2 f_equal. apply Hrows. lia.
    + unfold resize in Ebuf. destruct (_ && _); [| discriminate].
      injection Ebuf as <-. reflexivity.
  - apply orb_false_iff in Edims as [E1 E2].
    apply negb_false_iff in E1, E2. apply Z.eqb_eq in E1, E2.
    destruct (Z.ltb_spec (Z.of_nat (length (Buf bmp))) (W * H * 4)); [nia |].
    cbn [andb mbind outcome_bind]. rewrite E1, E2. do 2 f_equal. apply Hrows.
    rewrite Hlen, E1, E2. reflexivity.
Qed.

End Frame.
Lemma length_tightly_packed (reply : frame_reply) :
  0 <= desc_Width reply -> 0 <= desc_Height reply ->
  Z.of_nat (length (tightly_packed reply)) = 4 * desc_Width reply * desc_Height reply.
Proof.
  intros HW HH. unfold tightly_packed.
  assert (E : forall rows from,
            length (concat (map (fun y => mapped_bytes reply (RowPitch reply * Z.of_nat y)
                                            (4 * desc_Width reply)) (seq from rows)))
            = (rows * Z.to_nat (4 * desc_Width reply))%nat).
  { induction rows as [| rows IH]; intros from; cbn [seq map concat]; [reflexivity |].
    rewrite length_app, length_mapped_bytes, IH. lia. }
  rewrite E. nia.
Qed.

Lemma WAIT_TIMEOUT_failed : DXGI_ERROR_WAIT_TIMEOUT < 0.
Proof. reflexivity. Qed.

(** ** A capture *)

Lemma CaptureNext_frame_spec `{RT : Runtime} (reply : frame_reply) (fuel : nat)
    (self : WinDesktopDup) :
  DeskDupl self = true -> D3DDevice self = true -> D3DDeviceContext self = true ->
  0 <= acquire_next_frame reply -> 0 <= query_texture reply ->
  0 <= create_texture reply -> 0 <= map_subresource reply ->
  0 <= desc_Width reply < 2 ^ 31 -> 0 <= desc_Height reply < 2 ^ 31 ->
  4 * desc_Width reply * desc_Height reply < 2 ^ 31 ->
  0 <= RowPitch reply /\ RowPitch reply * desc_Height reply < 2 ^ 32 ->
  bitmap_sized (Latest self) ->
  CaptureNext reply fuel self
  = if (Z.of_nat (length (Buf (Latest self)))
        <? 4 * desc_Width reply * desc_Height reply)
       && resize_throws reply
    then Fail BadAlloc
    else
      Ok (true,
          {| Latest := {| Width := desc_Width reply; Height := desc_Height reply;
                          Buf := tightly_packed reply |};
             OutputNumber := OutputNumber self;
             D3DDevice := true; D3DDeviceContext := true; DeskDupl := true;
             HaveFrameLock := true |},
          (if HaveFrameLock self then [ReleaseFrame] else [])
          ++ [AcquireNextFrame (acquire_next_frame reply);
              QueryInterface deskRes gpuTex (query_texture reply); Release deskRes;
              GetDesc gpuTex; CreateTexture2D (create_texture reply); CopyResource;
              MapSubresource (map_subresource reply); Unmap;
              Release cpuTex; Release gpuTex]).
Proof.
  intros Hdup Hdev Hctx Hacq Hq Hct Hmap HW HH Hsize Hpitch Hbmp.
  unfold CaptureNext. rewrite Hdup. cbn [negb].
  pose proof WAIT_TIMEOUT_failed as Hto.
  assert (E1 : (acquire_next_frame reply =? DXGI_ERROR_WAIT_TIMEOUT) = false) by lia.
  assert (E2 : FAILED (acquire_next_frame reply) = false) by (unfold FAILED; lia).
  assert (E3 : FAILED (query_texture reply) = false) by (unfold FAILED; lia).
  assert (E4 : SUCCEEDED (create_texture reply) = true) by (unfold SUCCEEDED; lia).
  assert (E5 : SUCCEEDED (map_subresource reply) = true) by (unfold SUCCEEDED; lia).
  destruct (HaveFrameLock self) eqn:Elock;
    rewrite E1, E2; cbn [set_HaveFrameLock D3DDevice D3DDeviceContext Latest OutputNumber
                           DeskDupl HaveFrameLock];
    rewrite E3, Hdev, Hctx, E4; cbn [negb]; rewrite E5;
    cbn [negb set_Latest set_HaveFrameLock D3DDevice
           D3DDeviceContext Latest OutputNumber DeskDupl HaveFrameLock];
    rewrite store_frame_spec by assumption;
    (destruct (_ && resize_throws reply); [reflexivity |]);
    cbn [mbind outcome_bind negb]; unfold set_Latest, set_HaveFrameLock;
    cbn [D3DDevice D3DDeviceContext Latest OutputNumber DeskDupl HaveFrameLock app];
    rewrite Hdup, Hdev, Hctx; reflexivity.
Qed.

(** A capture on an initialised object whose calls all succeed returns
    true, and [Latest] then holds the frame without the padding of the
    mapped rows: [desc.Height] rows of [4 * desc.Width] bytes, row [y]
    taken from [sr.pData + sr.RowPitch * y].  The frame lock is held
    afterwards, a frame held before is released first, and the three
    temporaries are released.  The one way out of this is the vector: when
    it has to grow and the allocator refuses, the capture ends in
    [std::bad_alloc].  The sizes are those of a frame below 2 GiB, and the
    vector had the size of its dimensions before. *)
Theorem capture_stores_packed_bitmap `{RT : Runtime} (reply : frame_reply) (fuel : nat)
    (self : WinDesktopDup) :
  DeskDupl self = true -> D3DDevice self = true -> D3DDeviceContext self = true ->
  0 <= acquire_next_frame reply -> 0 <= query_texture reply ->
  0 <= create_texture reply -> 0 <= map_subresource reply ->
  0 <= desc_Width reply < 2 ^ 31 -> 0 <= desc_Height reply < 2 ^ 31 ->
  4 * desc_Width reply * desc_Height reply < 2 ^ 31 ->
  0 <= RowPitch reply /\ RowPitch reply * desc_Height reply < 2 ^ 32 ->
  bitmap_sized (Latest self) ->
  CaptureNext reply fuel self
  = if (Z.of_nat (length (Buf (Latest self)))
        <? 4 * desc_Width reply * desc_Height reply)
       && resize_throws reply
    then Fail BadAlloc
    else
      Ok (true,
          {| Latest := {| Width := desc_Width reply; Height := desc_Height reply;
                          Buf := tightly_packed reply |};
             OutputNumber := OutputNumber self;
             D3DDevice := true; D3DDeviceContext := true; DeskDupl := true;
             HaveFrameLock := true |},
          (if HaveFrameLock self then [ReleaseFrame] else [])
          ++ [AcquireNextFrame (acquire_next_frame reply);
              QueryInterface deskRes gpuTex (query_texture reply); Release deskRes;
              GetDesc gpuTex; CreateTexture2D (create_texture reply); CopyResource;
              MapSubresource (map_subresource reply); Unmap;
              Release cpuTex; Release gpuTex]).
Proof. apply CaptureNext_frame_spec. Qed.

Lemma capture_stores_packed_bitmap_witness :
  let reply := {| acquire_next_frame := 0; query_texture := 0;
                  desc_Width := 2; desc_Height := 2;
                  create_texture := 0; map_subresource := 0;
                  RowPitch := 16;
                  pData := fun k => if k <? 16 then Byte.x01 else Byte.x02;
                  resize_throws := false |} in
  let self := {| Latest := {| Width := 0; Height := 0; Buf := [] |};
                 OutputNumber := 0;
                 D3DDevice := true; D3DDeviceContext := true; DeskDupl := true;
                 HaveFrameLock := true |} in
  CaptureNext (RT := sample_runtime) reply 0 self
  = Ok (true,
        {| Latest := {| Width := 2; Height := 2;
                        Buf := replicate 8 Byte.x01 ++ replicate 8 Byte.x02 |};
           OutputNumber := 0;
           D3DDevice := true; D3DDeviceContext := true; DeskDupl := true;
           HaveFrameLock := true |},
        [ReleaseFrame; AcquireNextFrame 0; QueryInterface deskRes gpuTex 0;
         Release deskRes; GetDesc gpuTex; CreateTexture2D 0; CopyResource;
         MapSubresource 0; Unmap; Release cpuTex; Release gpuTex]).
Proof.
  intros reply self.
  apply (capture_stores_packed_bitmap (RT := sample_runtime) reply 0 self).
  - reflexivity.
  - reflexivity.
  - reflexivity.
  - simpl; lia.
  - simpl; lia.
  - simpl; lia.
  - simpl; lia.
  - simpl; lia.
  - simpl; lia.
  - simpl; lia.
  - simpl; lia.
  - unfold bitmap_sized. simpl. lia.
Defined.
(** The paths of [CaptureNext]: either test of a result is decided by the
    sign of the result. *)
Lemma FAILED_spec (hr : Z) : FAILED hr = negb (SUCCEEDED hr).
Proof. unfold FAILED, SUCCEEDED. lia. Qed.

Ltac capture_paths :=
  unfold CaptureNext;
  repeat match goal with
    | |- context [FAILED ?hr] => rewrite (FAILED_spec hr)
    end;
  repeat match goal with
    | |- context [SUCCEEDED E_INVALIDARG] =>
        change (SUCCEEDED E_INVALIDARG) with false; cbv iota;
        cbn [negb mbind outcome_bind]
    | |- context [store_frame ?r ?b] =>
        destruct (store_frame r b) eqn:?; cbn [negb mbind outcome_bind]
    | H : ?b = _ |- context [if ?b then _ else _] =>
        rewrite H; cbn [negb mbind outcome_bind]
    | H : ?b = _ |- context [if negb ?b then _ else _] =>
        rewrite H; cbn [negb mbind outcome_bind]
    | |- context [if negb ?b then _ else _] =>
        destruct b eqn:?; cbn [negb mbind outcome_bind]
    | |- context [if ?b then _ else _] =>
        destruct b eqn:?; cbn [negb mbind outcome_bind]
    | |- context [mbind _ ?x] => destruct x eqn:?; cbn [mbind outcome_bind]
    | |- context [outcome_bind ?x _] => destruct x eqn:?; cbn [mbind outcome_bind]
    end.




Lemma CaptureNext_lock_spec `{RT : Runtime} (reply : frame_reply) (fuel : nat)
    (self self' : WinDesktopDup) (ok : bool) (log : list call) :
  DeskDupl self = true ->
  CaptureNext reply fuel self = Ok (ok, self', log) ->
  HaveFrameLock self' = SUCCEEDED (acquire_next_frame reply)
  /\ exists rest,
       log = (if HaveFrameLock self then [ReleaseFrame] else [])
             ++ AcquireNextFrame (acquire_next_frame reply) :: rest
       /\ Forall (fun c => c <> ReleaseFrame /\ forall hr, c <> AcquireNextFrame hr) rest.
Proof.
  intros Hdup. pose proof WAIT_TIMEOUT_failed as Hto.
  capture_paths; intros [= <- <- <-];
    unfold set_Latest, set_HaveFrameLock; cbn [HaveFrameLock];
    repeat match goal with H : HaveFrameLock _ = _ |- _ => rewrite H; clear H end;
    (split; [unfold SUCCEEDED in *; lia |]);
    repeat (rewrite <- app_assoc; cbn [app]);
    eexists; (split; [reflexivity |]);
    repeat constructor; discriminate.
Qed.

(** The frame lock: a capture on an initialised object that returns has
    released the frame held before, if there was one, then asked once for
    the next frame, and made no other call on the frame; afterwards
    [HaveFrameLock] says whether that request succeeded. *)
Theorem capture_keeps_frame_lock `{RT : Runtime} (reply : frame_reply) (fuel : nat)
    (self self' : WinDesktopDup) (ok : bool) (log : list call) :
  DeskDupl self = true ->
  CaptureNext reply fuel self = Ok (ok, self', log) ->
  HaveFrameLock self' = SUCCEEDED (acquire_next_frame reply)
  /\ exists rest,
       log = (if HaveFrameLock self then [ReleaseFrame] else [])
             ++ AcquireNextFrame (acquire_next_frame reply) :: rest
       /\ Forall (fun c => c <> ReleaseFrame /\ forall hr, c <> AcquireNextFrame hr) rest.
Proof. apply CaptureNext_lock_spec. Qed.

Lemma capture_keeps_frame_lock_witness :
  let reply := {| acquire_next_frame := DXGI_ERROR_WAIT_TIMEOUT; query_texture := 0;
                  desc_Width := 2; desc_Height := 2;
                  create_texture := 0; map_subresource := 0;
                  RowPitch := 16; pData := fun _ => Byte.x00; resize_throws := false |} in
  let self := {| Latest := {| Width := 0; Height := 0; Buf := [] |}; OutputNumber := 0;
                 D3DDevice := true; D3DDeviceContext := true; DeskDupl := true;
                 HaveFrameLock := true |} in
  HaveFrameLock (set_HaveFrameLock self false) = SUCCEEDED (acquire_next_frame reply)
  /\ exists rest,
       [ReleaseFrame; AcquireNextFrame DXGI_ERROR_WAIT_TIMEOUT]
       = (if HaveFrameLock self then [ReleaseFrame] else [])
         ++ AcquireNextFrame (acquire_next_frame reply) :: rest
       /\ Forall (fun c => c <> ReleaseFrame /\ forall hr, c <> AcquireNextFrame hr) rest.
Proof.
  intros reply self.
  apply (capture_keeps_frame_lock (RT := sample_runtime) reply 0 self
           (set_HaveFrameLock self false) false
           [ReleaseFrame; AcquireNextFrame DXGI_ERROR_WAIT_TIMEOUT]).
  - reflexivity.
  - reflexivity.
Defined.

Lemma CaptureNext_result_spec `{RT : Runtime} (reply : frame_reply) (fuel : nat)
    (self self' : WinDesktopDup) (ok : bool) (log : list call) :
  CaptureNext reply fuel self = Ok (ok, self', log) ->
  (ok = true ->
     DeskDupl self = true
     /\ 0 <= acquire_next_frame reply /\ 0 <= query_texture reply
     /\ 0 <= create_texture reply /\ 0 <= map_subresource reply
     /\ store_frame reply (Latest self) = Ok (Latest self'))
  /\ (ok = false -> Latest self' = Latest self)
  /\ recorded self' = recorded self /\ OutputNumber self' = OutputNumber self.
Proof.
  capture_paths; intros [= <- <- <-];
    unfold set_Latest, set_HaveFrameLock, recorded in *;
    cbn [Latest OutputNumber D3DDevice D3DDeviceContext DeskDupl] in *;
    (split; [intros [=]; unfold SUCCEEDED in *; repeat split;
                    (lia || reflexivity || assumption || congruence)
            | split; [intros [=]; reflexivity | split; reflexivity]]).
Qed.

(** What the result of a capture says.  True is returned only when the
    object holds a duplication and the four calls [AcquireNextFrame],
    [QueryInterface], [CreateTexture2D] and [Map] succeeded, and [Latest]
    is then the frame that was stored; when false is returned [Latest] is
    what it was.  In either case the pointers and the output number of
    the object stay as they were. *)
Theorem capture_result_meaning `{RT : Runtime} (reply : frame_reply) (fuel : nat)
    (self self' : WinDesktopDup) (ok : bool) (log : list call) :
  CaptureNext reply fuel self = Ok (ok, self', log) ->
  (ok = true ->
     DeskDupl self = true
     /\ 0 <= acquire_next_frame reply /\ 0 <= query_texture reply
     /\ 0 <= create_texture reply /\ 0 <= map_subresource reply
     /\ store_frame reply (Latest self) = Ok (Latest self'))
  /\ (ok = false -> Latest self' = Latest self)
  /\ recorded self' = recorded self /\ OutputNumber self' = OutputNumber self.
Proof. apply CaptureNext_result_spec. Qed.

Lemma capture_result_meaning_witness :
  let reply := {| acquire_next_frame := 0; query_texture := 0;
                  desc_Width := 1; desc_Height := 2;
                  create_texture := 0; map_subresource := -2147024809;
                  RowPitch := 8; pData := fun _ => Byte.x07; resize_throws := false |} in
  let self := {| Latest := {| Width := 1; Height := 1; Buf := replicate 4 Byte.x01 |};
                 OutputNumber := 0;
                 D3DDevice := true; D3DDeviceContext := true; DeskDupl := true;
                 HaveFrameLock := false |} in
  let self' := set_HaveFrameLock self true in
  (false = true ->
     DeskDupl self = true
     /\ 0 <= acquire_next_frame reply /\ 0 <= query_texture reply
     /\ 0 <= create_texture reply /\ 0 <= map_subresource reply
     /\ store_frame reply (Latest self) = Ok (Latest self'))
  /\ (false = false -> Latest self' = Latest self)
  /\ recorded self' = recorded self /\ OutputNumber self' = OutputNumber self.
Proof.
  intros reply self self'.
  apply (capture_result_meaning (RT := sample_runtime) reply 0 self self' false
           [AcquireNextFrame 0; QueryInterface deskRes gpuTex 0; Release deskRes;
            GetDesc gpuTex; CreateTexture2D 0; CopyResource;
            MapSubresource (-2147024809); Release cpuTex; Release gpuTex]).
  reflexivity.
Defined.

(** ** The pointers in flight *)

Lemma track_app (held : list handle) (log1 log2 : list call) :
  track held (log1 ++ log2) = track held log1 ≫= fun held' => track held' log2.
Proof.
  revert held. induction log1 as [| c log1 IH]; intros held; cbn [app track]; [reflexivity |].
  destruct (existsb (is_held held) (acquires c)); [reflexivity |].
  destruct (forallb (is_held held) (releases c)); [apply IH | reflexivity].
Qed.

(** With the signs of the results known, a log is a closed term as far as
    [track] looks at it. *)
Ltac settle_signs :=
  repeat match goal with
    | H : (?hr =? DXGI_ERROR_WAIT_TIMEOUT) = true |- _ =>
        apply Z.eqb_eq in H; rewrite H; clear H
    | H : SUCCEEDED ?hr = _ |- _ =>
        revert H; destruct hr; intros H; try (vm_compute in H; discriminate H); clear H
    end.

Ltac settle_pointers self :=
  unfold recorded, set_Latest, set_HaveFrameLock, set_DeskDupl, set_device;
  cbn [Latest OutputNumber D3DDevice D3DDeviceContext DeskDupl HaveFrameLock];
  repeat match goal with
    | H : D3DDevice self = _ |- _ => rewrite H; clear H
    | H : D3DDeviceContext self = _ |- _ => rewrite H; clear H
    | H : DeskDupl self = _ |- _ => rewrite H; clear H
    end.

Lemma CaptureNext_track_spec `{RT : Runtime} (reply : frame_reply) (fuel : nat)
    (self self' : WinDesktopDup) (ok : bool) (log : list call) :
  CaptureNext reply fuel self = Ok (ok, self', log) ->
  track (recorded self) log = Some (recorded self) /\ recorded self' = recorded self.
Proof.
  capture_paths; intros [= <- <- <-]; settle_signs; settle_pointers self;
    destruct (D3DDevice self), (D3DDeviceContext self), (DeskDupl self);
    vm_compute; split; reflexivity.
Qed.

(** A capture that returns has given back each temporary pointer that it
    was handed ([deskRes], [gpuTex], [cpuTex]) exactly once and has
    neither released nor overwritten a pointer of the object. *)
Theorem capture_releases_its_temporaries `{RT : Runtime} (reply : frame_reply)
    (fuel : nat) (self self' : WinDesktopDup) (ok : bool) (log : list call) :
  CaptureNext reply fuel self = Ok (ok, self', log) ->
  track (recorded self) log = Some (recorded self) /\ recorded self' = recorded self.
Proof. apply CaptureNext_track_spec. Qed.

Lemma capture_releases_its_temporaries_witness :
  let reply := {| acquire_next_frame := 0; query_texture := 0;
                  desc_Width := 1; desc_Height := 2;
                  create_texture := 0; map_subresource := -2147024809;
                  RowPitch := 8; pData := fun _ => Byte.x07; resize_throws := false |} in
  let self := {| Latest := {| Width := 1; Height := 1; Buf := replicate 4 Byte.x01 |};
                 OutputNumber := 0;
                 D3DDevice := true; D3DDeviceContext := true; DeskDupl := true;
                 HaveFrameLock := false |} in
  let log := [AcquireNextFrame 0; QueryInterface deskRes gpuTex 0; Release deskRes;
              GetDesc gpuTex; CreateTexture2D 0; CopyResource;
              MapSubresource (-2147024809); Release cpuTex; Release gpuTex] in
  track (recorded self) log = Some (recorded self)
  /\ recorded (set_HaveFrameLock self true) = recorded self.
Proof.
  intros reply self log.
  apply (capture_releases_its_temporaries (RT := sample_runtime) reply 0 self
           (set_HaveFrameLock self true) false log).
  reflexivity.
Defined.
(** ** Initialisation *)

Ltac initialize_paths :=
  unfold Initialize, driverTypes; cbn [create_device_loop];
  repeat match goal with
    | |- context [FAILED ?hr] => rewrite (FAILED_spec hr)
    end;
  repeat match goal with
    | |- context [FAILED ?hr] => rewrite (FAILED_spec hr)
    | H : ?b = _ |- context [if ?b then _ else _] => rewrite H; cbn [negb]
    | H : ?b = _ |- context [if negb ?b then _ else _] => rewrite H; cbn [negb]
    | |- context [if negb ?b then _ else _] => destruct b eqn:?; cbn [negb]
    | |- context [if ?b then _ else _] => destruct b eqn:?; cbn [negb]
    | |- context [mbind _ ?x] => destruct x eqn:?; cbn [mbind outcome_bind]
    | |- context [outcome_bind ?x _] => destruct x eqn:?; cbn [mbind outcome_bind]
    end.

Lemma Initialize_track_spec `{RT : Runtime} (reply : init_reply) (fuel : nat)
    (self self' : WinDesktopDup) (msg : list ascii) (log : list call) :
  recorded self = [] ->
  Initialize reply fuel self = Ok (msg, self', log) ->
  track [] log = Some (recorded self').
Proof.
  intros Hnone.
  assert (Hp : D3DDevice self = false /\ D3DDeviceContext self = false
               /\ DeskDupl self = false).
  { unfold recorded in Hnone.
    destruct (D3DDevice self), (D3DDeviceContext self), (DeskDupl self); done. }
  destruct Hp as (Hdev & Hctx & Hdup).
  initialize_paths; intros [= <- <- <-]; settle_signs; settle_pointers self;
    vm_compute; reflexivity.
Qed.

(** The error texts: literal text, then a result code under a directive
    without flags. *)
Lemma fmt_hresult `{RT : Runtime} (lit1 lit2 : list ascii) (c : ascii) (hr : Z)
    (fuel : nat) :
  Forall (fun c => c <> "%" /\ c <> NUL) lit1 ->
  Forall (fun c => c <> "%" /\ c <> NUL) lit2 ->
  is_conversion_letter c = true -> one_of c ["c"; "o"; "n"; "q"; "Q"] = false ->
  max_alloc < 2 ^ 62 ->
  Z.of_nat (length (lit1 ++ "%" :: c :: lit2)) < 2 ^ 62 ->
  (2 * length (lit1 ++ "%" :: c :: lit2) + 25 <= fuel)%nat ->
  ensures memory_only (fmt (lit1 ++ "%" :: c :: lit2) [TI32 hr] fuel)
    (fun str => str = lit1 ++ snprintf_plain 32 (if tokenint_of c then c else "d") hr ++ lit2).
Proof.
  intros H1 H2 Hletter Hnot Halloc Hlen Hfuel.
  unfold one_of in Hnot. cbn [existsb] in Hnot.
  apply orb_false_iff in Hnot as [Ec Hnot]. apply orb_false_iff in Hnot as [Eo Hnot].
  apply fmt_render_spec; try done.
  apply render_one_directive; try done.
  apply (converted_integer default_context c (TI32 hr) 32 hr "d" 64).
  - reflexivity.
  - discriminate.
  - unfold one_of. cbn [existsb]. now rewrite Ec, Eo.
  - lia.
Qed.

Lemma fmt_hresult_v `{RT : Runtime} (lit : list ascii) (hr : Z) (fuel : nat)
    (msg : list ascii) :
  Forall (fun c => c <> "%" /\ c <> NUL) lit ->
  max_alloc < 2 ^ 62 ->
  Z.of_nat (length lit) < 2 ^ 61 ->
  (2 * length lit + 29 <= fuel)%nat ->
  fmt (lit ++ ["%"; "v"]) [TI32 hr] fuel = Ok msg ->
  msg = lit ++ decimal_digits (wrap_signed 32 hr).
Proof.
  intros Hlit Halloc Hlen Hfuel Hrun.
  pose proof (fmt_hresult lit [] "v" hr fuel Hlit (Forall_nil_2 _)
                eq_refl eq_refl Halloc) as H.
  rewrite Hrun in H. cbn [ensures] in H. rewrite H.
  - change (snprintf_plain 32 (if tokenint_of "v" then "v" else "d") hr)
      with (decimal_digits (wrap_signed 32 hr)). now rewrite app_nil_r.
  - rewrite length_app. cbn [length]. lia.
  - rewrite length_app. cbn [length]. lia.
Qed.

Lemma fmt_hresult_text `{RT : Runtime} (fs : list ascii) (hr : Z) (fuel : nat)
    (msg : list ascii) :
  let lit := take (length fs - 2) fs in
  fs = lit ++ ["%"; "v"] ->
  Forall (fun c => c <> "%" /\ c <> NUL) lit ->
  max_alloc < 2 ^ 62 ->
  Z.of_nat (length fs) < 2 ^ 61 ->
  (2 * length fs + 25 <= fuel)%nat ->
  fmt fs [TI32 hr] fuel = Ok msg ->
  msg = lit ++ decimal_digits (wrap_signed 32 hr).
Proof.
  intros lit Hfs Hlit Halloc Hlen Hfuel Hrun. rewrite Hfs in Hrun.
  assert (E : length fs = (length lit + 2)%nat).
  { rewrite Hfs at 1. rewrite length_app. reflexivity. }
  apply (fmt_hresult_v lit hr fuel msg Hlit Halloc); [lia | lia | exact Hrun].
Qed.

Ltac error_texts Halloc Hfuel :=
  repeat match goal with
    | H : fmt _ [TI32 _] _ = Ok _ |- _ =>
        apply fmt_hresult_text in H;
        [ cbn [list_ascii_of_string length Nat.sub take] in H; subst
        | reflexivity
        | repeat constructor; discriminate
        | exact Halloc
        | cbn [list_ascii_of_string length]; lia
        | cbn [list_ascii_of_string length]; generalize Hfuel; lia ]
    end.

Lemma Initialize_ready_spec `{RT : Runtime} (reply : init_reply) (fuel : nat)
    (self self' : WinDesktopDup) (msg : list ascii) (log : list call) :
  recorded self = [] ->
  max_alloc < 2 ^ 62 -> (100 <= fuel)%nat ->
  Initialize reply fuel self = Ok (msg, self', log) ->
  (msg = [] <-> DeskDupl self' = true)
  /\ (DeskDupl self' = true ->
      D3DDevice self' = true /\ D3DDeviceContext self' = true).
Proof.
  intros Hnone Halloc Hfuel.
  assert (Hp : D3DDevice self = false /\ D3DDeviceContext self = false
               /\ DeskDupl self = false).
  { unfold recorded in Hnone.
    destruct (D3DDevice self), (D3DDeviceContext self), (DeskDupl self); done. }
  destruct Hp as (Hdev & Hctx & Hdup).
  initialize_paths; intros [= <- <- <-]; error_texts Halloc Hfuel;
    settle_pointers self;
    repeat match goal with H : SUCCEEDED _ = _ |- _ => rewrite H; clear H end;
    cbn [list_ascii_of_string app];
    (split; [split; intros E; (discriminate E || reflexivity)
            | intros E; (discriminate E || (split; reflexivity))]).
Qed.

(** [Initialize] on an object without pointers returns the empty error
    text exactly when the object holds a duplication afterwards, and then
    it holds a device and a device context as well, which is what
    [CaptureNext] calls through. *)
Theorem initialize_empty_error_means_ready `{RT : Runtime} (reply : init_reply)
    (fuel : nat) (self self' : WinDesktopDup) (msg : list ascii) (log : list call) :
  recorded self = [] ->
  max_alloc < 2 ^ 62 -> (100 <= fuel)%nat ->
  Initialize reply fuel self = Ok (msg, self', log) ->
  (msg = [] <-> DeskDupl self' = true)
  /\ (DeskDupl self' = true ->
      D3DDevice self' = true /\ D3DDeviceContext self' = true).
Proof. apply Initialize_ready_spec. Qed.

Lemma initialize_empty_error_means_ready_witness :
  let reply := {| open_desktop := true; set_thread_desktop := true;
                  create_device := fun driver =>
                    match driver with D3D_DRIVER_TYPE_HARDWARE => -2147467259 | _ => 0 end;
                  query_dxgi_device := 0; get_parent := 0; enum_outputs := 0;
                  query_output1 := 0; duplicate_output := 0 |} in
  let self' := {| Latest := {| Width := 0; Height := 0; Buf := [] |}; OutputNumber := 0;
                  D3DDevice := true; D3DDeviceContext := true; DeskDupl := true;
                  HaveFrameLock := false |} in
  (@nil ascii = [] <-> DeskDupl self' = true)
  /\ (DeskDupl self' = true ->
      D3DDevice self' = true /\ D3DDeviceContext self' = true).
Proof.
  intros reply self'.
  apply (initialize_empty_error_means_ready (RT := sample_runtime) reply 100
           WinDesktopDup_new self' []
           [OpenInputDesktop true; SetThreadDesktop true; CloseDesktop;
            D3D11CreateDevice D3D_DRIVER_TYPE_HARDWARE (-2147467259);
            D3D11CreateDevice D3D_DRIVER_TYPE_WARP 0;
            QueryInterface the_D3DDevice dxgiDevice 0;
            GetParent 0; Release dxgiDevice;
            EnumOutputs 0 0; Release dxgiAdapter;
            GetDesc dxgiOutput;
            QueryInterface dxgiOutput dxgiOutput1 0; Release dxgiOutput;
            DuplicateOutput 0; Release dxgiOutput1]).
  - reflexivity.
  - reflexivity.
  - lia.
  - reflexivity.
Defined.

(** [Initialize] on an object without pointers, when it returns, has given
    back the desktop handle and each of the four temporary interfaces
    exactly once if it was handed them, whichever call failed, and holds
    exactly the pointers that the object records. *)
Theorem initialize_holds_what_it_records `{RT : Runtime} (reply : init_reply)
    (fuel : nat) (self self' : WinDesktopDup) (msg : list ascii) (log : list call) :
  recorded self = [] ->
  Initialize reply fuel self = Ok (msg, self', log) ->
  track [] log = Some (recorded self').
Proof. apply Initialize_track_spec. Qed.

Lemma initialize_holds_what_it_records_witness :
  let reply := {| open_desktop := true; set_thread_desktop := true;
                  create_device := fun _ => 0;
                  query_dxgi_device := 0; get_parent := 0; enum_outputs := 0;
                  query_output1 := 0;
                  duplicate_output := DXGI_ERROR_NOT_CURRENTLY_AVAILABLE |} in
  let self' := {| Latest := {| Width := 0; Height := 0; Buf := [] |}; OutputNumber := 0;
                  D3DDevice := true; D3DDeviceContext := true; DeskDupl := false;
                  HaveFrameLock := false |} in
  track []
    [OpenInputDesktop true; SetThreadDesktop true; CloseDesktop;
     D3D11CreateDevice D3D_DRIVER_TYPE_HARDWARE 0;
     QueryInterface the_D3DDevice dxgiDevice 0;
     GetParent 0; Release dxgiDevice;
     EnumOutputs 0 0; Release dxgiAdapter;
     GetDesc dxgiOutput;
     QueryInterface dxgiOutput dxgiOutput1 0; Release dxgiOutput;
     DuplicateOutput DXGI_ERROR_NOT_CURRENTLY_AVAILABLE; Release dxgiOutput1]
  = Some (recorded self').
Proof.
  intros reply self'.
  apply (initialize_holds_what_it_records (RT := sample_runtime) reply 0
           WinDesktopDup_new self'
           (list_ascii_of_string "Too many desktop recorders already active")).
  - reflexivity.
  - reflexivity.
Defined.

Lemma Initialize_no_driver_spec `{RT : Runtime} (reply : init_reply) (fuel : nat)
    (self : WinDesktopDup) :
  open_desktop reply = true -> set_thread_desktop reply = true ->
  (forall driver, create_device reply driver < 0) ->
  max_alloc < 2 ^ 62 -> (100 <= fuel)%nat ->
  ensures memory_only (Initialize reply fuel self)
    (fun r =>
       r = (list_ascii_of_string "D3D11CreateDevice failed: "
            ++ decimal_digits
                 (wrap_signed 32 (create_device reply D3D_DRIVER_TYPE_REFERENCE)),
            set_device self false false,
            [OpenInputDesktop true; SetThreadDesktop true; CloseDesktop;
             D3D11CreateDevice D3D_DRIVER_TYPE_HARDWARE
               (create_device reply D3D_DRIVER_TYPE_HARDWARE);
             D3D11CreateDevice D3D_DRIVER_TYPE_WARP
               (create_device reply D3D_DRIVER_TYPE_WARP);
             D3D11CreateDevice D3D_DRIVER_TYPE_REFERENCE
               (create_device reply D3D_DRIVER_TYPE_REFERENCE)])).
Proof.
  intros Hopen Hattach Hfail Halloc Hfuel.
  assert (E : forall driver, SUCCEEDED (create_device reply driver) = false).
  { intros driver. specialize (Hfail driver). unfold SUCCEEDED. lia. }
  unfold Initialize, driverTypes. rewrite Hopen, Hattach. cbn [negb create_device_loop].
  rewrite !E, FAILED_spec, E. cbn [negb app].
  pose proof (fmt_hresult (list_ascii_of_string "D3D11CreateDevice failed: ") [] "v"
                (create_device reply D3D_DRIVER_TYPE_REFERENCE) fuel) as H.
  change (list_ascii_of_string "D3D11CreateDevice failed: " ++ ["%"; "v"])
    with (list_ascii_of_string "D3D11CreateDevice failed: %v") in H.
  destruct (fmt (list_ascii_of_string "D3D11CreateDevice failed: %v") _ fuel);
    cbn [mbind outcome_bind ensures] in *.
  - rewrite H; [now rewrite app_nil_r | repeat constructor; discriminate | constructor
               | reflexivity | reflexivity | exact Halloc | cbn; lia | cbn; lia].
  - apply H; [repeat constructor; discriminate | constructor
             | reflexivity | reflexivity | exact Halloc | cbn; lia | cbn; lia].
Qed.

(** When no driver type gives a device, [Initialize] has tried the
    hardware, the WARP and the reference driver in this order, touches
    nothing else, and reports the result of the last attempt as a signed
    decimal number after the text "D3D11CreateDevice failed: ". *)
Theorem initialize_reports_last_driver `{RT : Runtime} (reply : init_reply) (fuel : nat)
    (self : WinDesktopDup) :
  open_desktop reply = true -> set_thread_desktop reply = true ->
  (forall driver, create_device reply driver < 0) ->
  max_alloc < 2 ^ 62 -> (100 <= fuel)%nat ->
  ensures memory_only (Initialize reply fuel self)
    (fun r =>
       r = (list_ascii_of_string "D3D11CreateDevice failed: "
            ++ decimal_digits
                 (wrap_signed 32 (create_device reply D3D_DRIVER_TYPE_REFERENCE)),
            set_device self false false,
            [OpenInputDesktop true; SetThreadDesktop true; CloseDesktop;
             D3D11CreateDevice D3D_DRIVER_TYPE_HARDWARE
               (create_device reply D3D_DRIVER_TYPE_HARDWARE);
             D3D11CreateDevice D3D_DRIVER_TYPE_WARP
               (create_device reply D3D_DRIVER_TYPE_WARP);
             D3D11CreateDevice D3D_DRIVER_TYPE_REFERENCE
               (create_device reply D3D_DRIVER_TYPE_REFERENCE)])).
Proof. apply Initialize_no_driver_spec. Qed.

Lemma initialize_reports_last_driver_witness :
  let reply := {| open_desktop := true; set_thread_desktop := true;
                  create_device := fun driver =>
                    match driver with
                    | D3D_DRIVER_TYPE_HARDWARE => -2147467259
                    | D3D_DRIVER_TYPE_WARP => -2147467263
                    | D3D_DRIVER_TYPE_REFERENCE => -2147024809
                    end;
                  query_dxgi_device := 0; get_parent := 0; enum_outputs := 0;
                  query_output1 := 0; duplicate_output := 0 |} in
  ensures memory_only (Initialize (RT := sample_runtime) reply 100 WinDesktopDup_new)
    (fun r =>
       r = (list_ascii_of_string "D3D11CreateDevice failed: "
            ++ decimal_digits
                 (wrap_signed 32 (create_device reply D3D_DRIVER_TYPE_REFERENCE)),
            set_device WinDesktopDup_new false false,
            [OpenInputDesktop true; SetThreadDesktop true; CloseDesktop;
             D3D11CreateDevice D3D_DRIVER_TYPE_HARDWARE
               (create_device reply D3D_DRIVER_TYPE_HARDWARE);
             D3D11CreateDevice D3D_DRIVER_TYPE_WARP
               (create_device reply D3D_DRIVER_TYPE_WARP);
             D3D11CreateDevice D3D_DRIVER_TYPE_REFERENCE
               (create_device reply D3D_DRIVER_TYPE_REFERENCE)])).
Proof.
  intros reply.
  apply (initialize_reports_last_driver (RT := sample_runtime) reply 100 WinDesktopDup_new).
  - reflexivity.
  - reflexivity.
  - intros []; simpl; lia.
  - reflexivity.
  - lia.
Defined.
(** ** Closing *)

Lemma Close_track (self : WinDesktopDup) :
  track (recorded self) (Close self).2 = Some [] /\ recorded (Close self).1 = [].
Proof.
  unfold Close, recorded. cbn [fst snd D3DDevice D3DDeviceContext DeskDupl].
  destruct (D3DDevice self), (D3DDeviceContext self), (DeskDupl self);
    vm_compute; split; reflexivity.
Qed.

Lemma captured_track `{RT : Runtime} (fuel : nat) (self self' : WinDesktopDup)
    (log : list call) :
  captured fuel self log self' ->
  track (recorded self) log = Some (recorded self) /\ recorded self' = recorded self.
Proof.
  induction 1 as [self | reply self ok self' log self'' log' Hrun _ [IH1 IH2]].
  - split; reflexivity.
  - apply CaptureNext_track_spec in Hrun as [Hlog Hrec].
    rewrite track_app, Hlog. cbn [mbind option_bind].
    rewrite <- Hrec, IH1, IH2. split; reflexivity.
Qed.

Lemma session_track_spec `{RT : Runtime} (reply : init_reply) (fuel : nat)
    (self self1 self2 : WinDesktopDup) (msg : list ascii) (log1 log2 : list call) :
  recorded self = [] ->
  Initialize reply fuel self = Ok (msg, self1, log1) ->
  captured fuel self1 log2 self2 ->
  track [] (log1 ++ log2 ++ (Close self2).2 ++ (Close (Close self2).1).2) = Some [].
Proof.
  intros Hnone Hinit Hcaps.
  apply Initialize_track_spec in Hinit; [| exact Hnone].
  apply captured_track in Hcaps as [Hlog Hrec].
  rewrite track_app, Hinit. cbn [mbind option_bind].
  rewrite track_app, Hlog. cbn [mbind option_bind].
  rewrite track_app, <- Hrec, (proj1 (Close_track self2)). cbn [mbind option_bind].
  pose proof (Close_track (Close self2).1) as [Hagain _].
  rewrite (proj2 (Close_track self2)) in Hagain. exact Hagain.
Qed.

(** The life of an object: [Initialize] on an object without pointers,
    then any number of captures that return, then [Close] and the
    destructor, which closes once more.  Whichever calls fail on the way,
    every handle and interface pointer handed out is given back exactly
    once, none is given back that is not held, and none is held at the
    end. *)
Theorem session_releases_everything `{RT : Runtime} (reply : init_reply) (fuel : nat)
    (self self1 self2 : WinDesktopDup) (msg : list ascii) (log1 log2 : list call) :
  recorded self = [] ->
  Initialize reply fuel self = Ok (msg, self1, log1) ->
  captured fuel self1 log2 self2 ->
  track [] (log1 ++ log2 ++ (Close self2).2 ++ (Close (Close self2).1).2) = Some [].
Proof. apply session_track_spec. Qed.

Lemma session_releases_everything_witness :
  let reply := {| open_desktop := true; set_thread_desktop := true;
                  create_device := fun _ => 0;
                  query_dxgi_device := 0; get_parent := 0; enum_outputs := 0;
                  query_output1 := 0; duplicate_output := 0 |} in
  let frame := {| acquire_next_frame := 0; query_texture := 0;
                  desc_Width := 1; desc_Height := 1;
                  create_texture := 0; map_subresource := 0;
                  RowPitch := 4; pData := fun _ => Byte.x07; resize_throws := false |} in
  let self1 := {| Latest := {| Width := 0; Height := 0; Buf := [] |}; OutputNumber := 0;
                  D3DDevice := true; D3DDeviceContext := true; DeskDupl := true;
                  HaveFrameLock := false |} in
  let self2 := {| Latest := {| Width := 1; Height := 1; Buf := replicate 4 Byte.x07 |};
                  OutputNumber := 0;
                  D3DDevice := true; D3DDeviceContext := true; DeskDupl := true;
                  HaveFrameLock := true |} in
  let log1 := [OpenInputDesktop true; SetThreadDesktop true; CloseDesktop;
               D3D11CreateDevice D3D_DRIVER_TYPE_HARDWARE 0;
               QueryInterface the_D3DDevice dxgiDevice 0;
               GetParent 0; Release dxgiDevice;
               EnumOutputs 0 0; Release dxgiAdapter;
               GetDesc dxgiOutput;
               QueryInterface dxgiOutput dxgiOutput1 0; Release dxgiOutput;
               DuplicateOutput 0; Release dxgiOutput1] in
  let log2 := [AcquireNextFrame 0; QueryInterface deskRes gpuTex 0; Release deskRes;
               GetDesc gpuTex; CreateTexture2D 0; CopyResource;
               MapSubresource 0; Unmap; Release cpuTex; Release gpuTex] in
  track [] (log1 ++ (log2 ++ []) ++ (Close self2).2 ++ (Close (Close self2).1).2)
  = Some [].
Proof.
  intros reply frame self1 self2 log1 log2.
  apply (session_releases_everything (RT := sample_runtime) reply 0
           WinDesktopDup_new self1 self2 []).
  - reflexivity.
  - reflexivity.
  - apply (captured_next 0 frame self1 true self2 log2 self2 []).
    + reflexivity.
    + apply captured_none.
Defined.

(** A closed object is inert: closing it again makes no call, so the
    destructor after an explicit [Close] releases nothing twice, and a
    capture on it returns false without a call and without a change. *)
Theorem closed_object_is_inert `{RT : Runtime} (self : WinDesktopDup)
    (reply : frame_reply) (fuel : nat) :
  let closed := (Close self).1 in
  Close closed = (closed, [])
  /\ CaptureNext reply fuel closed = Ok (false, closed, [])
  /\ Latest closed = Latest self.
Proof. repeat split. Qed.




Lemma CaptureNext_acquire_failed_spec `{RT : Runtime} (reply : frame_reply) (fuel : nat)
    (self : WinDesktopDup) :
  DeskDupl self = true ->
  acquire_next_frame reply < 0 ->
  acquire_next_frame reply <> DXGI_ERROR_WAIT_TIMEOUT ->
  max_alloc < 2 ^ 62 -> (100 <= fuel)%nat ->
  ensures memory_only (CaptureNext reply fuel self)
    (fun r =>
       r = (false, set_HaveFrameLock self false,
            (if HaveFrameLock self then [ReleaseFrame] else [])
            ++ [AcquireNextFrame (acquire_next_frame reply);
                OutputDebugStringA
                  (list_ascii_of_string "Acquire failed: "
                   ++ hex_digits false (wrap_unsigned 32 (acquire_next_frame reply))
                   ++ ["010"])])).
Proof.
  intros Hdup Hacq Hto Halloc Hfuel.
  assert (Hmsg := fmt_hresult (list_ascii_of_string "Acquire failed: ") ["010"] "x"
                    (acquire_next_frame reply) fuel).
  specialize (Hmsg ltac:(repeat constructor; discriminate)
                ltac:(repeat constructor; discriminate) eq_refl eq_refl Halloc
                ltac:(cbn; lia) ltac:(cbn; lia)).
  change (list_ascii_of_string "Acquire failed: " ++ ["%"; "x"; "010"])
    with (list_ascii_of_string "Acquire failed: %x" ++ ["010"]) in Hmsg.
  change (snprintf_plain 32 (if tokenint_of "x" then "x" else "d")
            (acquire_next_frame reply))
    with (hex_digits false (wrap_unsigned 32 (acquire_next_frame reply))) in Hmsg.
  assert (E1 : (acquire_next_frame reply =? DXGI_ERROR_WAIT_TIMEOUT) = false) by lia.
  assert (E2 : SUCCEEDED (acquire_next_frame reply) = false) by (unfold SUCCEEDED; lia).
  capture_paths; cbn [ensures] in *; try exact Hmsg; rewrite Hmsg;
    repeat f_equal.
  destruct self; unfold set_HaveFrameLock; cbn [HaveFrameLock] in *. now subst.
Qed.

(** When [AcquireNextFrame] fails with anything but a timeout, the capture
    returns false without the frame lock, having written one line to the
    debugger: "Acquire failed: ", the result as eight-or-fewer lower-case
    hexadecimal digits of its 32-bit pattern, and a line feed. *)
Theorem capture_reports_acquire_failure `{RT : Runtime} (reply : frame_reply)
    (fuel : nat) (self : WinDesktopDup) :
  DeskDupl self = true ->
  acquire_next_frame reply < 0 ->
  acquire_next_frame reply <> DXGI_ERROR_WAIT_TIMEOUT ->
  max_alloc < 2 ^ 62 -> (100 <= fuel)%nat ->
  ensures memory_only (CaptureNext reply fuel self)
    (fun r =>
       r = (false, set_HaveFrameLock self false,
            (if HaveFrameLock self then [ReleaseFrame] else [])
            ++ [AcquireNextFrame (acquire_next_frame reply);
                OutputDebugStringA
                  (list_ascii_of_string "Acquire failed: "
                   ++ hex_digits false (wrap_unsigned 32 (acquire_next_frame reply))
                   ++ ["010"])])).
Proof. apply CaptureNext_acquire_failed_spec. Qed.

Lemma capture_reports_acquire_failure_witness :
  let reply := {| acquire_next_frame := -2005270490; query_texture := 0;
                  desc_Width := 2; desc_Height := 2;
                  create_texture := 0; map_subresource := 0;
                  RowPitch := 16; pData := fun _ => Byte.x00; resize_throws := false |} in
  let self := {| Latest := {| Width := 0; Height := 0; Buf := [] |}; OutputNumber := 0;
                 D3DDevice := true; D3DDeviceContext := true; DeskDupl := true;
                 HaveFrameLock := true |} in
  ensures memory_only (CaptureNext (RT := sample_runtime) reply 100 self)
    (fun r =>
       r = (false, set_HaveFrameLock self false,
            (if HaveFrameLock self then [ReleaseFrame] else [])
            ++ [AcquireNextFrame (acquire_next_frame reply);
                OutputDebugStringA
                  (list_ascii_of_string "Acquire failed: "
                   ++ hex_digits false (wrap_unsigned 32 (acquire_next_frame reply))
                   ++ ["010"])])).
Proof.
  intros reply self.
  apply (capture_reports_acquire_failure (RT := sample_runtime) reply 100 self).
  - reflexivity.
  - simpl; lia.
  - discriminate.
  - reflexivity.
  - lia.
Defined.

Lemma CaptureNext_sized_spec `{RT : Runtime} (reply : frame_reply) (fuel : nat)
    (self self' : WinDesktopDup) (ok : bool) (log : list call) :
  0 <= desc_Width reply < 2 ^ 31 -> 0 <= desc_Height reply < 2 ^ 31 ->
  4 * desc_Width reply * desc_Height reply < 2 ^ 31 ->
  0 <= RowPitch reply /\ RowPitch reply * desc_Height reply < 2 ^ 32 ->
  bitmap_sized (Latest self) ->
  CaptureNext reply fuel self = Ok (ok, self', log) ->
  bitmap_sized (Latest self')
  /\ (ok = true -> Latest self' = {| Width := desc_Width reply;
                                     Height := desc_Height reply;
                                     Buf := tightly_packed reply |}).
Proof.
  intros HW HH Hsize Hpitch Hbmp Hrun.
  apply CaptureNext_result_spec in Hrun as (Htrue & Hfalse & _).
  destruct ok.
  - destruct (Htrue eq_refl) as (_ & _ & _ & _ & _ & Hstore).
    rewrite store_frame_spec in Hstore by assumption.
    destruct (_ && _); [discriminate |]. injection Hstore as <-.
    split; [| reflexivity].
    unfold bitmap_sized. cbn [Width Height Buf].
    rewrite length_tightly_packed by lia. lia.
  - rewrite (Hfalse eq_refl). split; [exact Hbmp | discriminate].
Qed.

(** The bitmap keeps the size of its dimensions: when [Latest.Buf] holds
    [4 * Width * Height] bytes before a capture, it does so after every
    capture that returns, whatever the calls answered, and a capture that
    returns true has stored the packed frame.  The frame described is
    below 2 GiB. *)
Theorem capture_keeps_bitmap_sized `{RT : Runtime} (reply : frame_reply) (fuel : nat)
    (self self' : WinDesktopDup) (ok : bool) (log : list call) :
  0 <= desc_Width reply < 2 ^ 31 -> 0 <= desc_Height reply < 2 ^ 31 ->
  4 * desc_Width reply * desc_Height reply < 2 ^ 31 ->
  0 <= RowPitch reply /\ RowPitch reply * desc_Height reply < 2 ^ 32 ->
  bitmap_sized (Latest self) ->
  CaptureNext reply fuel self = Ok (ok, self', log) ->
  bitmap_sized (Latest self')
  /\ (ok = true -> Latest self' = {| Width := desc_Width reply;
                                     Height := desc_Height reply;
                                     Buf := tightly_packed reply |}).
Proof. apply CaptureNext_sized_spec. Qed.

Lemma capture_keeps_bitmap_sized_witness :
  let reply := {| acquire_next_frame := 0; query_texture := 0;
                  desc_Width := 1; desc_Height := 2;
                  create_texture := 0; map_subresource := 0;
                  RowPitch := 8;
                  pData := fun k => if k <? 8 then Byte.x01 else Byte.x02;
                  resize_throws := false |} in
  let self := {| Latest := {| Width := 2; Height := 1; Buf := replicate 8 Byte.x00 |};
                 OutputNumber := 0;
                 D3DDevice := true; D3DDeviceContext := true; DeskDupl := true;
                 HaveFrameLock := false |} in
  let self' := {| Latest := {| Width := 1; Height := 2;
                               Buf := replicate 4 Byte.x01 ++ replicate 4 Byte.x02 |};
                  OutputNumber := 0;
                  D3DDevice := true; D3DDeviceContext := true; DeskDupl := true;
                  HaveFrameLock := true |} in
  bitmap_sized (Latest self')
  /\ (true = true -> Latest self' = {| Width := desc_Width reply;
                                       Height := desc_Height reply;
                                       Buf := tightly_packed reply |}).
Proof.
  intros reply self self'.
  apply (capture_keeps_bitmap_sized (RT := sample_runtime) reply 0 self self' true
           [AcquireNextFrame 0; QueryInterface deskRes gpuTex 0; Release deskRes;
            GetDesc gpuTex; CreateTexture2D 0; CopyResource;
            MapSubresource 0; Unmap; Release cpuTex; Release gpuTex]).
  - simpl; lia.
  - simpl; lia.
  - simpl; lia.
  - simpl; lia.
  - unfold bitmap_sized. simpl. lia.
  - reflexivity.
Defined.
